(* ===== verification/_CoqProject ===== *)
-Q . S2P
Prelude.v
Bytes.v
Signature.v
GoStrings.v
SigParse.v
Marshal.v
Checked.v
MarshalSpec.v
MarshalSafety.v
Message.v
MessageSafety.v
Conn.v
World.v
Runx.v
Json.v
Config.v
Disks.v
Dnscf.v
Bus.v
Peer.v
Serve.v
Sysupdate.v
Firewall.v
Monitor.v
Quadlet.v
Regex.v
Prompt.v
Netconf.v
Wizard.v
Users.v
Sshauth.v
Deploy.v
Healthcheck.v
Backing.v
Varlink.v
DisksSafety.v
Installer.v
Effects.v
Setup.v
Main.v
Lifecycle.v
Success.v
