(* ===== verification/Prelude.v ===== *)
(** * slfhst: a verification development

    slfhst (Go, under src/) installs and runs a self-hosted appliance.  One
    binary, cmd/slfhst/main.go, has two long jobs and several short ones:

    - [slfhst install] runs in the live image (internal/installer): it selects
      the disks, partitions and mounts them and deploys the appliance
      (internal/disks), then configures the target's network (netconf), asks for
      the administrator (wizard), creates the accounts (users), hardens ssh
      (sshauth), writes the firewall's files (firewall/preboot.go) and marks
      stage1 as done;
    - [slfhst setup] runs once on the installed system (internal/setup): the
      remaining questions (wizard), the firewall's address sets, an update
      check, secrets and templates (quadlet), the containers (deploy), their
      bootstrap (backing), the DNS records (dnscf), a last check (healthcheck),
      and the mark of stage2;
    - the other commands check the services (monitor), synchronise DNS and the
      address sets, and check for or apply updates (sysupdate).

    Components share config.json and the stage markers (internal/config), the
    command runner (internal/runx), the console (internal/prompt) and the D-Bus
    client (internal/dbus), which firewall and sysupdate call.

    ** The model

    World.v is the world the program acts on: a file system with modes, owners,
    links and directories, the console's input, and a log of everything done (an
    [event]: an operation on files, a command with its arguments, environment
    and standard input, a line of output, an exchange on the network, a pause).
    What is not the program's is a parameter, the class [Env]: which operations
    of the operating system fail ([io_err]) and how far they have gone then
    ([io_part]: a part of a file, some of the directories), what commands answer
    and do to the files ([exec]), HTTP answers, connections, the bytes of the bus,
    the clock, free space, random bytes, the names of temporary directories and
    the order of [range] over a map; each is a function of the log, so the world
    may answer differently every time.  Hypotheses about it are classes too:
    [NoFaults] (operations that can succeed do), [FaultsOk] (a fault is not
    reported as the absence of a file), [RangeOk] and [MapRangeOk] ([range] visits
    every entry once), [ClockOk] (the clock advances by what is slept),
    [SortSliceOk] ([sort.Slice] sorts), [BusLawful] (the bytes that come over a
    bus are messages, whatever they say), [Respectful] and [Untouched] (commands
    leave the markers, or a file, alone), [Obedient] (commands succeed), [CloudApi]
    (the DNS service answers as documented).  An operation of the program is a
    computation in the state monad [ST] of this file, whose [outcome] is a value,
    an error, a Go panic, or the model's own lack of fuel.  Statements about every
    run use the triple [keeps] and its relatives; that an operation succeeds, with
    what holds then, is the total-correctness triple [returns].

    The files, by layer:
    - Prelude.v, Bytes.v, GoStrings.v, Regex.v, Json.v: dynamic values, errors,
      outcomes; machine words; the strings, path/filepath and strconv functions
      used; regular expressions with a verified matcher; encoding/json with its
      round trip;
    - Signature.v, Marshal.v, Message.v, Conn.v: internal/dbus (marshal.go,
      message.go, dbus.go), function by function; MarshalSpec.v is the wire
      format as a specification; SigParse.v recognises complete signatures and
      Checked.v is the decoder that rejects the others, which MarshalSafety.v and
      MessageSafety.v compare with the code's on arbitrary bytes;
    - World.v, Runx.v, Config.v: the world, internal/runx, internal/config;
    - Disks.v, DisksSafety.v: internal/disks (disks.go and deploy.go), and what
      it may run;
    - Bus.v, Sysupdate.v, Firewall.v, Monitor.v: the interface [BusClient]
      between the D-Bus client and its users, which are proved against it with
      an oracle ([Answers]) and instantiated with Conn.v; internal/sysupdate,
      internal/firewall, internal/monitor; Peer.v: the streams of bytes on which
      a call ends; Serve.v: a bus whose peer answers every call;
    - Dnscf.v, Quadlet.v, Deploy.v, Healthcheck.v, Backing.v: the packages of
      the second stage; Varlink.v: internal/varlink (used by no command yet);
    - Prompt.v, Netconf.v, Wizard.v, Users.v, Sshauth.v: the packages of the
      installation (and of the questions of the second stage);
    - Installer.v, Setup.v, Main.v: the two jobs and the command line; Effects.v
      is the class of computations that the commands of the installed system are
      built from, indexed by the files they write and the directories they make,
      with what all of them preserve, Lifecycle.v those commands as the steps of a
      system, and Success.v the conditions under which a whole setup succeeds.

    ** What is shown

    - The D-Bus client implements the wire format: encoding and decoding refine
      it and invert each other, messages are written and read as it says, [Call]
      returns the reply to its own serial after skipping every other message, never
      succeeds without it, and ends on every stream of messages, and the calls of the firewall can always be
      encoded.  On arbitrary bytes, the decoder and the reader of messages either
      agree with their counterparts that check signatures, which never panic and
      always end, or the bytes hold a malformed signature.
    - The disks: the selection meets its specification and spares the device
      booted from; systemd-repart gets exactly the five definitions; in a whole
      installation every command that writes to a disk is on a selected disk, or
      on a partition that the lsblk that has just run reported to be on it.
    - The jobs: every command line ends with status 0 or 1, except for the panics
      named in the statement; a setup succeeds on a disk as the installation leaves
      it ([prepared]), when commands, network and bus answer as documented
      ([Favourable]) and the questions are answered by the book; a stage is marked only when every step before
      succeeded; commands whose stage is missing do nothing and exit with 0; over
      any sequence of commands and outside events a stage that is done stays done,
      and the configuration that the questions of a setup returned is the one that
      its later steps and every later command load.
    - Faults: what is said of the jobs holds wherever the operating system fails;
      an update of the configuration that is interrupted is never read as another
      one, but may be lost ([interrupted_update_loses_config]).
    - Files and secrets: network files, sysusers definitions and templates are
      exactly the lines or the text that their inputs denote, whatever is typed;
      passwords and secrets only reach the standard input or the file meant for
      them; /dev is unmounted whatever the validation of sshd does.
    - Services: the plan of DNS requests converges and leaves other records
      alone; every update target is attempted; address sets are replaced by the
      contents of their files; monitoring reports exactly what is wrong; Garage's
      bootstrap is a session of its specification; a hardening plan that can be
      applied in time is applied; each image is pulled once.
    The properties C1 to C40 are numbered by importance across the files.

    ** Fuel

    Every recursion that is not structural takes fuel, and what runs out of it is
    [OutOfFuel], which the theorems exclude: the nesting of the value for the
    encoder, the length of the input for the decoder, the JSON parser, the
    template expander and regular expressions; one more than the length of the
    console's text for loops of questions, since each turn reads a line; 40 for
    symbolic links, as the kernel; the timeout divided by the pause, plus two,
    for polling, since the clock advances by each pause; one more than
    the number of bytes left to read for the messages that [Call] skips, since
    each message read consumes at least its header.

    ** Conventions and limits

    - The text of an error is its format string and what it wraps: what callers
      can observe ([errors.Is], the typed error of a call) is kept, the formatted
      arguments are not.  Output to the standard output and error are both
      [EOut] events; [%v] of an error is printed as it is written.
    - An HTTP exchange is one event with its method, address, token and body;
      failing to build a request and failing to send it are the same answer.
    - encoding/json matches the keys of a struct exactly here, while Go also
      accepts keys that differ in case; white space and letter case are ASCII,
      strings are bytes.
    - A write that fails leaves the file as it was or holding a part of the text;
      the other operations on files happen at once or, when they fail, not at all
      ([MkdirAll] directory by directory).

    Not modelled: Go's net, os, os/exec and net/smtp themselves (parameters), the
    numbers and layout of termios, the templates and the units of the image
    (mkosi, systemd, usr: configuration data), the tests.

    ** Plan

    Modelled and proved: every Go package.  Left: what a deployment of an image
    leaves on the disks when a fault interrupts it, since the contents of
    partitions are the commands' ([dd], [mount]) and not part of the world; letter
    case in the keys of structs read from JSON, since an object is a finite map
    here and Go lets the last of several matching keys in the text win. *)
From Stdlib Require Export Ascii String.
From stdpp Require Export base numbers list strings gmap sorting pretty.
From Stdlib Require Export Lia.

#[global] Arguments String.append : simpl nomatch.
#[global] Open Scope string_scope.
#[global] Open Scope list_scope.
#[global] Open Scope Z_scope.

(** ** Go's dynamic values

    [any] is the closed universe of dynamic types that the program stores in an
    [any]: the D-Bus values of internal/dbus/marshal.go and the JSON values of
    config.json.  An integer carries its mathematical value (its width is the
    constructor), a [float64] its IEEE bit pattern, a [map[string]any] is a
    finite map. *)
Abbreviation byte := ascii.

Inductive any : Set :=
| VNil
| VByte (b : byte)
| VBool (b : bool)
| VInt16 (z : Z)
| VUint16 (z : Z)
| VInt32 (z : Z)
| VUint32 (z : Z)
| VInt64 (z : Z)
| VUint64 (z : Z)
| VFloat64 (bits : Z)
| VString (s : string)
| VVariant (sig : string) (v : any)
| VAnys (vs : list any)
| VStrings (ss : list string)
| VBytes (bs : list byte)
| VMap (m : gmap string any).

(** ** Errors

    An [error] value keeps what the program can observe of a Go error: the
    format string of the [fmt.Errorf] that built it, what it wraps, and the
    sentinel or typed errors that callers test for. *)
Inductive error : Set :=
| Errorf (fmt : string)
| Wrapf (fmt : string) (e : error)
| Joined (es : list error)
| ErrNotDone
| CallError (name : string) (body : list any)
| ErrNotExist (path : string)
| ErrOS (op : string) (path : string)
| ErrEOF.

(** ** Outcomes

    [Panic] is a Go run-time panic (index or slice out of range, nil map
    write); [OutOfFuel] is the model's own marker for a computation that needs
    more fuel than it was given. *)
Inductive outcome (A : Type) : Type :=
| Ok (a : A)
| Err (e : error)
| Panic
| OutOfFuel.
Arguments Ok {A} a.
Arguments Err {A} e.
Arguments Panic {A}.
Arguments OutOfFuel {A}.

#[global] Instance outcome_ret : MRet outcome := fun A a => Ok a.
#[global] Instance outcome_bind : MBind outcome := fun A B k m =>
  match m with
  | Ok a => k a
  | Err e => Err e
  | Panic => Panic
  | OutOfFuel => OutOfFuel
  end.

(** [if err != nil { return fmt.Errorf(fmt + "%w", err) }] *)
Definition wrapf {A} (fmt : string) (m : outcome A) : outcome A :=
  match m with
  | Err e => Err (Wrapf fmt e)
  | _ => m
  end.

(** [errors.Is(err, ErrNotDone)]: the sentinel anywhere in the wrap chain,
    through both [%w] and [errors.Join]. *)
Fixpoint is_not_done (e : error) : bool :=
  match e with
  | ErrNotDone => true
  | Wrapf _ e => is_not_done e
  | Joined es => existsb is_not_done es
  | _ => false
  end.

(** ** Computations with state

    [ST S A]: a computation on a mutable state [S]; the state after a failure is
    the one the failing call left behind, as in Go. *)
Definition ST (S A : Type) : Type := S -> outcome A * S.

#[global] Instance ST_ret {S} : MRet (ST S) := fun A a s => (Ok a, s).
#[global] Instance ST_bind {S} : MBind (ST S) := fun A B k m s =>
  match m s with
  | (Ok a, s) => k a s
  | (Err e, s) => (Err e, s)
  | (Panic, s) => (Panic, s)
  | (OutOfFuel, s) => (OutOfFuel, s)
  end.

Definition lift {S A} (m : outcome A) : ST S A := fun s => (m, s).
Definition st_get {S} : ST S S := fun s => (Ok s, s).
Definition st_modify {S} (f : S -> S) : ST S unit := fun s => (Ok tt, f s).

(** [if err != nil { return fmt.Errorf(fmt, err) }] *)
Definition wrap {S A} (fmt : string) (m : ST S A) : ST S A := fun s =>
  let '(r, s) := m s in (wrapf fmt r, s).

(** A call whose error the caller inspects instead of returning it. *)
Definition try {S A} (m : ST S A) : ST S (A + error) := fun s =>
  match m s with
  | (Ok a, s) => (Ok (inl a), s)
  | (Err e, s) => (Ok (inr e), s)
  | (Panic, s) => (Panic, s)
  | (OutOfFuel, s) => (OutOfFuel, s)
  end.

(** [f] on every element, up to the first error *)
Fixpoint map_outcome {A B} (f : A -> outcome B) (l : list A) : outcome (list B) :=
  match l with
  | [] => Ok []
  | a :: l => b ← f a; bs ← map_outcome f l; Ok (b :: bs)
  end.

(** ** Inversion of successful computations *)
Section outcome_lemmas.
Context {A B : Type}.
Implicit Types (m : outcome A) (k : A -> outcome B).

Lemma bind_Ok_inv m k b : (m ≫= k) = Ok b -> exists a, m = Ok a /\ k a = Ok b.
Proof. destruct m; simpl; naive_solver. Qed.

Lemma bind_Ok m k a : m = Ok a -> (m ≫= k) = k a.
Proof. by intros ->. Qed.

Lemma wrapf_Ok_inv s m a : wrapf s m = Ok a -> m = Ok a.
Proof. destruct m; simpl; naive_solver. Qed.

Lemma wrapf_Ok s m a : m = Ok a -> wrapf s m = Ok a.
Proof. by intros ->. Qed.

Lemma bind_fuel m k :
  m <> OutOfFuel -> (forall a, m = Ok a -> k a <> OutOfFuel) -> (m ≫= k) <> OutOfFuel.
Proof. destruct m; simpl; naive_solver. Qed.

Lemma bind_panic m k :
  m <> Panic -> (forall a, m = Ok a -> k a <> Panic) -> (m ≫= k) <> Panic.
Proof. destruct m; simpl; naive_solver. Qed.
End outcome_lemmas.

Lemma bind_Ok_inv_st {S A B} (m : ST S A) (k : A -> ST S B) s b s' :
  (m ≫= k) s = (Ok b, s') -> exists a s1, m s = (Ok a, s1) /\ k a s1 = (Ok b, s').
Proof. unfold mbind, ST_bind. destruct (m s) as [[]]; try done. eauto. Qed.

Lemma bind_Ok_st {S A B} (m : ST S A) (k : A -> ST S B) s a s1 :
  m s = (Ok a, s1) -> (m ≫= k) s = k a s1.
Proof. unfold mbind, ST_bind. by intros ->. Qed.

Lemma wrap_Ok_inv {S A} fmt (m : ST S A) s a s' : wrap fmt m s = (Ok a, s') -> m s = (Ok a, s').
Proof. unfold wrap. destruct (m s) as [[]]; simpl; congruence. Qed.

Lemma wrap_Ok {S A} fmt (m : ST S A) s a s' : m s = (Ok a, s') -> wrap fmt m s = (Ok a, s').
Proof. unfold wrap. by intros ->. Qed.

(** An inspected call never fails: it ends, or it panics or diverges. *)
Lemma try_cases {S A} (m : ST S A) s :
  (exists x s', try m s = (Ok x, s')) \/
  (exists s', try m s = (Panic, s') \/ try m s = (OutOfFuel, s')).
Proof. unfold try. destruct (m s) as [[]]; eauto. Qed.

Lemma bind_Panic_st {S A B} (m : ST S A) (k : A -> ST S B) s s' :
  m s = (Panic, s') -> (m ≫= k) s = (Panic, s').
Proof. unfold mbind, ST_bind. by intros ->. Qed.

Lemma bind_OutOfFuel_st {S A B} (m : ST S A) (k : A -> ST S B) s s' :
  m s = (OutOfFuel, s') -> (m ≫= k) s = (OutOfFuel, s').
Proof. unfold mbind, ST_bind. by intros ->. Qed.

(** *** Total correctness

    [returns m Q s]: from the state [s] the computation succeeds, with a result
    and a state of which [Q] holds. *)
Definition returns {S A} (m : ST S A) (Q : A -> S -> Prop) (s : S) : Prop :=
  match m s with (Ok a, s') => Q a s' | _ => False end.

Section returns.
Context {S : Type}.

Lemma returns_Ok {A} (m : ST S A) Q s : returns m Q s <-> exists a s', m s = (Ok a, s') /\ Q a s'.
Proof. unfold returns. destruct (m s) as [[]]; naive_solver. Qed.
Lemma returns_mono {A} (m : ST S A) (P Q : A -> S -> Prop) s :
  returns m P s -> (forall a s', P a s' -> Q a s') -> returns m Q s.
Proof. unfold returns. destruct (m s) as [[]]; auto. Qed.
Lemma returns_and {A} (m : ST S A) (P Q : A -> S -> Prop) s :
  returns m P s -> (forall a s', m s = (Ok a, s') -> Q a s') -> returns m (fun a s' => P a s' /\ Q a s') s.
Proof. unfold returns. destruct (m s) as [[]]; auto. Qed.
Lemma returns_ret {A} (a : A) (Q : A -> S -> Prop) s : Q a s -> returns (mret a) Q s.
Proof. done. Qed.
Lemma returns_bind {A B} (m : ST S A) (k : A -> ST S B) Q s :
  returns m (fun a => returns (k a) Q) s -> returns (m ≫= k) Q s.
Proof. unfold returns, mbind, ST_bind. by destruct (m s) as [[]]. Qed.
Lemma returns_wrap {A} fmt (m : ST S A) Q s : returns m Q s -> returns (wrap fmt m) Q s.
Proof. unfold returns, wrap. by destruct (m s) as [[]]. Qed.
Lemma returns_try {A} (m : ST S A) (Q : A + error -> S -> Prop) s :
  returns m (fun a => Q (inl a)) s -> returns (try m) Q s.
Proof. unfold returns, try. by destruct (m s) as [[]]. Qed.
Lemma returns_lift {A} (m : outcome A) a (Q : A -> S -> Prop) s : m = Ok a -> Q a s -> returns (lift m) Q s.
Proof. by intros ->. Qed.
End returns.

(** *** Results without a panic, and with fuel enough *)
Definition fine {A} (r : outcome A) : Prop := match r with Ok _ | Err _ => True | Panic | OutOfFuel => False end.

Lemma fine_bind_ok {A B} (m : outcome A) (k : A -> outcome B) :
  fine m -> (forall a, m = Ok a -> fine (k a)) -> fine (m ≫= k).
Proof. destruct m; simpl; auto. Qed.
Lemma fine_bind {A B} (m : outcome A) (k : A -> outcome B) : fine m -> (forall a, fine (k a)) -> fine (m ≫= k).
Proof. intros. by apply fine_bind_ok. Qed.
Lemma fine_wrapf {A} fmt (m : outcome A) : fine m -> fine (wrapf fmt m).
Proof. by destruct m. Qed.
Lemma fine_Ok {A} (a : A) : fine (Ok a).
Proof. done. Qed.
Lemma fine_map {A B} (f : A -> outcome B) l : (forall a, fine (f a)) -> fine (map_outcome f l).
Proof.
  intros Hf. induction l as [|a l IH]; [done|]. cbn [map_outcome].
  apply fine_bind; [done|]. intros b. by apply fine_bind.
Qed.

Create HintDb fine.
#[export] Hint Resolve fine_bind fine_wrapf fine_map fine_Ok : fine.
#[export] Hint Extern 2 (fine (if _ then _ else _)) => case_match : fine.

(** Break every successful computation among the hypotheses into its steps. *)
Ltac inv_ok :=
  repeat match goal with
  | H : (_ ≫= _) = Ok _ |- _ =>
      apply bind_Ok_inv in H; destruct H as (? & ? & H)
  | H : wrapf _ _ = Ok _ |- _ => apply wrapf_Ok_inv in H
  | H : Err _ = Ok _ |- _ => discriminate H
  | H : Panic = Ok _ |- _ => discriminate H
  | H : OutOfFuel = Ok _ |- _ => discriminate H
  | H : Ok ?x = Ok ?y |- _ =>
      tryif unify x y then clear H else (injection H as H; simplify_eq)
  | H : mret _ = Ok _ |- _ => injection H as H; simplify_eq
  | x : (_ * _)%type |- _ => destruct x
  end.
