(* ===== verification/Bytes.v ===== *)
(** Bytes, little-endian words and padding: the fragment of encoding/binary and
    of Go's integer conversions that internal/dbus uses, with the lemmas about
    them that the marshaler's proofs share. *)
From S2P Require Import Prelude.

(** ** Bytes as numbers *)
Definition Z_of_byte (b : byte) : Z := Z.of_N (N_of_ascii b).
Definition byte_of_Z (z : Z) : byte := ascii_of_N (Z.to_N (z mod 256)).

Definition NUL : byte := "000"%char.

Lemma Z_of_byte_range b : 0 <= Z_of_byte b < 256.
Proof. unfold Z_of_byte. pose proof (N_ascii_bounded b). lia. Qed.

Lemma Z_of_byte_of_Z z : Z_of_byte (byte_of_Z z) = z mod 256.
Proof.
  unfold Z_of_byte, byte_of_Z. pose proof (Z.mod_pos_bound z 256 eq_refl).
  rewrite N_ascii_embedding; lia.
Qed.

Lemma byte_of_Z_of_byte b : byte_of_Z (Z_of_byte b) = b.
Proof.
  unfold byte_of_Z. rewrite Z.mod_small by apply Z_of_byte_range.
  unfold Z_of_byte. by rewrite N2Z.id, ascii_N_embedding.
Qed.

(** ** Conversions between signed and unsigned words of [w] bits *)
Definition to_unsigned (w z : Z) : Z := z mod 2 ^ w.
Definition to_signed (w z : Z) : Z := if z <? 2 ^ (w - 1) then z else z - 2 ^ w.

Lemma to_signed_unsigned w z :
  0 < w -> - 2 ^ (w - 1) <= z < 2 ^ (w - 1) -> to_signed w (to_unsigned w z) = z.
Proof.
  intros Hw Hz. unfold to_signed, to_unsigned.
  assert (H2 : 2 ^ w = 2 * 2 ^ (w - 1)) by (rewrite <- Z.pow_succ_r by lia; f_equal; lia).
  assert (Hp : 0 < 2 ^ (w - 1)) by (apply Z.pow_pos_nonneg; lia).
  destruct (decide (0 <= z)).
  - rewrite Z.mod_small by lia. destruct (Z.ltb_spec z (2 ^ (w - 1))); lia.
  - replace (z mod 2 ^ w) with (z + 2 ^ w).
    + destruct (Z.ltb_spec (z + 2 ^ w) (2 ^ (w - 1))); lia.
    + rewrite <- (Z_mod_plus_full z 1 (2 ^ w)), Z.mul_1_l, Z.mod_small; lia.
Qed.

Lemma to_unsigned_small w z : 0 <= z < 2 ^ w -> to_unsigned w z = z.
Proof. apply Z.mod_small. Qed.

Lemma to_unsigned_range w z : 0 <= w -> 0 <= to_unsigned w z < 2 ^ w.
Proof. intros. apply Z.mod_pos_bound, Z.pow_pos_nonneg; lia. Qed.

(** ** Little-endian words: binary.LittleEndian's AppendUintN / PutUintN / UintN *)
Fixpoint le_put (n : nat) (v : Z) : list byte :=
  match n with
  | O => []
  | S n => byte_of_Z v :: le_put n (Z.shiftr v 8)
  end.

Fixpoint le_get (bs : list byte) : Z :=
  match bs with
  | [] => 0
  | b :: bs => Z.lor (Z_of_byte b) (Z.shiftl (le_get bs) 8)
  end.

Lemma length_le_put n v : length (le_put n v) = n.
Proof. revert v; induction n; simpl; auto. Qed.

Lemma lor_shiftl_8 a b : 0 <= a < 256 -> Z.lor a (Z.shiftl b 8) = a + 256 * b.
Proof.
  intros Ha. pose proof (Z.add_lor_land a (Z.shiftl b 8)) as Hadd.
  enough (Z.land a (Z.shiftl b 8) = 0) by (rewrite Z.shiftl_mul_pow2 in * by lia; lia).
  clear Hadd. apply Z.bits_inj'. intros i Hi.
  rewrite Z.land_spec, Z.bits_0.
  destruct (decide (i < 8)).
  - by rewrite Z.shiftl_spec_low, andb_false_r.
  - rewrite Z.bits_above_log2; [done | lia |].
    destruct (decide (a = 0)) as [->|]; [simpl; lia|].
    apply Z.log2_lt_pow2; [lia|].
    apply Z.lt_le_trans with (2 ^ 8); [lia|]. apply Z.pow_le_mono_r; lia.
Qed.

Lemma le_get_put n v : le_get (le_put n v) = v mod 256 ^ Z.of_nat n.
Proof.
  revert v. induction n as [|n IH]; intros v; cbn [le_put le_get].
  - by rewrite Z.mod_1_r.
  - rewrite IH, Z_of_byte_of_Z, lor_shiftl_8 by (apply Z.mod_pos_bound; lia).
    rewrite Z.shiftr_div_pow2, Nat2Z.inj_succ, Z.pow_succ_r by lia.
    change (2 ^ 8) with 256.
    rewrite Z.rem_mul_r; [lia | lia | apply Z.pow_pos_nonneg; lia].
Qed.

Lemma le_get_range bs : 0 <= le_get bs < 256 ^ Z.of_nat (length bs).
Proof.
  induction bs as [|b bs IH]; [simpl; lia|].
  cbn [le_get length]. pose proof (Z_of_byte_range b).
  rewrite lor_shiftl_8, Nat2Z.inj_succ, Z.pow_succ_r by lia. lia.
Qed.

Lemma le_get_put_small n v : 0 <= v < 256 ^ Z.of_nat n -> le_get (le_put n v) = v.
Proof. intros. by rewrite le_get_put, Z.mod_small. Qed.

(** ** Go strings as byte sequences *)
Abbreviation slen := String.length.
Abbreviation bytes_of_string := list_ascii_of_string.
Abbreviation string_of_bytes := string_of_list_ascii.

Lemma length_bytes_of_string s : length (bytes_of_string s) = slen s.
Proof. induction s; simpl; auto. Qed.

Lemma string_of_bytes_of_string s : string_of_bytes (bytes_of_string s) = s.
Proof. apply string_of_list_ascii_of_string. Qed.

Lemma slen_app s1 s2 : slen (s1 +:+ s2) = (slen s1 + slen s2)%nat.
Proof. induction s1; simpl; auto. Qed.

Lemma bytes_of_string_app s1 s2 :
  bytes_of_string (s1 +:+ s2) = bytes_of_string s1 ++ bytes_of_string s2.
Proof. induction s1 as [|c s1 IH]; [done|]. cbn. by rewrite IH. Qed.

Lemma sapp_assoc (s1 s2 s3 : string) : (s1 +:+ s2) +:+ s3 = s1 +:+ (s2 +:+ s3).
Proof. induction s1; simpl; congruence. Qed.

Lemma sapp_nil_r (s : string) : s +:+ "" = s.
Proof. induction s; simpl; congruence. Qed.

(** ** Padding *)

(** Zero bytes needed to bring offset [pos] to a multiple of [n]. *)
Definition padding (n pos : nat) : nat := ((n - pos mod n) mod n)%nat.
Definition zeros (k : nat) : list byte := replicate k NUL.
#[global] Arguments padding : simpl never.
#[global] Arguments zeros : simpl never.

Lemma padding_lt n pos : (n <> 0)%nat -> (padding n pos < n)%nat.
Proof. apply Nat.mod_upper_bound. Qed.

Lemma padding_aligned n pos : (n <> 0 -> (pos + padding n pos) mod n = 0)%nat.
Proof.
  intros Hn. unfold padding. rewrite Nat.Div0.add_mod_idemp_r.
  pose proof (Nat.mod_upper_bound pos n Hn) as Hb.
  pose proof (Nat.div_mod_eq pos n) as Hd.
  revert Hb Hd. generalize (pos mod n)%nat (pos / n)%nat. intros m q Hb ->.
  replace (n * q + m + (n - m))%nat with ((q + 1) * n)%nat by lia.
  apply Nat.Div0.mod_mul.
Qed.

Lemma padding_0 n pos : (n <> 0 -> pos mod n = 0 -> padding n pos = 0)%nat.
Proof. intros Hn H. unfold padding. rewrite H, Nat.sub_0_r. apply Nat.Div0.mod_same. Qed.

Lemma padding_S n pos :
  (n <> 0 -> pos mod n <> 0 -> padding n pos = S (padding n (S pos)))%nat.
Proof.
  intros Hn H. unfold padding.
  pose proof (Nat.mod_upper_bound pos n Hn) as Hb.
  rewrite (Nat.mod_small (n - pos mod n)) by lia.
  destruct (decide (S (pos mod n) = n)%nat) as [He|He].
  - assert (Hs : (S pos mod n = 0)%nat).
    { rewrite <- Nat.add_1_r, <- Nat.Div0.add_mod_idemp_l, Nat.add_1_r, He.
      apply Nat.Div0.mod_same. }
    rewrite Hs, Nat.sub_0_r, Nat.Div0.mod_same. lia.
  - assert (Hs : (S pos mod n = S (pos mod n))%nat).
    { rewrite <- Nat.add_1_r, <- Nat.Div0.add_mod_idemp_l, Nat.add_1_r.
      apply Nat.mod_small. lia. }
    rewrite Hs, (Nat.mod_small (n - S _)) by lia. lia.
Qed.

Lemma length_zeros k : length (zeros k) = k.
Proof. apply length_replicate. Qed.

#[export] Hint Rewrite length_app length_le_put length_zeros length_bytes_of_string
  slen_app : len.
Ltac simpl_len := autorewrite with len in *; simpl in *.
