(* ===== verification/Signature.v ===== *)
(** D-Bus type signatures: the string functions [alignmentOf], [splitSig] and
    [splitDictEntry] of internal/dbus/marshal.go, and the grammar of complete
    types that they are correct for. *)
From S2P Require Import Prelude Bytes.

(** ** Type codes (the cases of the switches on [sig[0]]) *)
Inductive type_code :=
| C_y | C_b | C_n | C_q | C_i | C_u | C_x | C_t | C_d | C_s | C_o | C_g | C_v
| C_a | C_paren | C_brace | C_other.

Definition code_of (c : ascii) : type_code :=
  match c with
  | "y" => C_y | "b" => C_b | "n" => C_n | "q" => C_q | "i" => C_i | "u" => C_u
  | "x" => C_x | "t" => C_t | "d" => C_d | "s" => C_s | "o" => C_o | "g" => C_g
  | "v" => C_v | "a" => C_a | "(" => C_paren | "{" => C_brace | _ => C_other
  end%char.

(** The slice expression [s[lo:hi]]. *)
Definition slice (lo hi : Z) (s : string) : outcome string :=
  if decide (0 <= lo <= hi /\ hi <= Z.of_nat (slen s)) then
    Ok (String.substring (Z.to_nat lo) (Z.to_nat (hi - lo)) s)
  else Panic.

(** Required byte alignment of the type whose signature starts at [sig[0]]. *)
Definition alignmentOf (sig : string) : outcome nat :=
  match sig with
  | EmptyString => Panic
  | String c _ =>
      match code_of c with
      | C_y | C_g => Ok 1%nat
      | C_n | C_q => Ok 2%nat
      | C_b | C_i | C_u | C_s | C_o | C_a => Ok 4%nat
      | C_x | C_t | C_d | C_paren | C_brace | C_v => Ok 8%nat
      | C_other => Ok 1%nat
      end
  end.

(** The bracket-matching loop shared by the ['('] and ['{'] cases of [splitSig]:
    [depth] open brackets remain; the result is what the loop consumed and what
    it left, [None] when the string ends first. *)
Fixpoint scan_close (opn cls : ascii) (depth : nat) (s : string) : option (string * string) :=
  match depth with
  | O => Some ("", s)
  | S d =>
      match s with
      | EmptyString => None
      | String c s' =>
          let depth' :=
            if Ascii.eqb c opn then S depth else if Ascii.eqb c cls then d else depth in
          match scan_close opn cls depth' s' with
          | Some (p, r) => Some (String c p, r)
          | None => None
          end
      end
  end.

(** First complete type of [sig] and the remainder. *)
Fixpoint splitSig (sig : string) : outcome (string * string) :=
  match sig with
  | EmptyString => Err (Errorf "dbus: empty signature")
  | String c rest =>
      match code_of c with
      | C_a => '(inner, r) ← splitSig rest; Ok ("a" +:+ inner, r)
      | C_paren =>
          match scan_close "(" ")" 1 rest with
          | Some (p, r) => Ok (String c p, r)
          | None => Err (Errorf "dbus: unbalanced () in signature %q")
          end
      | C_brace =>
          match scan_close "{" "}" 1 rest with
          | Some (p, r) => Ok (String c p, r)
          | None => Err (Errorf "dbus: unbalanced {} in signature %q")
          end
      | _ => Ok (String c "", rest)
      end
  end.

Definition splitDictEntry (sig : string) : outcome (string * string * string) :=
  match sig with
  | String c (String _ _) =>
      match code_of c with
      | C_brace =>
          inner ← slice 1 (Z.of_nat (slen sig) - 1) sig;
          '(keySig, rest) ← splitSig inner;
          '(valSig, rest) ← splitSig rest;
          Ok (keySig, valSig, rest)
      | _ => Err (Errorf "dbus: %q is not a dict entry")
      end
  | _ => Err (Errorf "dbus: %q is not a dict entry")
  end.

(** ** The grammar of complete types

    The types of the D-Bus specification that this package supports.  Dict keys
    are string-like, because Go-side dicts are [map[string]any]. *)
Inductive str_ty := SString | SPath | SSignature.

Inductive ty :=
| TByte | TBool | TInt16 | TUint16 | TInt32 | TUint32 | TInt64 | TUint64 | TDouble
| TStr (k : str_ty)
| TVariant
| TArray (t : ty)
| TDict (k : str_ty) (v : ty)
| TStruct (ts : list ty).

Definition sig_of_str (k : str_ty) : string :=
  match k with SString => "s" | SPath => "o" | SSignature => "g" end.

Fixpoint sig_of (t : ty) : string :=
  match t with
  | TByte => "y" | TBool => "b" | TInt16 => "n" | TUint16 => "q" | TInt32 => "i"
  | TUint32 => "u" | TInt64 => "x" | TUint64 => "t" | TDouble => "d"
  | TStr k => sig_of_str k
  | TVariant => "v"
  | TArray t => "a" +:+ sig_of t
  | TDict k v => "a{" +:+ sig_of_str k +:+ sig_of v +:+ "}"
  | TStruct ts => "(" +:+ foldr (fun t s => sig_of t +:+ s) "" ts +:+ ")"
  end.

Definition sig_of_list (ts : list ty) : string := foldr (fun t s => sig_of t +:+ s) "" ts.

(** Structs have at least one member (D-Bus specification, "Container types"). *)
Fixpoint ty_ok (t : ty) : bool :=
  match t with
  | TArray t | TDict _ t => ty_ok t
  | TStruct ts => negb (bool_decide (length ts = 0%nat)) && forallb ty_ok ts
  | _ => true
  end.

(** The alignment that [alignmentOf] gives each type ... *)
Definition align_of (t : ty) : nat :=
  match t with
  | TByte | TStr SSignature => 1
  | TInt16 | TUint16 => 2
  | TBool | TInt32 | TUint32 | TStr SString | TStr SPath | TArray _ | TDict _ _ => 4
  | TInt64 | TUint64 | TDouble | TStruct _ | TVariant => 8
  end.

(** ... and the one in the table of the D-Bus specification ("Summary of D-Bus
    marshalling"), where a variant has the alignment of its signature. *)
Definition dbus_align (t : ty) : nat :=
  match t with TVariant => 1 | _ => align_of t end.

Section ty_ind'.
Context (P : ty -> Prop).
Context (Hbase : forall t, match t with TArray _ | TDict _ _ | TStruct _ => False | _ => True end -> P t).
Context (Harr : forall t, P t -> P (TArray t)).
Context (Hdict : forall k v, P v -> P (TDict k v)).
Context (Hstruct : forall ts, Forall P ts -> P (TStruct ts)).

Fixpoint ty_ind' (t : ty) : P t :=
  match t with
  | TArray t => Harr t (ty_ind' t)
  | TDict k v => Hdict k v (ty_ind' v)
  | TStruct ts =>
      Hstruct ts ((fix go ts : Forall P ts :=
        match ts with
        | [] => Forall_nil_2 _
        | t :: ts => Forall_cons_2 _ _ _ (ty_ind' t) (go ts)
        end) ts)
  | t => Hbase t I
  end.
End ty_ind'.

(** ** Slices *)
Lemma substring_prefix (s s' : string) :
  String.substring 0 (slen s) (s +:+ s') = s.
Proof. induction s; simpl; [by destruct s'|]. by f_equal. Qed.

(** [sig[1:len(sig)-1]] strips one character from both ends. *)
Lemma slice_inner (a b : ascii) (s : string) :
  slice 1 (Z.of_nat (slen (String a (s +:+ String b ""))) - 1) (String a (s +:+ String b "")) = Ok s.
Proof.
  unfold slice. cbn [String.length]. rewrite slen_app. cbn [String.length].
  rewrite decide_True by lia. f_equal.
  replace (Z.to_nat 1) with 1%nat by lia. cbn [String.substring].
  replace (Z.to_nat _) with (slen s) by lia. apply substring_prefix.
Qed.

Lemma slice_fuel lo hi s : slice lo hi s <> OutOfFuel.
Proof. unfold slice. by case_decide. Qed.

(** ** [splitSig] on arbitrary input *)
Lemma scan_close_app opn cls d s p r :
  scan_close opn cls d s = Some (p, r) -> p +:+ r = s.
Proof.
  revert d p r. induction s as [|c s IH]; intros [|d] p r; simpl; try naive_solver.
  intros H. repeat case_match; simplify_eq/=; f_equal; eauto.
Qed.

Lemma splitSig_app sig f r :
  splitSig sig = Ok (f, r) -> f +:+ r = sig /\ f <> "".
Proof.
  revert f r. induction sig as [|c sig IH]; intros f r; simpl; [done|].
  intros H. destruct (code_of c) eqn:Hc; inv_ok; try done;
    repeat case_match; simplify_eq/=; split; try done;
    try (f_equal; by eapply scan_close_app).
  destruct (IH _ _ H0) as [<- _].
  by assert (c = "a"%char) as -> by (revert Hc; clear; destruct c as [[][][][][][][][]]; done).
Qed.

Lemma splitSig_no_panic sig : splitSig sig <> Panic /\ splitSig sig <> OutOfFuel.
Proof.
  induction sig as [|c sig [IH1 IH2]]; simpl; [done|].
  destruct (code_of c); try done; repeat case_match; try done.
  by destruct (splitSig sig) as [[]| | |].
Qed.

(** ** [splitSig] on complete types *)
Definition balanced (opn cls : ascii) (s : string) : Prop :=
  forall d rest, scan_close opn cls (S d) (s +:+ rest)
    = '(p, r) ← scan_close opn cls (S d) rest; Some (s +:+ p, r).

Lemma balanced_nil opn cls : balanced opn cls "".
Proof. intros d rest. simpl. by destruct (scan_close _ _ _ rest) as [[]|]. Qed.

Lemma balanced_app opn cls s1 s2 :
  balanced opn cls s1 -> balanced opn cls s2 -> balanced opn cls (s1 +:+ s2).
Proof.
  intros H1 H2 d rest. rewrite sapp_assoc, H1, H2.
  destruct (scan_close _ _ _ rest) as [[]|]; simpl; [|done]. by rewrite sapp_assoc.
Qed.

Lemma balanced_char opn cls c :
  c <> opn -> c <> cls -> balanced opn cls (String c "").
Proof.
  intros Ho%Ascii.eqb_neq Hc%Ascii.eqb_neq d rest. cbn. rewrite Ho, Hc.
  by destruct (scan_close _ _ _ rest) as [[]|].
Qed.

(** A bracketed balanced string is balanced. *)
Lemma balanced_bracket opn cls s :
  opn <> cls -> balanced opn cls s ->
  balanced opn cls (String opn (s +:+ String cls "")).
Proof.
  intros Hne Hs d rest. cbn [String.append scan_close].
  rewrite Ascii.eqb_refl, sapp_assoc, Hs. cbn.
  assert (Ascii.eqb cls opn = false) as -> by (by apply Ascii.eqb_neq).
  rewrite Ascii.eqb_refl.
  destruct (scan_close _ _ _ rest) as [[]|]; simpl; [|done].
  by rewrite sapp_assoc.
Qed.

Lemma balanced_fold opn cls ts :
  Forall (fun t => balanced opn cls (sig_of t)) ts -> balanced opn cls (sig_of_list ts).
Proof. induction 1; simpl; auto using balanced_nil, balanced_app. Qed.

Lemma sig_of_str_char k : exists c, sig_of_str k = String c "" /\ In c ["s"; "o"; "g"]%char.
Proof. destruct k; eexists; split; try done; simpl; auto. Qed.

Lemma sig_of_struct ts : sig_of (TStruct ts) = "(" +:+ sig_of_list ts +:+ ")".
Proof. done. Qed.

#[local] Hint Resolve balanced_nil balanced_app balanced_char balanced_bracket balanced_fold : bal.
#[local] Hint Extern 1 (_ <> _) => discriminate : bal.

Lemma balanced_str opn cls k :
  ~ In opn ["s"; "o"; "g"]%char -> ~ In cls ["s"; "o"; "g"]%char ->
  balanced opn cls (sig_of_str k).
Proof.
  intros Ho Hc. destruct (sig_of_str_char k) as (c & -> & Hin).
  apply balanced_char; congruence.
Qed.

Lemma balanced_paren t : balanced "(" ")" (sig_of t).
Proof.
  induction t as [t Ht|t IH|k v IH|ts IH] using ty_ind'.
  - destruct t as [| | | | | | | | |k| | | |]; try done; try (apply balanced_char; discriminate).
    apply balanced_str; simpl; intuition discriminate.
  - apply (balanced_app _ _ "a"); auto with bal.
  - apply (balanced_app _ _ "a"); [auto with bal|].
    apply (balanced_app _ _ "{"); [auto with bal|].
    apply balanced_app; [apply balanced_str; simpl; intuition discriminate|].
    apply balanced_app; auto with bal.
  - rewrite sig_of_struct. apply balanced_bracket; auto with bal.
Qed.

Lemma balanced_brace t : balanced "{" "}" (sig_of t).
Proof.
  induction t as [t Ht|t IH|k v IH|ts IH] using ty_ind'.
  - destruct t as [| | | | | | | | |k| | | |]; try done; try (apply balanced_char; discriminate).
    apply balanced_str; simpl; intuition discriminate.
  - apply (balanced_app _ _ "a"); auto with bal.
  - apply (balanced_app _ _ "a"); [auto with bal|]. cbn [String.append].
    rewrite <- sapp_assoc. apply balanced_bracket; [discriminate|].
    apply balanced_app; [apply balanced_str; simpl; intuition discriminate|done].
  - rewrite sig_of_struct. apply balanced_app; [auto with bal|].
    apply balanced_app; auto with bal.
Qed.

(** A closing bracket after a balanced body ends the scan. *)
Lemma scan_close_body opn cls s rest :
  opn <> cls -> balanced opn cls s ->
  scan_close opn cls 1 (s +:+ String cls rest) = Some (s +:+ String cls "", rest).
Proof.
  intros Hne Hs. rewrite Hs. cbn.
  assert (Ascii.eqb cls opn = false) as -> by (by apply Ascii.eqb_neq).
  rewrite Ascii.eqb_refl. by destruct rest.
Qed.

Lemma dict_body k v :
  balanced "{" "}" (sig_of_str k +:+ sig_of v).
Proof.
  apply balanced_app; [apply balanced_str; simpl; intuition discriminate|].
  apply balanced_brace.
Qed.

(** [splitSig] returns exactly the first complete type of a signature. *)
Lemma splitSig_sig_of t rest : splitSig (sig_of t +:+ rest) = Ok (sig_of t, rest).
Proof.
  revert rest. induction t as [t Ht|t IH|k v IH|ts IH] using ty_ind'; intros rest.
  - destruct t as [| | | | | | | | |[]| | | |]; try done.
  - cbn [sig_of String.append splitSig]. simpl. by rewrite IH.
  - cbn [sig_of String.append splitSig code_of].
    rewrite <- sapp_assoc, sapp_assoc. cbn [String.append].
    by rewrite (scan_close_body "{" "}") by (done || apply dict_body).
  - rewrite sig_of_struct. cbn [String.append splitSig code_of].
    rewrite sapp_assoc. cbn [String.append].
    rewrite (scan_close_body "(" ")"); [done|done|].
    apply balanced_fold, Forall_forall. intros; apply balanced_paren.
Qed.

Lemma splitSig_sig_of_nil t : splitSig (sig_of t) = Ok (sig_of t, "").
Proof. rewrite <- (sapp_nil_r (sig_of t)) at 1. apply splitSig_sig_of. Qed.

Lemma splitSig_str k rest : splitSig (sig_of_str k +:+ rest) = Ok (sig_of_str k, rest).
Proof. by destruct k. Qed.

Lemma sig_of_nonempty t : sig_of t <> "".
Proof. by destruct t as [| | | | | | | | |[]| | | |]. Qed.

Lemma sig_of_not_brace t : exists c s, sig_of t = String c s /\ Ascii.eqb c "{" = false.
Proof. destruct t as [| | | | | | | | |[]| | | |]; eauto. Qed.

Lemma alignmentOf_sig_of t rest :
  alignmentOf (sig_of t +:+ rest) = Ok (align_of t).
Proof. by destruct t as [| | | | | | | | |[]| | | |]. Qed.

Lemma alignmentOf_entry k v :
  alignmentOf ("{" +:+ sig_of_str k +:+ sig_of v +:+ "}") = Ok 8%nat.
Proof. done. Qed.

Lemma splitDictEntry_sig_of k v :
  splitDictEntry ("{" +:+ sig_of_str k +:+ sig_of v +:+ "}")
  = Ok (sig_of_str k, sig_of v, "").
Proof.
  rewrite <- (sapp_assoc (sig_of_str k)). cbn [String.append].
  pose proof (slice_inner "{" "}" (sig_of_str k +:+ sig_of v)) as Hs.
  destruct k; cbn [sig_of_str String.append splitDictEntry code_of] in *; rewrite Hs;
    cbn; by rewrite splitSig_sig_of_nil.
Qed.

(** * Properties *)

(** [splitSig] is total: on every string it returns an error or a non-empty
    first part and a remainder whose concatenation is the string, and it never
    panics. *)
Theorem splitSig_splits sig :
  match splitSig sig with
  | Ok (first, rest) => first +:+ rest = sig /\ first <> ""
  | Err _ => True
  | Panic | OutOfFuel => False
  end.
Proof.
  pose proof (splitSig_no_panic sig) as [Hp Hf].
  destruct (splitSig sig) as [[f r]| | |] eqn:Hs; try done.
  by apply splitSig_app.
Qed.

(** On a sequence of complete types of any nesting, [splitSig] returns
    exactly the first type, so the loops over a signature see each member once
    and in order. *)
Theorem splitSig_first_type t ts :
  splitSig (sig_of_list (t :: ts)) = Ok (sig_of t, sig_of_list ts).
Proof. apply splitSig_sig_of. Qed.

(** [alignmentOf] agrees with the alignment table of the D-Bus specification
    on every type but the variant, whose alignment is 1 and for which the code
    says 8. *)
Theorem alignmentOf_dbus t rest :
  alignmentOf (sig_of t +:+ rest)
  = Ok (match t with TVariant => 8%nat | _ => dbus_align t end).
Proof. rewrite alignmentOf_sig_of. by destruct t. Qed.
