(* ===== verification/GoStrings.v ===== *)
(** The fragment of Go's strings, strconv, encoding/hex and path/filepath
    packages that the program uses, on byte strings.  White space is the ASCII
    part of [unicode.IsSpace]. *)
From S2P Require Import Prelude Bytes.

(** ** Characters *)
Definition is_space (c : ascii) : bool :=
  match c with
  | " " | "009" | "010" | "011" | "012" | "013" => true
  | _ => false
  end%char.

Definition is_digit (c : ascii) : bool := (48 <=? Z_of_byte c) && (Z_of_byte c <=? 57).
Definition is_upper (c : ascii) : bool := (65 <=? Z_of_byte c) && (Z_of_byte c <=? 90).
Definition is_lower (c : ascii) : bool := (97 <=? Z_of_byte c) && (Z_of_byte c <=? 122).

Definition LF : ascii := "010"%char.
Definition nl : string := String LF "".
Definition CRLF : string := String "013" nl.

(** ** strings *)
Fixpoint sdrop (n : nat) (s : string) : string :=
  match n, s with
  | S n, String _ s => sdrop n s
  | _, _ => s
  end.

Fixpoint has_prefix (s p : string) {struct p} : bool :=
  match p, s with
  | EmptyString, _ => true
  | String a p, String b s => Ascii.eqb a b && has_prefix s p
  | String _ _, EmptyString => false
  end.

Definition has_suffix (s p : string) : bool :=
  (slen p <=? slen s)%nat && String.eqb (sdrop (slen s - slen p) s) p.

Definition trim_prefix (s p : string) : string := if has_prefix s p then sdrop (slen p) s else s.
Definition trim_suffix (s p : string) : string :=
  if has_suffix s p then String.substring 0 (slen s - slen p) s else s.

(** [strings.CutPrefix] *)
Definition cut_prefix (s p : string) : option string :=
  if has_prefix s p then Some (sdrop (slen p) s) else None.

Fixpoint contains (s sub : string) : bool :=
  has_prefix s sub || match s with EmptyString => false | String _ s => contains s sub end.

(** [strings.Split(s, sep)] for a one-byte separator *)
Fixpoint split (sep : ascii) (s : string) : list string :=
  match s with
  | EmptyString => [""]
  | String c s =>
      if Ascii.eqb c sep then "" :: split sep s
      else match split sep s with
           | w :: ws => String c w :: ws
           | [] => [String c ""]
           end
  end.

Fixpoint join (sep : string) (l : list string) : string :=
  match l with
  | [] => ""
  | [w] => w
  | w :: ws => w +:+ sep +:+ join sep ws
  end.

Fixpoint trim_left (s : string) : string :=
  match s with
  | String c s' => if is_space c then trim_left s' else s
  | EmptyString => ""
  end.
Fixpoint trim_right (s : string) : string :=
  match s with
  | String c s =>
      let s := trim_right s in
      if is_space c && String.eqb s "" then "" else String c s
  | EmptyString => ""
  end.
Definition trim_space (s : string) : string := trim_right (trim_left s).

(** [strings.Fields]: the maximal runs of non-space bytes *)
Fixpoint fields_from (cur : string) (s : string) : list string :=
  match s with
  | EmptyString => if String.eqb cur "" then [] else [cur]
  | String c s =>
      if is_space c then
        if String.eqb cur "" then fields_from "" s else cur :: fields_from "" s
      else fields_from (cur +:+ String c "") s
  end.
Definition fields (s : string) : list string := fields_from "" s.

Definition to_lower_char (c : ascii) : ascii :=
  if is_upper c then byte_of_Z (Z_of_byte c + 32) else c.
Fixpoint to_lower (s : string) : string :=
  match s with
  | EmptyString => ""
  | String c s => String (to_lower_char c) (to_lower s)
  end.

(** ** strconv *)
Definition itoa (z : Z) : string := pretty z.

(** Decimal digits, most significant first *)
Fixpoint digits (acc : Z) (s : string) : option Z :=
  match s with
  | EmptyString => Some acc
  | String c s => if is_digit c then digits (10 * acc + (Z_of_byte c - 48)) s else None
  end.

(** The digits of an optionally signed decimal number, and its sign *)
Definition split_sign (s : string) : bool * string :=
  match s with
  | String c r => if Ascii.eqb c "-" then (true, r) else if Ascii.eqb c "+" then (false, r) else (false, s)
  | EmptyString => (false, s)
  end.
Definition signed_digits (s : string) : option Z :=
  let '(neg, ds) := split_sign s in
  match ds with
  | EmptyString => None
  | _ => (fun n => if neg : bool then - n else n) <$> digits 0 ds
  end.

(** [strconv.ParseInt(s, 10, 64)], its error dropped: 0 for a syntax error, the
    nearest bound for a number out of range. *)
Definition parse_int64 (s : string) : Z :=
  match signed_digits s with
  | Some n => Z.max (- 2 ^ 63) (Z.min (2 ^ 63 - 1) n)
  | None => 0
  end.

(** [strconv.Atoi] *)
Definition atoi (s : string) : outcome Z :=
  match signed_digits s with
  | Some n => if decide (- 2 ^ 63 <= n < 2 ^ 63) then Ok n else Err (Errorf "value out of range")
  | None => Err (Errorf "invalid syntax")
  end.

(** ** encoding/hex *)
Definition hex_digit (n : Z) : ascii :=
  byte_of_Z (if n <? 10 then 48 + n else 87 + n).
Fixpoint hex_encode (s : string) : string :=
  match s with
  | EmptyString => ""
  | String c s =>
      let b := Z_of_byte c in
      String (hex_digit (Z.shiftr b 4)) (String (hex_digit (Z.land b 15)) (hex_encode s))
  end.

(** [url.QueryEscape] *)
Definition hex_upper (n : Z) : ascii := byte_of_Z (if n <? 10 then 48 + n else 55 + n).
Definition query_escape_char (c : ascii) : string :=
  let z := Z_of_byte c in
  if is_digit c || is_upper c || is_lower c || Ascii.eqb c "-" || Ascii.eqb c "_" ||
     Ascii.eqb c "." || Ascii.eqb c "~" then String c ""
  else if Ascii.eqb c " " then "+"
  else String "%" (String (hex_upper (Z.shiftr z 4)) (String (hex_upper (Z.land z 15)) "")).
Fixpoint query_escape (s : string) : string :=
  match s with
  | EmptyString => ""
  | String c s => query_escape_char c +:+ query_escape s
  end.

(** [bufio.Scanner]: the lines of a text, without their terminators, up to the
    first one that does not fit its buffer of 64 KiB; [false] when there is one
    ([scanner.Err]). *)
Definition trim_cr (s : string) : string := trim_suffix s (String "013" "").
Definition text_lines (s : string) : list string :=
  let ls := split LF s in
  if String.eqb (List.last ls "") "" then removelast ls else ls.
Fixpoint scan_tokens (ls : list string) : list string * bool :=
  match ls with
  | [] => ([], true)
  | l :: ls =>
      if 65536 <=? Z.of_nat (slen l) then ([], false)
      else let '(ts, ok) := scan_tokens ls in (trim_cr l :: ts, ok)
  end.
Definition scan (s : string) : list string * bool := scan_tokens (text_lines s).
Definition scan_lines (s : string) : list string := (scan s).1.

(** ** path/filepath *)
Definition slash : ascii := "/"%char.

(** The loop of [filepath.Clean] over the path's elements: [out] is the cleaned
    prefix, reversed. *)
Definition clean_step (rooted : bool) (out : list string) (e : string) : list string :=
  if String.eqb e "" || String.eqb e "." then out
  else if String.eqb e ".." then
    match out with
    | ".." :: _ => e :: out
    | _ :: out => out
    | [] => if rooted then [] else [".."]
    end
  else e :: out.

Definition clean (p : string) : string :=
  match p with
  | EmptyString => "."
  | _ =>
      let rooted := has_prefix p "/" in
      let out := join "/" (rev (fold_left (clean_step rooted) (split slash p) [])) in
      if rooted then "/" +:+ out else if String.eqb out "" then "." else out
  end.

(** [filepath.Join]: empty elements are ignored *)
Definition path_join (elems : list string) : string :=
  match filter (fun e => e <> "") elems with
  | [] => ""
  | l => clean (join "/" l)
  end.

(** The text after the last slash *)
Fixpoint after_slash (s : string) : string :=
  match s with
  | EmptyString => ""
  | String c s' => if contains s' "/" then after_slash s'
                   else if Ascii.eqb c slash then s' else s
  end.

Fixpoint trim_slashes (s : string) : string :=
  match s with
  | EmptyString => ""
  | String c s =>
      let s := trim_slashes s in
      if Ascii.eqb c slash && String.eqb s "" then "" else String c s
  end.

Definition path_base (p : string) : string :=
  match p with
  | EmptyString => "."
  | _ => match trim_slashes p with
         | EmptyString => "/"
         | s => after_slash s
         end
  end.

(** Everything up to and including the last slash *)
Fixpoint upto_slash (s : string) : string :=
  match s with
  | EmptyString => ""
  | String c s' =>
      if contains s' "/" then String c (upto_slash s')
      else if Ascii.eqb c slash then String c "" else ""
  end.
Definition path_dir (p : string) : string := clean (upto_slash p).

(** The paths of the ancestors of a clean path, outermost first, and the path
    itself: those that [os.MkdirAll] creates. *)
Fixpoint prefixes_from (acc : string) (elems : list string) : list string :=
  match elems with
  | [] => []
  | e :: elems =>
      let p := if String.eqb acc "" then e else acc +:+ "/" +:+ e in
      p :: prefixes_from p elems
  end.
Definition path_prefixes (p : string) : list string :=
  match p with
  | String "/" p => ((fun q => "/" +:+ q) <$> prefixes_from "" (split slash p))
  | _ => prefixes_from "" (split slash p)
  end.

(** ** Lemmas *)
Lemma has_prefix_app p s : has_prefix (p +:+ s) p = true.
Proof. induction p as [|c p IH]; [by destruct s|]. simpl. by rewrite Ascii.eqb_refl. Qed.

Lemma has_prefix_spec s p : has_prefix s p = true <-> exists r, s = p +:+ r.
Proof.
  split; [|intros [r ->]; apply has_prefix_app].
  revert s. induction p as [|a p IH]; intros s; simpl; [eauto|].
  destruct s as [|b s]; [done|]. intros [Hc Hp]%andb_true_iff.
  apply Ascii.eqb_eq in Hc as ->. destruct (IH s Hp) as [r ->]. by exists r.
Qed.

Lemma has_prefix_app_l s r p :
  (slen p <= slen s)%nat -> has_prefix (s +:+ r) p = has_prefix s p.
Proof.
  revert s. induction p as [|a p IH]; intros [|b s] Hl; simpl in *; try done; try lia.
  by rewrite IH by lia.
Qed.

Lemma has_prefix_short s p : (slen s < slen p)%nat -> has_prefix s p = false.
Proof.
  revert s. induction p as [|a p IH]; intros [|b s] Hl; simpl in *; try done; try lia.
  by rewrite IH, andb_false_r by lia.
Qed.

Lemma sdrop_app p s : sdrop (slen p) (p +:+ s) = s.
Proof. induction p; simpl; [by destruct s|done]. Qed.

Lemma cut_prefix_spec s p r : cut_prefix s p = Some r <-> s = p +:+ r.
Proof.
  unfold cut_prefix. split.
  - destruct (has_prefix s p) eqn:Hp; [|done]. intros [= <-].
    apply has_prefix_spec in Hp as [r ->]. by rewrite sdrop_app.
  - intros ->. by rewrite has_prefix_app, sdrop_app.
Qed.

Lemma contains_spec s sub : contains s sub = true <-> exists l r, s = l +:+ sub +:+ r.
Proof.
  split.
  - induction s as [|c s IH]; cbn [contains]; intros [Hp|Hc]%orb_true_iff; try done.
    + apply has_prefix_spec in Hp as [r ->]. by exists "", r.
    + apply has_prefix_spec in Hp as [r ->]. by exists "", r.
    + destruct (IH Hc) as (l & r & ->). by exists (String c l), r.
  - intros (l & r & ->). induction l as [|c l IH]; cbn [contains String.append].
    + assert (Hp : has_prefix (sub +:+ r) sub = true) by apply has_prefix_app.
      by destruct (sub +:+ r); cbn [contains]; rewrite Hp.
    + by rewrite IH, orb_true_r.
Qed.

Lemma split_nonempty sep s : split sep s <> [].
Proof. destruct s as [|c s]; simpl; [done|]. by repeat case_match. Qed.

(** [strings.Join(strings.Split(s, sep), sep)] is [s]. *)
Lemma join_split sep s : join (String sep "") (split sep s) = s.
Proof.
  induction s as [|c s IH]; [done|]. cbn [split].
  pose proof (split_nonempty sep s). destruct (split sep s) as [|w ws]; [done|].
  destruct (Ascii.eqb_spec c sep) as [->|Hc].
  - simpl in *. by rewrite <- IH.
  - rewrite <- IH. by destruct ws.
Qed.

(** A list of words without the separator is recovered. *)
Fixpoint no_char (c : ascii) (s : string) : bool :=
  match s with
  | EmptyString => true
  | String d s => negb (Ascii.eqb d c) && no_char c s
  end.

Lemma split_no_char sep s : no_char sep s = true -> split sep s = [s].
Proof.
  induction s as [|c s IH]; [done|]. simpl. intros [Hc Hs]%andb_true_iff.
  apply negb_true_iff in Hc. by rewrite Hc, (IH Hs).
Qed.

Lemma split_app sep w s :
  no_char sep w = true -> split sep (w +:+ String sep s) = w :: split sep s.
Proof.
  induction w as [|c w IH]; simpl; [by rewrite Ascii.eqb_refl|].
  intros [Hc Hs]%andb_true_iff. apply negb_true_iff in Hc. by rewrite Hc, (IH Hs).
Qed.

Lemma split_join sep ws :
  ws <> [] -> forallb (no_char sep) ws = true -> split sep (join (String sep "") ws) = ws.
Proof.
  induction ws as [|w ws IH]; [done|]. intros _ [Hw Hws]%andb_true_iff.
  destruct ws as [|w' ws]; [by apply split_no_char|].
  change (join _ (w :: w' :: ws)) with (w +:+ String sep (join (String sep "") (w' :: ws))).
  by rewrite split_app, IH.
Qed.

Lemma slen_substring n s : slen (String.substring 0 n s) = Nat.min n (slen s).
Proof. revert s. induction n; intros [|c s]; simpl; auto. Qed.

(** *** Paths *)
Lemma split_app_sep sep a b : split sep (a +:+ String sep b) = split sep a ++ split sep b.
Proof.
  induction a as [|c a IH]; cbn [String.append split].
  - by rewrite Ascii.eqb_refl.
  - rewrite IH. destruct (Ascii.eqb c sep); [done|].
    pose proof (split_nonempty sep a). by destruct (split sep a).
Qed.

Lemma join_snoc sep l w : l <> [] -> join sep (l ++ [w]) = join sep l +:+ sep +:+ w.
Proof.
  induction l as [|x l IH]; [done|]. intros _. destruct l as [|y l]; [done|].
  change (join sep ((x :: y :: l) ++ [w])) with (x +:+ sep +:+ join sep ((y :: l) ++ [w])).
  rewrite IH by done. change (join sep (x :: y :: l)) with (x +:+ sep +:+ join sep (y :: l)).
  by rewrite !sapp_assoc.
Qed.

(** An element of a path that is neither empty nor [.] nor [..]. *)
Definition plain_name (n : string) : bool :=
  negb (String.eqb n "") && negb (String.eqb n ".") && negb (String.eqb n "..") && no_char slash n.

Lemma plain_name_step rooted out n :
  plain_name n = true -> clean_step rooted out n = n :: out.
Proof.
  unfold plain_name, clean_step. intros Hn. rewrite !andb_true_iff, !negb_true_iff in Hn.
  destruct Hn as [[[-> ->] ->] _]. done.
Qed.

(** The elements of the cleaned form of a path. *)
Definition clean_elems (p : string) : list string :=
  rev (fold_left (clean_step (has_prefix p "/")) (split slash p) []).

Lemma clean_rooted p : has_prefix p "/" = true -> clean p = "/" +:+ join "/" (clean_elems p).
Proof. intros Hp. destruct p as [|c p]; [done|]. unfold clean, clean_elems. by rewrite Hp. Qed.

(** A clean absolute path other than the root. *)
Definition abs_path (d : string) : Prop := clean d = d /\ has_prefix d "/" = true /\ d <> "/".

Lemma clean_elems_snoc d n :
  has_prefix d "/" = true -> plain_name n = true ->
  clean_elems (d +:+ "/" +:+ n) = clean_elems d ++ [n].
Proof.
  intros Hd Hn. unfold clean_elems.
  assert (has_prefix (d +:+ "/" +:+ n) "/" = has_prefix d "/") as ->.
  { apply has_prefix_app_l. destruct d; [done|simpl; lia]. }
  change ("/" +:+ n) with (String slash n). rewrite split_app_sep, fold_left_app.
  assert (no_char slash n = true) as Hs by (unfold plain_name in Hn; by rewrite !andb_true_iff in Hn; tauto).
  rewrite (split_no_char _ _ Hs). cbn [fold_left]. by rewrite plain_name_step.
Qed.

(** Joining a clean absolute path and a plain name is concatenation. *)
Lemma clean_snoc d n : abs_path d -> plain_name n = true -> clean (d +:+ "/" +:+ n) = d +:+ "/" +:+ n.
Proof.
  intros (Hc & Hr & Hne) Hn.
  assert (has_prefix (d +:+ "/" +:+ n) "/" = true) as Hr'.
  { rewrite has_prefix_app_l; [done|]. destruct d; [done|simpl; lia]. }
  rewrite clean_rooted, clean_elems_snoc, join_snoc by
    (done || (intros He; rewrite clean_rooted, He in Hc by done; by apply Hne)).
  rewrite clean_rooted in Hc by done. rewrite <- sapp_assoc. by rewrite Hc.
Qed.

Lemma abs_path_snoc d n : abs_path d -> plain_name n = true -> abs_path (d +:+ "/" +:+ n).
Proof.
  intros Hd Hn. destruct Hd as (Hc & Hr & Hne) eqn:HH. clear HH.
  split_and!.
  - by apply clean_snoc.
  - rewrite has_prefix_app_l; [done|]. destruct d; [done|simpl; lia].
  - intros He. apply (f_equal slen) in He. rewrite !slen_app in He. simpl in He.
    destruct d; [done|]. simpl in He. lia.
Qed.

Lemma path_join_name d n : abs_path d -> plain_name n = true -> path_join [d; n] = d +:+ "/" +:+ n.
Proof.
  intros Hd Hn. assert (d <> "") by (destruct Hd as (_ & H & _); by destruct d).
  assert (n <> "") by (by intros ->). unfold path_join.
  rewrite !filter_cons_True by done. rewrite filter_nil. cbn [join]. by apply clean_snoc.
Qed.

Lemma path_join_2 d a b :
  abs_path d -> plain_name a = true -> plain_name b = true ->
  path_join [d; a +:+ "/" +:+ b] = d +:+ "/" +:+ a +:+ "/" +:+ b.
Proof.
  intros Hd Ha Hb. assert (d <> "") by (destruct Hd as (_ & H & _); by destruct d).
  assert (a +:+ "/" +:+ b <> "") by (intros He%(f_equal slen); rewrite !slen_app in He; simpl in He; lia).
  unfold path_join. rewrite !filter_cons_True by done. rewrite filter_nil. cbn [join].
  pose proof (clean_snoc (d +:+ "/" +:+ a) b (abs_path_snoc d a Hd Ha) Hb) as Hc.
  by rewrite !sapp_assoc in Hc.
Qed.

Lemma sapp_inj_l (p a b : string) : p +:+ a = p +:+ b -> a = b.
Proof. induction p; simpl; [done|]. intros [= H]. auto. Qed.

(** The parts of a split have no separator. *)
Lemma split_parts sep s w : w ∈ split sep s -> no_char sep w = true.
Proof.
  revert w. induction s as [|c s IH]; intros w; simpl.
  - by intros ->%list_elem_of_singleton.
  - destruct (Ascii.eqb c sep) eqn:Hc.
    + intros [->|Hw]%elem_of_cons; [done|by apply IH].
    + destruct (split sep s) as [|p ps] eqn:Hs; [by destruct (split_nonempty sep s)|].
      intros [->|Hw]%elem_of_cons; [|apply IH; by right].
      simpl. rewrite Hc. apply IH. left.
Qed.

Lemma no_char_app c s t : no_char c (s +:+ t) = no_char c s && no_char c t.
Proof. induction s as [|d s IH]; simpl; [done|]. by rewrite IH, andb_assoc. Qed.

Lemma no_char_substring c i n s : no_char c s = true -> no_char c (String.substring i n s) = true.
Proof.
  revert i n. induction s as [|d s IH]; intros i n; [by destruct i, n|]. simpl.
  intros [Hd Hs]%andb_true_iff. destruct i as [|i]; [|by apply IH].
  destruct n as [|n]; [done|]. simpl. by rewrite Hd, IH.
Qed.

(** *** Texts as lists of lines *)
Definition lines_text (ls : list string) : string := String.concat "" ((fun l => l +:+ nl) <$> ls).

Lemma concat_cons s ls : String.concat "" (s :: ls) = s +:+ String.concat "" ls.
Proof. destruct ls; simpl; [by rewrite sapp_nil_r|done]. Qed.
Lemma lines_text_cons l ls : lines_text (l :: ls) = l +:+ nl +:+ lines_text ls.
Proof. unfold lines_text. cbn [fmap list_fmap]. by rewrite concat_cons, sapp_assoc. Qed.
Lemma lines_text_app l1 l2 : lines_text (l1 ++ l2) = lines_text l1 +:+ lines_text l2.
Proof.
  induction l1 as [|l l1 IH]; [done|]. cbn [app]. by rewrite !lines_text_cons, IH, !sapp_assoc.
Qed.

Lemma text_lines_text ls :
  Forall (fun l => no_char LF l = true) ls -> text_lines (lines_text ls) = ls.
Proof.
  intros Hls. unfold text_lines.
  assert (split LF (lines_text ls) = ls ++ [""]) as ->.
  { induction Hls as [|l ls Hl _ IH]; [done|]. rewrite lines_text_cons.
    change (l +:+ nl +:+ lines_text ls) with (l +:+ String LF (lines_text ls)).
    by rewrite split_app_sep, split_no_char, IH. }
  rewrite List.last_last, removelast_last. done.
Qed.

(** *** The last element of a path *)
Lemma contains_slash s : contains s "/" = false -> no_char slash s = true.
Proof.
  induction s as [|c s IH]; [done|]. cbn [contains has_prefix no_char]. intros [Hp Hc]%orb_false_iff.
  apply andb_true_iff. split; [|by apply IH]. apply negb_true_iff. unfold slash.
  rewrite andb_true_r in Hp. by rewrite Ascii.eqb_sym.
Qed.
Lemma after_slash_no_slash s : no_char slash (after_slash s) = true.
Proof.
  induction s as [|c s IH]; [done|]. cbn [after_slash]. destruct (contains s "/") eqn:Hc; [done|].
  apply contains_slash in Hc. destruct (Ascii.eqb c slash) eqn:He; [done|]. cbn [no_char]. by rewrite He.
Qed.
Lemma path_base_no_slash p : path_base p = "/" \/ no_char slash (path_base p) = true.
Proof.
  unfold path_base. destruct p; [by right|]. destruct (trim_slashes _) eqn:Ht; [by left|]. right. apply after_slash_no_slash.
Qed.
Lemma trim_suffix_no_char c s p : no_char c s = true -> no_char c (trim_suffix s p) = true.
Proof. intros Hs. unfold trim_suffix. case_match; [by apply no_char_substring|done]. Qed.

(** A name that is long enough is neither empty nor a dot name. *)
Lemma long_plain_name n : no_char slash n = true -> (2 < slen n)%nat -> plain_name n = true.
Proof.
  intros Hn Hl. unfold plain_name. rewrite Hn, !andb_true_r, !andb_true_iff, !negb_true_iff.
  split_and!; apply String.eqb_neq; intros ->; simpl in Hl; lia.
Qed.
Lemma has_suffix_length s p : has_suffix s p = true -> (slen p <= slen s)%nat.
Proof. unfold has_suffix. by intros [Hl%Nat.leb_le _]%andb_true_iff. Qed.

Lemma no_slash_contains s : no_char slash s = true -> contains s "/" = false.
Proof.
  intros Hs. destruct (contains s "/") eqn:He; [|done]. apply contains_spec in He as (l & r & ->). revert Hs.
  induction l as [|a l IH]; cbn; [done|]. by intros [_ H%IH]%andb_true_iff.
Qed.

(** The directory of a name in it *)
Lemma upto_slash_entry d n : no_char slash n = true -> upto_slash (d +:+ "/" +:+ n) = d +:+ "/".
Proof.
  intros Hn. assert (Hup : upto_slash n = "").
  { destruct n as [|c n]; [done|]. cbn [upto_slash no_char] in *. apply andb_true_iff in Hn as [Hc Hn].
    rewrite no_slash_contains by done. apply negb_true_iff in Hc. by rewrite Hc. }
  apply no_slash_contains in Hn as Hc. induction d as [|c d IH].
  - cbn [String.append upto_slash]. by rewrite Hc.
  - cbn [String.append upto_slash]. cbn [String.append] in IH.
    assert (contains (d +:+ String "/" n) "/" = true) as -> by (apply contains_spec; by exists d, n).
    f_equal. exact IH.
Qed.
Lemma path_dir_entry d n : abs_path d -> no_char slash n = true -> path_dir (d +:+ "/" +:+ n) = d.
Proof.
  intros (Hc & Hr & Hne) Hn. unfold path_dir. rewrite upto_slash_entry by done.
  rewrite clean_rooted by (rewrite has_prefix_app_l; [done|]; destruct d; [done|simpl; lia]).
  rewrite <- Hc at 2. rewrite (clean_rooted d) by done. f_equal. f_equal. unfold clean_elems.
  assert (has_prefix (d +:+ "/") "/" = has_prefix d "/") as -> by (apply has_prefix_app_l; destruct d; [done|simpl; lia]).
  change (d +:+ "/") with (d +:+ String slash ""). rewrite split_app_sep, fold_left_app. done.
Qed.
Lemma sdrop_app_plus n a b : sdrop (slen a + n) (a +:+ b) = sdrop n b.
Proof. induction a as [|c a IH]; [done|]. exact IH. Qed.
Lemma has_suffix_app a s p : has_suffix s p = true -> has_suffix (a +:+ s) p = true.
Proof.
  unfold has_suffix. intros [Hl%Nat.leb_le Hs]%andb_true_iff. rewrite slen_app. apply andb_true_iff.
  split; [apply Nat.leb_le; lia|]. by replace (slen a + slen s - slen p)%nat with (slen a + (slen s - slen p))%nat by lia;
    rewrite sdrop_app_plus.
Qed.

(** The last element of a path *)
Lemma trim_slashes_name n : no_char slash n = true -> trim_slashes n = n.
Proof.
  induction n as [|c n IH]; [done|]. cbn [no_char trim_slashes]. intros [Hc%negb_true_iff Hn]%andb_true_iff.
  by rewrite IH, Hc.
Qed.
Lemma trim_slashes_entry d n : no_char slash n = true -> n <> "" -> trim_slashes (d +:+ "/" +:+ n) = d +:+ "/" +:+ n.
Proof.
  intros Hn Hne. assert (Hs : trim_slashes (String slash n) = String slash n).
  { cbn [trim_slashes]. rewrite trim_slashes_name by done. apply String.eqb_neq in Hne as ->. by rewrite andb_false_r. }
  induction d as [|c d IH]; [exact Hs|]. cbn [String.append trim_slashes] in *. rewrite IH.
  assert (String.eqb (d +:+ String "/" n) "" = false) as -> by (by destruct d). by rewrite andb_false_r.
Qed.
Lemma path_base_entry d n : no_char slash n = true -> n <> "" -> path_base (d +:+ "/" +:+ n) = n.
Proof.
  intros Hn Hne. unfold path_base. rewrite trim_slashes_entry by done. pose proof (no_slash_contains n Hn) as Hc.
  assert (Ha : after_slash (d +:+ "/" +:+ n) = n).
  { induction d as [|c d IH]; [cbn [String.append after_slash]; by rewrite Hc|].
    cbn [String.append after_slash] in *. assert (contains (d +:+ String "/" n) "/" = true) as ->; [|exact IH].
    apply contains_spec. by exists d, n. }
  by destruct d.
Qed.
