(* ===== verification/SigParse.v ===== *)
(** A recogniser of complete D-Bus types: which strings are the signature of one
    type of the grammar of Signature.v.  The marshaler has no such check; the
    reader that MarshalSafety.v and Peer.v compare it with has. *)
From S2P Require Import Prelude Bytes Signature.

Definition str_of_code (c : type_code) : option str_ty :=
  match c with C_s => Some SString | C_o => Some SPath | C_g => Some SSignature | _ => None end.

Definition basic_of_code (c : type_code) : option ty :=
  match c with
  | C_y => Some TByte | C_b => Some TBool | C_n => Some TInt16 | C_q => Some TUint16
  | C_i => Some TInt32 | C_u => Some TUint32 | C_x => Some TInt64 | C_t => Some TUint64
  | C_d => Some TDouble | C_v => Some TVariant
  | c => TStr <$> str_of_code c
  end.

(** The key of a dict, when what follows an [a] is one *)
Definition dict_key (s : string) : option (str_ty * string) :=
  match s with
  | String b (String k s) =>
      if Ascii.eqb b "{" then k ← str_of_code (code_of k); Some (k, s) else None
  | _ => None
  end.

Definition close_brace (s : string) : option string :=
  match s with String c r => if Ascii.eqb c "}" then Some r else None | "" => None end.

(** Types up to the closing bracket *)
Fixpoint parse_members (rec : string -> option (ty * string)) (gas : nat) (s : string)
    : option (list ty * string) :=
  match s with
  | "" => None
  | String c r =>
      if Ascii.eqb c ")" then Some ([], r)
      else match gas with
           | O => None
           | S gas =>
               '(t, s) ← rec s;
               '(ts, s) ← parse_members rec gas s;
               Some (t :: ts, s)
           end
  end.

(** One type, and the rest of the string *)
Fixpoint parse_ty (gas : nat) (s : string) : option (ty * string) :=
  match gas, s with
  | S gas, String c r =>
      match code_of c with
      | C_a =>
          match dict_key r with
          | Some (k, r) =>
              '(v, r) ← parse_ty gas r;
              r ← close_brace r;
              Some (TDict k v, r)
          | None => '(t, r) ← parse_ty gas r; Some (TArray t, r)
          end
      | C_paren =>
          '(ts, r) ← parse_members (parse_ty gas) gas r;
          match ts with [] => None | _ => Some (TStruct ts, r) end
      | cd => t ← basic_of_code cd; Some (t, r)
      end
  | _, _ => None
  end.

Definition complete (s : string) : option ty :=
  match parse_ty (slen s) s with Some (t, "") => Some t | _ => None end.

(** The types of a body's signature, which may be several *)
Definition complete_list (s : string) : option (list ty) :=
  match parse_members (parse_ty (slen s)) (slen s) (s +:+ ")") with Some (ts, "") => Some ts | _ => None end.

(** ** What is recognised is a signature *)
Lemma code_of_inv c :
  match code_of c with
  | C_y => c = "y" | C_b => c = "b" | C_n => c = "n" | C_q => c = "q" | C_i => c = "i" | C_u => c = "u"
  | C_x => c = "x" | C_t => c = "t" | C_d => c = "d" | C_s => c = "s" | C_o => c = "o" | C_g => c = "g"
  | C_v => c = "v" | C_a => c = "a" | C_paren => c = "(" | C_brace => c = "{" | C_other => True
  end%char.
Proof. by destruct c as [[][][][][][][][]]. Qed.

Lemma str_of_code_Some c k : str_of_code (code_of c) = Some k -> String c "" = sig_of_str k.
Proof. pose proof (code_of_inv c). destruct (code_of c); simpl; try done; intros [= <-]; by subst. Qed.

Lemma basic_of_code_Some c t :
  basic_of_code (code_of c) = Some t -> String c "" = sig_of t /\ ty_ok t = true.
Proof. pose proof (code_of_inv c). destruct (code_of c); simpl; try done; intros [= <-]; by subst. Qed.

Lemma dict_key_Some s k r : dict_key s = Some (k, r) -> s = "{" +:+ sig_of_str k +:+ r.
Proof.
  destruct s as [|b [|c s]]; try done. simpl. destruct (Ascii.eqb_spec b "{") as [->|]; [|done].
  destruct (str_of_code _) as [k'|] eqn:Hk; [|done]. intros [= -> ->].
  by rewrite <- (str_of_code_Some _ _ Hk).
Qed.

Lemma close_brace_Some s r : close_brace s = Some r -> s = "}" +:+ r.
Proof.
  destruct s as [|c s]; [done|]. simpl. destruct (Ascii.eqb_spec c "}") as [->|]; [|done]. by intros [= ->].
Qed.

(** A parser of types that only returns what it read *)
Definition reads (rec : string -> option (ty * string)) : Prop := forall s t r,
  rec s = Some (t, r) -> s = sig_of t +:+ r /\ ty_ok t = true.

Lemma parse_members_Some rec gas s ts r :
  reads rec -> parse_members rec gas s = Some (ts, r) ->
  s = sig_of_list ts +:+ ")" +:+ r /\ forallb ty_ok ts = true.
Proof.
  intros Hr. revert s ts r. induction gas as [|gas IH]; intros [|c s] ts r; simpl; try done;
    (destruct (Ascii.eqb_spec c ")") as [->|]; [by intros [= <- ->]|]); [done|].
  destruct (rec (String c s)) as [[t s1]|] eqn:Ht; [|done]. simpl.
  destruct (parse_members rec gas s1) as [[ts1 s2]|] eqn:Hts; [|done]. intros [= <- ->].
  apply Hr in Ht as [-> Hok]. apply IH in Hts as [-> Hoks]. cbn [sig_of_list foldr forallb].
  by rewrite Hok, Hoks, !sapp_assoc.
Qed.

Lemma parse_ty_Some gas : reads (parse_ty gas).
Proof.
  induction gas as [|gas IH]; intros [|c s] t r; simpl; try done.
  assert (Hb : (t ← basic_of_code (code_of c); Some (t, s)) = Some (t, r) ->
    String c s = sig_of t +:+ r /\ ty_ok t = true).
  { destruct (basic_of_code _) as [t'|] eqn:Ht; [|done]. intros [= -> ->].
    apply basic_of_code_Some in Ht as [<- Hok]. by split. }
  pose proof (code_of_inv c) as Hc. destruct (code_of c); try exact Hb; subst c.
  - destruct (dict_key s) as [[k s1]|] eqn:Hk.
    + apply dict_key_Some in Hk as ->.
      destruct (parse_ty gas s1) as [[v s2]|] eqn:Hv; [|done]. simpl.
      destruct (close_brace s2) as [s3|] eqn:Hs; [|done]. intros [= <- <-].
      apply IH in Hv as [-> Hok]. apply close_brace_Some in Hs as ->.
      split; [|done]. simpl. by rewrite !sapp_assoc.
    + destruct (parse_ty gas s) as [[v s2]|] eqn:Hv; [|done]. intros [= <- <-].
      by apply IH in Hv as [-> Hok].
  - destruct (parse_members _ gas s) as [[ts s2]|] eqn:Hts; [|done]. simpl.
    destruct ts as [|t0 ts]; [done|]. intros [= <- <-].
    apply parse_members_Some in Hts as [-> Hok]; [|done]. split; [|done].
    rewrite sig_of_struct. by rewrite !sapp_assoc.
Qed.

Lemma complete_Some s t : complete s = Some t -> s = sig_of t /\ ty_ok t = true.
Proof.
  unfold complete. destruct (parse_ty _ s) as [[t' []]|] eqn:Ht; try done. intros [= ->].
  apply parse_ty_Some in Ht as [-> Hok]. by rewrite sapp_nil_r.
Qed.

Lemma snoc_inj (a b : string) x : a +:+ String x "" = b +:+ String x "" -> a = b.
Proof.
  revert b. induction a as [|c a IH]; intros [|d b]; simpl; try done.
  - intros [= -> Hb]. by destruct b.
  - intros [= -> Ha]. by destruct a.
  - intros [= -> Ha]. by rewrite (IH b).
Qed.

Lemma complete_list_Some s ts :
  complete_list s = Some ts -> s = sig_of_list ts /\ forallb ty_ok ts = true.
Proof.
  unfold complete_list. destruct (parse_members _ _ _) as [[ts' []]|] eqn:Hts; try done. intros [= ->].
  apply parse_members_Some in Hts as [Hs Hok]; [|apply parse_ty_Some].
  split; [by apply (snoc_inj _ _ ")")|done].
Qed.

(** ** Every signature is recognised *)
Lemma basic_sig c t r : basic_of_code (code_of c) = Some t -> parse_ty 1 (String c r) = Some (t, r).
Proof. simpl. by destruct (code_of c); intros [= ->]. Qed.

Lemma sig_not_close t : exists c s, sig_of t = String c s /\ Ascii.eqb c ")" = false.
Proof. destruct t as [| | | | | | | | |[]| | | |]; by eexists _, _. Qed.

Lemma dict_key_none t r : dict_key (sig_of t +:+ r) = None.
Proof.
  destruct (sig_of_not_brace t) as (c & s & -> & Hc). simpl. rewrite Hc. by destruct (s +:+ r).
Qed.

Lemma parse_members_sig rec gas ts r :
  Forall (fun t => forall r, rec (sig_of t +:+ r) = Some (t, r)) ts -> (length ts <= gas)%nat ->
  parse_members rec gas (sig_of_list ts +:+ ")" +:+ r) = Some (ts, r).
Proof.
  intros Hts. revert gas. induction Hts as [|t ts Ht Hts IH]; intros gas Hg; [by destruct gas|].
  destruct gas as [|gas]; simpl in Hg; [lia|]. cbn [sig_of_list foldr]. fold (sig_of_list ts).
  rewrite sapp_assoc. destruct (sig_not_close t) as (c & s & Hs & Hc).
  specialize (Ht (sig_of_list ts +:+ ")" +:+ r)). rewrite Hs in *. cbn [String.append parse_members] in *.
  rewrite Hc, Ht. simpl. simpl in IH. by rewrite IH by lia.
Qed.

Lemma length_sig_of_list ts : (length ts <= slen (sig_of_list ts))%nat.
Proof.
  induction ts as [|t ts IH]; cbn [sig_of_list foldr length]; [lia|]. fold (sig_of_list ts). rewrite slen_app.
  pose proof (sig_of_nonempty t). destruct (sig_of t); cbn [String.length]; [done|lia].
Qed.

Lemma slen_sig_of_in t ts : t ∈ ts -> (slen (sig_of t) <= slen (sig_of_list ts))%nat.
Proof.
  induction 1 as [t ts|t t' ts Hin IH]; cbn [sig_of_list foldr]; rewrite slen_app; [lia|].
  unfold sig_of_list in IH. lia.
Qed.

Lemma parse_ty_sig t gas r :
  ty_ok t = true -> (slen (sig_of t) <= gas)%nat -> parse_ty gas (sig_of t +:+ r) = Some (t, r).
Proof.
  revert gas r. induction t as [t Ht|t IH|k v IH|ts IH] using ty_ind'; intros gas r Hok Hg.
  - destruct gas as [|gas]; [destruct t as [| | | | | | | | |[]| | | |]; simpl in Hg; try done; lia|].
    by destruct t as [| | | | | | | | |[]| | | |].
  - destruct gas as [|gas]; [simpl in Hg; lia|]. cbn [sig_of String.append parse_ty code_of].
    simpl in Hg. rewrite dict_key_none, IH by (done || lia). done.
  - destruct gas as [|gas]; [simpl in Hg; lia|]. simpl in Hg, Hok. rewrite !slen_app in Hg. simpl in Hg.
    cbn [sig_of String.append parse_ty code_of]. rewrite !sapp_assoc.
    assert (Hk : forall s, dict_key (String "{" (sig_of_str k +:+ s)) = Some (k, s)) by (by intros s; destruct k).
    rewrite Hk, IH by (done || lia). done.
  - destruct gas as [|gas]; [simpl in Hg; lia|]. rewrite sig_of_struct in *. simpl in Hg.
    rewrite slen_app in Hg. simpl in Hok. apply andb_true_iff in Hok as [Hne Hok].
    cbn [String.append parse_ty code_of]. rewrite sapp_assoc.
    pose proof (length_sig_of_list ts). rewrite parse_members_sig; [by destruct ts| |lia].
    apply Forall_forall. intros t Hin r'. rewrite Forall_forall in IH. apply IH; [done| |].
    + by eapply forallb_forall; [|apply list_elem_of_In].
    + pose proof (slen_sig_of_in t ts Hin). lia.
Qed.

Lemma complete_sig t : ty_ok t = true -> complete (sig_of t) = Some t.
Proof.
  intros Hok. unfold complete. pose proof (parse_ty_sig t (slen (sig_of t)) "" Hok) as Hp.
  rewrite sapp_nil_r in Hp. by rewrite Hp.
Qed.

Lemma complete_list_sig ts : forallb ty_ok ts = true -> complete_list (sig_of_list ts) = Some ts.
Proof.
  intros Hok. unfold complete_list.
  change (sig_of_list ts +:+ ")") with (sig_of_list ts +:+ ")" +:+ ""). rewrite parse_members_sig; [done| |].
  - apply Forall_forall. intros t Hin r. apply parse_ty_sig; [|by apply slen_sig_of_in].
    by eapply forallb_forall; [|apply list_elem_of_In].
  - apply length_sig_of_list.
Qed.
