(* ===== verification/Marshal.v ===== *)
(** The D-Bus marshaler of internal/dbus/marshal.go: the encoder and decoder
    states, every operation on them, [encodeValue]/[encodeArray],
    [decodeValue]/[decodeArray]/[decodeArrayElements], and the assignment of a
    decoded body to typed destinations ([decodeInto], [assign]).

    The mutually recursive pairs of the source are written with open recursion:
    the array function takes the value function as an argument, and
    [encodeValue]/[decodeValue] tie the knot over a fuel argument that bounds
    both the nesting and the number of loop iterations.  MarshalSpec.v shows how
    much fuel is enough. *)
From S2P Require Import Prelude Bytes Signature.

(** ** Iteration order of Go maps

    [range] over a map visits every entry once in an unspecified order, which
    may change from one loop to the next: [map_range n m] is the order taken by
    a loop that starts when [n] bytes have been written. *)
Class MapRange := map_range : nat -> gmap string any -> list (string * any).
Class MapRangeOk {R : MapRange} : Prop :=
  map_range_perm : forall n m, map_range n m ≡ₚ map_to_list m.
#[export] Hint Mode MapRangeOk + : typeclass_instances.

#[export] Instance map_to_list_range : MapRange := fun _ m => map_to_list m.
#[export] Instance map_to_list_range_ok : MapRangeOk.
Proof. by intros n m. Qed.

(** How deeply a Go value is nested: the fuel of the encoder. *)
Fixpoint depth (v : any) : nat :=
  match v with
  | VAnys vs => S (foldr (fun v d => Nat.max (depth v) d) 0%nat vs)
  | VStrings _ | VBytes _ => 1
  | VMap m => S (map_fold (fun _ v d => Nat.max (depth v) d) 0%nat m)
  | VVariant _ v => S (depth v)
  | _ => 0
  end.

Module Encoder.
Record encoder := Enc { buf : list byte }.

Definition empty : encoder := Enc [].
Definition len (e : encoder) : nat := length (buf e).
Definition append (e : encoder) (bs : list byte) : encoder := Enc (buf e ++ bs).

(** [for len(e.buf)%n != 0 { append 0 }], at most [n] iterations. *)
Fixpoint align_loop (gas n : nat) (e : encoder) : encoder :=
  if decide (len e mod n = 0)%nat then e
  else match gas with
    | O => e
    | S gas => align_loop gas n (append e [NUL])
    end.
Definition align (e : encoder) (n : nat) : encoder := align_loop n n e.

Definition putUint16 (e : encoder) (v : Z) : encoder := append (align e 2) (le_put 2 v).
Definition putUint32 (e : encoder) (v : Z) : encoder := append (align e 4) (le_put 4 v).
Definition putUint64 (e : encoder) (v : Z) : encoder := append (align e 8) (le_put 8 v).

(** uint32 length, bytes, NUL *)
Definition putStringLike (e : encoder) (s : string) : encoder :=
  let e := putUint32 e (to_unsigned 32 (Z.of_nat (slen s))) in
  let e := append e (bytes_of_string s) in
  append e [NUL].

(** byte length, bytes, NUL *)
Definition putSignature (e : encoder) (s : string) : encoder :=
  let e := append e [byte_of_Z (Z.of_nat (slen s))] in
  let e := append e (bytes_of_string s) in
  append e [NUL].

(** [binary.LittleEndian.PutUint32(e.buf[pos:pos+4], v)] *)
Definition patchUint32 (e : encoder) (pos : nat) (v : Z) : encoder :=
  Enc (take pos (buf e) ++ le_put 4 v ++ drop (pos + 4) (buf e)).

Definition toAnySlice (val : any) : outcome (list any) :=
  match val with
  | VAnys v => Ok v
  | VStrings v => Ok (VString <$> v)
  | VBytes v => Ok (VByte <$> v)
  | _ => Err (Errorf "unsupported array value type %T")
  end.

Section with_range.
Context `{MapRange}.

Section encodeArray.
Context (encodeValue : encoder -> string -> any -> outcome encoder).

(** [for k, v := range m] *)
Fixpoint encodeEntries (keySig valSig : string) (e : encoder)
    (kvs : list (string * any)) : outcome encoder :=
  match kvs with
  | [] => Ok e
  | (k, v) :: kvs =>
      let e := align e 8 in
      e ← wrapf "dbus: dict key: " (encodeValue e keySig (VString k));
      e ← wrapf "dbus: dict value for %q: " (encodeValue e valSig v);
      encodeEntries keySig valSig e kvs
  end.

(** [for i, item := range items] *)
Fixpoint encodeItems (elemSig : string) (e : encoder) (items : list any)
    : outcome encoder :=
  match items with
  | [] => Ok e
  | item :: items =>
      e ← wrapf "dbus: array element %d: " (encodeValue e elemSig item);
      encodeItems elemSig e items
  end.

Definition encodeArray (e : encoder) (sig : string) (val : any) : outcome encoder :=
  elemSig ← slice 1 (Z.of_nat (slen sig)) sig;
  let e := putUint32 e 0 in
  let lenPos := (len e - 4)%nat in
  a ← alignmentOf elemSig;
  let e := align e a in
  let dataStart := len e in
  e ← match elemSig with
    | EmptyString => Panic
    | String c _ =>
        if Ascii.eqb c "{" then
          match val with
          | VMap m =>
              '(keySig, valSig, _) ← splitDictEntry elemSig;
              encodeEntries keySig valSig e (map_range (len e) m)
          | _ => Err (Errorf "dbus: %q wants map[string]any, got %T")
          end
        else
          items ← wrapf "dbus: array %q: " (toAnySlice val);
          encodeItems elemSig e items
    end;
  let length := (len e - dataStart)%nat in
  Ok (patchUint32 e lenPos (to_unsigned 32 (Z.of_nat length))).

(** The loop over the members of a struct signature. *)
Fixpoint encodeMembers (gas : nat) (e : encoder) (rest : string)
    (items : list any) (i : nat) : outcome encoder :=
  match rest with
  | EmptyString => Ok e
  | _ =>
      match gas with
      | O => OutOfFuel
      | S gas =>
          '(first, rest) ← splitSig rest;
          match items !! i with
          | None => Err (Errorf "dbus: struct %q needs %d members, got %d")
          | Some item =>
              e ← wrapf "dbus: struct member %d: " (encodeValue e first item);
              encodeMembers gas e rest items (S i)
          end
      end
  end.
End encodeArray.

Fixpoint encodeValue (fuel : nat) (e : encoder) (sig : string) (val : any)
    : outcome encoder :=
  match fuel with
  | O => OutOfFuel
  | S fuel =>
      match sig with
      | EmptyString => Panic
      | String c _ =>
          match code_of c with
          | C_y => match val with
              | VByte v => Ok (append e [v])
              | _ => Err (Errorf "dbus: 'y' wants byte, got %T") end
          | C_b => match val with
              | VBool v => Ok (if v then putUint32 e 1 else putUint32 e 0)
              | _ => Err (Errorf "dbus: 'b' wants bool, got %T") end
          | C_n => match val with
              | VInt16 v => Ok (putUint16 e (to_unsigned 16 v))
              | _ => Err (Errorf "dbus: 'n' wants int16, got %T") end
          | C_q => match val with
              | VUint16 v => Ok (putUint16 e v)
              | _ => Err (Errorf "dbus: 'q' wants uint16, got %T") end
          | C_i => match val with
              | VInt32 v => Ok (putUint32 e (to_unsigned 32 v))
              | _ => Err (Errorf "dbus: 'i' wants int32, got %T") end
          | C_u => match val with
              | VUint32 v => Ok (putUint32 e v)
              | _ => Err (Errorf "dbus: 'u' wants uint32, got %T") end
          | C_x => match val with
              | VInt64 v => Ok (putUint64 e (to_unsigned 64 v))
              | _ => Err (Errorf "dbus: 'x' wants int64, got %T") end
          | C_t => match val with
              | VUint64 v => Ok (putUint64 e v)
              | _ => Err (Errorf "dbus: 't' wants uint64, got %T") end
          | C_d => match val with
              | VFloat64 v => Ok (putUint64 e v)
              | _ => Err (Errorf "dbus: 'd' wants float64, got %T") end
          | C_s | C_o => match val with
              | VString v => Ok (putStringLike e v)
              | _ => Err (Errorf "dbus: '%c' wants string, got %T") end
          | C_g => match val with
              | VString v => Ok (putSignature e v)
              | _ => Err (Errorf "dbus: 'g' wants string, got %T") end
          | C_v => match val with
              | VVariant vsig v =>
                  wrapf "dbus: variant body: "
                    (encodeValue fuel (putSignature e vsig) vsig v)
              | _ => Err (Errorf "dbus: 'v' wants dbus.Variant, got %T") end
          | C_a => encodeArray (encodeValue fuel) e sig val
          | C_paren => match val with
              | VAnys items =>
                  let e := align e 8 in
                  members ← slice 1 (Z.of_nat (slen sig) - 1) sig;
                  encodeMembers (encodeValue fuel) (slen members) e members items 0
              | _ => Err (Errorf "dbus: '%s' wants []any, got %T") end
          | C_brace | C_other =>
              Err (Errorf "dbus: unsupported type code %q in signature %q")
          end
      end
  end.
End with_range.
End Encoder.

Module Decoder.
Record decoder := Dec { buf : list byte; pos : Z }.

Definition blen (d : decoder) : Z := Z.of_nat (length (buf d)).
Definition advance (d : decoder) (n : Z) : decoder := Dec (buf d) (pos d + n).

(** [d.buf[d.pos:d.pos+n]], used after [need] *)
Definition bytes_at (d : decoder) (n : Z) : list byte :=
  take (Z.to_nat n) (drop (Z.to_nat (pos d)) (buf d)).

Fixpoint align_loop (gas : nat) (n : Z) (d : decoder) : outcome decoder :=
  if decide (pos d mod n = 0) then Ok d
  else match gas with
    | O => OutOfFuel
    | S gas =>
        if decide (pos d >= blen d) then
          Err (Errorf "dbus: unexpected end of message while aligning")
        else align_loop gas n (advance d 1)
    end.
Definition align (d : decoder) (n : nat) : outcome decoder := align_loop n (Z.of_nat n) d.

Definition need (d : decoder) (n : Z) : outcome unit :=
  if decide (pos d + n > blen d) then
    Err (Errorf "dbus: unexpected end of message (need %d bytes at %d, have %d)")
  else Ok tt.

Definition getByte (d : decoder) : outcome (byte * decoder) :=
  _ ← need d 1;
  match bytes_at d 1 with
  | b :: _ => Ok (b, advance d 1)
  | [] => Panic
  end.

Definition getUint16 (d : decoder) : outcome (Z * decoder) :=
  d ← align d 2; _ ← need d 2;
  Ok (le_get (bytes_at d 2), advance d 2).

Definition getUint32 (d : decoder) : outcome (Z * decoder) :=
  d ← align d 4; _ ← need d 4;
  Ok (le_get (bytes_at d 4), advance d 4).

Definition getUint64 (d : decoder) : outcome (Z * decoder) :=
  d ← align d 8; _ ← need d 8;
  Ok (le_get (bytes_at d 8), advance d 8).

Definition getStringLike (d : decoder) : outcome (string * decoder) :=
  '(n, d) ← getUint32 d;
  _ ← need d (n + 1);
  Ok (string_of_bytes (bytes_at d n), advance d (n + 1)).

Definition getSignature (d : decoder) : outcome (string * decoder) :=
  '(b, d) ← getByte d;
  let n := Z_of_byte b in
  _ ← need d (n + 1);
  Ok (string_of_bytes (bytes_at d n), advance d (n + 1)).

Section decodeArray.
Context (decodeValue : decoder -> string -> outcome (any * decoder)).

(** [for d.pos < end] over dict entries *)
Fixpoint decodeEntries (gas : nat) (keySig valSig : string) (d : decoder) (e : Z)
    (out : gmap string any) : outcome (any * decoder) :=
  if decide (pos d < e) then
    match gas with
    | O => OutOfFuel
    | S gas =>
        d ← align d 8;
        '(kv, d) ← wrapf "dict key: " (decodeValue d keySig);
        match kv with
        | VString k =>
            '(v, d) ← wrapf "dict value for %q: " (decodeValue d valSig);
            decodeEntries gas keySig valSig d e (<[k := v]> out)
        | _ => Err (Errorf "dbus: only string-keyed dicts are supported, got key type %T")
        end
    end
  else Ok (VMap out, d).

(** [for d.pos < end] over array elements *)
Fixpoint decodeItems (gas : nat) (elemSig : string) (d : decoder) (e : Z)
    (out : list any) : outcome (any * decoder) :=
  if decide (pos d < e) then
    match gas with
    | O => OutOfFuel
    | S gas =>
        '(v, d) ← wrapf "array element: " (decodeValue d elemSig);
        decodeItems gas elemSig d e (out ++ [v])
    end
  else Ok (VAnys out, d).

Definition decodeArrayElements (gas : nat) (d : decoder) (elemSig : string) (e : Z)
    : outcome (any * decoder) :=
  match elemSig with
  | EmptyString => Panic
  | String c _ =>
      if Ascii.eqb c "{" then
        '(keySig, valSig, _) ← splitDictEntry elemSig;
        decodeEntries gas keySig valSig d e ∅
      else decodeItems gas elemSig d e []
  end.

Definition decodeArray (gas : nat) (d : decoder) (sig : string) : outcome (any * decoder) :=
  elemSig ← slice 1 (Z.of_nat (slen sig)) sig;
  '(length, d) ← getUint32 d;
  a ← alignmentOf elemSig;
  d ← align d a;
  let e := pos d + length in
  _ ← need d length;
  decodeArrayElements gas d elemSig e.

(** The loop over the members of a struct signature. *)
Fixpoint decodeMembers (gas : nat) (d : decoder) (rest : string) (out : list any)
    : outcome (any * decoder) :=
  match rest with
  | EmptyString => Ok (VAnys out, d)
  | _ =>
      match gas with
      | O => OutOfFuel
      | S gas =>
          '(first, r) ← splitSig rest;
          '(v, d) ← wrapf "struct member: " (decodeValue d first);
          decodeMembers gas d r (out ++ [v])
      end
  end.
End decodeArray.

Fixpoint decodeValue (fuel : nat) (d : decoder) (sig : string) : outcome (any * decoder) :=
  match fuel with
  | O => OutOfFuel
  | S fuel =>
      match sig with
      | EmptyString => Panic
      | String c _ =>
          match code_of c with
          | C_y => '(v, d) ← getByte d; Ok (VByte v, d)
          | C_b => '(v, d) ← getUint32 d; Ok (VBool (negb (v =? 0)), d)
          | C_n => '(v, d) ← getUint16 d; Ok (VInt16 (to_signed 16 v), d)
          | C_q => '(v, d) ← getUint16 d; Ok (VUint16 v, d)
          | C_i => '(v, d) ← getUint32 d; Ok (VInt32 (to_signed 32 v), d)
          | C_u => '(v, d) ← getUint32 d; Ok (VUint32 v, d)
          | C_x => '(v, d) ← getUint64 d; Ok (VInt64 (to_signed 64 v), d)
          | C_t => '(v, d) ← getUint64 d; Ok (VUint64 v, d)
          | C_d => '(v, d) ← getUint64 d; Ok (VFloat64 v, d)
          | C_s | C_o => '(v, d) ← getStringLike d; Ok (VString v, d)
          | C_g => '(v, d) ← getSignature d; Ok (VString v, d)
          | C_v =>
              '(vsig, d) ← getSignature d;
              '(v, d) ← decodeValue fuel d vsig;
              Ok (VVariant vsig v, d)
          | C_a => decodeArray (decodeValue fuel) fuel d sig
          | C_paren =>
              d ← align d 8;
              members ← slice 1 (Z.of_nat (slen sig) - 1) sig;
              decodeMembers (decodeValue fuel) (slen members) d members []
          | C_brace | C_other =>
              Err (Errorf "dbus: unsupported type code %q in signature %q")
          end
      end
  end.
End Decoder.

(** ** Assigning a decoded body to typed destinations *)
Module Assign.
(** The pointer types that [assign] switches on. *)
Inductive dest_ty :=
| PString | PBool | PUint32 | PUint64 | PStrings | PAnys | PMap | PAny | POther.

(** [out = append(out, s)] for every string item *)
Fixpoint strings_of (items : list any) : outcome (list string) :=
  match items with
  | [] => Ok []
  | VString s :: items => out ← strings_of items; Ok (s :: out)
  | _ :: _ => Err (Errorf "array element: want string, got %T")
  end.

(** The value stored through the pointer. *)
Definition assign (dest : dest_ty) (val : any) : outcome any :=
  match dest with
  | PString => match val with
      | VString s => Ok (VString s) | _ => Err (Errorf "want string, got %T") end
  | PBool => match val with
      | VBool b => Ok (VBool b) | _ => Err (Errorf "want bool, got %T") end
  | PUint32 => match val with
      | VUint32 u => Ok (VUint32 u) | _ => Err (Errorf "want uint32, got %T") end
  | PUint64 => match val with
      | VUint64 u => Ok (VUint64 u) | _ => Err (Errorf "want uint64, got %T") end
  | PStrings => match val with
      | VAnys items => out ← strings_of items; Ok (VStrings out)
      | _ => Err (Errorf "want array, got %T") end
  | PAnys => match val with VAnys items => Ok (VAnys items) | _ => Ok (VAnys []) end
  | PMap => match val with
      | VMap m => Ok (VMap m) | _ => Err (Errorf "want dict, got %T") end
  | PAny => Ok val
  | POther => Err (Errorf "unsupported dest type %T for signature %q")
  end.

(** [decodeInto] from index [i] on; the result lists the values stored in
    [dest[i]], [dest[i+1]], ... *)
Fixpoint decodeInto_loop (gas : nat) (body : list any) (rest : string)
    (dest : list dest_ty) (i : nat) : outcome (list any) :=
  match rest with
  | EmptyString => Ok []
  | _ =>
      match gas with
      | O => OutOfFuel
      | S gas =>
          '(first, r) ← splitSig rest;
          match dest !! i, body !! i with
          | Some p, Some v =>
              w ← wrapf "dbus: out value %d (%q): " (assign p v);
              ws ← decodeInto_loop gas body r dest (S i);
              Ok (w :: ws)
          | _, _ =>
              Err (Errorf "dbus: outSig %q expects more values than reply/dest provided")
          end
      end
  end.

Definition decodeInto (body : list any) (outSig : string) (dest : list dest_ty)
    : outcome (list any) :=
  decodeInto_loop (slen outSig) body outSig dest 0.
End Assign.
