(* ===== verification/Checked.v ===== *)
(** A decoder that validates the signatures of variants, which the decoder of
    internal/dbus/marshal.go does not: the reference that the code is compared
    with on arbitrary input.  It is the decoder of the code with one test more,
    and both agree except where the test complains. *)
From S2P Require Import Prelude Bytes Signature SigParse Marshal.
Import Decoder.

(** [decodeChecked] is the decoder with one more test: the signature of a variant
    must satisfy [ok].  The rest of it is the decoder's own. *)
Definition bad_signature : error := Errorf "a signature that is no complete type".
Fixpoint malformed (e : error) : bool :=
  match e with
  | Errorf s => String.eqb s "a signature that is no complete type"
  | Wrapf _ e => malformed e
  | _ => false
  end.

Fixpoint decodeChecked (ok : string -> bool) (fuel : nat) (d : decoder) (sig : string) : outcome (any * decoder) :=
  match fuel with
  | O => OutOfFuel
  | S n =>
      match sig with
      | EmptyString => Panic
      | String c _ =>
          match code_of c with
          | C_v =>
              '(vsig, d) ← getSignature d;
              if ok vsig then '(v, d) ← decodeChecked ok n d vsig; Ok (VVariant vsig v, d)
              else Err bad_signature
          | C_a => decodeArray (decodeChecked ok n) n d sig
          | C_paren =>
              d ← align d 8;
              members ← slice 1 (Z.of_nat (slen sig) - 1) sig;
              decodeMembers (decodeChecked ok n) (slen members) d members []
          | _ => decodeValue fuel d sig
          end
      end
  end.

(** The same result, or, where [X] allows it, a complaint about a signature *)
Definition agrees {A} (X : Prop) (r r' : outcome A) : Prop :=
  r = r' \/ X /\ exists e, r = Err e /\ malformed e = true.

Lemma agrees_refl {A} X (r : outcome A) : agrees X r r.
Proof. by left. Qed.
Lemma agrees_wrapf {A} X s (r r' : outcome A) : agrees X r r' -> agrees X (wrapf s r) (wrapf s r').
Proof. intros [->|(HX & e & -> & He)]; [by left|right]. split; [done|]. by exists (Wrapf s e). Qed.
Lemma agrees_bind {A B} X (m m' : outcome A) (k k' : A -> outcome B) :
  agrees X m m' -> (forall a, agrees X (k a) (k' a)) -> agrees X (m ≫= k) (m' ≫= k').
Proof.
  intros [->|(HX & e & -> & He)] Hk; [|right; split; [done|by exists e]].
  destruct m'; simpl; [apply Hk|apply agrees_refl..].
Qed.
#[export] Hint Resolve agrees_refl agrees_wrapf agrees_bind : agrees.

(** The loops agree when what they call does. *)
Section agree_loops.
Context (X : Prop) (rec rec' : decoder -> string -> outcome (any * decoder)).
Context (Hrec : forall d sig, agrees X (rec d sig) (rec' d sig)).

Lemma decodeItems_agrees gas sig d e out :
  agrees X (decodeItems rec gas sig d e out) (decodeItems rec' gas sig d e out).
Proof using Hrec.
  revert d out. induction gas as [|gas IH]; intros d out; simpl; case_decide; auto with agrees.
  apply agrees_bind; [auto with agrees|]. by intros [v d'].
Qed.
Lemma decodeEntries_agrees gas ks vs d e out :
  agrees X (decodeEntries rec gas ks vs d e out) (decodeEntries rec' gas ks vs d e out).
Proof using Hrec.
  revert d out. induction gas as [|gas IH]; intros d out; simpl; case_decide; auto with agrees.
  apply agrees_bind; [auto with agrees|]. intros d1. apply agrees_bind; [auto with agrees|].
  intros [kv d2]. destruct kv; auto with agrees. apply agrees_bind; [auto with agrees|]. by intros [v d3].
Qed.
Lemma decodeMembers_agrees gas d sig out :
  agrees X (decodeMembers rec gas d sig out) (decodeMembers rec' gas d sig out).
Proof using Hrec.
  revert d sig out. induction gas as [|gas IH]; intros d [|c sig] out; cbn [decodeMembers]; auto with agrees.
  apply agrees_bind; [auto with agrees|]. intros [f r]. apply agrees_bind; [auto with agrees|]. by intros [v d'].
Qed.
Lemma decodeArrayElements_agrees gas d sig e :
  agrees X (decodeArrayElements rec gas d sig e) (decodeArrayElements rec' gas d sig e).
Proof using Hrec.
  unfold decodeArrayElements. destruct sig as [|c sig]; [auto with agrees|]. case_match.
  - apply agrees_bind; [auto with agrees|]. intros [[ks vs] r]. apply decodeEntries_agrees.
  - apply decodeItems_agrees.
Qed.
Lemma decodeArray_agrees gas d sig : agrees X (decodeArray rec gas d sig) (decodeArray rec' gas d sig).
Proof using Hrec.
  unfold decodeArray. apply agrees_bind; [auto with agrees|]. intros elem.
  apply agrees_bind; [auto with agrees|]. intros [l d1]. do 2 (apply agrees_bind; [auto with agrees|]; intros ?).
  apply agrees_bind; [auto with agrees|]. intros _. apply decodeArrayElements_agrees.
Qed.
End agree_loops.

Lemma checked_agrees ok fuel d sig :
  agrees (exists s, ok s = false) (decodeChecked ok fuel d sig) (decodeValue fuel d sig).
Proof.
  revert d sig. induction fuel as [|fuel IH]; intros d [|c sig]; cbn [decodeChecked]; try apply agrees_refl.
  destruct (code_of c) eqn:Hc; try apply agrees_refl; cbn [decodeValue]; rewrite Hc.
  - apply agrees_bind; [apply agrees_refl|]. intros [vsig d']. destruct (ok vsig) eqn:Hok.
    + apply agrees_bind; [apply IH|]. intros [v d'']. apply agrees_refl.
    + right. split; [by exists vsig|]. by exists bad_signature.
  - by apply decodeArray_agrees.
  - do 2 (apply agrees_bind; [apply agrees_refl|]; intros ?). by apply decodeMembers_agrees.
Qed.

(** Without a test it is the decoder. *)
Lemma checked_nothing fuel d sig : decodeChecked (fun _ => true) fuel d sig = decodeValue fuel d sig.
Proof. by destruct (checked_agrees (fun _ => true) fuel d sig) as [|[[s [=]] _]]. Qed.

(** [decodeStrict] only accepts the signatures of complete types. *)
Definition valid (s : string) : bool := match complete s with Some _ => true | None => false end.
Definition decodeStrict : nat -> decoder -> string -> outcome (any * decoder) := decodeChecked valid.

Lemma valid_sig t : ty_ok t = true -> valid (sig_of t) = true.
Proof. intros Hok. unfold valid. by rewrite complete_sig. Qed.
