(* ===== verification/MarshalSpec.v ===== *)
(** The wire format as a specification ([wire]), and the refinement of
    Marshal.v to it: encoding a well-typed value produces its wire format
    ([encode_wire]), decoding a wire format gives back the normal form of
    the value ([decode_wire]), hence the round trip.  The fuel that is
    enough is explicit in every statement. *)
From S2P Require Import Prelude Bytes Signature SigParse Marshal Checked.
Import Encoder.

(** ** Wire format (D-Bus specification, "Marshaling (Wire Format)")

    [wire n t v pos bs]: the Go value [v], of type [t] and nesting depth at most
    [n], is marshaled at offset [pos] as the bytes [bs]. *)
Definition word (k pos : nat) (v : Z) : list byte := zeros (padding k pos) ++ le_put k v.

Definition sig_bytes (s : string) : list byte :=
  byte_of_Z (Z.of_nat (slen s)) :: bytes_of_string s ++ [NUL].

Definition str_wire (k : str_ty) (s : string) (pos : nat) : list byte :=
  match k with
  | SSignature => sig_bytes s
  | _ => word 4 pos (Z.of_nat (slen s)) ++ bytes_of_string s ++ [NUL]
  end.

(** A signature's length is one byte on the wire. *)
Definition str_ok (k : str_ty) (s : string) : Prop :=
  match k with SSignature => (slen s < 256)%nat | _ => True end.

Inductive seq_wire {A} (W : A -> nat -> list byte -> Prop) : list A -> nat -> list byte -> Prop :=
| seq_nil pos : seq_wire W [] pos []
| seq_cons a l pos b1 b2 :
    W a pos b1 -> seq_wire W l (pos + length b1)%nat b2 ->
    seq_wire W (a :: l) pos (b1 ++ b2).

(** A dict entry is marshaled as a struct of its key and its value. *)
Definition entry_wire (k : str_ty) (W : any -> nat -> list byte -> Prop)
    (kv : string * any) (pos : nat) (bs : list byte) : Prop :=
  exists b, let p := (pos + padding 8 pos)%nat in
    let key := str_wire k kv.1 p in
    str_ok k kv.1 /\ bs = zeros (padding 8 pos) ++ key ++ b /\
    W kv.2 (p + length key)%nat b.

(** The length word, the padding to the element alignment [a], and the data;
    the padding is not counted in the length. *)
Definition array_data (a pos : nat) : nat :=
  let p := (pos + padding 4 pos + 4)%nat in (p + padding a p)%nat.
Definition array_bytes (a pos : nat) (data : list byte) : list byte :=
  word 4 pos (Z.of_nat (length data)) ++ zeros (padding a (pos + padding 4 pos + 4)) ++ data.

Fixpoint wire (n : nat) (t : ty) (v : any) (pos : nat) (bs : list byte) : Prop :=
  match n with
  | O => False
  | S n =>
      match t, v with
      | TByte, VByte b => bs = [b]
      | TBool, VBool b => bs = word 4 pos (Z.b2z b)
      | TInt16, VInt16 z => - 2 ^ 15 <= z < 2 ^ 15 /\ bs = word 2 pos (to_unsigned 16 z)
      | TUint16, VUint16 z => 0 <= z < 2 ^ 16 /\ bs = word 2 pos z
      | TInt32, VInt32 z => - 2 ^ 31 <= z < 2 ^ 31 /\ bs = word 4 pos (to_unsigned 32 z)
      | TUint32, VUint32 z => 0 <= z < 2 ^ 32 /\ bs = word 4 pos z
      | TInt64, VInt64 z => - 2 ^ 63 <= z < 2 ^ 63 /\ bs = word 8 pos (to_unsigned 64 z)
      | TUint64, VUint64 z => 0 <= z < 2 ^ 64 /\ bs = word 8 pos z
      | TDouble, VFloat64 z => 0 <= z < 2 ^ 64 /\ bs = word 8 pos z
      | TStr k, VString s => str_ok k s /\ bs = str_wire k s pos
      | TVariant, VVariant s v =>
          exists t b, s = sig_of t /\ ty_ok t = true /\ (slen s < 256)%nat /\
            bs = sig_bytes s ++ b /\ wire n t v (pos + slen s + 2)%nat b
      | TArray t, v =>
          exists vs b, toAnySlice v = Ok vs /\ bs = array_bytes (align_of t) pos b /\
            seq_wire (wire n t) vs (array_data (align_of t) pos) b
      | TDict k t, VMap m =>
          exists kvs b, kvs ≡ₚ map_to_list m /\ bs = array_bytes 8 pos b /\
            seq_wire (entry_wire k (wire n t)) kvs (array_data 8 pos) b
      | TStruct ts, VAnys vs =>
          exists b, length ts = length vs /\ bs = zeros (padding 8 pos) ++ b /\
            seq_wire (fun tv => wire n tv.1 tv.2) (zip ts vs) (pos + padding 8 pos)%nat b
      | _, _ => False
      end
  end.

(** ** Well-typed values

    [typed n t v]: the Go value [v] has the D-Bus type [t] (integers in range,
    variants with a complete type of less than 256 characters), with nesting
    depth at most [n]. *)
Fixpoint typed (n : nat) (t : ty) (v : any) : Prop :=
  match n with
  | O => False
  | S n =>
      match t, v with
      | TByte, VByte _ | TBool, VBool _ => True
      | TInt16, VInt16 z => - 2 ^ 15 <= z < 2 ^ 15
      | TUint16, VUint16 z => 0 <= z < 2 ^ 16
      | TInt32, VInt32 z => - 2 ^ 31 <= z < 2 ^ 31
      | TUint32, VUint32 z => 0 <= z < 2 ^ 32
      | TInt64, VInt64 z => - 2 ^ 63 <= z < 2 ^ 63
      | TUint64, VUint64 z | TDouble, VFloat64 z => 0 <= z < 2 ^ 64
      | TStr k, VString s => str_ok k s
      | TVariant, VVariant s v =>
          exists t, s = sig_of t /\ ty_ok t = true /\ (slen s < 256)%nat /\ typed n t v
      | TArray t, v => exists vs, toAnySlice v = Ok vs /\ Forall (typed n t) vs
      | TDict k t, VMap m =>
          forall key x, m !! key = Some x -> str_ok k key /\ typed n t x
      | TStruct ts, VAnys vs => Forall2 (typed n) ts vs
      | _, _ => False
      end
  end.

(** What decoding returns for a Go value: slices of any shape come back as
    [[]any]. *)
Fixpoint norm (v : any) : any :=
  match v with
  | VStrings ss => VAnys (VString <$> ss)
  | VBytes bs => VAnys (VByte <$> bs)
  | VAnys vs => VAnys (norm <$> vs)
  | VMap m => VMap (norm <$> m)
  | VVariant s v => VVariant s (norm v)
  | _ => v
  end.

(** ** The encoder *)
Lemma append_append e b1 b2 : append (append e b1) b2 = append e (b1 ++ b2).
Proof. unfold append. simpl. by rewrite (assoc_L (++)). Qed.

Lemma append_nil e : append e [] = e.
Proof. destruct e. unfold append. simpl. by rewrite (right_id_L [] (++)). Qed.

Lemma len_append e bs : len (append e bs) = (len e + length bs)%nat.
Proof. unfold len, append. simpl. by rewrite length_app. Qed.

(** The alignment loop writes exactly the padding. *)
Lemma align_loop_padding gas n e :
  (n <> 0)%nat -> (padding n (len e) <= gas)%nat ->
  align_loop gas n e = append e (zeros (padding n (len e))).
Proof.
  intros Hn. revert e. induction gas as [|gas IH]; intros e Hg; simpl.
  - replace (padding n (len e)) with 0%nat by lia. simpl.
    rewrite append_nil. by case_decide.
  - case_decide as Hd.
    + by rewrite padding_0, append_nil by lia.
    + rewrite (padding_S n (len e)) in * by lia.
      rewrite IH, append_append; rewrite len_append, Nat.add_1_r; [done|lia].
Qed.

Lemma align_padding e n :
  (n <> 0)%nat -> align e n = append e (zeros (padding n (len e))).
Proof.
  intros Hn. apply align_loop_padding; [done|].
  pose proof (padding_lt n (len e) Hn). lia.
Qed.

Lemma putUint16_word e v : putUint16 e v = append e (word 2 (len e) v).
Proof. unfold putUint16. by rewrite align_padding, append_append by lia. Qed.
Lemma putUint32_word e v : putUint32 e v = append e (word 4 (len e) v).
Proof. unfold putUint32. by rewrite align_padding, append_append by lia. Qed.
Lemma putUint64_word e v : putUint64 e v = append e (word 8 (len e) v).
Proof. unfold putUint64. by rewrite align_padding, append_append by lia. Qed.

Lemma le_put_mod n v : le_put n (v mod 256 ^ Z.of_nat n) = le_put n v.
Proof.
  revert v. induction n as [|n IH]; intros v; [done|].
  cbn [le_put]. rewrite Nat2Z.inj_succ, Z.pow_succ_r by lia.
  pose proof (Z.pow_pos_nonneg 256 (Z.of_nat n) eq_refl (Nat2Z.is_nonneg n)).
  f_equal.
  - unfold byte_of_Z. do 2 f_equal.
    rewrite Z.rem_mul_r by lia. rewrite Z.mul_comm, Z_mod_plus_full. by rewrite Zmod_mod.
  - rewrite !Z.shiftr_div_pow2 by lia. change (2 ^ 8) with 256.
    rewrite Z.rem_mul_r by lia. rewrite Z.mul_comm, Z_div_plus_full by lia.
    rewrite (Z.div_small (v mod 256)), Z.add_0_l by (apply Z.mod_pos_bound; lia).
    apply IH.
Qed.

Lemma le_put_4_unsigned v : le_put 4 (to_unsigned 32 v) = le_put 4 v.
Proof. apply (le_put_mod 4). Qed.

Lemma putStringLike_wire e s :
  putStringLike e s = append e (str_wire SString s (len e)).
Proof.
  unfold putStringLike. rewrite putUint32_word, !append_append.
  unfold str_wire, word. by rewrite le_put_4_unsigned, <- !(assoc_L (++)).
Qed.

Lemma putSignature_wire e s : putSignature e s = append e (sig_bytes s).
Proof. unfold putSignature. by rewrite !append_append. Qed.

(** [encodes rec sig W v]: the recursive call on [v] appends a wire format of it. *)
Definition encodes (rec : encoder -> string -> any -> outcome encoder) (sig : string)
    (W : any -> nat -> list byte -> Prop) (v : any) : Prop :=
  forall e, exists b, rec e sig v = Ok (append e b) /\ W v (len e) b.

Section loops.
Context (rec : encoder -> string -> any -> outcome encoder).

Lemma encodeItems_wire sig W vs e :
  Forall (encodes rec sig W) vs ->
  exists b, encodeItems rec sig e vs = Ok (append e b) /\ seq_wire W vs (len e) b.
Proof.
  intros H. revert e. induction H as [|v vs Hv Hvs IH]; intros e; simpl.
  { exists []. rewrite append_nil. split; [done|constructor]. }
  destruct (Hv e) as (b1 & -> & HW1). simpl.
  destruct (IH (append e b1)) as (b2 & -> & HW2).
  exists (b1 ++ b2). rewrite append_append. split; [done|].
  constructor; [done|]. by rewrite <- len_append.
Qed.

Lemma encodeEntries_wire k sig W kvs e :
  Forall (fun kv => str_ok k kv.1 /\ encodes rec sig W kv.2 /\
    forall e, rec e (sig_of_str k) (VString kv.1) = Ok (append e (str_wire k kv.1 (len e)))) kvs ->
  exists b, encodeEntries rec (sig_of_str k) sig e kvs = Ok (append e b) /\
  seq_wire (entry_wire k W) kvs (len e) b.
Proof.
  intros H. revert e. induction H as [|[key v] kvs (Hok & Hv & Hk) Hkvs IH]; intros e; simpl.
  { exists []. rewrite append_nil. split; [done|constructor]. }
  rewrite align_padding, Hk by lia. simpl in *.
  rewrite append_append, len_append, length_zeros.
  set (key' := str_wire k key _).
  destruct (Hv (append e (zeros (padding 8 (len e)) ++ key'))) as (b1 & -> & HW1). simpl.
  rewrite append_append.
  destruct (IH (append e ((zeros (padding 8 (len e)) ++ key') ++ b1))) as (b2 & -> & HW2).
  exists (((zeros (padding 8 (len e)) ++ key') ++ b1) ++ b2).
  rewrite append_append. split; [done|].
  rewrite len_append in *. constructor; [|done].
  exists b1. rewrite length_app, length_zeros, Nat.add_assoc, <- (assoc_L (++)) in *. done.
Qed.

Lemma encodeMembers_wire W ts vs0 vs e gas :
  Forall2 (fun t v => encodes rec (sig_of t) (W t) v) ts vs ->
  (slen (sig_of_list ts) <= gas)%nat ->
  exists b, encodeMembers rec gas e (sig_of_list ts) (vs0 ++ vs) (length vs0)
    = Ok (append e b) /\
  seq_wire (fun tv => W tv.1 tv.2) (zip ts vs) (len e) b.
Proof.
  intros H. revert vs0 e gas. induction H as [|t v ts vs Hv Hts IH]; intros vs0 e gas Hg.
  { exists []. rewrite append_nil. split; [by destruct gas|constructor]. }
  cbn [sig_of_list foldr] in *. fold (sig_of_list ts) in *.
  rewrite slen_app in Hg.
  assert (slen (sig_of t) <> 0)%nat.
  { pose proof (sig_of_nonempty t). by destruct (sig_of t). }
  destruct gas as [|gas]; [lia|]. cbn [encodeMembers].
  destruct (sig_of t +:+ sig_of_list ts) as [|c s] eqn:Hs; [by destruct (sig_of t)|].
  rewrite <- Hs, splitSig_sig_of. simpl.
  rewrite list_lookup_middle by done.
  destruct (Hv e) as (b1 & -> & HW1). simpl.
  destruct (IH (vs0 ++ [v]) (append e b1) gas) as (b2 & Heq & HW2); [lia|].
  rewrite length_app, Nat.add_1_r, <- (assoc_L (++)) in Heq.
  simpl in Heq. rewrite Heq, append_append.
  exists (b1 ++ b2). split; [done|]. constructor; [done|].
  by rewrite <- len_append.
Qed.
End loops.

Lemma patch_length e p z b v0 v :
  patchUint32 (append e (zeros p ++ le_put 4 v0 ++ z ++ b)) (len e + p) v
  = append e (zeros p ++ le_put 4 v ++ z ++ b).
Proof.
  unfold patchUint32, append. f_equal. simpl.
  assert (Hl : (len e + p)%nat = length (buf e ++ zeros p)) by (by rewrite length_app, length_zeros).
  rewrite !(assoc_L (++) (buf e)). rewrite take_app_length' by done. rewrite drop_app_add' by done.
  by rewrite <- !(assoc_L (++)).
Qed.

(** The array function, given its loop. *)
Lemma encodeArray_wire `{MapRange} rec e c elemSig val a :
  let pos := len e in
  alignmentOf elemSig = Ok a -> a <> 0%nat ->
  forall b,
  match elemSig with
  | EmptyString => Panic
  | String ch _ =>
      let e := append e (word 4 pos 0 ++ zeros (padding a (pos + padding 4 pos + 4))) in
      if Ascii.eqb ch "{" then
        match val with
        | VMap m =>
            '(keySig, valSig, _) ← splitDictEntry elemSig;
            encodeEntries rec keySig valSig e (map_range (len e) m)
        | _ => Err (Errorf "dbus: %q wants map[string]any, got %T")
        end
      else
        items ← wrapf "dbus: array %q: " (toAnySlice val);
        encodeItems rec elemSig e items
  end = Ok (append e (word 4 pos 0 ++ zeros (padding a (pos + padding 4 pos + 4)) ++ b)) ->
  encodeArray rec e (String c elemSig) val = Ok (append e (array_bytes a pos b)).
Proof.
  intros pos Ha Ha0 b Hloop. unfold encodeArray.
  assert (Hs : slice 1 (Z.of_nat (slen (String c elemSig))) (String c elemSig) = Ok elemSig).
  { unfold slice. cbn [String.length]. rewrite decide_True by lia. f_equal.
    replace (Z.to_nat 1) with 1%nat by lia. cbn [String.substring].
    replace (Z.to_nat _) with (slen elemSig) by lia.
    rewrite <- (sapp_nil_r elemSig) at 2. apply substring_prefix. }
  erewrite bind_Ok by exact Hs. cbv beta zeta. erewrite bind_Ok by exact Ha. cbv beta zeta.
  rewrite putUint32_word, align_padding, append_append by done.
  assert (Hl : len (append e (word 4 pos 0)) = (pos + padding 4 pos + 4)%nat).
  { rewrite len_append. unfold word. rewrite length_app, length_zeros, length_le_put.
    unfold pos; lia. }
  fold pos. rewrite Hl.
  erewrite bind_Ok by exact Hloop. cbv beta zeta. f_equal.
  replace (pos + padding 4 pos + 4 - 4)%nat with (len e + padding 4 pos)%nat by (unfold pos; lia).
  unfold word at 1. rewrite <- (assoc_L (++)), patch_length.
  unfold array_bytes, word. rewrite <- !(assoc_L (++)). do 3 f_equal.
  rewrite le_put_4_unsigned. do 2 f_equal.
  rewrite !len_append, !length_app, !length_zeros, !length_le_put. fold pos. lia.
Qed.

Lemma align_of_nonzero t : align_of t <> 0%nat.
Proof. by destruct t as [| | | | | | | | |[]| | | |]. Qed.

Lemma fold_sig_of_list ts : foldr (fun t s => sig_of t +:+ s) "" ts = sig_of_list ts.
Proof. done. Qed.

Section encode.
Context `{MapRangeOk}.

Lemma encode_str n e k s :
  str_ok k s ->
  encodeValue (S n) e (sig_of_str k) (VString s) = Ok (append e (str_wire k s (len e))).
Proof.
  intros Hs. destruct k; simpl; by rewrite ?putStringLike_wire, ?putSignature_wire.
Qed.

Lemma encode_array n fuel e t val :
  typed (S n) (TArray t) val ->
  (forall v, typed n t v -> encodes (encodeValue fuel) (sig_of t) (wire n t) v) ->
  exists bs, encodeValue (S fuel) e (sig_of (TArray t)) val = Ok (append e bs) /\
  wire (S n) (TArray t) val (len e) bs.
Proof.
  intros (vs & Hvs & Hty) IH.
  destruct (encodeItems_wire (encodeValue fuel) (sig_of t) (wire n t) vs
    (append e (word 4 (len e) 0 ++ zeros (padding (align_of t) (len e + padding 4 (len e) + 4)))))
    as (b & Heq & Hw).
  { eapply Forall_impl; [exact Hty|apply IH]. }
  exists (array_bytes (align_of t) (len e) b). split.
  - cbn [sig_of encodeValue code_of String.append].
    apply encodeArray_wire; [|apply align_of_nonzero|].
    { rewrite <- (sapp_nil_r (sig_of t)). apply alignmentOf_sig_of. }
    destruct (sig_of_not_brace t) as (ch & s & Hs & Hch). rewrite Hs in *.
    simpl. rewrite Hch, Hvs. simpl. rewrite Heq, append_append. by rewrite <- (assoc_L (++)).
  - exists vs, b. split_and!; [done..|].
    rewrite len_append in Hw. unfold word in Hw.
    rewrite !length_app, !length_zeros, length_le_put in Hw.
    unfold array_data. by rewrite !Nat.add_assoc in *.
Qed.

Lemma encode_dict n fuel e k t m :
  typed (S n) (TDict k t) (VMap m) -> (n <= fuel)%nat ->
  (forall v, typed n t v -> encodes (encodeValue fuel) (sig_of t) (wire n t) v) ->
  exists bs, encodeValue (S fuel) e (sig_of (TDict k t)) (VMap m) = Ok (append e bs) /\
  wire (S n) (TDict k t) (VMap m) (len e) bs.
Proof.
  intros Hty Hf IH.
  set (e' := append e (word 4 (len e) 0 ++ zeros (padding 8 (len e + padding 4 (len e) + 4)))).
  pose proof (map_range_perm (len e') m) as Hperm.
  destruct (encodeEntries_wire (encodeValue fuel) k (sig_of t) (wire n t)
    (map_range (len e') m) e') as (b & Heq & Hw).
  { apply Forall_forall. intros [key x] Hin.
    rewrite Hperm, elem_of_map_to_list in Hin.
    destruct (Hty _ _ Hin) as [Hok Hx]. split_and!; [done|by apply IH|].
    intros e0. destruct n; [done|]. destruct fuel; [lia|]. by apply encode_str. }
  exists (array_bytes 8 (len e) b). split.
  - cbn [sig_of encodeValue code_of String.append].
    apply encodeArray_wire; [done|done|].
    cbn [Ascii.eqb Bool.eqb andb]. cbv zeta. fold e'.
    erewrite bind_Ok by exact (splitDictEntry_sig_of k t). cbv beta iota.
    rewrite Heq. unfold e'. rewrite append_append. by rewrite <- (assoc_L (++)).
  - exists (map_range (len e') m), b. split_and!; [done..|].
    unfold e' in Hw at 2. rewrite len_append in Hw. unfold word in Hw.
    rewrite !length_app, !length_zeros, length_le_put in Hw.
    unfold array_data. by rewrite !Nat.add_assoc in *.
Qed.

Lemma encode_struct n fuel e ts vs :
  typed (S n) (TStruct ts) (VAnys vs) ->
  (forall t v, typed n t v -> encodes (encodeValue fuel) (sig_of t) (wire n t) v) ->
  exists bs, encodeValue (S fuel) e (sig_of (TStruct ts)) (VAnys vs) = Ok (append e bs) /\
  wire (S n) (TStruct ts) (VAnys vs) (len e) bs.
Proof.
  intros Hty IH.
  destruct (encodeMembers_wire (encodeValue fuel) (wire n) ts [] vs
    (append e (zeros (padding 8 (len e)))) (slen (sig_of_list ts))) as (b & Heq & Hw); [|done|].
  { eapply Forall2_impl; [exact Hty|]. intros; by apply IH. }
  exists (zeros (padding 8 (len e)) ++ b). split.
  - rewrite sig_of_struct. cbn [encodeValue code_of String.append].
    rewrite align_padding by done.
    erewrite bind_Ok by exact (slice_inner "(" ")" (sig_of_list ts)). cbv beta.
    change ([] ++ vs) with vs in Heq. change (length []) with 0%nat in Heq.
    by rewrite Heq, append_append.
  - exists b. split_and!; [by eapply Forall2_length|done|].
    by rewrite len_append, length_zeros in Hw.
Qed.

(** Encoding a well-typed value never fails, appends to the buffer, and what
    it appends is the value's wire format at that offset. *)
Lemma encode_wire n fuel t v :
  typed n t v -> (n <= fuel)%nat -> encodes (encodeValue fuel) (sig_of t) (wire n t) v.
Proof.
  revert fuel t v. induction n as [|n IH]; intros fuel t v Hty Hf; [done|].
  destruct fuel as [|fuel]; [lia|]. intros e.
  assert (IH' : forall t v, typed n t v -> encodes (encodeValue fuel) (sig_of t) (wire n t) v)
    by (intros; apply IH; [done|lia]).
  destruct t as [| | | | | | | | |k| |t|k t|ts].
  10: { destruct v; try done. exists (str_wire k s (len e)). split; [by apply encode_str|done]. }
  11: { apply encode_array; auto. }
  11: { destruct v; try done. apply encode_dict; auto with lia. }
  11: { destruct v; try done. apply encode_struct; auto. }
  10: { destruct v as [| | | | | | | | | | |s v| | | |]; try done.
    destruct Hty as (t & -> & Hok & Hl & Hty).
    destruct (IH' _ _ Hty (append e (sig_bytes (sig_of t)))) as (b & Heq & Hw).
    exists (sig_bytes (sig_of t) ++ b). split.
    - cbn [sig_of encodeValue code_of]. rewrite putSignature_wire, Heq. simpl.
      by rewrite append_append.
    - exists t, b. split_and!; try done.
      rewrite len_append in Hw. simpl length in Hw.
      rewrite length_app, length_bytes_of_string in Hw. simpl in Hw.
      by replace (len e + slen (sig_of t) + 2)%nat
        with (len e + S (slen (sig_of t) + 1))%nat by lia. }
  all: destruct v as [| |[]| | | | | | | | | | | | |]; try done; eexists;
    (split; [simpl; rewrite ?putUint16_word, ?putUint32_word, ?putUint64_word; reflexivity|done]).
Qed.
End encode.

(** ** The decoder *)

(** [cur pre rest]: the decoder that has consumed [pre] and has [rest] left. *)
Definition cur (pre rest : list byte) : Decoder.decoder :=
  Decoder.Dec (pre ++ rest) (Z.of_nat (length pre)).

Lemma bytes_at_cur pre b rest :
  Decoder.bytes_at (cur pre (b ++ rest)) (Z.of_nat (length b)) = b.
Proof.
  unfold Decoder.bytes_at, cur. simpl. rewrite !Nat2Z.id.
  by rewrite drop_app_length, take_app_length.
Qed.

Lemma advance_cur pre b rest :
  Decoder.advance (cur pre (b ++ rest)) (Z.of_nat (length b)) = cur (pre ++ b) rest.
Proof.
  unfold Decoder.advance, cur. simpl. rewrite length_app, (assoc_L (++)). f_equal. lia.
Qed.

Lemma advance_1 pre b rest :
  Decoder.advance (cur pre (b :: rest)) 1 = cur (pre ++ [b]) rest.
Proof. apply (advance_cur pre [b] rest). Qed.

(** Past a string and its terminating NUL. *)
Lemma advance_nul pre b rest :
  Decoder.advance (cur pre (b ++ NUL :: rest)) (Z.of_nat (length b) + 1)
  = cur (pre ++ b ++ [NUL]) rest.
Proof.
  rewrite <- advance_cur. rewrite <- (assoc_L (++) b), length_app. f_equal. simpl. lia.
Qed.

Lemma bytes_at_1 pre b rest : Decoder.bytes_at (cur pre (b :: rest)) 1 = [b].
Proof. apply (bytes_at_cur pre [b] rest). Qed.

Lemma need_cur pre rest n :
  n <= Z.of_nat (length rest) -> Decoder.need (cur pre rest) n = Ok tt.
Proof.
  intros Hn. unfold Decoder.need, Decoder.blen, cur. simpl. rewrite length_app.
  rewrite decide_False by lia. done.
Qed.

Lemma pos_mod pre rest n :
  Decoder.pos (cur pre rest) mod Z.of_nat n = Z.of_nat (length pre mod n).
Proof. symmetry. apply Nat2Z.inj_mod. Qed.

Lemma align_loop_cur gas n pre rest :
  (n <> 0)%nat -> (padding n (length pre) <= gas)%nat ->
  Decoder.align_loop gas (Z.of_nat n) (cur pre (zeros (padding n (length pre)) ++ rest))
  = Ok (cur (pre ++ zeros (padding n (length pre))) rest).
Proof.
  intros Hn. revert pre. induction gas as [|gas IH]; intros pre Hg; cbn [Decoder.align_loop].
  - pose proof (padding_aligned n (length pre) Hn) as Hm.
    replace (padding n (length pre)) with 0%nat in * by lia.
    rewrite Nat.add_0_r in Hm. rewrite pos_mod, decide_True by lia.
    unfold zeros. simpl. by rewrite (right_id_L [] (++)).
  - rewrite pos_mod. destruct (decide (length pre mod n = 0)%nat) as [Hd|Hd].
    + rewrite decide_True by lia. rewrite (padding_0 n) by done. unfold zeros. simpl.
      by rewrite (right_id_L [] (++)).
    + rewrite decide_False by lia. rewrite (padding_S n (length pre)) in * by done.
      rewrite decide_False.
      2: { unfold Decoder.blen, cur, zeros. simpl. rewrite length_app. simpl. lia. }
      unfold zeros. cbn [replicate app].
      rewrite advance_1.
      specialize (IH (pre ++ [NUL])). rewrite length_app, Nat.add_1_r in IH.
      unfold zeros in IH. rewrite IH by lia. by rewrite <- (assoc_L (++)).
Qed.

Lemma align_cur n pre rest :
  (n <> 0)%nat ->
  Decoder.align (cur pre (zeros (padding n (length pre)) ++ rest)) n
  = Ok (cur (pre ++ zeros (padding n (length pre))) rest).
Proof.
  intros Hn. apply align_loop_cur; [done|].
  pose proof (padding_lt n (length pre) Hn). lia.
Qed.

Ltac take_bytes b :=
  rewrite (bytes_at_cur _ b), (advance_cur _ b), <- ?(assoc_L (++)).

Lemma getByte_cur pre b rest :
  Decoder.getByte (cur pre ([b] ++ rest)) = Ok (b, cur (pre ++ [b]) rest).
Proof.
  unfold Decoder.getByte. rewrite need_cur by (simpl; lia). simpl.
  by rewrite bytes_at_1, advance_1.
Qed.

(** Reading an aligned [k]-byte word that [putUintN] wrote. *)
Lemma getWord_cur k pre v rest :
  (k <> 0)%nat -> 0 <= v < 256 ^ Z.of_nat k ->
  (d ← Decoder.align (cur pre (word k (length pre) v ++ rest)) k;
   _ ← Decoder.need d (Z.of_nat k);
   Ok (le_get (Decoder.bytes_at d (Z.of_nat k)), Decoder.advance d (Z.of_nat k)))
  = Ok (v, cur (pre ++ word k (length pre) v) rest).
Proof.
  intros Hk Hv. unfold word. rewrite <- (assoc_L (++)).
  rewrite align_cur by done. simpl mbind.
  rewrite need_cur by (rewrite length_app, length_le_put; lia). simpl mbind.
  replace (Z.of_nat k) with (Z.of_nat (length (le_put k v))) by (by rewrite length_le_put).
  rewrite bytes_at_cur, advance_cur, le_get_put_small by done.
  by rewrite <- (assoc_L (++)).
Qed.

Lemma getUint16_cur pre v rest :
  0 <= v < 2 ^ 16 ->
  Decoder.getUint16 (cur pre (word 2 (length pre) v ++ rest))
  = Ok (v, cur (pre ++ word 2 (length pre) v) rest).
Proof. apply (getWord_cur 2); lia. Qed.
Lemma getUint32_cur pre v rest :
  0 <= v < 2 ^ 32 ->
  Decoder.getUint32 (cur pre (word 4 (length pre) v ++ rest))
  = Ok (v, cur (pre ++ word 4 (length pre) v) rest).
Proof. apply (getWord_cur 4); lia. Qed.
Lemma getUint64_cur pre v rest :
  0 <= v < 2 ^ 64 ->
  Decoder.getUint64 (cur pre (word 8 (length pre) v ++ rest))
  = Ok (v, cur (pre ++ word 8 (length pre) v) rest).
Proof. apply (getWord_cur 8); lia. Qed.

Lemma getStringLike_cur pre s rest :
  Z.of_nat (slen s) < 2 ^ 32 ->
  Decoder.getStringLike (cur pre (str_wire SString s (length pre) ++ rest))
  = Ok (s, cur (pre ++ str_wire SString s (length pre)) rest).
Proof.
  intros Hs. unfold str_wire, Decoder.getStringLike. rewrite <- (assoc_L (++)).
  rewrite getUint32_cur by lia. simpl mbind. rewrite <- (assoc_L (++)).
  rewrite need_cur by (rewrite !length_app, length_bytes_of_string; simpl; lia). simpl mbind.
  rewrite <- length_bytes_of_string, bytes_at_cur, string_of_bytes_of_string.
  by rewrite advance_nul, <- !(assoc_L (++)).
Qed.

Lemma getSignature_cur pre s rest :
  (slen s < 256)%nat ->
  Decoder.getSignature (cur pre (sig_bytes s ++ rest)) = Ok (s, cur (pre ++ sig_bytes s) rest).
Proof.
  intros Hs. unfold sig_bytes, Decoder.getSignature.
  set (b := byte_of_Z _). change ((b :: ?l) ++ rest) with ([b] ++ (l ++ rest)).
  rewrite getByte_cur. simpl mbind.
  assert (Z_of_byte b = Z.of_nat (slen s)) as ->.
  { unfold b. rewrite Z_of_byte_of_Z, Z.mod_small by lia. done. }
  rewrite <- (assoc_L (++)).
  rewrite need_cur by (rewrite !length_app, length_bytes_of_string; simpl; lia). simpl mbind.
  rewrite <- length_bytes_of_string, bytes_at_cur, string_of_bytes_of_string.
  by rewrite advance_nul, <- !(assoc_L (++)).
Qed.

(** [decodes rec sig L W v]: the recursive call reads back a wire format of [v]
    of at most [L] bytes, and consumes at least one byte. *)
Definition decodes (rec : Decoder.decoder -> string -> outcome (any * Decoder.decoder))
    (sig : string) (L : nat) (W : any -> nat -> list byte -> Prop) (v : any) : Prop :=
  forall pre bs rest, W v (length pre) bs -> (length bs <= L)%nat ->
    bs <> [] /\ rec (cur pre (bs ++ rest)) sig = Ok (norm v, cur (pre ++ bs) rest).

(** The map that the decoder builds from entries in any order. *)
Definition collect (out : gmap string any) (kvs : list (string * any)) : gmap string any :=
  fold_left (fun out kv => <[kv.1 := norm kv.2]> out) kvs out.

Lemma collect_lookup out kvs key :
  NoDup kvs.*1 ->
  collect out kvs !! key
  = match (list_to_map kvs : gmap string any) !! key with
    | Some v => Some (norm v) | None => out !! key end.
Proof.
  revert out. induction kvs as [|[k v] kvs IH]; intros out; simpl; [done|].
  intros [Hni Hnd]%NoDup_cons. unfold collect in *. simpl. rewrite IH by done.
  destruct (decide (k = key)) as [->|Hne].
  - rewrite !lookup_insert_eq. by rewrite not_elem_of_list_to_map_1.
  - by rewrite !lookup_insert_ne.
Qed.

Lemma collect_perm kvs (m : gmap string any) :
  kvs ≡ₚ map_to_list m -> collect ∅ kvs = norm <$> m.
Proof.
  intros Hp. assert (Hnd : NoDup kvs.*1) by (rewrite Hp; apply NoDup_fst_map_to_list).
  apply map_eq. intros key. rewrite collect_lookup, lookup_fmap by done.
  assert (list_to_map kvs = m) as ->.
  { rewrite <- (list_to_map_to_list m). by apply list_to_map_proper. }
  by destruct (m !! key).
Qed.

Section decode_loops.
Context (rec : Decoder.decoder -> string -> outcome (any * Decoder.decoder)).

Lemma decodeItems_wire sig L W vs pre b rest out gas :
  Forall (decodes rec sig L W) vs ->
  seq_wire W vs (length pre) b -> (length b <= L)%nat -> (length b <= gas)%nat ->
  Decoder.decodeItems rec gas sig (cur pre (b ++ rest))
    (Z.of_nat (length pre + length b)) out
    = Ok (VAnys (out ++ (norm <$> vs)), cur (pre ++ b) rest).
Proof.
  intros Hvs. revert pre b out gas. induction Hvs as [|v vs Hv Hvs IH];
    intros pre b out gas Hw HL Hg; inversion Hw as [|? ? ? b1 b2 HW1 HW2]; subst; simpl.
  - rewrite !(right_id_L [] (++)). destruct gas; simpl; rewrite decide_False by lia; done.
  - rewrite length_app in *.
    destruct (Hv pre b1 (b2 ++ rest) HW1) as [Hne Heq]; [lia|].
    destruct b1 as [|c b1]; [done|]. simpl length in *.
    destruct gas as [|gas]; [lia|]. cbn [Decoder.decodeItems].
    rewrite decide_True by (simpl; lia).
    rewrite <- (assoc_L (++)), Heq. simpl.
    specialize (IH (pre ++ c :: b1) b2 (out ++ [norm v]) gas).
    rewrite length_app in IH. simpl in IH.
    replace (length pre + (S (length b1) + length b2))%nat
      with (length pre + S (length b1) + length b2)%nat by lia.
    change (S (length b1 + length b2)) with (S (length b1) + length b2)%nat in *.
    rewrite Nat.add_assoc, IH by (done || lia).
    by rewrite <- !(assoc_L (++)).
Qed.

Lemma decodeMembers_wire L W ts vs pre b rest out gas :
  Forall2 (fun t v => decodes rec (sig_of t) L (W t) v) ts vs ->
  seq_wire (fun tv => W tv.1 tv.2) (zip ts vs) (length pre) b -> (length b <= L)%nat ->
  (slen (sig_of_list ts) <= gas)%nat ->
  Decoder.decodeMembers rec gas (cur pre (b ++ rest)) (sig_of_list ts) out
    = Ok (VAnys (out ++ (norm <$> vs)), cur (pre ++ b) rest).
Proof.
  intros Hvs. revert pre b out gas. induction Hvs as [|t v ts vs Hv Hvs IH];
    intros pre b out gas Hw HL Hg; inversion Hw as [|? ? ? b1 b2 HW1 HW2]; subst.
  - simpl. rewrite !(right_id_L [] (++)). by destruct gas.
  - rewrite length_app in *. simpl in HW1.
    destruct (Hv pre b1 (b2 ++ rest) HW1) as [Hne Heq]; [lia|].
    cbn [sig_of_list foldr] in *. fold (sig_of_list ts) in *. rewrite slen_app in Hg.
    assert (slen (sig_of t) <> 0)%nat.
    { pose proof (sig_of_nonempty t). by destruct (sig_of t). }
    destruct gas as [|gas]; [lia|]. cbn [Decoder.decodeMembers].
    destruct (sig_of t +:+ sig_of_list ts) as [|c s] eqn:Hs; [by destruct (sig_of t)|].
    rewrite <- Hs, splitSig_sig_of. simpl mbind.
    rewrite <- (assoc_L (++)), Heq. simpl mbind.
    rewrite IH; [|by rewrite length_app|lia|lia].
    by rewrite <- !(assoc_L (++)).
Qed.
End decode_loops.

Lemma str_wire_nonempty k s pos : str_wire k s pos <> [].
Proof.
  intros H%(f_equal length). destruct k; unfold str_wire, sig_bytes, word in H;
    simpl in H; rewrite ?length_app, ?length_le_put in H; simpl in H; lia.
Qed.

Lemma slen_str_wire k s pos : (slen s <= length (str_wire k s pos))%nat.
Proof.
  destruct k; unfold str_wire, sig_bytes, word; simpl;
    rewrite ?length_app, ?length_bytes_of_string; simpl; lia.
Qed.

Lemma decode_str fuel k s pre rest :
  str_ok k s -> Z.of_nat (length (str_wire k s (length pre))) < 2 ^ 32 ->
  Decoder.decodeValue (S fuel) (cur pre (str_wire k s (length pre) ++ rest)) (sig_of_str k)
  = Ok (VString s, cur (pre ++ str_wire k s (length pre)) rest).
Proof.
  intros Hok Hl. pose proof (slen_str_wire k s (length pre)).
  destruct k; cbn [Decoder.decodeValue sig_of_str code_of].
  1,2: change (str_wire SPath) with (str_wire SString) in *;
    by rewrite getStringLike_cur by lia.
  cbn [str_wire]. by rewrite getSignature_cur by done.
Qed.

Lemma decodeEntries_wire rec sig k L W kvs pre b rest out gas :
  (forall s pre rest, str_ok k s -> Z.of_nat (length (str_wire k s (length pre))) < 2 ^ 32 ->
    rec (cur pre (str_wire k s (length pre) ++ rest)) (sig_of_str k)
    = Ok (VString s, cur (pre ++ str_wire k s (length pre)) rest)) ->
  Forall (fun kv => decodes rec sig L W kv.2) kvs ->
  seq_wire (entry_wire k W) kvs (length pre) b ->
  (length b <= L)%nat -> Z.of_nat (length b) < 2 ^ 32 -> (length b <= gas)%nat ->
  Decoder.decodeEntries rec gas (sig_of_str k) sig
    (cur pre (b ++ rest)) (Z.of_nat (length pre + length b)) out
  = Ok (VMap (collect out kvs), cur (pre ++ b) rest).
Proof.
  intros Hstr Hvs. revert pre b out gas. induction Hvs as [|[key v] kvs Hv Hvs IH];
    intros pre b out gas Hw HL Hsz Hg; inversion Hw as [|? ? ? b1 b2 HW1 HW2]; subst; simpl.
  - rewrite !(right_id_L [] (++)). destruct gas; simpl; rewrite decide_False by lia; done.
  - destruct HW1 as (b1' & Hok & -> & HWv). cbn [fst snd] in *.
    assert (Hal := fun X => align_cur 8 pre X ltac:(done)).
    assert (Hkd := fun X => Hstr key (pre ++ zeros (padding 8 (length pre))) X Hok).
    pose proof (str_wire_nonempty k key (length pre + padding 8 (length pre))) as Hkb.
    rewrite length_app, length_zeros in Hkd.
    rewrite !length_app, ?length_zeros in *.
    set (kb := str_wire k key (length pre + padding 8 (length pre))) in *. clearbody kb.
    assert (0 < length kb)%nat by (destruct kb; [done|simpl; lia]).
    destruct (Hv (pre ++ zeros (padding 8 (length pre)) ++ kb) b1' (b2 ++ rest)) as [_ Heq];
      [by rewrite !length_app, length_zeros, Nat.add_assoc|lia|].
    destruct gas as [|gas]; [lia|].
    cbn [Decoder.decodeEntries]. rewrite decide_True by (simpl; lia).
    rewrite <- !(assoc_L (++)), Hal. simpl mbind.
    rewrite Hkd by lia. simpl. rewrite <- !(assoc_L (++)), Heq. simpl.
    specialize (IH (pre ++ zeros (padding 8 (length pre)) ++ kb ++ b1') b2 (<[key := norm v]> out) gas).
    rewrite !length_app, length_zeros in IH. rewrite <- !(assoc_L (++)) in *.
    rewrite Nat.add_assoc, IH; [done|exact HW2|lia..].
Qed.

Lemma wire_nonempty n t v pos bs : ty_ok t = true -> wire n t v pos bs -> bs <> [].
Proof.
  revert t v pos bs. induction n as [|n IH]; intros t v pos bs Hok Hw; [done|].
  destruct t as [| | | | | | | | |k| |t|k t|ts]; destruct v; simpl in Hw; try done;
    destruct_and?; subst; try (by apply str_wire_nonempty); try done;
    try (intros He%(f_equal length); unfold word in He;
         rewrite length_app, length_le_put in He; simpl in He; lia).
  all: try (destruct Hw as (? & ? & _ & -> & _); unfold array_bytes, word;
    intros He%(f_equal length); rewrite !length_app, length_le_put in He; simpl in He; lia).
  - by destruct Hw as (? & ? & -> & _ & _ & -> & _).
  - destruct Hw as (b & Hl & -> & Hw). simpl in Hok.
    destruct ts as [|t ts]; [done|]. destruct vs as [|v vs]; [done|].
    inversion Hw as [|? ? ? b1 b2 HW1 HW2]; subst. simpl in HW1.
    apply andb_true_iff in Hok as [_ Hok]. simpl in Hok. apply andb_true_iff in Hok as [Hok _].
    specialize (IH _ _ _ _ Hok HW1). destruct b1; [done|].
    intros He%(f_equal length). rewrite !length_app in He. simpl in He. lia.
Qed.

Section decode.
Context (ok : string -> bool) (n fuel L : nat).
Context (IH : forall t v, ty_ok t = true -> (slen (sig_of t) + L < fuel)%nat ->
decodes (decodeChecked ok fuel) (sig_of t) L (wire n t) v).

Lemma slice_tail c s :
  slice 1 (Z.of_nat (slen (String c s))) (String c s) = Ok s.
Proof using.
  unfold slice. cbn [String.length]. rewrite decide_True by lia. f_equal.
  replace (Z.to_nat 1) with 1%nat by lia. cbn [String.substring].
  replace (Z.to_nat _) with (slen s) by lia.
  rewrite <- (sapp_nil_r s) at 2. apply substring_prefix.
Qed.

(** The header of an array: length word and padding. *)
Lemma decodeArray_wire rec gas c elemSig a pre b rest :
  alignmentOf elemSig = Ok a -> a <> 0%nat -> Z.of_nat (length b) < 2 ^ 32 ->
  Decoder.decodeArray rec gas (cur pre (array_bytes a (length pre) b ++ rest)) (String c elemSig)
    = (let pre' := pre ++ word 4 (length pre) (Z.of_nat (length b)) ++
      zeros (padding a (length pre + padding 4 (length pre) + 4)) in
      Decoder.decodeArrayElements rec gas (cur pre' (b ++ rest)) elemSig
        (Z.of_nat (length pre' + length b))).
Proof using.
  intros Ha Ha0 Hb. unfold Decoder.decodeArray, array_bytes.
  erewrite bind_Ok by apply slice_tail. rewrite <- !(assoc_L (++)).
  rewrite getUint32_cur by lia. simpl mbind. rewrite Ha. simpl mbind.
  set (pre1 := pre ++ word 4 _ _).
  assert (Hl : length pre1 = (length pre + padding 4 (length pre) + 4)%nat).
  { unfold pre1, word. rewrite !length_app, length_zeros, length_le_put. lia. }
  rewrite <- Hl. rewrite align_cur by done. simpl mbind.
  rewrite need_cur by (rewrite length_app; lia). simpl mbind.
  f_equal; unfold pre1; simpl; rewrite <- ?(assoc_L (++)); [done|].
  rewrite !length_app. lia.
Qed.

Lemma length_pre' a pre (b : list byte) :
  length (pre ++ word 4 (length pre) (Z.of_nat (length b)) ++
    zeros (padding a (length pre + padding 4 (length pre) + 4)))
    = array_data a (length pre).
Proof using.
  unfold array_data, word. rewrite !length_app, !length_zeros, length_le_put. lia.
Qed.

Lemma length_array_bytes a pos b : (length b + 4 <= length (array_bytes a pos b))%nat.
Proof using.
  unfold array_bytes, word. rewrite !length_app, length_le_put. lia.
Qed.

Lemma decode_array t v pre bs rest :
  ty_ok t = true -> (slen (sig_of t) + L < fuel)%nat -> (length bs <= L)%nat ->
  Z.of_nat (length bs) < 2 ^ 32 ->
  wire (S n) (TArray t) v (length pre) bs ->
  Decoder.decodeArray (decodeChecked ok fuel) fuel (cur pre (bs ++ rest)) (sig_of (TArray t))
    = Ok (norm v, cur (pre ++ bs) rest).
Proof.
  intros Hok Hf HL Hsz (vs & b & Hvs & -> & Hw).
  pose proof (length_array_bytes (align_of t) (length pre) b).
  cbn [sig_of String.append].
  rewrite (decodeArray_wire _ _ _ _ (align_of t)); [|..|apply align_of_nonzero|lia].
  2: { rewrite <- (sapp_nil_r (sig_of t)). apply alignmentOf_sig_of. }
  cbv zeta. set (pre' := pre ++ _ ++ _).
  unfold Decoder.decodeArrayElements.
  destruct (sig_of_not_brace t) as (ch & s & Hs & Hch).
  assert (Hi : Decoder.decodeItems (decodeChecked ok fuel) fuel (sig_of t)
    (cur pre' (b ++ rest)) (Z.of_nat (length pre' + length b)) []
    = Ok (VAnys ([] ++ (norm <$> vs)), cur (pre' ++ b) rest)).
  { apply (decodeItems_wire _ _ L (wire n t)).
    - apply Forall_forall. intros x _. by apply IH.
    - unfold pre'. by rewrite length_pre'.
    - lia.
    - lia. }
  rewrite Hs in *. rewrite Hch, Hi. f_equal. f_equal.
  - destruct v; simplify_eq/=; try done; f_equal;
      by rewrite <- list_fmap_compose.
  - unfold pre', array_bytes. by rewrite <- !(assoc_L (++)).
Qed.

Lemma decode_dict k t m pre bs rest :
  ty_ok t = true -> (slen (sig_of t) + L < fuel)%nat -> (length bs <= L)%nat ->
  Z.of_nat (length bs) < 2 ^ 32 -> (0 < fuel)%nat ->
  wire (S n) (TDict k t) (VMap m) (length pre) bs ->
  Decoder.decodeArray (decodeChecked ok fuel) fuel (cur pre (bs ++ rest)) (sig_of (TDict k t))
    = Ok (norm (VMap m), cur (pre ++ bs) rest).
Proof.
  intros Hok Hf HL Hsz Hf0 (kvs & b & Hp & -> & Hw).
  pose proof (length_array_bytes 8 (length pre) b).
  cbn [sig_of String.append].
  rewrite (decodeArray_wire _ _ _ _ 8) by (done || lia).
  cbv zeta. set (pre' := pre ++ _ ++ _).
  unfold Decoder.decodeArrayElements. cbn [Ascii.eqb Bool.eqb andb].
  erewrite bind_Ok by exact (splitDictEntry_sig_of k t). cbv beta iota.
  rewrite (decodeEntries_wire _ _ _ L (wire n t) kvs).
  - rewrite (collect_perm _ _ Hp). do 2 f_equal.
    unfold pre', array_bytes. by rewrite <- !(assoc_L (++)).
  - intros. destruct fuel; [lia|]. by destruct k; apply decode_str.
  - apply Forall_forall. intros x _. by apply IH.
  - unfold pre'. by rewrite length_pre'.
  - lia.
  - lia.
  - lia.
Qed.

Lemma decode_struct ts vs pre bs rest :
  forallb ty_ok ts = true -> (slen (sig_of_list ts) + L < fuel)%nat -> (length bs <= L)%nat ->
  wire (S n) (TStruct ts) (VAnys vs) (length pre) bs ->
  decodeChecked ok (S fuel) (cur pre (bs ++ rest)) (sig_of (TStruct ts))
    = Ok (norm (VAnys vs), cur (pre ++ bs) rest).
Proof.
  intros Hok Hf HL (b & Hlen & -> & Hw).
  rewrite sig_of_struct. cbn [decodeChecked Decoder.decodeValue code_of String.append].
  rewrite <- (assoc_L (++)), align_cur by done. simpl mbind.
  erewrite bind_Ok by exact (slice_inner "(" ")" (sig_of_list ts)). cbv beta.
  rewrite length_app, length_zeros in HL.
  rewrite (decodeMembers_wire _ L (wire n) ts vs); [by rewrite <- (assoc_L (++))|..].
  - clear Hw. revert vs Hlen. induction ts as [|t ts IHts]; intros [|v vs] Hlen; try done.
    simpl in Hok. apply andb_true_iff in Hok as [Hok1 Hok2].
    cbn [sig_of_list foldr] in Hf. rewrite slen_app in Hf. fold (sig_of_list ts) in Hf.
    constructor; [apply IH; [done|lia]|]. apply IHts; [done|lia|by injection Hlen].
  - by rewrite length_app, length_zeros.
  - lia.
  - done.
Qed.
End decode.

(** Decoding a wire format gives back the normal form of the value and leaves
    exactly the rest of the buffer; fuel above the signature's length plus the
    number of bytes is enough. *)
Lemma checked_wire ok n fuel L t v :
  (forall t, ty_ok t = true -> ok (sig_of t) = true) ->
  ty_ok t = true -> (slen (sig_of t) + L < fuel)%nat -> Z.of_nat L < 2 ^ 32 ->
  decodes (decodeChecked ok fuel) (sig_of t) L (wire n t) v.
Proof.
  intros Hall. revert fuel L t v. induction n as [|n IH]; intros fuel L t v Hok Hf HL pre bs rest Hw Hbs; [done|].
  split; [by eapply wire_nonempty|].
  destruct fuel as [|fuel]; [lia|].
  destruct t as [| | | | | | | | |k| |t|k t|ts].
  10: { destruct v; try done. destruct Hw as [Hs ->]. destruct k; apply decode_str; done || lia. }
  11: { cbn [decodeChecked Decoder.decodeValue sig_of code_of String.append].
        apply (decode_array ok n fuel L); try done; try lia.
        - intros. apply IH; auto; lia.
        - simpl in Hf. lia. }
  11: { destruct v; try done.
        cbn [decodeChecked Decoder.decodeValue sig_of code_of String.append].
        simpl in Hf. rewrite !slen_app in Hf.
        apply (decode_dict ok n fuel L); try done; try lia.
        intros. apply IH; auto; lia. }
  11: { destruct v; try done. simpl in Hok. apply andb_true_iff in Hok as [_ Hok].
        rewrite sig_of_struct in Hf. simpl in Hf. rewrite slen_app in Hf.
        apply (decode_struct ok n fuel L); try done; try lia.
        intros. apply IH; auto; lia. }
  10: { destruct v as [| | | | | | | | | | |s v| | | |]; try done.
        destruct Hw as (t & b & -> & Hokt & Hl & -> & Hw).
        cbn [decodeChecked Decoder.decodeValue sig_of code_of].
        rewrite <- (assoc_L (++)), getSignature_cur by done. simpl mbind. rewrite Hall by done.
        unfold sig_bytes in Hbs. simpl in Hbs, Hf.
        rewrite !length_app, length_bytes_of_string in Hbs. simpl in Hbs.
        destruct (IH fuel (L - slen (sig_of t) - 2)%nat t v Hokt) with
          (pre := pre ++ sig_bytes (sig_of t)) (bs := b) (rest := rest) as [_ Heq]; try lia.
        { unfold sig_bytes. rewrite length_app. simpl.
          rewrite length_app, length_bytes_of_string. simpl.
          by replace (length pre + S (slen (sig_of t) + 1))%nat
            with (length pre + slen (sig_of t) + 2)%nat by lia. }
        rewrite Heq. simpl. by rewrite <- (assoc_L (++)). }
  all: destruct v as [| |[]| | | | | | | | | | | | |]; try done; simpl in Hw;
    destruct_and?; subst; cbn [decodeChecked Decoder.decodeValue sig_of code_of Z.b2z].
  all: try rewrite getByte_cur; try rewrite getUint16_cur; try rewrite getUint32_cur;
    try rewrite getUint64_cur; simpl;
    rewrite ?to_signed_unsigned by lia; try done; try (apply to_unsigned_range; lia); lia.
Qed.

Lemma decode_wire n fuel L t v :
  ty_ok t = true -> (slen (sig_of t) + L < fuel)%nat -> Z.of_nat L < 2 ^ 32 ->
  decodes (Decoder.decodeValue fuel) (sig_of t) L (wire n t) v.
Proof.
  intros Hok Hf HL pre bs rest. rewrite <- checked_nothing. by apply checked_wire.
Qed.

(** The bytes that the encoder writes for a well-typed value are a wire format
    of it. *)
Lemma wire_by_encoding n t v p b :
  typed n t v -> encodeValue n (Enc (zeros p)) (sig_of t) v = Ok (Enc (zeros p ++ b)) ->
  wire n t v p b.
Proof.
  intros Hty He. destruct (encode_wire n n t v Hty (le_n n) (Enc (zeros p))) as (b' & He' & Hw).
  rewrite He in He'. injection He' as He'. apply app_inv_head in He' as ->.
  unfold len in Hw. cbn [buf] in Hw. by rewrite length_zeros in Hw.
Qed.

(** * Properties *)



(** C22: round trip of the marshaler: encoding a well-typed value into an empty
    buffer and decoding the result gives the value's normal form and consumes
    the whole buffer. *)
Theorem encode_decode_roundtrip `{MapRangeOk} n t v :
  ty_ok t = true -> typed n t v ->
  exists bs, encodeValue n Encoder.empty (sig_of t) v = Ok (Encoder.Enc bs) /\
    (Z.of_nat (length bs) < 2 ^ 32 ->
     Decoder.decodeValue (S (slen (sig_of t) + length bs)) (Decoder.Dec bs 0) (sig_of t)
     = Ok (norm v, Decoder.Dec bs (Z.of_nat (length bs)))).
Proof.
  intros Hok Hty.
  destruct (encode_wire n n t v Hty (Nat.le_refl n) Encoder.empty) as (bs & He & Hw).
  exists bs. split; [done|]. intros Hsz.
  destruct (decode_wire n (S (slen (sig_of t) + length bs)) (length bs) t v Hok ltac:(lia) Hsz
    [] bs [] Hw) as [_ Heq]; [lia|].
  unfold cur in Heq. by rewrite !(right_id_L [] (++)) in Heq.
Qed.

(** * Witnesses *)
Definition sample_ty : ty := TStruct [TByte; TArray (TStr SString); TDict SString TVariant].
Definition sample_val : any :=
  VAnys [VByte "a"; VStrings ["x"; "yz"]; VMap {["k" := VVariant "u" (VUint32 7)]}].

Lemma sample_typed : typed 4 sample_ty sample_val.
Proof.
  constructor; [done|]. constructor; [|constructor; [|done]].
  - exists [VString "x"; VString "yz"]. split; [done|]. repeat constructor.
  - intros key x Hx. apply lookup_singleton_Some in Hx as [<- <-]. split; [done|].
    exists TUint32. split_and!; try done; simpl; lia.
Qed.


Definition pair_bytes : list byte :=
  zeros 7 ++ ["a"%char] ++ zeros 3 ++ le_put 4 7.


Lemma encode_decode_roundtrip_witness :
  ty_ok sample_ty = true /\
  exists bs, encodeValue 4 Encoder.empty (sig_of sample_ty) sample_val = Ok (Encoder.Enc bs) /\
    (Z.of_nat (length bs) < 2 ^ 32 ->
     Decoder.decodeValue (S (slen (sig_of sample_ty) + length bs)) (Decoder.Dec bs 0) (sig_of sample_ty)
     = Ok (norm sample_val, Decoder.Dec bs (Z.of_nat (length bs)))).
Proof.
  split; [reflexivity|].
  exact (encode_decode_roundtrip 4 sample_ty sample_val eq_refl sample_typed).
Defined.
