(* ===== verification/MarshalSafety.v ===== *)
(** Safety of the decoder on arbitrary bytes: with the signature of every variant
    validated, it never panics, always terminates (the fuel that is enough is
    explicit), stays inside its buffer and only returns well-typed values, for
    every complete type; and the decoder of the code, which validates nothing,
    does the same unless a variant has a signature that is no complete type.  The
    two ways it can then fail are shown too: an empty struct in an array diverges,
    and a variant whose signature is empty panics.  The encoder terminates on
    every value. *)
From S2P Require Import Prelude Bytes Signature SigParse Marshal Checked MarshalSpec.
Import Decoder.

(** Types without variants, whose signature the sender cannot choose. *)
Fixpoint plain (t : ty) : bool :=
  match t with
  | TVariant => false
  | TArray t | TDict _ t => plain t
  | TStruct ts => forallb plain ts
  | _ => true
  end.

Definition in_buf (d : decoder) : Prop := 0 <= pos d <= blen d.

(** [after d k P r]: the result [r] of an operation on [d] is an error, or a
    value that satisfies [P] and a decoder on the same buffer, at least [k]
    bytes further and still inside it. *)
Definition after {A} (d : decoder) (k : Z) (P : A -> Prop) (r : outcome (A * decoder)) : Prop :=
  match r with
  | Ok (a, d') => P a /\ buf d' = buf d /\ pos d + k <= pos d' <= blen d
  | Err _ => True
  | Panic | OutOfFuel => False
  end.

(** The same for an operation that only moves the decoder. *)
Definition moved (d : decoder) (r : outcome decoder) : Prop :=
  match r with
  | Ok d' => buf d' = buf d /\ pos d <= pos d' <= blen d
  | Err _ => True
  | Panic | OutOfFuel => False
  end.

Lemma blen_buf d d' : buf d' = buf d -> blen d' = blen d.
Proof. unfold blen. by intros ->. Qed.

Lemma after_bind {A B} d k k' P Q (m : outcome (A * decoder)) (f : A * decoder -> outcome (B * decoder)) :
  after d k P m ->
  (forall a d', P a -> buf d' = buf d -> pos d + k <= pos d' <= blen d ->
    after d' (k' - k) Q (f (a, d'))) ->
  after d k' Q (m ≫= f).
Proof.
  destruct m as [[a d']| | |]; simpl; try done. intros (HP & Hb & Hp) Hf.
  specialize (Hf a d' HP Hb Hp). unfold after in *.
  destruct (f (a, d')) as [[b d'']| | |]; try done.
  rewrite (blen_buf _ _ Hb) in Hf. rewrite Hb in Hf.
  destruct Hf as (HQ & Hb' & Hp'). split_and!; try done; lia.
Qed.

Lemma moved_bind {B} d k Q (m : outcome decoder) (f : decoder -> outcome (B * decoder)) :
  moved d m ->
  (forall d', buf d' = buf d -> pos d <= pos d' <= blen d -> after d' k Q (f d')) ->
  after d k Q (m ≫= f).
Proof.
  destruct m as [d'| | |]; simpl; try done. intros (Hb & Hp) Hf.
  specialize (Hf d' Hb Hp). unfold after in *.
  destruct (f d') as [[b d'']| | |]; try done.
  rewrite (blen_buf _ _ Hb), Hb in Hf. destruct Hf as (HQ & Hb' & Hp').
  split_and!; try done; lia.
Qed.

Lemma after_wrapf {A} d k (P : A -> Prop) s m : after d k P m -> after d k P (wrapf s m).
Proof. by destruct m. Qed.

Lemma after_weaken {A} d k k' (P Q : A -> Prop) m :
  after d k P m -> k' <= k -> (forall a, P a -> Q a) -> after d k' Q m.
Proof. destruct m as [[]| | |]; simpl; try done. intros (?&?&?) ? HPQ. split_and!; auto; lia. Qed.

Lemma need_bind {A} d n k (P : A -> Prop) (f : unit -> outcome (A * decoder)) :
  (pos d + n <= blen d -> after d k P (f tt)) -> after d k P (need d n ≫= f).
Proof. unfold need. case_decide; simpl; [done|]. intros Hf. apply Hf. lia. Qed.

Lemma align_loop_moved gas n d :
  in_buf d -> 0 < n ->
  (pos d mod n = 0 \/ n - pos d mod n <= Z.of_nat gas) -> moved d (align_loop gas n d).
Proof.
  intros Hd Hn. revert d Hd. induction gas as [|gas IH]; intros d Hd Hg; simpl.
  - case_decide as H0; simpl; [unfold in_buf in *; split; [done|lia]|].
    pose proof (Z.mod_pos_bound (pos d) n Hn). lia.
  - case_decide as H0; simpl; [unfold in_buf in *; split; [done|lia]|].
    case_decide as H1; simpl; [done|].
    assert (Hm : moved (advance d 1) (align_loop gas n (advance d 1))).
    { apply IH; [unfold in_buf, advance, blen in *; simpl; lia|]. simpl.
      destruct Hg as [|Hg]; [done|].
      pose proof (Z.mod_pos_bound (pos d) n Hn) as Hb.
      destruct (decide (pos d mod n + 1 = n)) as [He|He].
      - left. rewrite <- Z.add_mod_idemp_l, He by lia. apply Z_mod_same_full.
      - right. rewrite <- Z.add_mod_idemp_l, Z.mod_small by lia. lia. }
    unfold moved in *. destruct (align_loop gas n _) as [d'| | |]; try done.
    unfold advance, blen in *. simpl in *. destruct Hm. split; [done|lia].
Qed.

Lemma align_moved d n : in_buf d -> n <> 0%nat -> moved d (align d n).
Proof.
  intros Hd Hn. apply align_loop_moved; [done|lia|].
  pose proof (Z.mod_pos_bound (pos d) (Z.of_nat n)). lia.
Qed.

Lemma length_bytes_at d n :
  in_buf d -> 0 <= n -> pos d + n <= blen d -> Z.of_nat (length (bytes_at d n)) = n.
Proof.
  unfold in_buf, blen, bytes_at. intros. rewrite length_take, length_drop. lia.
Qed.

Lemma after_ret {A} d n (a : A) (P : A -> Prop) k :
  0 <= n -> k <= n -> pos d + n <= blen d -> P a -> after d k P (Ok (a, advance d n)).
Proof. intros. simpl. split_and!; try done; lia. Qed.

Lemma getByte_after d : in_buf d -> after d 1 (fun _ => True) (getByte d).
Proof.
  intros Hd. unfold getByte. apply need_bind. intros Hn.
  pose proof (length_bytes_at d 1 Hd) as Hl.
  destruct (bytes_at d 1) as [|b bs]; [simpl in *; lia|]. by apply after_ret.
Qed.

Lemma getWord_after d k :
  in_buf d -> k <> 0%nat ->
  after d (Z.of_nat k) (fun v => 0 <= v < 256 ^ Z.of_nat k)
    (d ← align d k; _ ← need d (Z.of_nat k);
     Ok (le_get (bytes_at d (Z.of_nat k)), advance d (Z.of_nat k))).
Proof.
  intros Hd Hk. apply moved_bind; [by apply align_moved|]. intros d' Hb Hp.
  apply need_bind. intros Hn. apply after_ret; try lia.
  assert (Hd' : in_buf d') by (unfold in_buf in *; rewrite (blen_buf _ _ Hb); lia).
  pose proof (length_bytes_at d' (Z.of_nat k) Hd').
  replace (Z.of_nat k) with (Z.of_nat (length (bytes_at d' (Z.of_nat k)))) at 3 by lia.
  apply le_get_range.
Qed.

Lemma getUint16_after d : in_buf d -> after d 2 (fun v => 0 <= v < 2 ^ 16) (getUint16 d).
Proof. intros. apply (getWord_after d 2); [done|lia]. Qed.
Lemma getUint32_after d : in_buf d -> after d 4 (fun v => 0 <= v < 2 ^ 32) (getUint32 d).
Proof. intros. apply (getWord_after d 4); [done|lia]. Qed.
Lemma getUint64_after d : in_buf d -> after d 8 (fun v => 0 <= v < 2 ^ 64) (getUint64 d).
Proof. intros. apply (getWord_after d 8); [done|lia]. Qed.

Lemma in_buf_after d d' k :
  in_buf d -> (0 <=? k) = true -> buf d' = buf d -> pos d + k <= pos d' <= blen d -> in_buf d'.
Proof. unfold in_buf. intros ? ?%Z.leb_le Hb ?. rewrite (blen_buf _ _ Hb). lia. Qed.

Lemma getStringLike_after d : in_buf d -> after d 1 (fun _ => True) (getStringLike d).
Proof.
  intros Hd. unfold getStringLike. eapply after_bind; [by apply getUint32_after|].
  cbv beta. intros n d' Hn Hb Hp. apply need_bind. intros Hl. by apply after_ret; try lia.
Qed.

Lemma slen_string_of_bytes bs : slen (string_of_bytes bs) = length bs.
Proof. induction bs; simpl; auto. Qed.

Lemma getSignature_after d :
  in_buf d -> after d 1 (fun s => slen s < 256)%nat (getSignature d).
Proof.
  intros Hd. unfold getSignature. eapply after_bind; [by apply getByte_after|].
  intros b d' _ Hb Hp. cbv beta iota. apply need_bind. intros Hl.
  pose proof (Z_of_byte_range b).
  apply after_ret; try lia. cbv beta. rewrite slen_string_of_bytes.
  pose proof (length_bytes_at d' (Z_of_byte b) (in_buf_after _ _ 1 Hd eq_refl Hb Hp)). lia.
Qed.

(** Arithmetic on positions in the same buffer. *)
Ltac buf_lia :=
  unfold in_buf in *;
  repeat match goal with
  | H : buf ?d' = buf ?d |- _ => pose proof (blen_buf d d' H); revert H
  end; intros; lia.

(** ** The loops *)
Section loops.
Context (rec : decoder -> string -> outcome (any * decoder)).

(** [rec] behaves on every later position of [d]'s buffer. *)
Definition safe_from (d : decoder) (sig : string) (P : any -> Prop) : Prop :=
  forall d', buf d' = buf d -> pos d <= pos d' <= blen d -> after d' 1 P (rec d' sig).

Lemma safe_from_later d d' sig P :
  safe_from d sig P -> buf d' = buf d -> pos d <= pos d' -> safe_from d' sig P.
Proof.
  intros Hs Hb Hp d2 Hb2 Hp2. apply Hs; [congruence|].
  rewrite (blen_buf _ _ Hb) in Hp2. lia.
Qed.

Lemma decodeItems_after gas d sig e out P :
  in_buf d -> blen d - pos d <= Z.of_nat gas -> safe_from d sig P -> Forall P out ->
  e <= blen d ->
  after d 0 (fun v => exists vs, v = VAnys vs /\ Forall P vs) (decodeItems rec gas sig d e out).
Proof.
  revert d out. induction gas as [|gas IH]; intros d out Hd Hg Hs Hout He; simpl.
  - rewrite decide_False by (buf_lia).
    unfold in_buf in *. split_and!; eauto; lia.
  - case_decide; [|unfold in_buf in *; simpl; split_and!; eauto; lia].
    eapply after_bind; [apply after_wrapf, Hs; [done|buf_lia]|].
    intros v d' Hv Hb Hp. cbv beta iota.
    eapply after_weaken; [apply IH|lia|done]; try buf_lia.
    + eapply safe_from_later; [done..|lia].
    + by apply Forall_app_2; [|constructor].
Qed.

Lemma decodeMembers_after gas d ts out P n :
  in_buf d -> (slen (sig_of_list ts) <= gas)%nat ->
  Forall (fun t => safe_from d (sig_of t) (P t)) ts -> n <= Z.of_nat (length ts) ->
  after d n (fun v => exists vs, v = VAnys (out ++ vs) /\ Forall2 P ts vs)
    (decodeMembers rec gas d (sig_of_list ts) out).
Proof.
  revert d ts out n. induction gas as [|gas IH]; intros d ts out n Hd Hg Hs Hn.
  - destruct ts as [|t ts].
    + simpl. unfold in_buf in *. split_and!; [|done|simpl in *; lia..].
      exists []. by rewrite (right_id_L [] (++)).
    + simpl in Hg. rewrite slen_app in Hg. pose proof (sig_of_nonempty t).
      destruct (sig_of t); [done|simpl in Hg; lia].
  - destruct ts as [|t ts].
    { simpl. unfold in_buf in *. split_and!; [|done|simpl in *; lia..].
      exists []. by rewrite (right_id_L [] (++)). }
    apply Forall_cons in Hs as [Ht Hs].
    cbn [sig_of_list foldr] in *. fold (sig_of_list ts) in *. rewrite slen_app in Hg.
    pose proof (sig_of_nonempty t) as Hne.
    cbn [decodeMembers].
    destruct (sig_of t +:+ sig_of_list ts) as [|c s] eqn:Hcs; [by destruct (sig_of t)|].
    rewrite <- Hcs, splitSig_sig_of. simpl mbind.
    eapply after_bind; [apply after_wrapf, Ht; [done|buf_lia]|].
    intros v d' Hv Hb Hp. cbv beta iota.
    eapply after_weaken.
    + apply (IH d' ts (out ++ [v]) (Z.of_nat (length ts))); [buf_lia|..|lia].
      * destruct (sig_of t); [done|simpl in Hg; lia].
      * eapply Forall_impl; [exact Hs|]. intros t' Ht'.
        exact (safe_from_later d d' _ _ Ht' Hb ltac:(lia)).
    + simpl in Hn. lia.
    + intros x (vs & -> & Hvs). exists (v :: vs). rewrite <- (assoc_L (++)). eauto.
Qed.

Lemma decodeEntries_after gas k d sig e out P :
  in_buf d -> blen d - pos d <= Z.of_nat gas ->
  safe_from d (sig_of_str k) (fun v => exists s, v = VString s /\ str_ok k s) ->
  safe_from d sig P ->
  (forall key x, out !! key = Some x -> str_ok k key /\ P x) -> e <= blen d ->
  after d 0 (fun v => exists m, v = VMap m /\
    forall key x, m !! key = Some x -> str_ok k key /\ P x)
    (decodeEntries rec gas (sig_of_str k) sig d e out).
Proof.
  revert d out. induction gas as [|gas IH]; intros d out Hd Hg Hk Hs Hout He; simpl.
  - rewrite decide_False by (buf_lia).
    unfold in_buf in *. split_and!; eauto; lia.
  - case_decide; [|unfold in_buf in *; simpl; split_and!; eauto; lia].
    eapply moved_bind; [by apply align_moved|]. intros d1 Hb1 Hp1.
    pose proof (blen_buf _ _ Hb1) as Hl1.
    eapply after_bind; [apply after_wrapf, Hk; [done|lia]|].
    intros kv d2 (key & -> & Hok) Hb2 Hp2. cbv beta iota.
    pose proof (blen_buf _ _ Hb2) as Hl2.
    eapply after_bind; [apply after_wrapf, Hs; [congruence|lia]|].
    intros v d3 Hv Hb3 Hp3. cbv beta iota.
    pose proof (blen_buf _ _ Hb3) as Hl3.
    assert (Hle : pos d <= pos d3) by lia.
    assert (Hb' : buf d3 = buf d) by congruence.
    eapply after_weaken; [apply IH|lia|done].
    + clear -Hd Hp1 Hp2 Hp3 Hl1 Hl2 Hl3. unfold in_buf in *. lia.
    + lia.
    + exact (safe_from_later d d3 _ _ Hk Hb' Hle).
    + exact (safe_from_later d d3 _ _ Hs Hb' Hle).
    + intros key' x. destruct (decide (key = key')) as [<-|Hne].
      * rewrite lookup_insert_eq. by intros [= <-].
      * rewrite lookup_insert_ne by done. apply Hout.
    + lia.
Qed.
End loops.

Lemma decodeArray_after rec gas d c elemSig a Q :
  alignmentOf elemSig = Ok a -> a <> 0%nat -> in_buf d ->
  (forall d' e, in_buf d' -> buf d' = buf d -> pos d <= pos d' -> e <= blen d ->
    after d' 0 Q (decodeArrayElements rec gas d' elemSig e)) ->
  after d 1 Q (decodeArray rec gas d (String c elemSig)).
Proof.
  intros Ha Ha0 Hd Hloop. unfold decodeArray. erewrite bind_Ok by apply slice_tail.
  eapply after_bind; [by apply getUint32_after|]. intros l d1 Hl Hb1 Hp1. cbv beta iota.
  rewrite Ha. simpl mbind. pose proof (blen_buf _ _ Hb1) as Hl1.
  eapply moved_bind; [apply align_moved; [buf_lia|done]|].
  intros d2 Hb2 Hp2. pose proof (blen_buf _ _ Hb2) as Hl2.
  apply need_bind. intros He.
  eapply after_weaken; [apply Hloop|lia|done]; try (buf_lia); congruence.
Qed.

(** ** The decoder that validates the signatures of variants is safe *)
Lemma getSignature_exact d s d' :
  in_buf d -> getSignature d = Ok (s, d') -> pos d' = pos d + Z.of_nat (slen s) + 2.
Proof.
  intros Hd. unfold getSignature, getByte, need. case_decide; [done|]. cbn [mbind outcome_bind].
  destruct (bytes_at d 1) as [|b bs]; [done|]. cbn [mbind outcome_bind]. case_decide; [done|].
  cbn [mbind outcome_bind]. intros [= <- <-]. pose proof (Z_of_byte_range b).
  rewrite slen_string_of_bytes, length_bytes_at; unfold in_buf, blen in *; simpl in *; lia.
Qed.

Section checked.
Context (ok : string -> bool) (n : nat).

(** The signature of a type is safe when the sender cannot choose any, or [ok]
    only accepts complete types. *)
Definition vetted (t : ty) : Prop :=
  plain t = true \/ forall s, ok s = true -> exists t, s = sig_of t /\ ty_ok t = true.

(** [t] is decoded safely from [d] on with fuel [n]. *)
Definition safe_type (d : decoder) (t : ty) : Prop := safe_from (decodeChecked ok n) d (sig_of t) (typed n t).

Lemma vetted_sub t t' : vetted t -> (plain t = true -> plain t' = true) -> vetted t'.
Proof. intros [|] ?; [left|right]; auto. Qed.

Lemma checked_variant d :
  in_buf d -> blen d - pos d <= Z.of_nat n -> vetted TVariant ->
  (forall t d', ty_ok t = true -> in_buf d' -> buf d' = buf d ->
    Z.of_nat (slen (sig_of t)) + (blen d - pos d') < Z.of_nat n ->
    after d' 1 (typed n t) (decodeChecked ok n d' (sig_of t))) ->
  after d 1 (typed (S n) TVariant) (decodeChecked ok (S n) d "v").
Proof.
  intros Hd Hn [|Hok] IH; [done|]. cbn [decodeChecked code_of]. pose proof (getSignature_after d Hd) as Hs.
  pose proof (getSignature_exact d) as He.
  destruct (getSignature d) as [[vsig d']| | |]; try done. specialize (He _ _ Hd eq_refl).
  destruct Hs as (Hl & Hb & Hp). cbn [mbind outcome_bind]. destruct (ok vsig) eqn:Ho; [|done].
  destruct (Hok vsig Ho) as (t & -> & Ht). pose proof (blen_buf _ _ Hb) as Hlen.
  specialize (IH t d' Ht ltac:(buf_lia) Hb ltac:(lia)).
  destruct (decodeChecked ok n d' (sig_of t)) as [[v d'']| | |]; try done.
  destruct IH as (Hv & Hb' & Hp'). simpl. split_and!; [by exists t|congruence|lia|lia].
Qed.

Lemma checked_array d t :
  in_buf d -> blen d - pos d <= Z.of_nat n -> safe_type d t ->
  after d 1 (typed (S n) (TArray t)) (decodeChecked ok (S n) d (sig_of (TArray t))).
Proof.
  intros Hd Hn Hs. cbn [sig_of String.append decodeChecked code_of].
  eapply (decodeArray_after _ _ _ _ _ (align_of t)); [|apply align_of_nonzero|done|].
  { rewrite <- (sapp_nil_r (sig_of t)). apply alignmentOf_sig_of. }
  intros d' e Hd' Hb' Hp' He. pose proof (blen_buf _ _ Hb') as Hl'. unfold decodeArrayElements.
  destruct (sig_of_not_brace t) as (ch & s & Hsig & Hch). rewrite Hsig, Hch, <- Hsig.
  eapply after_weaken; [eapply (decodeItems_after _ _ _ _ _ _ (typed n t))|lia|].
  1, 2, 4, 5: buf_lia || done.
  - by eapply safe_from_later.
  - intros x (vs & -> & Hvs). by exists vs.
Qed.

Lemma checked_dict d k t :
  in_buf d -> blen d - pos d <= Z.of_nat n -> safe_type d (TStr k) -> safe_type d t ->
  after d 1 (typed (S n) (TDict k t)) (decodeChecked ok (S n) d (sig_of (TDict k t))).
Proof.
  intros Hd Hn Hk Hs. cbn [sig_of String.append decodeChecked code_of].
  eapply (decodeArray_after _ _ _ _ _ 8); [done..|].
  intros d' e Hd' Hb' Hp' He. pose proof (blen_buf _ _ Hb') as Hl'.
  unfold decodeArrayElements. cbn [Ascii.eqb Bool.eqb andb].
  erewrite bind_Ok by exact (splitDictEntry_sig_of k t). cbv beta iota.
  eapply after_weaken; [eapply (decodeEntries_after _ _ _ _ _ _ _ (typed n t))|lia|].
  1, 2, 6: buf_lia || done.
  - intros d2 Hb2 Hp2. eapply after_weaken; [eapply safe_from_later; [exact Hk|done..]|lia|].
    intros x Hx. destruct n; [done|]. destruct x; try done. by eexists.
  - by eapply safe_from_later.
  - intros ? ? Hlk. by rewrite lookup_empty in Hlk.
  - by intros x (m & -> & Hm).
Qed.

Lemma checked_struct d ts :
  in_buf d -> ts <> [] -> Forall (safe_type d) ts ->
  after d 1 (typed (S n) (TStruct ts)) (decodeChecked ok (S n) d (sig_of (TStruct ts))).
Proof.
  intros Hd Hne Hs. rewrite sig_of_struct. cbn [String.append decodeChecked code_of].
  eapply moved_bind; [by apply align_moved|]. intros d' Hb' Hp'. pose proof (blen_buf _ _ Hb') as Hl'.
  erewrite bind_Ok by exact (slice_inner "(" ")" (sig_of_list ts)). cbv beta.
  eapply after_weaken; [eapply (decodeMembers_after _ _ _ ts [] (typed n) 1)|lia|].
  - buf_lia.
  - done.
  - eapply Forall_impl; [exact Hs|]. intros t Ht. eapply safe_from_later; [exact Ht|done|lia].
  - destruct ts; [done|simpl; lia].
  - intros x (vs & -> & Hvs). exact Hvs.
Qed.

Lemma checked_basic d t :
  in_buf d -> match t with TVariant | TArray _ | TDict _ _ | TStruct _ => False | _ => True end ->
  after d 1 (typed (S n) t) (decodeChecked ok (S n) d (sig_of t)).
Proof.
  intros Hd Ht. destruct t as [| | | | | | | | |k| | | |]; try done; cbn [sig_of].
  10: { destruct k; cbn [sig_of_str decodeChecked decodeValue code_of].
    1,2: eapply after_bind; [by apply getStringLike_after|];
      intros s d' _ Hb Hp; cbv beta iota; simpl; split_and!; try done; buf_lia.
    eapply after_bind; [by apply getSignature_after|].
    intros s d' Hs Hb Hp; cbv beta iota; simpl; split_and!; try done; buf_lia. }
  all: cbn [decodeChecked decodeValue code_of]; eapply after_bind;
    [first [by apply getByte_after|by apply getUint16_after|by apply getUint32_after|by apply getUint64_after]|];
    intros v d' Hv Hb Hp; cbv beta iota; simpl; split_and!; try done; try buf_lia;
    unfold to_signed in *; case_match; lia.
Qed.
End checked.

Lemma checked_after ok fuel t d :
  ty_ok t = true -> vetted ok t -> in_buf d ->
  Z.of_nat (slen (sig_of t)) + (blen d - pos d) < Z.of_nat fuel ->
  after d 1 (typed fuel t) (decodeChecked ok fuel d (sig_of t)).
Proof.
  revert t d. induction fuel as [|fuel IH]; intros t d Hok Hv Hd Hf; [buf_lia|].
  assert (Hsafe : forall t', ty_ok t' = true -> vetted ok t' ->
    (slen (sig_of t') < slen (sig_of t))%nat -> safe_type ok fuel d t').
  { intros t' Hok' Hv' Hlt d2 Hb2 Hp2. pose proof (blen_buf _ _ Hb2). apply IH; try done; buf_lia. }
  destruct t as [| | | | | | | | |k| |t|k t|ts]; try by apply checked_basic.
  - apply checked_variant; [done|simpl in Hf; lia|done|]. intros t d' Ht Hd' Hb Hlt.
    apply IH; [done| |done|]; [destruct Hv as [|Hs]; [done|by right]|]. pose proof (blen_buf _ _ Hb). lia.
  - apply checked_array; [done|simpl in Hf; lia|]. apply Hsafe; [done|by eapply vetted_sub|simpl; lia].
  - simpl in Hf. rewrite !slen_app in Hf. pose proof (sig_of_nonempty t).
    apply checked_dict; [done|lia|apply Hsafe; [done|by left|]|apply Hsafe; [done|by eapply vetted_sub|]];
      simpl; rewrite !slen_app; simpl; [destruct (sig_of t); [done|simpl; lia]|lia].
  - simpl in Hok. apply andb_true_iff in Hok as [Hne Hok].
    apply checked_struct; [done|by destruct ts|]. apply Forall_forall. intros t Hin.
    pose proof (proj1 (list_elem_of_In _ _) Hin) as Hin'. apply Hsafe.
    + by eapply forallb_forall.
    + eapply vetted_sub; [exact Hv|]. simpl. intros Hpl. by eapply forallb_forall.
    + rewrite sig_of_struct. pose proof (slen_sig_of_in t ts Hin). simpl. rewrite slen_app. lia.
Qed.

Lemma decode_after fuel t d :
  ty_ok t = true -> plain t = true -> in_buf d ->
  Z.of_nat (slen (sig_of t)) + (blen d - pos d) < Z.of_nat fuel ->
  after d 1 (typed fuel t) (decodeValue fuel d (sig_of t)).
Proof. intros. rewrite <- checked_nothing. apply checked_after; [done|by left|done..]. Qed.

Lemma vetted_valid t : vetted valid t.
Proof.
  right. intros s. unfold valid. destruct (complete s) as [t'|] eqn:Hs; [|done]. intros _.
  exists t'. by apply complete_Some.
Qed.

(** ** Beyond plain types *)
Lemma empty_struct_loops f gas d e out :
  in_buf d -> pos d mod 8 = 0 -> pos d < e ->
  decodeItems (decodeValue f) gas "()" d e out = OutOfFuel.
Proof.
  intros Hd Hm He. revert out. induction gas as [|gas IH]; intros out; simpl;
    rewrite decide_True by done; [done|].
  destruct f as [|f]; [done|].
  assert (Hv : decodeValue (S f) d "()" = Ok (VAnys [], d)).
  { simpl. unfold align. simpl. rewrite decide_True by done. simpl. by destruct f. }
  rewrite Hv. simpl. apply IH.
Qed.

(** ** Termination of the encoder *)
Definition stops {A} (m : outcome A) : Prop := m <> OutOfFuel.

Lemma stops_wrapf {A} s (m : outcome A) : stops m -> stops (wrapf s m).
Proof. by destruct m. Qed.

Lemma stops_bind {A B} (m : outcome A) (k : A -> outcome B) :
  stops m -> (forall a, m = Ok a -> stops (k a)) -> stops (m ≫= k).
Proof. apply bind_fuel. Qed.

Lemma depth_items vs v : v ∈ vs -> (depth v < depth (VAnys vs))%nat.
Proof. induction 1; simpl in *; lia. Qed.

Lemma depth_map (m : gmap string any) k v : m !! k = Some v -> (depth v < depth (VMap m))%nat.
Proof.
  simpl. intros Hm. apply Nat.lt_succ_r. revert k v Hm.
  refine (map_fold_weak_ind
    (fun d (m : gmap string any) => forall k v, m !! k = Some v -> (depth v <= d)%nat) _ _ _ _ m).
  - intros k v Hm. by rewrite lookup_empty in Hm.
  - intros i x m' d Hi IH k v. rewrite lookup_insert_Some. intros [[<- <-]|[_ Hm]]; [lia|].
    specialize (IH _ _ Hm). lia.
Qed.

Lemma toAnySlice_depth v vs x : Encoder.toAnySlice v = Ok vs -> x ∈ vs -> (depth x < depth v)%nat.
Proof.
  destruct v; simpl; intros [= <-] Hx; try (by apply depth_items);
    apply list_elem_of_fmap in Hx as (y & -> & _); simpl; lia.
Qed.

(** A well-typed value is well typed at any depth above its own nesting. *)
Lemma typed_depth n m t v : typed n t v -> (depth v < m)%nat -> typed m t v.
Proof.
  revert m t v. induction n as [|n IH]; intros [|m] t v Hty Hd; try done; try lia.
  destruct t as [| | | | | | | | |k| |t|k t|ts]; try exact Hty.
  - destruct v; try done. destruct Hty as (t & -> & Hok & Hl & Hty). exists t.
    split_and!; try done. apply IH; [done|simpl in Hd; lia].
  - destruct Hty as (vs & Hvs & Hty). exists vs. split; [done|].
    rewrite Forall_forall in Hty |- *. intros x Hx. apply IH; [by apply Hty|].
    pose proof (toAnySlice_depth _ _ _ Hvs Hx). lia.
  - destruct v; try done. intros key x Hx. destruct (Hty key x Hx) as [Hok Htx].
    split; [done|]. apply IH; [done|]. pose proof (depth_map _ _ _ Hx). lia.
  - destruct v; try done. simpl in Hty.
    assert (Hds : Forall (fun v => depth v < m)%nat vs).
    { apply Forall_forall. intros x Hx. pose proof (depth_items _ _ Hx). lia. }
    clear Hd. simpl. induction Hty; inversion Hds; subst; constructor; auto.
Qed.

(** The arguments of a call are well typed at the depth that [Call] encodes with. *)
Lemma typed_args_depth n ts args :
  Forall2 (typed n) ts args -> Forall2 (typed (depth (VAnys args))) ts args.
Proof.
  intros Hty. assert (Hd : Forall (fun v => depth v < depth (VAnys args))%nat args)
    by (apply Forall_forall; intros; by apply depth_items).
  revert Hd. generalize (depth (VAnys args)). intros d Hd.
  induction Hty; inversion Hd; subst; constructor; eauto using typed_depth.
Qed.

Section encode_loops.
Context `{MapRangeOk} (rec : Encoder.encoder -> string -> any -> outcome Encoder.encoder) (n : nat).
Context (Hrec : forall e sig v, (depth v < n)%nat -> stops (rec e sig v)).

Lemma encodeItems_stops sig e vs :
  (forall v, v ∈ vs -> depth v < n)%nat -> stops (Encoder.encodeItems rec sig e vs).
Proof using Hrec.
  revert e. induction vs as [|v vs IH]; intros e Hvs; [done|]. simpl.
  apply stops_bind; [apply stops_wrapf, Hrec, Hvs; left|]. intros e' _.
  apply IH. intros. apply Hvs. by right.
Qed.

Lemma encodeEntries_stops ks vs e kvs :
  (0 < n)%nat -> (forall kv, kv ∈ kvs -> depth kv.2 < n)%nat ->
  stops (Encoder.encodeEntries rec ks vs e kvs).
Proof using Hrec.
  intros Hn. revert e. induction kvs as [|[k v] kvs IH]; intros e Hvs; [done|]. simpl.
  apply stops_bind; [by apply stops_wrapf, Hrec|]. intros e' _.
  apply stops_bind; [apply stops_wrapf, Hrec, (Hvs (k, v)); left|]. intros e'' _.
  apply IH. intros. apply Hvs. by right.
Qed.

Lemma encodeMembers_stops gas e rest vs i :
  (slen rest <= gas)%nat -> (forall v, v ∈ vs -> depth v < n)%nat ->
  stops (Encoder.encodeMembers rec gas e rest vs i).
Proof using Hrec.
  revert e rest i. induction gas as [|gas IH]; intros e rest i Hg Hvs.
  { destruct rest; [done|simpl in Hg; lia]. }
  destruct rest as [|c s]; [done|]. cbn [Encoder.encodeMembers].
  destruct (splitSig_no_panic (String c s)) as [_ Hs].
  apply stops_bind; [done|]. intros [f r] Hf. cbv beta iota.
  destruct (vs !! i) as [v|] eqn:Hv; [|done].
  apply stops_bind; [apply stops_wrapf, Hrec, Hvs; by eapply list_elem_of_lookup_2|].
  intros e' _. apply IH; [|done].
  apply splitSig_app in Hf as [Hf Hne]. rewrite <- Hf, slen_app in Hg. destruct f; [done|simpl in Hg; lia].
Qed.

Lemma encodeArray_stops e sig v :
  (depth v <= n)%nat -> stops (Encoder.encodeArray rec e sig v).
Proof using All.
  intros Hd. unfold Encoder.encodeArray.
  apply stops_bind; [apply slice_fuel|]. intros elem _. cbv zeta.
  apply stops_bind; [destruct elem; [done|simpl; by case_match]|]. intros a _.
  apply stops_bind; [|done].
  destruct elem as [|c s]; [done|]. case_match.
  - destruct v; try done.
    apply stops_bind.
    { unfold splitDictEntry. repeat case_match; try done.
      apply stops_bind; [apply slice_fuel|]. intros inner _.
      apply stops_bind; [apply splitSig_no_panic|]. intros [] _.
      apply stops_bind; [apply splitSig_no_panic|]. by intros [] _. }
    intros [[ks vs] ?] _. apply encodeEntries_stops; [simpl in Hd; lia|].
    intros [k x] Hin. rewrite map_range_perm, elem_of_map_to_list in Hin.
    pose proof (depth_map _ _ _ Hin). simpl in *. lia.
  - apply stops_bind; [apply stops_wrapf; by destruct v|]. intros items Hi.
    apply wrapf_Ok_inv in Hi. apply encodeItems_stops.
    intros x Hx. pose proof (toAnySlice_depth _ _ _ Hi Hx). lia.
Qed.
End encode_loops.

Lemma encode_stops `{MapRangeOk} fuel e sig v :
  (depth v < fuel)%nat -> stops (Encoder.encodeValue fuel e sig v).
Proof.
  revert e sig v. induction fuel as [|fuel IH]; intros e sig v Hd; [lia|].
  cbn [Encoder.encodeValue]. destruct sig as [|c s]; [done|].
  destruct (code_of c); try (by destruct v).
  - destruct v; try done. apply stops_wrapf, IH. simpl in Hd. lia.
  - apply (encodeArray_stops (Encoder.encodeValue fuel) fuel); [done|lia].
  - destruct v; try done. apply stops_bind; [apply slice_fuel|]. intros members _.
    apply (encodeMembers_stops _ fuel IH); [done|].
    intros x Hx. pose proof (depth_items _ _ Hx). lia.
Qed.

(** * Properties *)

(** C11: the signatures of variants are all that can go wrong in the decoder.  On
    every buffer, from every position in it and for every complete type, variants
    nested in it or not: the decoder that validates the signature of each variant
    ends in an error or in a value of the type and a later position in the same
    buffer; and the decoder of the code, on the same fuel, does exactly the same
    unless the other complains of such a signature, which it never does on the wire
    format of a value.  So the code can only panic, run for ever or return a
    value of no type on a message that carries a variant whose signature is not
    one complete type. *)
Theorem decodeValue_validated t d :
  ty_ok t = true -> 0 <= pos d <= Z.of_nat (length (buf d)) ->
  let fuel := S (slen (sig_of t) + length (buf d)) in
  match decodeStrict fuel d (sig_of t) with
  | Ok (v, d') =>
      typed fuel t v /\ buf d' = buf d /\ pos d < pos d' <= Z.of_nat (length (buf d)) /\
      decodeValue fuel d (sig_of t) = Ok (v, d')
  | Err e => malformed e = true \/ decodeValue fuel d (sig_of t) = Err e
  | Panic | OutOfFuel => False
  end /\
  forall n v pre bs rest, d = Dec (pre ++ bs ++ rest) (Z.of_nat (length pre)) -> wire n t v (length pre) bs ->
    Z.of_nat (length bs) < 2 ^ 32 -> exists d', decodeStrict fuel d (sig_of t) = Ok (norm v, d').
Proof.
  intros Hok Hd fuel. split.
  2: { intros n v pre bs rest -> Hw Hsz. eexists.
       apply (checked_wire valid n fuel (length bs) t v valid_sig Hok) with (bs := bs); [|done..].
       unfold fuel. simpl. rewrite !length_app. lia. }
  assert (Hs : after d 1 (typed fuel t) (decodeStrict fuel d (sig_of t))).
  { apply checked_after; [done|apply vetted_valid|done|]. unfold blen. lia. }
  unfold after, blen in Hs. destruct (checked_agrees valid fuel d (sig_of t)) as [He|(_ & e & He & Hm)];
    fold decodeStrict in He; rewrite He in *; [|by left].
  destruct (decodeValue fuel d (sig_of t)) as [[v d']| | |]; try done; [|by right].
  destruct Hs as (? & ? & ?). split_and!; [done|done|lia|lia|done].
Qed.

(** The decoder is safe on arbitrary input.  For every complete type without
    variants, every buffer and every position in it, decoding neither panics nor
    runs for ever: it returns an error, or a value of that type together with a
    later position inside the same buffer.  The fuel given is enough. *)
Theorem decodeValue_safe t d :
  ty_ok t = true -> plain t = true -> 0 <= pos d <= Z.of_nat (length (buf d)) ->
  match decodeValue (S (slen (sig_of t) + length (buf d))) d (sig_of t) with
  | Ok (v, d') =>
      typed (S (slen (sig_of t) + length (buf d))) t v /\ buf d' = buf d /\
      pos d < pos d' <= Z.of_nat (length (buf d))
  | Err _ => True
  | Panic | OutOfFuel => False
  end.
Proof.
  intros Hok Hpl Hd.
  pose proof (decode_after (S (slen (sig_of t) + length (buf d))) t d Hok Hpl Hd) as H.
  unfold after, blen in H. specialize (H ltac:(lia)).
  destruct (decodeValue _ _ _) as [[v d']| | |]; try done.
  destruct H as (? & ? & ?). split_and!; [done|done|lia|lia].
Qed.

(** An array of empty structs never terminates: decoding signature [a()]
    against an array header that announces at least one byte of data exhausts
    every amount of fuel, because its elements consume nothing. *)
Theorem decodeValue_empty_struct_diverges fuel b rest :
  decodeValue fuel (Dec (le_put 4 1 ++ zeros 4 ++ b :: rest) 0) "a()" = OutOfFuel.
Proof.
  destruct fuel as [|fuel]; [done|].
  change (Dec _ _) with (cur [] (array_bytes 8 (length (@nil byte)) [b] ++ rest)).
  cbn [decodeValue code_of].
  rewrite (decodeArray_wire (decodeValue fuel) fuel "a" "()" 8 [] [b] rest) by (done || lia).
  apply (empty_struct_loops fuel fuel).
  - unfold in_buf, blen. simpl. lia.
  - done.
  - simpl. lia.
Qed.

(** A variant that carries an empty signature panics (index out of range on
    [sig[0]]), wherever it occurs. *)
Theorem decodeValue_empty_variant_panics fuel pre rest :
  decodeValue (S (S fuel))
    (Dec (pre ++ [NUL; NUL] ++ rest) (Z.of_nat (length pre))) "v" = Panic.
Proof.
  change (Dec _ _) with (cur pre (sig_bytes "" ++ rest)).
  cbn [decodeValue code_of]. rewrite getSignature_cur by (simpl; lia). done.
Qed.

(** The encoder terminates on every signature and every Go value, well
    typed or not: fuel above the nesting depth of the value is enough. *)
Theorem encodeValue_terminates `{MapRangeOk} fuel e sig v :
  (depth v < fuel)%nat -> Encoder.encodeValue fuel e sig v <> OutOfFuel.
Proof. apply encode_stops. Qed.

(** * Witnesses *)
Definition noise : decoder := Dec (bytes_of_string "some bytes off the wire") 3.

Lemma decodeValue_safe_witness :
  match decodeValue (S (slen (sig_of (TArray TUint16)) + length (buf noise))) noise
          (sig_of (TArray TUint16)) with
  | Ok (v, d') =>
      typed (S (slen (sig_of (TArray TUint16)) + length (buf noise))) (TArray TUint16) v /\
      buf d' = buf noise /\ pos noise < pos d' <= Z.of_nat (length (buf noise))
  | Err _ => True
  | Panic | OutOfFuel => False
  end.
Proof. apply (decodeValue_safe (TArray TUint16) noise); [reflexivity|reflexivity|simpl; lia]. Defined.

(** A dict with a variant in it: decoded when the signature of the variant is one
    type; an empty one is what the theorem sets aside, and the code panics. *)
Definition dict_bytes (vsig : string) (v : list byte) : list byte :=
  let body := le_put 4 1 ++ bytes_of_string "k" ++ [NUL] ++ sig_bytes vsig ++ v in
  le_put 4 (Z.of_nat (length body)) ++ zeros 4 ++ body.

Lemma decodeValue_validated_witness :
  let good := Dec (dict_bytes "y" (bytes_of_string "A")) 0 in
  let bad := Dec (dict_bytes "" []) 0 in
  let t := TDict SString TVariant in
  (exists v, decodeValue 24 good (sig_of t) = Ok (v, Dec (buf good) 18) /\ typed 24 t v) /\
  (exists e, decodeStrict 22 bad (sig_of t) = Err e /\ malformed e = true) /\
  decodeValue 22 bad (sig_of t) = Panic.
Proof.
  intros good bad t.
  assert (Hg : exists v, decodeStrict 24 good (sig_of t) = Ok (v, Dec (buf good) 18)) by (eexists; vm_compute; reflexivity).
  assert (Hb : decodeValue 22 bad (sig_of t) = Panic) by (vm_compute; reflexivity).
  split_and!; [| |exact Hb].
  - destruct Hg as [v Hv]. exists v. pose proof (decodeValue_validated t good eq_refl ltac:(vm_compute; done)) as H.
    cbv zeta in H. change (S (slen (sig_of t) + length (buf good))) with 24%nat in H.
    rewrite Hv in H. by destruct H as [(? & _ & _ & ?) _].
  - pose proof (decodeValue_validated t bad eq_refl ltac:(vm_compute; done)) as H.
    cbv zeta in H. change (S (slen (sig_of t) + length (buf bad))) with 22%nat in H. apply proj1 in H.
    destruct (decodeStrict 22 bad (sig_of t)) as [[v d']|e| |]; try done.
    + destruct H as (_ & _ & _ & H). by rewrite Hb in H.
    + exists e. split; [done|]. destruct H as [|H]; [done|]. by rewrite Hb in H.
Defined.

Lemma encodeValue_terminates_witness :
  (depth sample_val < 4)%nat /\
  Encoder.encodeValue 4 Encoder.empty "a{s(" sample_val <> OutOfFuel.
Proof.
  assert (H : (depth sample_val < 4)%nat) by (vm_compute; lia).
  split; [exact H|exact (encodeValue_terminates 4 Encoder.empty "a{s(" sample_val H)].
Defined.
