(* ===== verification/Message.v ===== *)
(** D-Bus messages (internal/dbus/message.go): [encodeMethodCall], the parsed
    [rawMessage] and [readMessage] on a byte stream; the message format as a
    specification, and the theorems that the two functions implement it. *)
From S2P Require Import Prelude Bytes Signature Marshal MarshalSpec.

Definition msgTypeMethodCall : byte := "001"%char.
Definition msgTypeMethodReturn : byte := "002"%char.
Definition msgTypeError : byte := "003"%char.
Definition msgTypeSignal : byte := "004"%char.

Definition fieldPath : byte := "001"%char.
Definition fieldInterface : byte := "002"%char.
Definition fieldMember : byte := "003"%char.
Definition fieldErrorName : byte := "004"%char.
Definition fieldReplySerial : byte := "005"%char.
Definition fieldDestination : byte := "006"%char.
Definition fieldSignature : byte := "008"%char.

(** ** Encoding a method call *)
Section encode.
Context `{MapRange}.

(** The loop over the arguments; [fuel] bounds the nesting of each of them. *)
Fixpoint encodeBody (gas fuel : nat) (body : Encoder.encoder) (rest : string)
    (args : list any) (i : nat) : outcome Encoder.encoder :=
  match rest with
  | EmptyString => Ok body
  | _ =>
      match gas with
      | O => OutOfFuel
      | S gas =>
          '(first, r) ← splitSig rest;
          match args !! i with
          | None => Err (Errorf "inSig %q needs %d args, got %d")
          | Some a =>
              body ← wrapf "arg %d: " (Encoder.encodeValue fuel body first a);
              encodeBody gas fuel body r args (S i)
          end
      end
  end.

Definition addField (fields : list any) (code : byte) (sig : string) (val : any) : list any :=
  fields ++ [VAnys [VByte code; VVariant sig val]].

(** The header fields of a call, in the order they are added. *)
Definition callFields (destination path iface method inSig : string) : list any :=
  let fields := addField [] fieldPath "o" (VString path) in
  let fields := addField fields fieldInterface "s" (VString iface) in
  let fields := addField fields fieldMember "s" (VString method) in
  let fields := if decide (destination = "") then fields
  else addField fields fieldDestination "s" (VString destination) in
  if decide (inSig = "") then fields else addField fields fieldSignature "g" (VString inSig).

(** The nesting of [a(yv)] with a string-like variant is 4. *)
Definition encodeMethodCall (fuel : nat) (serial : Z)
    (destination path iface method inSig : string) (args : list any) : outcome (list byte) :=
  body ← encodeBody (slen inSig) fuel Encoder.empty inSig args 0;
  let fields := callFields destination path iface method inSig in
  let header := Encoder.append Encoder.empty ["l"%char; msgTypeMethodCall; NUL; "001"%char] in
  let header := Encoder.putUint32 header (to_unsigned 32 (Z.of_nat (Encoder.len body))) in
  let header := Encoder.putUint32 header serial in
  header ← wrapf "header fields: " (Encoder.encodeValue 4 header "a(yv)" (VAnys fields));
  let header := Encoder.align header 8 in
  Ok (Encoder.buf header ++ Encoder.buf body).
End encode.

(** ** Reading a message *)
Record rawMessage := {
  msgType : byte;
  replySerial : Z;
  errorName : string;
  signature : string;
  body : list any;
}.

(** [io.ReadFull(r, make([]byte, n))]: a short stream is consumed whole. *)
Definition readFull (n : Z) : ST (list byte) (list byte) := fun r =>
  if decide (Z.of_nat (length r) < n) then (Err ErrEOF, [])
  else (Ok (take (Z.to_nat n) r), drop (Z.to_nat n) r).

(** [pair[0].(byte)] and [pair[1].(Variant)] without the ok result *)
Definition as_byte (v : any) : byte := match v with VByte b => b | _ => NUL end.
Definition as_variant (v : any) : any := match v with VVariant _ v => v | _ => VNil end.

(** The body of the loop over the decoded header fields. *)
Definition setField (msg : rawMessage) (item : any) : rawMessage :=
  match item with
  | VAnys [c; v] =>
      let code := as_byte c in
      let value := as_variant v in
      if Ascii.eqb code fieldReplySerial then
        match value with
        | VUint32 u => {| msgType := msgType msg; replySerial := u; errorName := errorName msg;
                          signature := signature msg; body := body msg |}
        | _ => msg
        end
      else if Ascii.eqb code fieldErrorName then
        match value with
        | VString s => {| msgType := msgType msg; replySerial := replySerial msg; errorName := s;
                          signature := signature msg; body := body msg |}
        | _ => msg
        end
      else if Ascii.eqb code fieldSignature then
        match value with
        | VString s => {| msgType := msgType msg; replySerial := replySerial msg;
                          errorName := errorName msg; signature := s; body := body msg |}
        | _ => msg
        end
      else msg
  | _ => msg
  end.

(** [rawFields.([]any)] without the ok result *)
Definition as_items (v : any) : list any := match v with VAnys items => items | _ => [] end.

(** The reader is written for any decoder of values (the recursion of the
    marshaler is open); [readMessage] has the one of the code. *)
Section reader.
Context (decodeValue : nat -> Decoder.decoder -> string -> outcome (any * Decoder.decoder)).

(** The loop over the types of the body's signature.  The fuel of each value is
    the bound of [decodeValue_inverts_wire]. *)
Fixpoint decodeBody_by (gas : nat) (bd : Decoder.decoder) (rest : string) (out : list any)
    : outcome (list any) :=
  match rest with
  | EmptyString => Ok out
  | _ =>
      match gas with
      | O => OutOfFuel
      | S gas =>
          '(first, r) ← wrapf "decode body: " (splitSig rest);
          '(v, bd) ← wrapf "decode body value (%q): "
            (decodeValue (S (slen first + length (Decoder.buf bd))) bd first);
          decodeBody_by gas bd r (out ++ [v])
      end
  end.

(** What [readMessage] does once the bytes of the message are in memory. *)
Definition parseMessage_by (mtype : byte) (bodyLen : Z) (fieldsBuf bodyBuf : list byte)
    : outcome rawMessage :=
  let fd := Decoder.Dec fieldsBuf 0 in
  let fuel := (5 + length fieldsBuf)%nat in
  '(rawFields, _) ← wrapf "decode header fields: "
    (Decoder.decodeArrayElements (decodeValue fuel) fuel fd "(yv)"
        (Z.of_nat (length fieldsBuf)));
  let items := as_items rawFields in
  let msg := {| msgType := mtype; replySerial := 0; errorName := ""; signature := ""; body := [] |} in
  let msg := fold_left setField items msg in
  if decide (signature msg <> "" /\ bodyLen > 0) then
    out ← decodeBody_by (slen (signature msg)) (Decoder.Dec bodyBuf 0) (signature msg) [];
    Ok {| msgType := msgType msg; replySerial := replySerial msg; errorName := errorName msg;
      signature := signature msg; body := out |}
  else Ok msg.

Definition readMessage_by : ST (list byte) rawMessage :=
  fixed ← wrap "read fixed header: " (readFull 12);
  match fixed with
  | b0 :: b1 :: _ =>
      if Ascii.eqb b0 "l" then
        let bodyLen := le_get (take 4 (drop 4 fixed)) in
        lenBuf ← wrap "read header-fields length: " (readFull 4);
        let fieldsLen := le_get lenBuf in
        let pos := 16 in
        let padTo8 := (8 - pos mod 8) mod 8 in
        _ ← wrap "read header-fields padding: " (readFull padTo8);
        let pos := pos + padTo8 in
        fieldsBuf ← wrap "read header fields: " (readFull fieldsLen);
        let pos := pos + fieldsLen in
        let headerPad := (8 - pos mod 8) mod 8 in
        _ ← wrap "read header padding: " (readFull headerPad);
        bodyBuf ← wrap "read body: " (readFull bodyLen);
        lift (parseMessage_by b1 bodyLen fieldsBuf bodyBuf)
      else lift (Err (Errorf "unsupported byte order %q (only little-endian 'l' is implemented)"))
  | _ => lift Panic
  end.
End reader.

Definition decodeBody := decodeBody_by Decoder.decodeValue.
Definition parseMessage := parseMessage_by Decoder.decodeValue.
Definition readMessage : ST (list byte) rawMessage := readMessage_by Decoder.decodeValue.

(** ** The message format *)

(** A message as the D-Bus specification describes it: header fields are
    (code, type, value) triples, the body is a list of typed values. *)
Record message := Message {
  m_type : byte;
  m_flags : byte;
  m_version : byte;
  m_serial : Z;
  m_fields : list (byte * ty * any);
  m_sig : list ty;
  m_body : list any;
}.

Definition field_val (f : byte * ty * any) : any :=
  let '(c, t, v) := f in VAnys [VByte c; VVariant (sig_of t) v].

Definition fields_ty : ty := TArray (TStruct [TByte; TVariant]).

Definition body_wire (n : nat) (ts : list ty) (vs : list any) (b : list byte) : Prop :=
  length ts = length vs /\ seq_wire (fun tv => wire n tv.1 tv.2) (zip ts vs) 0 b.

(** The 12 fixed bytes, the array of header fields, padding to a multiple of 8,
    and the body at offset 0 of its own section; the values may be nested to any
    depths [nf] and [nb]. *)
Definition message_wire (m : message) (bs : list byte) : Prop :=
  exists nf nb fb bb,
    wire nf fields_ty (VAnys (field_val <$> m_fields m)) 12 fb /\
    body_wire nb (m_sig m) (m_body m) bb /\
    bs = ["l"%char; m_type m; m_flags m; m_version m] ++
         le_put 4 (Z.of_nat (length bb)) ++ le_put 4 (m_serial m) ++
         fb ++ zeros (padding 8 (12 + length fb)) ++ bb.

(** What the header fields of a message say. *)
Definition header_of (m : message) : rawMessage :=
  fold_left setField (field_val <$> m_fields m)
    {| msgType := m_type m; replySerial := 0; errorName := ""; signature := ""; body := [] |}.

(** The SIGNATURE field describes the body, which has complete types. *)
Definition message_ok (m : message) : Prop :=
  signature (header_of m) = sig_of_list (m_sig m) /\ forallb ty_ok (m_sig m) = true.

Definition parsed (m : message) : rawMessage :=
  let h := header_of m in
  {| msgType := msgType h; replySerial := replySerial h; errorName := errorName h;
     signature := signature h; body := norm <$> m_body m |}.

(** ** The wire format only depends on the offset modulo 8 *)
Lemma padding_shift n pos pos' :
  (n = 1 \/ n = 2 \/ n = 4 \/ n = 8)%nat -> (pos mod 8 = pos' mod 8)%nat ->
  padding n pos = padding n pos'.
Proof.
  intros Hn Hm. unfold padding.
  assert (pos mod n = pos' mod n)%nat as ->; [|done].
  assert (forall p, p mod n = (p mod 8) mod n)%nat as Hmod.
  { intros p. destruct Hn as [->|[->|[->| ->]]].
    - by rewrite !Nat.mod_1_r.
    - change 8%nat with (2 * 4)%nat. by rewrite Nat.Div0.mod_mul_r, Nat.mul_comm, Nat.Div0.mod_add, Nat.Div0.mod_mod.
    - change 8%nat with (4 * 2)%nat. by rewrite Nat.Div0.mod_mul_r, Nat.mul_comm, Nat.Div0.mod_add, Nat.Div0.mod_mod.
    - by rewrite Nat.Div0.mod_mod. }
  by rewrite (Hmod pos), (Hmod pos'), Hm.
Qed.

Lemma add_mod8 a pos pos' : (pos mod 8 = pos' mod 8 -> (pos + a) mod 8 = (pos' + a) mod 8)%nat.
Proof. intros H. by rewrite <- Nat.Div0.add_mod_idemp_l, H, Nat.Div0.add_mod_idemp_l. Qed.

#[local] Hint Resolve add_mod8 : shift.

Lemma seq_wire_shift {A} (W : A -> nat -> list byte -> Prop) l pos pos' bs :
  (forall a p p' b, (p mod 8 = p' mod 8)%nat -> W a p b -> W a p' b) ->
  (pos mod 8 = pos' mod 8)%nat -> seq_wire W l pos bs -> seq_wire W l pos' bs.
Proof.
  intros HW Hm Hs. revert pos' Hm. induction Hs; intros pos' Hm; constructor; eauto with shift.
Qed.

Lemma word_shift k pos pos' v :
  (k = 2 \/ k = 4 \/ k = 8)%nat -> (pos mod 8 = pos' mod 8)%nat -> word k pos v = word k pos' v.
Proof. intros. unfold word. rewrite (padding_shift k pos pos'); [done|lia|done]. Qed.

Lemma str_wire_shift k s pos pos' :
  (pos mod 8 = pos' mod 8)%nat -> str_wire k s pos = str_wire k s pos'.
Proof. intros. destruct k; [| |done]; unfold str_wire; by rewrite (word_shift 4 pos pos') by auto. Qed.

Lemma align_of_cases t : (align_of t = 1 \/ align_of t = 2 \/ align_of t = 4 \/ align_of t = 8)%nat.
Proof. destruct t as [| | | | | | | | |[]| | | |]; simpl; auto. Qed.

Lemma array_shift a pos pos' b :
  (a = 1 \/ a = 2 \/ a = 4 \/ a = 8)%nat -> (pos mod 8 = pos' mod 8)%nat ->
  array_bytes a pos b = array_bytes a pos' b /\
  (array_data a pos mod 8 = array_data a pos' mod 8)%nat.
Proof.
  intros Ha Hm. unfold array_bytes, array_data.
  rewrite (word_shift 4 pos pos'), (padding_shift 4 pos pos') by auto.
  rewrite (padding_shift a (pos + padding 4 pos' + 4) (pos' + padding 4 pos' + 4))
    by eauto with shift.
  eauto with shift.
Qed.

Lemma wire_shift n t v pos pos' bs :
  (pos mod 8 = pos' mod 8)%nat -> wire n t v pos bs -> wire n t v pos' bs.
Proof.
  revert t v pos pos' bs. induction n as [|n IH]; intros t v pos pos' bs Hm Hw; [done|].
  destruct t as [| | | | | | | | |k| |t|k t|ts].
  12: { destruct Hw as (vs & b & Hvs & -> & Hs).
        destruct (array_shift (align_of t) pos pos' b (align_of_cases t) Hm) as [Hb Hd].
        exists vs, b. split_and!; [done..|]. eapply seq_wire_shift; eauto. }
  12: { destruct v; try done. destruct Hw as (kvs & b & Hp & -> & Hs).
        destruct (array_shift 8 pos pos' b) as [Hb Hd]; [auto..|].
        exists kvs, b. split_and!; [done..|]. eapply seq_wire_shift; [|exact Hd|exact Hs].
        intros kv p p' b' Hpp (b2 & Hok & -> & Hw). exists b2.
        rewrite (padding_shift 8 p p') in * by auto.
        rewrite (str_wire_shift _ _ (p + _) (p' + padding 8 p')) in * by eauto with shift.
        split_and!; [done..|]. eapply IH; [|exact Hw]. eauto with shift. }
  12: { destruct v; try done. destruct Hw as (b & Hl & -> & Hs). exists b.
        rewrite (padding_shift 8 pos pos') in * by auto. split_and!; [done..|].
        eapply seq_wire_shift; [| |exact Hs]; [intros tv p p' b' ? ?; eauto | eauto with shift]. }
  10: { destruct v; try done. destruct Hw as [Hok ->]. split; [done|by apply str_wire_shift]. }
  10: { destruct v; try done. destruct Hw as (t & b & -> & Hok & Hl & -> & Hw).
        exists t, b. split_and!; try done. eapply IH; [|exact Hw]. eauto with shift. }
  all: destruct v; simpl in *; destruct_and?; split_and?; try done; subst; apply word_shift; auto.
Qed.

(** ** Reading a well-formed message *)
Lemma readFull_app b rest :
  readFull (Z.of_nat (length b)) (b ++ rest) = (Ok b, rest).
Proof.
  unfold readFull. rewrite length_app, decide_False, Nat2Z.id by lia.
  by rewrite take_app_length, drop_app_length.
Qed.

Lemma readFull_cons {A} fmt n b rest (k : list byte -> ST (list byte) A) :
  n = Z.of_nat (length b) -> (wrap fmt (readFull n) ≫= k) (b ++ rest) = k b rest.
Proof. intros ->. unfold mbind, ST_bind, wrap. by rewrite readFull_app. Qed.

Lemma setField_norm msg c t v : setField msg (norm (field_val (c, t, v))) = setField msg (field_val (c, t, v)).
Proof. unfold setField. simpl. by destruct v. Qed.

Lemma setFields_norm fs msg :
  fold_left setField (norm <$> (field_val <$> fs)) msg = fold_left setField (field_val <$> fs) msg.
Proof.
  revert msg. induction fs as [|[[c t] v] fs IH]; intros msg; [done|].
  cbn [fmap list_fmap fold_left]. rewrite setField_norm. apply IH.
Qed.

Lemma setField_body msg item : body (setField msg item) = body msg.
Proof.
  destruct item; try done. destruct vs as [|c [|v [|]]]; try done. unfold setField.
  repeat (case_match; try done).
Qed.

Lemma setFields_body fs msg : body (fold_left setField fs msg) = body msg.
Proof.
  revert msg. induction fs as [|f fs IH]; intros msg; [done|]. simpl. by rewrite IH, setField_body.
Qed.

Lemma setFields_type fs msg : msgType (fold_left setField fs msg) = msgType msg.
Proof.
  revert msg. induction fs as [|f fs IH]; intros msg; [done|]. simpl. rewrite IH.
  destruct f; try done. destruct vs as [|c [|v [|]]]; try done. unfold setField.
  repeat (case_match; try done).
Qed.

(** Any decoder that reads the wire format reads messages. *)
Section by_decoder.
Context (dec : nat -> Decoder.decoder -> string -> outcome (any * Decoder.decoder)).
Context (Hdec : forall n fuel L t v, ty_ok t = true -> (slen (sig_of t) + L < fuel)%nat -> Z.of_nat L < 2 ^ 32 ->
decodes (dec fuel) (sig_of t) L (wire n t) v).

Lemma decodeFields_wire n fs b :
  seq_wire (wire n (TStruct [TByte; TVariant])) (field_val <$> fs) 16 b -> Z.of_nat (length b) < 2 ^ 32 ->
  let fuel := (5 + length b)%nat in
  Decoder.decodeArrayElements (dec fuel) fuel (Decoder.Dec b 0) "(yv)"
    (Z.of_nat (length b))
    = Ok (VAnys (norm <$> (field_val <$> fs)), cur b []).
Proof.
  intros Hw Hsz fuel. unfold Decoder.decodeArrayElements.
  change (Ascii.eqb "(" "{") with false. cbv iota.
  apply (seq_wire_shift _ _ _ 0) in Hw; [|intros; by eapply wire_shift|done].
  pose proof (decodeItems_wire (dec fuel) "(yv)" (length b)
    (wire n (TStruct [TByte; TVariant])) (field_val <$> fs) [] b [] [] fuel) as Hi.
  unfold cur at 1 in Hi. rewrite (right_id_L [] (++)) in Hi. apply Hi; [|done|lia|lia].
  apply Forall_forall. intros x _. apply (Hdec n fuel (length b) (TStruct [TByte; TVariant]));
    [done|simpl; lia|done].
Qed.

Lemma decodeBody_wire n ts vs pre b out gas :
  forallb ty_ok ts = true -> Z.of_nat (length b) < 2 ^ 32 ->
  length ts = length vs -> seq_wire (fun tv => wire n tv.1 tv.2) (zip ts vs) (length pre) b ->
  (slen (sig_of_list ts) <= gas)%nat ->
  decodeBody_by dec gas (cur pre b) (sig_of_list ts) out = Ok (out ++ (norm <$> vs)).
Proof.
  revert vs pre b out gas. induction ts as [|t ts IH]; intros [|v vs] pre b out gas Hok Hsz Hl Hw Hg; try done.
  { simpl. rewrite (right_id_L [] (++)). by destruct gas. }
  inversion Hw as [|? ? ? b1 b2 HW1 HW2]; subst. simpl in Hok. apply andb_true_iff in Hok as [Hok1 Hok2].
  rewrite length_app in Hsz.
  cbn [sig_of_list foldr] in *. fold (sig_of_list ts) in *. rewrite slen_app in Hg.
  assert (slen (sig_of t) <> 0)%nat.
  { pose proof (sig_of_nonempty t). by destruct (sig_of t). }
  destruct gas as [|gas]; [lia|]. cbn [decodeBody_by].
  destruct (sig_of t +:+ sig_of_list ts) as [|c s] eqn:Hs; [by destruct (sig_of t)|].
  rewrite <- Hs, splitSig_sig_of. cbn [wrapf]. erewrite bind_Ok by done. cbv beta iota.
  destruct (Hdec n (S (slen (sig_of t) + length (Decoder.buf (cur pre (b1 ++ b2)))))
    (length b1) t v Hok1) with (pre := pre) (bs := b1) (rest := b2) as [_ Heq]; [|lia|done|lia|].
  { simpl. rewrite !length_app. lia. }
  rewrite Heq. cbn [wrapf].
  erewrite bind_Ok by done. cbv beta iota.
  rewrite (IH vs); [by rewrite <- (assoc_L (++))|done|lia|by injection Hl|by rewrite length_app|lia].
Qed.

Lemma parse_wire n n' m b bb :
  seq_wire (wire n (TStruct [TByte; TVariant])) (field_val <$> m_fields m) 16 b ->
  Z.of_nat (length b) < 2 ^ 32 -> Z.of_nat (length bb) < 2 ^ 32 ->
  body_wire n' (m_sig m) (m_body m) bb -> message_ok m ->
  parseMessage_by dec (m_type m) (Z.of_nat (length bb)) b bb = Ok (parsed m).
Proof.
  intros Hf Hsz Hbsz [Hl Hb] [Hsig Hok]. unfold parseMessage_by.
  rewrite (decodeFields_wire n _ _ Hf Hsz). cbn [wrapf as_items].
  erewrite bind_Ok by done. cbv beta iota zeta. unfold as_items.
  rewrite setFields_norm.
  fold (header_of m). unfold parsed. cbv zeta. rewrite Hsig.
  destruct (m_sig m) as [|t ts] eqn:Ets.
  - rewrite decide_False by (simpl; tauto). destruct (m_body m); [|done].
    assert (body (header_of m) = []) as Hbody by apply setFields_body.
    destruct (header_of m). simpl in *. by rewrite Hbody, Hsig.
  - destruct (m_body m) as [|v vs]; [done|].
    rewrite decide_True.
    2: { split; [simpl; pose proof (sig_of_nonempty t); by destruct (sig_of t)|].
      inversion Hb as [|? ? ? b1 b2 HW1 HW2]; subst.
      simpl in Hok. apply andb_true_iff in Hok as [Hok _].
      pose proof (wire_nonempty _ _ _ _ _ Hok HW1). rewrite length_app.
      destruct b1; [done|simpl; lia]. }
    erewrite bind_Ok; [done|].
    apply (decodeBody_wire n' (t :: ts) (v :: vs) [] bb); auto.
Qed.

Lemma array_bytes_12 b : array_bytes 8 12 b = le_put 4 (Z.of_nat (length b)) ++ b.
Proof. unfold array_bytes, word. by change (zeros (padding 4 12)) with (@nil byte). Qed.

Lemma padding_Z n p :
  (n <> 0)%nat -> (Z.of_nat n - Z.of_nat p mod Z.of_nat n) mod Z.of_nat n = Z.of_nat (padding n p).
Proof.
  intros Hn. unfold padding. rewrite <- Nat2Z.inj_mod.
  pose proof (Nat.mod_upper_bound p n Hn). by rewrite <- Nat2Z.inj_sub, <- Nat2Z.inj_mod by lia.
Qed.

(** The stream of a message, read section by section. *)
Lemma readMessage_sections ty' fl ver ser b bb rest :
  Z.of_nat (length b) < 2 ^ 32 -> Z.of_nat (length bb) < 2 ^ 32 ->
  readMessage_by dec ((["l"%char; ty'; fl; ver] ++ le_put 4 (Z.of_nat (length bb)) ++ le_put 4 ser ++
    (le_put 4 (Z.of_nat (length b)) ++ b) ++ zeros (padding 8 (16 + length b)) ++ bb) ++ rest)
    = (parseMessage_by dec ty' (Z.of_nat (length bb)) b bb, rest).
Proof.
  intros Hb Hbb. rewrite <- !(assoc_L (++)). unfold readMessage_by.
  rewrite !(assoc_L (++) ["l"%char; ty'; fl; ver]), (assoc_L (++) (_ ++ _) (le_put 4 ser)).
  rewrite readFull_cons by (by rewrite !length_app, !length_le_put).
  set (fixed := (_ ++ _) ++ le_put 4 ser).
  assert (take 4 (drop 4 fixed) = le_put 4 (Z.of_nat (length bb))) as Hlen by done.
  change fixed with ("l"%char :: ty' :: fl :: ver :: drop 4 fixed). cbv iota.
  change (Ascii.eqb "l" "l") with true. cbv iota.
  change (drop 4 ("l"%char :: ty' :: fl :: ver :: drop 4 fixed)) with (drop 4 fixed).
  rewrite Hlen, le_get_put_small by lia. cbv zeta.
  rewrite readFull_cons by (by rewrite length_le_put).
  rewrite le_get_put_small by lia.
  change ((8 - 16 mod 8) mod 8) with 0. change (16 + 0) with 16.
  change (b ++ zeros (padding 8 (16 + length b)) ++ bb ++ rest)
    with ([] ++ b ++ zeros (padding 8 (16 + length b)) ++ bb ++ rest).
  rewrite (readFull_cons _ 0 []) by done. rewrite readFull_cons by done.
  replace ((8 - (16 + Z.of_nat (length b)) mod 8) mod 8)
    with (Z.of_nat (length (zeros (padding 8 (16 + length b))))).
  2: { rewrite length_zeros, <- padding_Z by done. rewrite Nat2Z.inj_add. done. }
  rewrite !readFull_cons by done. done.
Qed.

Lemma readMessage_by_wire m bs rest :
  message_wire m bs -> message_ok m -> Z.of_nat (length bs) < 2 ^ 32 ->
  readMessage_by dec (bs ++ rest) = (Ok (parsed m), rest).
Proof.
  intros (n & n' & fb & bb & Hf & Hb & ->) Hok Hsz.
  destruct n as [|n]; [done|]. destruct Hf as (vs & b & Hvs & -> & Hf).
  injection Hvs as <-. cbn [align_of fields_ty] in *.
  change (array_data 8 12) with 16%nat in Hf. rewrite array_bytes_12 in *.
  rewrite !length_app, !length_le_put in Hsz.
  rewrite length_app, length_le_put, Nat.add_assoc. change (12 + 4)%nat with 16%nat.
  rewrite readMessage_sections by lia.
  by rewrite (parse_wire n n') by (done || lia).
Qed.
End by_decoder.

Lemma readMessage_wire m bs rest :
  message_wire m bs -> message_ok m -> Z.of_nat (length bs) < 2 ^ 32 ->
  readMessage (bs ++ rest) = (Ok (parsed m), rest).
Proof. apply readMessage_by_wire, decode_wire. Qed.

(** ** Encoding a call *)

(** The message that a call with arguments [args] of types [ts] is. *)
Definition call_message (serial : Z) (destination path iface method : string)
    (ts : list ty) (args : list any) : message :=
  {| m_type := msgTypeMethodCall; m_flags := NUL; m_version := "001"%char; m_serial := serial;
     m_fields :=
       [(fieldPath, TStr SPath, VString path); (fieldInterface, TStr SString, VString iface);
        (fieldMember, TStr SString, VString method)] ++
       (if decide (destination = "") then []
        else [(fieldDestination, TStr SString, VString destination)]) ++
       (if decide (sig_of_list ts = "") then []
        else [(fieldSignature, TStr SSignature, VString (sig_of_list ts))]);
     m_sig := ts;
     m_body := args |}.

Lemma callFields_message serial destination path iface method ts args :
  callFields destination path iface method (sig_of_list ts)
  = field_val <$> m_fields (call_message serial destination path iface method ts args).
Proof. unfold callFields, call_message. by repeat case_decide. Qed.

Lemma call_message_ok serial destination path iface method ts args :
  forallb ty_ok ts = true -> message_ok (call_message serial destination path iface method ts args).
Proof.
  split; [|done]. unfold header_of. simpl.
  by repeat case_decide; simpl.
Qed.

Lemma call_fields_typed serial destination path iface method ts args :
  (slen (sig_of_list ts) < 256)%nat ->
  typed 4 fields_ty
    (VAnys (field_val <$> m_fields (call_message serial destination path iface method ts args))).
Proof.
  intros Hs. eexists. split; [done|]. rewrite Forall_fmap, Forall_forall.
  assert (Hv : forall c k s, str_ok k s -> typed 3 (TStruct [TByte; TVariant]) (field_val (c, TStr k, VString s))).
  { intros c k s Hok. repeat constructor. exists (TStr k). split_and!; [done..| |done].
    destruct k; simpl; lia. }
  intros [[c t] v] Hin. simpl in Hin.
  rewrite !elem_of_cons, elem_of_app in Hin.
  destruct Hin as [Hin|[Hin|[Hin|[Hin|Hin]]]]; try case_decide; set_unfold; destruct_or?;
    try done; simplify_eq; by apply Hv.
Qed.

Section encode_call.
Context `{MapRangeOk}.

Lemma encodeBody_wire n fuel ts args0 args e gas :
  Forall2 (typed n) ts args -> (n <= fuel)%nat -> (slen (sig_of_list ts) <= gas)%nat ->
  exists b, encodeBody gas fuel e (sig_of_list ts) (args0 ++ args) (length args0)
    = Ok (Encoder.append e b) /\
  seq_wire (fun tv => wire n tv.1 tv.2) (zip ts args) (Encoder.len e) b.
Proof.
  intros Hty Hf. revert args0 e gas. induction Hty as [|t v ts vs Hv Hts IH]; intros args0 e gas Hg.
  { exists []. rewrite append_nil. split; [by destruct gas|constructor]. }
  cbn [sig_of_list foldr] in *. fold (sig_of_list ts) in *. rewrite slen_app in Hg.
  assert (slen (sig_of t) <> 0)%nat.
  { pose proof (sig_of_nonempty t). by destruct (sig_of t). }
  destruct gas as [|gas]; [lia|]. cbn [encodeBody].
  destruct (sig_of t +:+ sig_of_list ts) as [|c s] eqn:Hs; [by destruct (sig_of t)|].
  rewrite <- Hs, splitSig_sig_of. simpl mbind. rewrite list_lookup_middle by done.
  destruct (encode_wire n fuel t v Hv Hf e) as (b1 & -> & HW1). simpl.
  destruct (IH (args0 ++ [v]) (Encoder.append e b1) gas) as (b2 & Heq & HW2); [lia|].
  rewrite length_app, Nat.add_1_r, <- (assoc_L (++)) in Heq.
  simpl in Heq. rewrite Heq, append_append.
  exists (b1 ++ b2). split; [done|]. constructor; [done|]. by rewrite <- len_append.
Qed.

Lemma encodeMethodCall_wire n fuel serial destination path iface method ts args :
  Forall2 (typed n) ts args -> (n <= fuel)%nat -> (slen (sig_of_list ts) < 256)%nat ->
  exists bs, encodeMethodCall fuel serial destination path iface method (sig_of_list ts) args = Ok bs /\
  message_wire (call_message serial destination path iface method ts args) bs.
Proof.
  intros Hty Hf Hs. unfold encodeMethodCall.
  destruct (encodeBody_wire n fuel ts [] args Encoder.empty (slen (sig_of_list ts)) Hty Hf)
    as (bb & Hbb & Hbw); [done|].
  cbn [app length] in Hbb. erewrite bind_Ok by exact Hbb. cbv beta zeta.
  rewrite (callFields_message serial destination path iface method ts args).
  set (m := call_message serial destination path iface method ts args).
  set (h := Encoder.putUint32 (Encoder.putUint32 _ _) serial).
  assert (h = Encoder.Enc (["l"%char; msgTypeMethodCall; NUL; "001"%char] ++
    le_put 4 (Z.of_nat (length bb)) ++ le_put 4 serial)) as ->.
  { unfold h. rewrite !putUint32_word, !append_append.
    unfold word. simpl Encoder.len. rewrite le_put_4_unsigned. done. }
  destruct (encode_wire 4 4 fields_ty _
    (call_fields_typed serial destination path iface method ts args Hs) (le_n 4)
    (Encoder.Enc (["l"%char; msgTypeMethodCall; NUL; "001"%char] ++
    le_put 4 (Z.of_nat (length bb)) ++ le_put 4 serial))) as (fb & Hfb & Hfw).
  change "a(yv)" with (sig_of fields_ty). fold m in Hfb, Hfw.
  rewrite Hfb. cbn [wrapf]. erewrite bind_Ok by done. cbv beta.
  rewrite align_padding by done. eexists. split; [done|].
  exists 4%nat, n, fb, bb. split; [exact Hfw|].
  split; [split; [by eapply Forall2_length|exact Hbw]|].
  rewrite len_append. change (Encoder.len (Encoder.Enc _)) with 12%nat.
  cbn [Encoder.buf Encoder.append]. by rewrite <- !(assoc_L (++)).
Qed.
End encode_call.

(** * Properties *)



(** * Witnesses *)

(** A signal and the reply to the call with serial 1. *)
Definition sample_signal : message :=
  {| m_type := msgTypeSignal; m_flags := "001"%char; m_version := "001"%char; m_serial := 4;
     m_fields := [(fieldPath, TStr SPath, VString "/a"); (fieldMember, TStr SString, VString "Up")];
     m_sig := []; m_body := [] |}.
Definition sample_reply : message :=
  {| m_type := msgTypeMethodReturn; m_flags := "001"%char; m_version := "001"%char; m_serial := 5;
     m_fields := [(fieldReplySerial, TUint32, VUint32 1);
                  (fieldSignature, TStr SSignature, VString "s")];
     m_sig := [TStr SString]; m_body := [VString ":1.42"] |}.

(** The bytes of a value at offset [p]. *)
Definition bytes_of_value (n : nat) (t : ty) (v : any) (p : nat) : list byte :=
  match Encoder.encodeValue n (Encoder.Enc (zeros p)) (sig_of t) v with
  | Ok e => drop p (Encoder.buf e)
  | _ => []
  end.

Definition bytes_of_message (m : message) : list byte :=
  let bb := match encodeBody 9 9 Encoder.empty (sig_of_list (m_sig m)) (m_body m) 0 with
            | Ok e => Encoder.buf e | _ => [] end in
  let fb := bytes_of_value 9 fields_ty (VAnys (field_val <$> m_fields m)) 12 in
  ["l"%char; m_type m; m_flags m; m_version m] ++ le_put 4 (Z.of_nat (length bb)) ++
  le_put 4 (m_serial m) ++ fb ++ zeros (padding 8 (12 + length fb)) ++ bb.

Lemma message_wire_bytes m :
  typed 9 fields_ty (VAnys (field_val <$> m_fields m)) -> Forall2 (typed 9) (m_sig m) (m_body m) ->
  (slen (sig_of_list (m_sig m)) <= 9)%nat ->
  message_wire m (bytes_of_message m).
Proof.
  intros Hf Hb Hs. unfold bytes_of_message, bytes_of_value.
  destruct (encodeBody_wire 9 9 (m_sig m) [] (m_body m) Encoder.empty 9 Hb (le_n 9) Hs)
    as (bb & Hbb & Hwb). cbn [app length] in Hbb. rewrite Hbb.
  destruct (encode_wire 9 9 fields_ty _ Hf (le_n 9) (Encoder.Enc (zeros 12))) as (fb & Hfb & Hwf).
  rewrite Hfb. exists 9%nat, 9%nat, fb, bb. split; [done|].
  split; [split; [by eapply Forall2_length|exact Hwb]|].
  unfold Encoder.append. cbn [Encoder.buf Encoder.empty app].
  by rewrite (drop_app_length' (zeros 12) fb 12).
Qed.

Lemma sample_reply_wire : message_wire sample_reply (bytes_of_message sample_reply).
Proof.
  apply message_wire_bytes; [|repeat constructor|simpl; lia].
  eexists. split; [reflexivity|]. repeat constructor.
  - exists TUint32. split_and!; try done; simpl; lia.
  - exists (TStr SSignature). split_and!; try done; simpl; lia.
Qed.

Lemma sample_signal_wire : message_wire sample_signal (bytes_of_message sample_signal).
Proof.
  apply message_wire_bytes; [|constructor|simpl; lia].
  eexists. split; [reflexivity|]. repeat constructor.
  - exists (TStr SPath). split_and!; try done; simpl; lia.
  - exists (TStr SString). split_and!; try done; simpl; lia.
Qed.

Lemma sample_ok : message_ok sample_reply /\ message_ok sample_signal.
Proof. done. Qed.


