(* ===== verification/MessageSafety.v ===== *)
(** Reading messages from a peer that may send anything: a reader that validates
    signatures always ends, and [readMessage] does the same as it except on a
    message with a signature that is no complete type. *)
From S2P Require Import Prelude Bytes Signature SigParse Marshal Checked MarshalSpec MarshalSafety Message.

(** ** The reader that validates signatures *)
Definition decodeValid (fuel : nat) (d : Decoder.decoder) (sig : string) : outcome (any * Decoder.decoder) :=
  if valid sig then decodeStrict fuel d sig else Err bad_signature.

Definition readValid : ST (list byte) rawMessage := readMessage_by decodeValid.

(** The next message of the stream has a signature that is no complete type: of
    its body, or of a variant in its header or in its body. *)
Definition garbled (bs : list byte) : Prop := exists e, (readValid bs).1 = Err e /\ malformed e = true.

(** ** It agrees with the reader of the code *)
Lemma decodeValid_agrees fuel d sig : agrees True (decodeValid fuel d sig) (Decoder.decodeValue fuel d sig).
Proof.
  unfold decodeValid. destruct (valid sig); [|right; split; [done|by exists bad_signature]].
  unfold decodeStrict. destruct (checked_agrees valid fuel d sig) as [|[_ ?]]; [by left|by right].
Qed.

Section reader.
Context (dec dec' : nat -> Decoder.decoder -> string -> outcome (any * Decoder.decoder)).
Context (Hdec : forall n d sig, agrees True (dec n d sig) (dec' n d sig)).

Lemma decodeBody_agrees gas bd rest out :
  agrees True (decodeBody_by dec gas bd rest out) (decodeBody_by dec' gas bd rest out).
Proof using Hdec.
  revert bd rest out. induction gas as [|gas IH]; intros bd [|c rest] out; cbn [decodeBody_by]; auto with agrees.
  apply agrees_bind; [auto with agrees|]. intros [f r]. apply agrees_bind; [auto with agrees|]. by intros [v d].
Qed.

Lemma parseMessage_agrees mtype bodyLen fb bb :
  agrees True (parseMessage_by dec mtype bodyLen fb bb) (parseMessage_by dec' mtype bodyLen fb bb).
Proof using Hdec.
  unfold parseMessage_by. apply agrees_bind; [apply agrees_wrapf, decodeArrayElements_agrees; intros; apply Hdec|].
  intros [items d]. case_decide; [|auto with agrees]. apply agrees_bind; [apply decodeBody_agrees|auto with agrees].
Qed.

(** Both read the same bytes. *)
Lemma readMessage_agrees bs :
  (readMessage_by dec bs).2 = (readMessage_by dec' bs).2 /\
  agrees True (readMessage_by dec bs).1 (readMessage_by dec' bs).1.
Proof using Hdec.
  unfold readMessage_by, mbind, ST_bind.
  repeat (case_match; simplify_eq; try (split; [done|apply agrees_refl]); []).
  split; [done|]. apply parseMessage_agrees.
Qed.
End reader.

(** ** It always ends *)
Lemma fine_after {A} d k (P : A -> Prop) m : after d k P m -> fine m.
Proof. by destruct m as [[]| | |]. Qed.

Lemma splitSig_fine sig : fine (splitSig sig).
Proof. pose proof (splitSig_no_panic sig) as [Hp Hf]. by destruct (splitSig sig). Qed.

Lemma decodeValid_after fuel d t :
  ty_ok t = true -> in_buf d -> Z.of_nat (slen (sig_of t)) + (Decoder.blen d - Decoder.pos d) < Z.of_nat fuel ->
  after d 1 (typed fuel t) (decodeValid fuel d (sig_of t)).
Proof.
  intros Hok Hd Hf. unfold decodeValid, valid. rewrite complete_sig by done.
  by apply checked_after; [|apply vetted_valid|..].
Qed.

Lemma decodeValid_none fuel d sig : complete sig = None -> decodeValid fuel d sig = Err bad_signature.
Proof. unfold decodeValid, valid. by intros ->. Qed.

Lemma header_fine fb :
  let fuel := (5 + length fb)%nat in
  fine (Decoder.decodeArrayElements (decodeValid fuel) fuel (Decoder.Dec fb 0) "(yv)" (Z.of_nat (length fb))).
Proof.
  intros fuel. unfold Decoder.decodeArrayElements. cbn [Ascii.eqb Bool.eqb].
  assert (Hd : in_buf (Decoder.Dec fb 0)) by (unfold in_buf, Decoder.blen; simpl; lia).
  apply (fine_after (Decoder.Dec fb 0) 0
    (fun v => exists vs, v = VAnys vs /\ Forall (typed fuel (TStruct [TByte; TVariant])) vs)).
  apply decodeItems_after; [done|unfold Decoder.blen; simpl; lia| |by constructor|unfold Decoder.blen; simpl; lia].
  intros d' Hb Hp. apply (decodeValid_after _ _ (TStruct [TByte; TVariant])); [done|buf_lia|].
  unfold Decoder.blen in *. rewrite Hb in *. simpl in *. lia.
Qed.

Lemma decodeBody_fine gas bd rest out :
  in_buf bd -> (slen rest <= gas)%nat -> fine (decodeBody_by decodeValid gas bd rest out).
Proof.
  revert bd rest out. induction gas as [|gas IH]; intros bd [|c rest] out Hd Hg; cbn [decodeBody_by];
    try done; [simpl in Hg; lia|].
  apply fine_bind_ok; [apply fine_wrapf, splitSig_fine|].
  intros [f r] Hs%wrapf_Ok_inv. apply splitSig_app in Hs as [Hs Hne].
  destruct (complete f) as [t|] eqn:Hc; [|by rewrite decodeValid_none].
  apply complete_Some in Hc as [-> Hok]. clear Hne.
  pose proof (decodeValid_after (S (slen (sig_of t) + length (Decoder.buf bd))) bd t Hok Hd
    ltac:(unfold in_buf, Decoder.blen in *; lia)) as Ha.
  apply fine_bind_ok; [apply fine_wrapf; by eapply fine_after|]. intros [v d'] Hv%wrapf_Ok_inv. rewrite Hv in Ha.
  destruct Ha as (_ & Hb & Hp). apply IH; [buf_lia|]. pose proof (sig_of_nonempty t).
  rewrite <- Hs, slen_app in Hg. destruct (sig_of t); [done|simpl in Hg; lia].
Qed.

Lemma parseValid_fine mtype bodyLen fb bb : fine (parseMessage_by decodeValid mtype bodyLen fb bb).
Proof.
  unfold parseMessage_by. apply fine_bind_ok; [apply fine_wrapf, header_fine|]. intros [items d] _.
  case_decide; [|done]. apply fine_bind_ok; [|done]. apply decodeBody_fine; [|done].
  unfold in_buf, Decoder.blen. simpl. lia.
Qed.

(** ** It reads every well-formed message *)
Lemma decodeValid_wire n fuel L t v :
  ty_ok t = true -> (slen (sig_of t) + L < fuel)%nat -> Z.of_nat L < 2 ^ 32 ->
  decodes (decodeValid fuel) (sig_of t) L (wire n t) v.
Proof.
  intros Hok Hf HL pre bs rest. unfold decodeValid. rewrite valid_sig by done.
  by apply checked_wire; [apply valid_sig|..].
Qed.
Lemma readValid_wire m bs rest :
  message_wire m bs -> message_ok m -> Z.of_nat (length bs) < 2 ^ 32 -> readValid (bs ++ rest) = (Ok (parsed m), rest).
Proof. apply readMessage_by_wire, decodeValid_wire. Qed.
Lemma message_not_garbled m bs rest :
  message_wire m bs -> message_ok m -> Z.of_nat (length bs) < 2 ^ 32 -> ~ garbled (bs ++ rest).
Proof. intros Hw Hok Hsz (e & He & _). by rewrite (readValid_wire m) in He. Qed.

(** ** Reading consumes the stream *)
Definition eats {A} (n : nat) (m : ST (list byte) A) : Prop := forall bs,
  match m bs with
  | (Ok _, rest) => (length rest + n <= length bs)%nat
  | (Err _, rest) => (length rest <= length bs)%nat
  | _ => False
  end.

Lemma eats_bind {A B} n (m : ST (list byte) A) (k : A -> ST (list byte) B) :
  eats n m -> (forall bs a rest, m bs = (Ok a, rest) -> eats 0 (k a)) -> eats n (m ≫= k).
Proof.
  intros Hm Hk bs. specialize (Hm bs). unfold mbind, ST_bind. destruct (m bs) as [[a|e| |] rest] eqn:Hr; try done.
  specialize (Hk bs a rest Hr rest). destruct (k a rest) as [[b|e| |] rest']; try done; lia.
Qed.
Lemma eats_wrap {A} n s (m : ST (list byte) A) : eats n m -> eats n (wrap s m).
Proof. intros Hm bs. specialize (Hm bs). unfold wrap. by destruct (m bs) as [[]]. Qed.
Lemma eats_readFull n : 0 <= n -> eats (Z.to_nat n) (readFull n).
Proof. intros Hn bs. unfold readFull. case_decide; [simpl; lia|]. rewrite length_drop. lia. Qed.
Lemma eats_weaken {A} n (m : ST (list byte) A) : eats n m -> eats 0 m.
Proof. intros Hm bs. specialize (Hm bs). destruct (m bs) as [[]]; try done; lia. Qed.

Lemma readValid_eats : eats 12 readValid.
Proof.
  unfold readValid, readMessage_by. apply eats_bind; [apply eats_wrap, (eats_readFull 12); lia|].
  intros bs fixed rest Hf%wrap_Ok_inv.
  assert (Hl : length fixed = 12%nat).
  { unfold readFull in Hf. case_decide; [done|]. injection Hf as <- <-. rewrite length_take. lia. }
  destruct fixed as [|b0 [|b1 fixed]]; [done..|]. case_match; [|intros ?; simpl; lia]. cbv zeta.
  assert (Hpad : forall n, 0 <= (8 - n mod 8) mod 8) by (intros n; apply Z.mod_pos_bound; lia).
  apply eats_bind; [eapply eats_weaken, eats_wrap, eats_readFull; lia|]. intros _ lenBuf _ _.
  apply eats_bind; [eapply eats_weaken, eats_wrap, eats_readFull, Hpad|]. intros _ _ _ _.
  apply eats_bind; [eapply eats_weaken, eats_wrap, eats_readFull, le_get_range|]. intros _ fb _ _.
  apply eats_bind; [eapply eats_weaken, eats_wrap, eats_readFull, Hpad|]. intros _ _ _ _.
  apply eats_bind; [eapply eats_weaken, eats_wrap, eats_readFull, le_get_range|]. intros _ bb _ _ bs'.
  unfold lift. pose proof (parseValid_fine b1 (le_get (take 4 (drop 4 (b0 :: b1 :: fixed)))) fb bb) as Hp.
  by destruct (parseMessage_by _ _ _ _ _); simpl; [lia..| |].
Qed.

(** What [readMessage] does on a stream whose next message is not garbled. *)
Lemma readMessage_ends bs : ~ garbled bs ->
  match readMessage bs with
  | (Ok _, rest) => (length rest + 12 <= length bs)%nat
  | (Err _, rest) => (length rest <= length bs)%nat
  | _ => False
  end.
Proof.
  intros Hg. pose proof (readValid_eats bs) as He.
  destruct (readMessage_agrees _ _ decodeValid_agrees bs) as [H2 [H1|(_ & e & H1 & Hm)]].
  - fold readValid in H1, H2. unfold readMessage.
    destruct (readValid bs), (readMessage_by Decoder.decodeValue bs). simpl in *. by subst.
  - destruct Hg. by exists e.
Qed.

(** * Properties *)

(** C12: reading a message from a peer ends, whatever it sends: on every stream, the
    reader that validates signatures returns a message, having consumed at least
    the 12 bytes of a fixed header, or an error; and the reader of the code leaves
    the same bytes on the stream and returns exactly the same, unless the other
    complains that the message has, for its body or for a variant in its header or
    in its body, a signature that is no complete type.  It never complains of a
    well-formed message: it reads it as the specification says. *)
Theorem readMessage_validated bs :
  let '(r, rest) := readValid bs in
  let '(r', rest') := readMessage bs in
  rest' = rest /\ (length rest <= length bs)%nat /\
  match r with
  | Ok _ => r' = r /\ (length rest + 12 <= length bs)%nat
  | Err e => malformed e = true \/ r' = r
  | Panic | OutOfFuel => False
  end /\
  forall m b tail, bs = b ++ tail -> message_wire m b -> message_ok m -> Z.of_nat (length b) < 2 ^ 32 ->
    r = Ok (parsed m) /\ rest = tail.
Proof.
  assert (Hw : forall m b tail, bs = b ++ tail -> message_wire m b -> message_ok m -> Z.of_nat (length b) < 2 ^ 32 ->
    (readValid bs).1 = Ok (parsed m) /\ (readValid bs).2 = tail).
  { intros m b tail -> Hw Hok Hsz. by rewrite (readValid_wire m). }
  pose proof (readValid_eats bs) as He. pose proof (readMessage_agrees _ _ decodeValid_agrees bs) as [H2 H1].
  fold readValid in H1, H2. fold readMessage in H1, H2.
  destruct (readValid bs) as [r rest], (readMessage bs) as [r' rest']. simpl in *. subst rest'.
  split; [done|]. destruct r as [m|e| |]; try done.
  - destruct H1 as [<-|(_ & e & [=] & _)]. split_and!; [lia|done|done|exact Hw].
  - split_and!; [done| |exact Hw]. destruct H1 as [<-|(_ & e' & [= <-] & Hm)]; [by right|by left].
Qed.

(** * Witnesses *)
(** A message cut short *)
Lemma readMessage_validated_witness :
  (exists e, (readMessage (take 40 (bytes_of_message sample_reply))).1 = Err e).
Proof.
  pose proof (readMessage_validated (take 40 (bytes_of_message sample_reply))) as H.
  destruct (readMessage (take 40 (bytes_of_message sample_reply))) as [r rest] eqn:Hr.
  assert (Hv : exists e, (readValid (take 40 (bytes_of_message sample_reply))).1 = Err e /\ malformed e = false)
    by (eexists; split; vm_compute; reflexivity).
  destruct Hv as (e & Hv & Hm). destruct (readValid _) as [r' rest']. simpl in Hv. subst r'.
  destruct H as (_ & _ & [H| ->] & _); [by rewrite Hm in H|]. by exists e.
Defined.
