(* ===== verification/Conn.v ===== *)
(** The D-Bus connection (internal/dbus/dbus.go): the SASL handshake, serial
    numbers, [Call] and [Dial] on a connection whose peer is an arbitrary stream
    of bytes and whose writes may fail; the theorems say which streams lead to
    which results. *)
From S2P Require Import Prelude Bytes GoStrings Signature Marshal MarshalSpec MarshalSafety Message.

(** [c.c] and [c.r]: what has been written, one entry per [Write]; whether the
    [n]-th [Write] succeeds; the bytes the peer sends.  [os.Getuid()] is fixed. *)
Record Conn := MkConn {
  uid : Z;
  writes : list (list byte);
  write_ok : nat -> bool;
  incoming : list byte;
  serial : Z;
  UniqueName : string;
  closed : bool;
}.

Definition fresh_conn (uid : Z) (ok : nat -> bool) (incoming : list byte) : Conn :=
  MkConn uid [] ok incoming 0 "" false.

Definition add_write (b : list byte) (c : Conn) : Conn :=
  MkConn (uid c) (writes c ++ [b]) (write_ok c) (incoming c) (serial c) (UniqueName c) (closed c).
Definition set_incoming (bs : list byte) (c : Conn) : Conn :=
  MkConn (uid c) (writes c) (write_ok c) bs (serial c) (UniqueName c) (closed c).
Definition set_serial (n : Z) (c : Conn) : Conn :=
  MkConn (uid c) (writes c) (write_ok c) (incoming c) n (UniqueName c) (closed c).
Definition set_name (s : string) (c : Conn) : Conn :=
  MkConn (uid c) (writes c) (write_ok c) (incoming c) (serial c) s (closed c).

(** [c.c.Write(b)] *)
Definition Write (b : list byte) : ST Conn unit := fun c =>
  if write_ok c (length (writes c)) then (Ok tt, add_write b c)
  else (Err (ErrOS "write" "socket"), c).

(** A read from [c.r] *)
Definition read {A} (m : ST (list byte) A) : ST Conn A := fun c =>
  let '(r, rest) := m (incoming c) in (r, set_incoming rest c).

(** [r.ReadString('\n')] *)
Fixpoint readLine (bs : list byte) : outcome string * list byte :=
  match bs with
  | [] => (Err ErrEOF, [])
  | b :: bs =>
      if Ascii.eqb b LF then (Ok nl, bs)
      else match readLine bs with
           | (Ok l, rest) => (Ok (String b l), rest)
           | r => r
           end
  end.

Definition authLine (uid : Z) : string :=
  "AUTH EXTERNAL " +:+ hex_encode (itoa uid) +:+ CRLF.

Definition authenticate : ST Conn unit :=
  _ ← wrap "dbus: auth: write NUL: " (Write [NUL]);
  c ← st_get;
  _ ← wrap "dbus: auth: write AUTH: " (Write (bytes_of_string (authLine (uid c))));
  line ← wrap "dbus: auth: read reply: " (read readLine);
  if decide (slen line < 2)%nat then
    lift (Err (Errorf "dbus: auth: server rejected EXTERNAL auth: %q"))
  else if negb (has_prefix line "OK") then
    lift (Err (Errorf "dbus: auth: server rejected EXTERNAL auth: %q"))
  else wrap "dbus: auth: write BEGIN: " (Write (bytes_of_string ("BEGIN" +:+ CRLF))).

(** [c.c.Close()] *)
Definition Close : ST Conn unit :=
  st_modify (fun c => MkConn (uid c) (writes c) (write_ok c) (incoming c) (serial c) (UniqueName c) true).

(** [atomic.AddUint32(&c.serial, 1)] *)
Definition nextSerial : ST Conn Z :=
  _ ← st_modify (fun c => set_serial (to_unsigned 32 (serial c + 1)) c);
  c ← st_get;
  mret (serial c).

(** What [Call] makes of the reply it was waiting for. *)
Definition reply_result (outSig : string) (dest : list Assign.dest_ty) (reply : rawMessage)
    : outcome (list any) :=
  if Ascii.eqb (msgType reply) msgTypeError then Err (CallError (errorName reply) (body reply))
  else if decide (outSig = "") then Ok []
  else Assign.decodeInto (body reply) outSig dest.

(** The loop that discards other messages; [gas] bounds the messages read. *)
Fixpoint Call_loop (gas : nat) (ser : Z) (outSig : string) (dest : list Assign.dest_ty)
    : ST Conn (list any) :=
  match gas with
  | O => lift OutOfFuel
  | S gas =>
      reply ← wrap "dbus: read reply to %s.%s: " (read readMessage);
      if decide (replySerial reply <> ser) then Call_loop gas ser outSig dest
      else lift (reply_result outSig dest reply)
  end.

Section call.
Context `{MapRange}.

(** The values stored through [dest] are returned. *)
Definition Call (destination path iface method inSig : string) (args : list any)
    (outSig : string) (dest : list Assign.dest_ty) : ST Conn (list any) :=
  ser ← nextSerial;
  msg ← wrap "dbus: encode %s.%s: " (lift
      (encodeMethodCall (depth (VAnys args)) ser destination path iface method inSig args));
  _ ← wrap "dbus: write %s.%s: " (Write msg);
  c ← st_get;
  Call_loop (S (length (incoming c))) ser outSig dest.

(** [Dial] once [net.DialTimeout] has returned a connection. *)
Definition Dial : ST Conn unit :=
  r ← try authenticate;
  match r with
  | inr e => _ ← Close; lift (Err e)
  | inl _ =>
      r ← try (Call "org.freedesktop.DBus" "/org/freedesktop/DBus" "org.freedesktop.DBus"
          "Hello" "" [] "s" [Assign.PString]);
      match r with
      | inr e => _ ← Close; lift (Err (Wrapf "dbus: Hello: " e))
      | inl [VString name] => st_modify (set_name name)
      | inl _ => lift Panic
      end
  end.
End call.

(** ** The specification of a call

    What a client is promised: the peer's stream is a sequence of well-formed
    messages, and the result is that of the first message that replies to the
    call's serial. *)
Definition sends (m : message) (bs : list byte) : Prop :=
  message_wire m bs /\ message_ok m /\ Z.of_nat (length bs) < 2 ^ 32.

Definition replies (ser : Z) (m : message) : Prop := replySerial (parsed m) = ser.

Lemma message_wire_nonempty m bs : message_wire m bs -> (0 < length bs)%nat.
Proof. intros (? & ? & ? & ? & _ & _ & ->). simpl. lia. Qed.

Lemma Call_loop_skips gas ser outSig dest ms bss mr br rest c :
  Forall2 (fun m bs => sends m bs /\ ~ replies ser m) ms bss ->
  sends mr br -> replies ser mr -> (length bss < gas)%nat ->
  incoming c = concat bss ++ br ++ rest ->
  Call_loop gas ser outSig dest c
  = (reply_result outSig dest (parsed mr), set_incoming rest c).
Proof.
  intros Hms Hmr Hser. revert gas c.
  induction Hms as [|m bs ms bss [Hs Hn] Hms IH]; intros [|gas] c Hg Hin; simpl in Hg; try lia;
    cbn [Call_loop]; unfold mbind, ST_bind, wrap, read; rewrite Hin.
  - destruct Hmr as (Hw & Hok & Hsz). cbn [concat app].
    rewrite (readMessage_wire mr br rest Hw Hok Hsz). simpl.
    rewrite decide_False by (unfold replies in Hser; tauto). done.
  - destruct Hs as (Hw & Hok & Hsz). cbn [concat]. rewrite <- (assoc_L (++)).
    rewrite (readMessage_wire m bs _ Hw Hok Hsz). simpl.
    rewrite decide_True by done. by rewrite IH by (simpl; lia || done).
Qed.

Lemma Call_loop_reply gas ser outSig dest c ws c' :
  Call_loop gas ser outSig dest c = (Ok ws, c') ->
  exists bs reply, readMessage bs = (Ok reply, incoming c') /\
    replySerial reply = ser /\ reply_result outSig dest reply = Ok ws.
Proof.
  revert c. induction gas as [|gas IH]; intros c; [done|]. cbn [Call_loop].
  unfold mbind, ST_bind, wrap, read.
  destruct (readMessage (incoming c)) as [[reply| | |] rest] eqn:Hr; simpl; try done.
  case_decide as Hs; [by apply IH|]. unfold lift. intros [= Hw <-].
  by exists (incoming c), reply.
Qed.

Lemma readLine_app l rest :
  no_char LF l = true -> readLine (bytes_of_string l ++ LF :: rest) = (Ok (l +:+ nl), rest).
Proof.
  induction l as [|b l IH]; [done|]. intros [Hb Hl]%andb_true_iff. apply negb_true_iff in Hb.
  cbn [bytes_of_string app readLine]. by rewrite Hb, IH.
Qed.

Definition all_writes : nat -> bool := fun _ => true.

(** The bytes of the handshake. *)
Definition handshake (uid : Z) : list (list byte) :=
  [[NUL]; bytes_of_string (authLine uid); bytes_of_string ("BEGIN" +:+ CRLF)].

(** The handshake against a peer that answers with one line. *)
Lemma authenticate_line id l rest :
  no_char LF l = true ->
  authenticate (fresh_conn id all_writes (bytes_of_string l ++ LF :: rest))
  = if has_prefix l "OK"
    then (Ok tt, MkConn id (handshake id) all_writes rest 0 "" false)
    else (Err (Errorf "dbus: auth: server rejected EXTERNAL auth: %q"),
          MkConn id (take 2 (handshake id)) all_writes rest 0 "" false).
Proof.
  intros Hl. unfold authenticate, mbind, ST_bind, wrap, Write, st_get, read.
  cbn -[has_prefix authLine bytes_of_string].
  rewrite readLine_app by done. cbn -[has_prefix authLine bytes_of_string].
  case_decide as Hs; rewrite slen_app in Hs; cbn [String.length nl] in Hs.
  - by rewrite has_prefix_short by (cbn [String.length]; lia).
  - destruct (decide (2 <= slen l)%nat) as [H2|H2].
    + rewrite has_prefix_app_l by exact H2. by destruct (has_prefix l "OK").
    + rewrite (has_prefix_short l) by (cbn [String.length]; lia).
      destruct l as [|a [|b l]]; simpl in H2, Hs; try lia.
      cbn [String.append nl has_prefix]. by rewrite andb_false_r.
Qed.

Section call_spec.
Context `{MapRangeOk}.

Lemma Call_reads n destination path iface method ts args outSig dest ms bss mr br rest c :
  let ser := to_unsigned 32 (serial c + 1) in
  Forall2 (typed n) ts args -> (slen (sig_of_list ts) < 256)%nat ->
  write_ok c (length (writes c)) = true ->
  Forall2 (fun m bs => sends m bs /\ ~ replies ser m) ms bss ->
  sends mr br -> replies ser mr -> incoming c = concat bss ++ br ++ rest ->
  exists msg, message_wire (call_message ser destination path iface method ts args) msg /\
  Call destination path iface method (sig_of_list ts) args outSig dest c
    = (reply_result outSig dest (parsed mr), set_incoming rest (add_write msg (set_serial ser c))).
Proof.
  intros ser Hty Hs Hwr Hms Hmr Hser Hin.
  destruct (encodeMethodCall_wire (depth (VAnys args)) (depth (VAnys args)) ser
    destination path iface method ts args) as (msg & He & Hm); [by eapply typed_args_depth|done|done|].
  exists msg. split; [done|].
  unfold Call, nextSerial, wrap, lift, Write, st_get, st_modify, mbind, ST_bind, mret, ST_ret.
  cbn -[encodeMethodCall Call_loop depth to_unsigned]. fold ser. rewrite He.
  cbn -[Call_loop to_unsigned]. rewrite Hwr. cbn -[Call_loop to_unsigned].
  apply (Call_loop_skips _ _ _ _ ms bss mr br rest); try done.
  cbn [incoming add_write set_serial]. rewrite Hin, length_app.
  enough (length bss <= length (concat bss))%nat by lia.
  clear -Hms. induction Hms as [|m bs ms bss [(Hw & _) _] _ IH]; simpl; [lia|].
  apply message_wire_nonempty in Hw. rewrite length_app. lia.
Qed.
End call_spec.

(** * Properties *)

(** C4: a call returns the result of the first message that answers it.  When
    the peer sends well-formed messages, none of the first ones replying to this
    call, then the reply: the call is written as one D-Bus message with the next
    serial, exactly the messages up to the reply are consumed, and the result is
    the reply's (its error, or its body stored through the destinations). *)
Theorem Call_refines_client `{MapRangeOk} n destination path iface method ts args outSig dest
    ms bss mr br rest c :
  let ser := to_unsigned 32 (serial c + 1) in
  Forall2 (typed n) ts args -> (slen (sig_of_list ts) < 256)%nat ->
  write_ok c (length (writes c)) = true ->
  Forall2 (fun m bs => sends m bs /\ ~ replies ser m) ms bss ->
  sends mr br -> replies ser mr -> incoming c = concat bss ++ br ++ rest ->
  exists msg, message_wire (call_message ser destination path iface method ts args) msg /\
    Call destination path iface method (sig_of_list ts) args outSig dest c
    = (reply_result outSig dest (parsed mr), set_incoming rest (add_write msg (set_serial ser c))).
Proof. apply Call_reads. Qed.

(** A call never succeeds without its reply.  Whatever bytes the peer sends,
    well formed or not, a call that returns normally read a message whose reply
    serial is the call's and that is not an error. *)
Theorem Call_success_needs_reply `{MapRange} destination path iface method inSig args outSig dest c ws c' :
  Call destination path iface method inSig args outSig dest c = (Ok ws, c') ->
  exists bs reply, readMessage bs = (Ok reply, incoming c') /\
    replySerial reply = to_unsigned 32 (serial c + 1) /\ msgType reply <> msgTypeError /\
    (outSig <> "" -> Assign.decodeInto (body reply) outSig dest = Ok ws).
Proof.
  unfold Call, nextSerial, wrap, lift, Write, st_get, st_modify, mbind, ST_bind, mret, ST_ret.
  cbn -[encodeMethodCall Call_loop depth to_unsigned].
  destruct (encodeMethodCall _ _ _ _ _ _ _ _) as [msg| | |]; [|done..].
  cbn -[Call_loop to_unsigned]. destruct (write_ok c _); [|done].
  cbn -[Call_loop to_unsigned]. intros Hc.
  apply Call_loop_reply in Hc as (bs & reply & Hr & Hs & Hres).
  exists bs, reply. split_and!; [done|done| |]; unfold reply_result in Hres;
    destruct (Ascii.eqb_spec (msgType reply) msgTypeError); try done.
  intros Ho. by rewrite decide_False in Hres.
Qed.

(** The handshake accepts exactly the servers that answer "OK ...": against
    a server whose first line is [l], authentication succeeds if and only if [l]
    starts with OK, and only then is BEGIN written; the bytes after the line are
    left for the message reader. *)
Theorem authenticate_iff_OK id l rest :
  no_char LF l = true ->
  authenticate (fresh_conn id all_writes (bytes_of_string l ++ LF :: rest))
  = if has_prefix l "OK"
    then (Ok tt, MkConn id (handshake id) all_writes rest 0 "" false)
    else (Err (Errorf "dbus: auth: server rejected EXTERNAL auth: %q"),
          MkConn id (take 2 (handshake id)) all_writes rest 0 "" false).
Proof. apply authenticate_line. Qed.

(** Dialing a bus that authenticates the client and answers Hello gives a
    connection that has written exactly the handshake and the Hello call with
    serial 1, and whose unique name is the one in the reply; messages that the
    bus sends before the reply (signals) are skipped. *)
Theorem Dial_connects `{MapRangeOk} id l ms bss mr br rest name :
  no_char LF l = true -> has_prefix l "OK" = true ->
  Forall2 (fun m bs => sends m bs /\ ~ replies 1 m) ms bss ->
  sends mr br -> replies 1 mr -> m_type mr <> msgTypeError -> m_body mr = [VString name] ->
  exists hello,
    message_wire (call_message 1 "org.freedesktop.DBus" "/org/freedesktop/DBus"
                    "org.freedesktop.DBus" "Hello" [] []) hello /\
    Dial (fresh_conn id all_writes (bytes_of_string l ++ LF :: concat bss ++ br ++ rest))
    = (Ok tt, MkConn id (handshake id ++ [hello]) all_writes rest 1 name false).
Proof.
  intros Hl HOK Hms Hmr Hr Ht Hb. unfold Dial, mbind at 1, ST_bind at 1, try at 1.
  rewrite authenticate_line, HOK by done.
  destruct (Call_reads 0 "org.freedesktop.DBus" "/org/freedesktop/DBus" "org.freedesktop.DBus"
    "Hello" [] [] "s" [Assign.PString] ms bss mr br rest
    (MkConn id (handshake id) all_writes (concat bss ++ br ++ rest) 0 "" false))
    as (hello & Hw & Hc); try done; [simpl; lia|].
  exists hello. split; [exact Hw|].
  unfold mbind, ST_bind, try. change (sig_of_list []) with "" in Hc. rewrite Hc.
  unfold reply_result. 
  assert (msgType (parsed mr) = m_type mr) as ->.
  { simpl. unfold header_of. by rewrite setFields_type. }
  destruct (Ascii.eqb_spec (m_type mr) msgTypeError); [done|]. simpl. by rewrite Hb.
Qed.

(** * Witnesses *)
Lemma sample_sends :
  sends sample_reply (bytes_of_message sample_reply) /\
  Forall2 (fun m bs => sends m bs /\ ~ replies 1 m) [sample_signal] [bytes_of_message sample_signal].
Proof.
  destruct sample_ok. split; [split_and!; [exact sample_reply_wire|done|reflexivity]|].
  constructor; [|constructor].
  split; [split_and!; [exact sample_signal_wire|done|reflexivity]|done].
Qed.

(** A connection whose peer sends the signal and then the reply. *)
Definition sample_conn : Conn :=
  fresh_conn 0 all_writes
    (concat [bytes_of_message sample_signal] ++ bytes_of_message sample_reply ++ ["?"%char]).

Lemma Call_refines_client_witness :
  exists msg, message_wire (call_message 1 "d" "/p" "i" "M" [TStr SString] [VString "x"]) msg /\
    Call "d" "/p" "i" "M" "s" [VString "x"] "s" [Assign.PString] sample_conn
    = (Ok [VString ":1.42"], set_incoming ["?"%char] (add_write msg (set_serial 1 sample_conn))).
Proof.
  apply (Call_refines_client 1 "d" "/p" "i" "M" [TStr SString] [VString "x"] "s" [Assign.PString]
    [sample_signal] [bytes_of_message sample_signal] sample_reply (bytes_of_message sample_reply)
    ["?"%char] sample_conn);
    [repeat constructor|simpl; lia|reflexivity|apply sample_sends|apply sample_sends|reflexivity|reflexivity].
Defined.

Lemma Call_success_needs_reply_witness :
  exists bs reply, readMessage bs = (Ok reply, ["?"%char]) /\
    replySerial reply = 1 /\ msgType reply <> msgTypeError /\
    ("s" <> "" -> Assign.decodeInto (body reply) "s" [Assign.PString] = Ok [VString ":1.42"]).
Proof.
  eapply (Call_success_needs_reply "d" "/p" "i" "M" "s" [VString "x"] "s" [Assign.PString] sample_conn
    [VString ":1.42"] (MkConn 0 _ all_writes ["?"%char] 1 "" false)).
  vm_compute. reflexivity.
Defined.

Lemma authenticate_iff_OK_witness :
  authenticate (fresh_conn 1000 all_writes (bytes_of_string "OK 12ab" ++ LF :: ["?"%char]))
  = (Ok tt, MkConn 1000 (handshake 1000) all_writes ["?"%char] 0 "" false).
Proof. exact (authenticate_iff_OK 1000 "OK 12ab" ["?"%char] eq_refl). Defined.

Lemma Dial_connects_witness :
  exists hello,
    message_wire (call_message 1 "org.freedesktop.DBus" "/org/freedesktop/DBus"
                    "org.freedesktop.DBus" "Hello" [] []) hello /\
    Dial (fresh_conn 0 all_writes (bytes_of_string "OK 12ab" ++ LF ::
      concat [bytes_of_message sample_signal] ++ bytes_of_message sample_reply ++ ["?"%char]))
    = (Ok tt, MkConn 0 (handshake 0 ++ [hello]) all_writes ["?"%char] 1 ":1.42" false).
Proof.
  apply (Dial_connects 0 "OK 12ab" [sample_signal] [bytes_of_message sample_signal]
    sample_reply (bytes_of_message sample_reply) ["?"%char] ":1.42");
    try reflexivity; [apply sample_sends|apply sample_sends|done].
Defined.
