(* ===== verification/World.v ===== *)
(** What the program acts on: a file system, the console, and the commands,
    hosts and buses it talks to.

    The file system and the log of everything the program did are state; what
    is not the program's is a parameter, the class [Env]: whether an operation of
    the operating system fails, what an external command answers and does to the
    file system, random bytes.  Each of these is a function of the log, so an
    environment may behave differently every time it is asked. *)
From S2P Require Import Prelude Bytes GoStrings.

(** ** Files *)
Inductive node : Set :=
| NDir (perm uid gid : Z)
| NFile (content : string) (perm uid gid : Z)
| NLink (target : string).

(** Clean path to node; the root and the working directory always exist.
    Symbolic links are followed on the last element of a path. *)
Abbreviation FS := (gmap string node).

(** ** The log *)
Record cmd := Cmd {
  c_argv : list string;
  c_env : list string;
  c_input : option string;   (** [None]: the console *)
  c_capture : bool;
}.

Inductive event : Set :=
| EOS (op : string) (args : list string)
| EExec (argv env : list string) (input : option string)
| EOut (s : string)
| ENet (op : string) (args : list string)
| ESleep (ns : Z).

Record World := MkWorld {
  fs : FS;
  console : string;          (** input not read yet *)
  log : list event;          (** newest first *)
}.

Definition set_fs (f : FS) (w : World) : World := MkWorld f (console w) (log w).
Definition set_console (s : string) (w : World) : World := MkWorld (fs w) s (log w).
Definition add_log (e : event) (w : World) : World := MkWorld (fs w) (console w) (e :: log w).

(** What running a process gives: it may not start, or end with a status. *)
Inductive exec_result : Set :=
| NotStarted
| Exited (code : Z) (stdout stderr : string).

(** What an HTTP exchange gives: an error, or a status and a body. *)
Inductive http_result : Set :=
| HttpError
| HttpResponse (status : Z) (body : string).

(** [io_err] is the error of an operation of the operating system, and [io_part]
    how far an operation that fails has gone: [None] before any effect, else the
    number of bytes that a write has put into the file it has truncated, or of
    the directories that [MkdirAll] has made.
    [exec], [http], [net_ok] and [bus] answer the event at the head of the log:
    a command, an HTTP request, an attempt to connect or to resolve a name, and
    a connection to a socket of a bus (the bytes its peer will send); [now] is the
    clock, in nanoseconds, and [statfs] the free blocks and block size of a file
    system.  What is printed, on the standard output or error, is an [EOut]. *)
Class Env := {
  io_err : list event -> option error;
  io_part : list event -> option nat;
  exec : list event -> FS -> cmd -> exec_result * FS;
  http : list event -> http_result;
  net_ok : list event -> bool;
  bus : list event -> option (list byte);
  my_uid : Z;
  rand_bytes : list event -> nat -> list byte;
  temp_name : list event -> string -> string;
  range_files : list event -> gmap string string -> list (string * string);
  now : list event -> Z;
  statfs : list event -> string -> option (Z * Z);
}.

(** [range] over a [map[string]string] visits every entry once. *)
Class RangeOk {E : Env} : Prop :=
  range_files_perm : forall l m, range_files l m ≡ₚ map_to_list m.

(** The clock (in nanoseconds) does not go back, and advances by what is slept. *)
Class ClockOk {E : Env} : Prop := {
  clock_mono : forall e l, now l <= now (e :: l);
  clock_sleep : forall d l, now l + d <= now (ESleep d :: l);
}.

(** Every operation of the operating system succeeds when it can. *)
Class NoFaults {E : Env} : Prop := no_faults : forall l, io_err l = None.

(** The time that was slept *)
Fixpoint slept (l : list event) : Z :=
  match l with
  | [] => 0
  | ESleep d :: l => Z.max 0 d + slept l
  | _ :: l => slept l
  end.

(** An environment without faults, given the answers of the outside. *)
Definition simple_env (ex : list event -> FS -> cmd -> exec_result * FS)
    (ht : list event -> http_result) (net : list event -> bool) : Env := {|
      io_err := fun _ => None;
      io_part := fun _ => None;
      exec := ex;
      http := ht;
      net_ok := net;
      bus := fun _ => None;
      my_uid := 0;
      rand_bytes := fun _ n => [];
      temp_name := fun _ p => p +:+ "1";
      range_files := fun _ m => map_to_list m;
      now := slept;
      statfs := fun _ _ => None;
      |}.
#[export] Instance simple_env_ok ex ht net : NoFaults (E := simple_env ex ht net).
Proof. by intros l. Qed.
#[export] Instance simple_env_range ex ht net : RangeOk (E := simple_env ex ht net).
Proof. by intros l m. Qed.
#[export] Instance simple_env_clock ex ht net : ClockOk (E := simple_env ex ht net).
Proof. split; [intros [] l|intros d l]; cbn; lia. Qed.

(** ** Operations on the file system *)
Fixpoint resolve (fuel : nat) (f : FS) (p : string) : string :=
  match f !! p with
  | Some (NLink t) =>
      match fuel with
      | O => p
      | S fuel => resolve fuel f (if has_prefix t "/" then clean t else path_join [path_dir p; t])
      end
  | _ => p
  end.
Definition follow (f : FS) (p : string) : string := resolve 40 f (clean p).

Definition is_dir (f : FS) (p : string) : bool :=
  String.eqb p "/" || String.eqb p "." ||
  match f !! p with Some (NDir _ _ _) => true | _ => false end.

Definition stat (p : string) : ST FS unit := fun f =>
  let q := follow f p in
  (if is_dir f q then Ok tt
   else match f !! q with
        | Some (NFile _ _ _ _) => Ok tt
        | _ => Err (ErrNotExist p)
        end, f).

Definition lstat (p : string) : ST FS unit := fun f =>
  let q := clean p in
  (if is_dir f q then Ok tt
   else match f !! q with Some _ => Ok tt | None => Err (ErrNotExist p) end, f).

Definition read_file (p : string) : ST FS string := fun f =>
  (match f !! follow f p with
   | Some (NFile c _ _ _) => Ok c
   | Some (NDir _ _ _) => Err (ErrOS "read" p)
   | Some (NLink _) | None => if is_dir f (follow f p) then Err (ErrOS "read" p) else Err (ErrNotExist p)
   end, f).

(** [os.OpenFile] for writing, followed by writing: [upd] makes the new content
    from the old one. *)
Definition write_with (upd : string -> string) (p : string) (perm : Z) : ST FS unit := fun f =>
  let q := follow f p in
  if is_dir f q then (Err (ErrOS "open" p), f)
  else match f !! q with
       | Some (NFile c pm u g) => (Ok tt, <[q := NFile (upd c) pm u g]> f)
       | Some _ => (Err (ErrOS "open" p), f)
       | None =>
           if is_dir f (path_dir q) then (Ok tt, <[q := NFile (upd "") perm 0 0]> f)
           else (Err (ErrNotExist p), f)
       end.

Fixpoint mkdirs (ps : list string) (perm : Z) : ST FS unit := fun f =>
  match ps with
  | [] => (Ok tt, f)
  | p :: ps =>
      let q := follow f p in
      if is_dir f q then mkdirs ps perm f
      else match f !! q with
           | Some _ => (Err (ErrOS "mkdir" p), f)
           | None => mkdirs ps perm (<[q := NDir perm 0 0]> f)
           end
  end.
Definition mkdir_all (p : string) (perm : Z) : ST FS unit := mkdirs (path_prefixes (clean p)) perm.

Definition symlink (target p : string) : ST FS unit := fun f =>
  let q := clean p in
  if is_dir f q then (Err (ErrOS "symlink" p), f)
  else match f !! q with
       | Some _ => (Err (ErrOS "symlink" p), f)
       | None =>
           if is_dir f (path_dir q) then (Ok tt, <[q := NLink target]> f)
           else (Err (ErrNotExist p), f)
       end.

Definition under (p q : string) : bool := String.eqb q p || has_prefix q (p +:+ "/").

(** [os.Remove]: a directory must be empty. *)
Definition remove (p : string) : ST FS unit := fun f =>
  let q := clean p in
  match f !! q with
  | None => (Err (ErrNotExist p), f)
  | Some (NDir _ _ _) =>
      if bool_decide (filter (fun kv : string * node => under q kv.1 = true /\ kv.1 <> q) f = ∅)
      then (Ok tt, delete q f) else (Err (ErrOS "remove" p), f)
  | Some _ => (Ok tt, delete q f)
  end.

Definition remove_all (p : string) : ST FS unit := fun f =>
  (Ok tt, filter (fun kv : string * node => under (clean p) kv.1 = false) f).

Definition set_perm (perm : Z) (n : node) : node :=
  match n with
  | NDir _ u g => NDir perm u g
  | NFile c _ u g => NFile c perm u g
  | NLink t => NLink t
  end.
Definition set_owner (u g : Z) (n : node) : node :=
  match n with
  | NDir p _ _ => NDir p u g
  | NFile c p _ _ => NFile c p u g
  | NLink t => NLink t
  end.

(** Change the node that a path leads to. *)
Definition change (op : string) (upd : node -> node) (p : string) : ST FS unit := fun f =>
  let q := follow f p in
  match f !! q with
  | Some n => (Ok tt, <[q := upd n]> f)
  | None => if is_dir f q then (Ok tt, f) else (Err (ErrNotExist p), f)
  end.

(** ** The os package *)
Section os.
Context {E : Env}.

(** One operation: it is logged, and may fail, before it has any effect or with
    the effect of its first [n] parts. *)
Definition io_with {A} (part : nat -> FS -> FS) (ev : event) (m : ST FS A) : ST World A := fun w =>
  let w := add_log ev w in
  match io_err (log w) with
  | Some e => (Err e, set_fs (match io_part (log w) with Some n => part n (fs w) | None => fs w end) w)
  | None => let '(r, f) := m (fs w) in (r, set_fs f w)
  end.
Definition io {A} (ev : event) (m : ST FS A) : ST World A := io_with (fun _ f => f) ev m.

(** Opening a file and writing [content], [upd] of which and of the old content is
    the new one *)
Definition io_write (ev : event) (upd : string -> string -> string) (p content : string) (perm : Z) : ST World unit :=
  io_with (fun n f => (write_with (upd (String.substring 0 n content)) p perm f).2) ev
    (write_with (upd content) p perm).

Definition MkdirAll (p : string) (perm : Z) : ST World unit :=
  io_with (fun n f => (mkdirs (take n (path_prefixes (clean p))) perm f).2) (EOS "mkdir" [p]) (mkdir_all p perm).
Definition WriteFile (p content : string) (perm : Z) : ST World unit :=
  io_write (EOS "write" [p; content]) (fun new _ => new) p content perm.
Definition AppendFile (p content : string) (perm : Z) : ST World unit :=
  io_write (EOS "append" [p; content]) (fun new old => old +:+ new) p content perm.
Definition TouchFile (p : string) (perm : Z) : ST World unit :=
  io_write (EOS "touch" [p]) (fun _ old => old) p "" perm.
Definition ReadFile (p : string) : ST World string := io (EOS "read" [p]) (read_file p).
Definition Stat (p : string) : ST World unit := io (EOS "stat" [p]) (stat p).
Definition Lstat (p : string) : ST World unit := io (EOS "lstat" [p]) (lstat p).
Definition Symlink (target p : string) : ST World unit := io (EOS "symlink" [target; p]) (symlink target p).
Definition Remove (p : string) : ST World unit := io (EOS "remove" [p]) (remove p).
Definition RemoveAll (p : string) : ST World unit := io (EOS "removeall" [p]) (remove_all p).
Definition Chmod (p : string) (perm : Z) : ST World unit := io (EOS "chmod" [p]) (change "chmod" (set_perm perm) p).
Definition Chown (p : string) (uid gid : Z) : ST World unit :=
  io (EOS "chown" [p]) (change "chown" (set_owner uid gid) p).

Definition MkdirTemp (pattern : string) : ST World string := fun w =>
  let dir := path_join ["/tmp"; temp_name (log w) pattern] in
  match io (EOS "mkdirtemp" [dir]) (mkdir_all dir 448) w with
  | (Ok tt, w) => (Ok dir, w)
  | (Err e, w) => (Err e, w)
  | (Panic, w) => (Panic, w)
  | (OutOfFuel, w) => (OutOfFuel, w)
  end.

(** [os.Lchown]: a symbolic link is changed itself. *)
Definition lchange (upd : node -> node) (p : string) : ST FS unit := fun f =>
  let q := clean p in
  match f !! q with
  | Some n => (Ok tt, <[q := upd n]> f)
  | None => if is_dir f q then (Ok tt, f) else (Err (ErrNotExist p), f)
  end.
Definition Lchown (p : string) (uid gid : Z) : ST World unit :=
  io (EOS "lchown" [p]) (lchange (set_owner uid gid) p).

(** The paths of [filepath.WalkDir(root)]: [root] and what is under it, a directory
    before its entries, entries in the order of their names. *)
Definition walk_key (p : string) : list string := split slash p.
Definition walk_le : relation string := fun a b =>
  String.le (join (String "000" "") (walk_key a)) (join (String "000" "") (walk_key b)).
#[export] Instance walk_le_dec : RelDecision walk_le.
Proof. intros a b. unfold walk_le. apply _. Defined.
Definition walk (root : string) (f : FS) : list string :=
  merge_sort walk_le (filter (fun p => under (clean root) p = true) (map_to_list f).*1).

(** [filepath.WalkDir(root, visit)]: the root must exist; a directory is read after
    it is visited. *)
Fixpoint walk_each (ps : list string) (visit : string -> ST World unit) : ST World unit :=
  match ps with
  | [] => mret tt
  | p :: ps =>
      _ ← visit p;
      w ← st_get;
      _ ← match fs w !! p with
        | Some (NDir _ _ _) => io (EOS "readdir" [p]) (fun f => (Ok tt, f))
        | _ => mret tt
        end;
      walk_each ps visit
  end.
Definition WalkDir (root : string) (visit : string -> ST World unit) : ST World unit :=
  _ ← Lstat root;
  w ← st_get;
  walk_each (walk root (fs w)) visit.

(** [filepath.Glob(dir/*suffix)]: the sorted entries of [dir]; a directory that
    cannot be read has none. *)
Definition glob (dir suffix : string) (f : FS) : list string :=
  let q := follow f dir in
  let names := filter (fun k => path_dir k = q /\ has_suffix k suffix = true) (map_to_list f).*1 in
  merge_sort String.le ((fun k => path_join [dir; path_base k]) <$> names).
Definition Glob (dir suffix : string) : ST World (list string) := fun w =>
  let w := add_log (EOS "glob" [dir; suffix]) w in
  (Ok (match io_err (log w) with Some _ => [] | None => glob dir suffix (fs w) end), w).

(** [rand.Read] *)
Definition rand_Read (n : nat) : ST World (list byte) := fun w =>
  let w := add_log (EOS "rand" []) w in
  match io_err (log w) with
  | Some e => (Err e, w)
  | None => (Ok (take n (rand_bytes (log w) n ++ zeros n)), w)
  end.

(** One exchange over the network, whose answer is [ask log]. *)
Definition net {A} (ev : event) (ask : list event -> A) : ST World A := fun w =>
  let w := add_log ev w in (Ok (ask (log w)), w).

(** [time.Now], [time.Sleep] and [syscall.Statfs] (available blocks and block
    size) *)
Definition Now : ST World Z := net (EOS "now" []) now.
Definition Sleep (d : Z) : ST World unit := net (ESleep d) (fun _ => tt).
Definition Statfs (p : string) : ST World (Z * Z) := fun w =>
  let w := add_log (EOS "statfs" [p]) w in
  (match statfs (log w) p with Some s => Ok s | None => Err (ErrOS "statfs" p) end, w).

(** [fmt.Print] *)
Definition Print_out (s : string) : ST World unit := fun w => (Ok tt, add_log (EOut s) w).
End os.

(** [defer f()]: [f] runs when [m] returns, whatever it returns; its error is
    dropped. *)
Definition deferred {A} (m : ST World A) (f : ST World unit) : ST World A := fun w =>
  let '(r, w) := m w in
  match r with
  | OutOfFuel => (r, w)
  | _ => (r, (f w).2)
  end.

(** ** Lemmas *)
Section io_lemmas.
Context {E : Env}.

Lemma io_ok {A} `{!NoFaults} ev (m : ST FS A) w :
  io ev m w = (let '(r, f) := m (fs w) in (r, MkWorld f (console w) (ev :: log w))).
Proof. unfold io, io_with. by rewrite no_faults. Qed.
Lemma io_cases {A} ev (m : ST FS A) w :
  io ev m w = match io_err (ev :: log w) with
    | Some e => (Err e, add_log ev w)
    | None => let '(r, f) := m (fs w) in (r, MkWorld f (console w) (ev :: log w))
    end.
Proof. unfold io, io_with. cbn. destruct (io_err _); [|done]. unfold set_fs, add_log. cbn. by destruct (io_part _). Qed.
Lemma io_with_ok {A} `{!NoFaults} part ev (m : ST FS A) w : io_with part ev m w = io ev m w.
Proof. rewrite io_ok. unfold io_with. by rewrite no_faults. Qed.

(** A successful operation, when nothing is at fault. *)
Lemma io_Ok_inv {A} part ev (m : ST FS A) w a w' :
  io_with part ev m w = (Ok a, w') -> exists f, m (fs w) = (Ok a, f) /\ w' = MkWorld f (console w) (ev :: log w).
Proof. unfold io_with. destruct (io_err _); [done|]. cbn. destruct (m (fs w)) as [r f]. intros [= -> <-]. eauto. Qed.
End io_lemmas.

Lemma is_dir_insert f q n p :
  is_dir f p = true -> match n with NDir _ _ _ => True | _ => is_dir f q = false end ->
  is_dir (<[q := n]> f) p = true.
Proof.
  unfold is_dir. intros Hp Hn. destruct (String.eqb p "/" || String.eqb p ".") eqn:He; [done|].
  simpl in *. destruct (decide (p = q)) as [->|Hne].
  - rewrite lookup_insert_eq. destruct n; [done| |]; rewrite Hp, He in Hn; done.
  - by rewrite lookup_insert_ne.
Qed.

(** *** Symbolic links *)
Definition not_link (n : option node) : Prop := match n with Some (NLink _) => False | _ => True end.

Lemma resolve_insert fuel f q n p :
  not_link (f !! q) -> not_link (Some n) -> resolve fuel (<[q := n]> f) p = resolve fuel f p.
Proof.
  intros Hq Hn. revert p. induction fuel as [|fuel IH]; intros p; simpl;
    (destruct (decide (p = q)) as [->|Hne];
     [rewrite lookup_insert_eq; destruct n, (f !! q) as [[]|]; done
     |rewrite lookup_insert_ne by done; destruct (f !! p) as [[]|]; auto]).
Qed.

Lemma follow_insert f q n p :
  not_link (f !! q) -> not_link (Some n) -> follow (<[q := n]> f) p = follow f p.
Proof. apply resolve_insert. Qed.

(** *** What a successful operation leaves behind *)
Lemma write_with_ok upd p perm f f' :
  write_with upd p perm f = (Ok tt, f') ->
  exists c pm u g, f' = <[follow f p := NFile c pm u g]> f /\
    not_link (f !! follow f p) /\ is_dir f (follow f p) = false /\
    match f !! follow f p with
    | Some (NFile c0 pm0 u0 g0) => c = upd c0 /\ pm = pm0 /\ u = u0 /\ g = g0
    | _ => c = upd "" /\ pm = perm /\ u = 0 /\ g = 0 /\ is_dir f (path_dir (follow f p)) = true
    end.
Proof.
  unfold write_with. destruct (is_dir f (follow f p)) eqn:Hd; [done|].
  destruct (f !! follow f p) as [[]|] eqn:Hf; try done.
  - intros [= <-]. by repeat eexists.
  - destruct (is_dir f (path_dir (follow f p))) eqn:Hp; [|done]. intros [= <-]. by repeat eexists.
Qed.

Lemma is_dir_insert_ne f q n p : p <> q -> is_dir (<[q := n]> f) p = is_dir f p.
Proof. intros. unfold is_dir. by rewrite lookup_insert_ne. Qed.

(** Reading back what was written, whatever the path goes through. *)
Lemma read_after_write upd p perm f f' :
  write_with upd p perm f = (Ok tt, f') ->
  (read_file p f').1 = Ok (upd (match f !! follow f p with Some (NFile c _ _ _) => c | _ => "" end)).
Proof.
  intros (c0 & pm & u & g & -> & Hl & Hd & Hc)%write_with_ok.
  unfold read_file. rewrite follow_insert by done. simpl. rewrite lookup_insert_eq.
  destruct (f !! follow f p) as [[]|]; destruct_and?; by subst.
Qed.

Lemma change_ok op upd p f f' :
  change op upd p f = (Ok tt, f') ->
  f' = f \/ exists n, f !! follow f p = Some n /\ f' = <[follow f p := upd n]> f.
Proof.
  unfold change. destruct (f !! follow f p) as [n|]; [|case_match; naive_solver].
  intros [= <-]. right. eauto.
Qed.

(** [exists_at f p]: [os.Stat(p)] succeeds. *)
Definition exists_at (f : FS) (p : string) : bool :=
  let q := follow f p in
  is_dir f q || match f !! q with Some (NFile _ _ _ _) => true | _ => false end.

Lemma stat_exists p f : stat p f = (if exists_at f p then Ok tt else Err (ErrNotExist p), f).
Proof. unfold stat, exists_at. destruct (is_dir _ _); [done|]. simpl. by repeat case_match. Qed.

(** Creating or changing nodes never makes a path disappear. *)
Lemma exists_at_insert f q n p :
  not_link (f !! q) -> not_link (Some n) ->
  (match n with NDir _ _ _ => True | _ => is_dir f q = false end) ->
  exists_at f p = true -> exists_at (<[q := n]> f) p = true.
Proof.
  intros Hq Hn Hd. unfold exists_at. rewrite follow_insert by done.
  intros [Hp|Hp]%orb_true_iff; apply orb_true_iff.
  - left. by apply is_dir_insert.
  - destruct (decide (follow f p = q)) as [<-|Hne]; [|right; by rewrite lookup_insert_ne].
    rewrite lookup_insert_eq. unfold is_dir. rewrite lookup_insert_eq.
    destruct n; [left; by rewrite orb_true_r|by right|done].
Qed.

Lemma exists_at_mkdirs ps perm f p :
  exists_at f p = true -> exists_at (mkdirs ps perm f).2 p = true.
Proof.
  revert f. induction ps as [|q ps IH]; intros f Hp; [done|]. simpl.
  destruct (is_dir f (follow f q)); [by apply IH|].
  destruct (f !! follow f q) eqn:Hq; [done|]. apply IH, exists_at_insert; [by rewrite Hq|done..].
Qed.

Lemma exists_at_write upd q perm f p :
  exists_at f p = true -> exists_at (write_with upd q perm f).2 p = true.
Proof.
  intros Hp. destruct (write_with upd q perm f) as [[[]| | |] f'] eqn:Hw.
  - apply write_with_ok in Hw as (c & pm & u & g & -> & Hl & Hd & _). by apply exists_at_insert.
  - unfold write_with in Hw. repeat case_match; by simplify_eq.
  - unfold write_with in Hw. by repeat case_match.
  - unfold write_with in Hw. by repeat case_match.
Qed.

(** *** Plain names in a directory *)
Lemma follow_plain f p : clean p = p -> not_link (f !! p) -> follow f p = p.
Proof.
  intros Hc Hl. unfold follow. rewrite Hc. cbn [resolve]. by destruct (f !! p) as [[]|].
Qed.

(** A path directly in [dir] *)
Definition entry (dir name : string) : string := dir +:+ "/" +:+ name.

Lemma entry_inj dir n m : entry dir n = entry dir m -> n = m.
Proof. unfold entry. intros H. by do 2 apply sapp_inj_l in H. Qed.

Lemma under_entry dir name : under dir (entry dir name) = true.
Proof.
  unfold under, entry. rewrite <- sapp_assoc, has_prefix_app. apply orb_true_r.
Qed.

Lemma abs_tmp name : plain_name name = true -> path_join ["/tmp"; name] = entry "/tmp" name /\ abs_path (entry "/tmp" name).
Proof.
  intros Hn. assert (abs_path "/tmp") by (by split_and!).
  split; [by apply path_join_name|by apply abs_path_snoc].
Qed.

Lemma mkdir_tmp name perm f :
  plain_name name = true -> is_dir f "/tmp" = true -> not_link (f !! "/tmp") ->
  f !! entry "/tmp" name = None ->
  mkdir_all (entry "/tmp" name) perm f = (Ok tt, <[entry "/tmp" name := NDir perm 0 0]> f).
Proof.
  intros Hn Ht Hl Hf. unfold mkdir_all. destruct (abs_tmp name Hn) as [_ (Hc & _ & _)]. rewrite Hc.
  assert (Hs : no_char slash name = true) by (unfold plain_name in Hn; by rewrite !andb_true_iff in Hn; tauto).
  assert (path_prefixes (entry "/tmp" name) = ["/tmp"; entry "/tmp" name]) as ->.
  { unfold entry, path_prefixes. cbn [String.append].
    change (String "t" (String "m" (String "p" (String "/" name)))) with ("tmp" +:+ String slash name).
    by rewrite split_app, split_no_char by done. }
  cbn [mkdirs]. rewrite (follow_plain f "/tmp"), Ht by done.
  rewrite follow_plain by (by rewrite ?Hf).
  assert (is_dir f (entry "/tmp" name) = false) as -> by (unfold is_dir; by rewrite Hf).
  by rewrite Hf.
Qed.

Lemma remove_all_spec p f q :
  (remove_all p f).2 !! q = if under (clean p) q then None else f !! q.
Proof using.
  unfold remove_all. simpl. destruct (under (clean p) q) eqn:Hu.
  - apply map_lookup_filter_None. right. intros x _. simpl. by rewrite Hu.
  - destruct (f !! q) eqn:Hf; [by apply map_lookup_filter_Some_2|].
    apply map_lookup_filter_None. by left.
Qed.

Lemma under_refl dir : under dir dir = true.
Proof. unfold under. by rewrite String.eqb_refl. Qed.

Lemma entry_ne dir n : entry dir n <> dir.
Proof. intros H%(f_equal slen). unfold entry in H. rewrite !slen_app in H. simpl in H. lia. Qed.

(** The commands among what was logged. *)
Definition is_exec (e : event) : bool := match e with EExec _ _ _ => true | _ => false end.
Definition commands (l : list event) : list event := List.filter is_exec l.

Lemma deferred_ok {A} (m : ST World A) f w a w' :
  deferred m f w = (Ok a, w') -> exists w1, m w = (Ok a, w1) /\ w' = (f w1).2.
Proof. unfold deferred. destruct (m w) as [[]]; try done; intros [= -> <-]; eauto. Qed.

(** The network exchanges among what was logged. *)
Definition is_net (e : event) : bool := match e with ENet _ _ => true | _ => false end.
Definition requests (l : list event) : list event := List.filter is_net l.

Lemma requests_app l1 l2 : requests (l1 ++ l2) = requests l1 ++ requests l2.
Proof. apply List.filter_app. Qed.

(** ** What a computation logs

    [emits P Q m]: whatever the environment answers, [m] only logs events that
    satisfy [P], and when it succeeds with [a], [Q a new base] holds of the new
    events [new] and the log [base] before them. *)
Section emits.
Context {E : Env} (P : event -> Prop).

Definition emits {A} (Q : A -> list event -> list event -> Prop) (m : ST World A) : Prop :=
  forall w, let '(r, w') := m w in exists new, log w' = new ++ log w /\ Forall P new /\
  forall a, r = Ok a -> Q a new (log w).

Lemma emits_weaken {A} (Q Q' : A -> list event -> list event -> Prop) m :
  emits Q m -> (forall a new base, Q a new base -> Q' a new base) -> emits Q' m.
Proof.
  intros Hm HQ w. specialize (Hm w). destruct (m w) as [r w'].
  destruct Hm as (new & Hl & Hf & Ha). exists new. eauto.
Qed.

Lemma emits_ret {A} (Q : A -> list event -> list event -> Prop) a :
  (forall base, Q a [] base) -> emits Q (mret a).
Proof. intros HQ w. exists []. split_and!; [done|constructor|]. by intros ? [= <-]. Qed.

Lemma emits_lift {A} (r : outcome A) : emits (fun a new _ => r = Ok a /\ new = []) (lift r).
Proof. intros w. exists []. by split_and!; [|constructor|]. Qed.

Lemma emits_bind {A B} (Q1 : A -> list event -> list event -> Prop)
    (Q2 : A -> B -> list event -> list event -> Prop) m (k : A -> ST World B) :
  emits Q1 m -> (forall a, emits (Q2 a) (k a)) ->
  emits (fun b new base => exists a n1 n2, new = n2 ++ n1 /\ Q1 a n1 base /\ Q2 a b n2 (n1 ++ base)) (m ≫= k).
Proof.
  intros Hm Hk w. specialize (Hm w). unfold mbind, ST_bind.
  destruct (m w) as [[a|e| |] w1]; destruct Hm as (n1 & Hl1 & Hf1 & Ha).
  2-4: by exists n1.
  specialize (Hk a w1). destruct (k a w1) as [r w2]. destruct Hk as (n2 & Hl2 & Hf2 & Hb).
  exists (n2 ++ n1). rewrite Hl2, Hl1, (assoc_L (++)). split_and!; [done|by apply Forall_app|].
  intros b Hr. exists a, n1, n2. split_and!; [done|by apply Ha|]. rewrite <- Hl1. by apply Hb.
Qed.

Lemma emits_wrap {A} fmt (Q : A -> list event -> list event -> Prop) m : emits Q m -> emits Q (wrap fmt m).
Proof.
  intros Hm w. specialize (Hm w). unfold wrap. destruct (m w) as [r w'].
  destruct Hm as (new & Hl & Hf & Ha). exists new. split_and!; [done|done|].
  intros a Hr. apply Ha. by destruct r.
Qed.

Lemma emits_try {A} (Q : A -> list event -> list event -> Prop) m :
  emits Q m -> emits (fun r new base => match r with inl a => Q a new base | inr _ => True end) (try m).
Proof.
  intros Hm w. specialize (Hm w). unfold try. destruct (m w) as [[a|e| |] w'];
    destruct Hm as (new & Hl & Hf & Ha); exists new; split_and!; try done; intros ? [= <-]; eauto.
Qed.

Lemma emits_print s : P (EOut s) -> emits (fun _ new _ => new = [EOut s]) (Print_out s).
Proof. intros HP w. exists [EOut s]. split_and!; [done|by constructor|done]. Qed.

Lemma emits_io {A} part ev (m : ST FS A) : P ev -> emits (fun _ new _ => new = [ev]) (io_with part ev m).
Proof.
  intros HP w. unfold io_with. destruct (io_err _); [|destruct (m _)]; exists [ev]; split_and!; try done;
    by constructor.
Qed.
End emits.

(** [quiet P m]: only the events matter. *)
Section quiet.
Context {E : Env} (P : event -> Prop).

Definition quiet {A} (m : ST World A) : Prop := emits P (fun _ _ _ => True) m.

Lemma emits_quiet {A} (Q : A -> list event -> list event -> Prop) m : emits P Q m -> quiet m.
Proof. intros Hm. by eapply emits_weaken. Qed.
Lemma quiet_ret {A} (a : A) : quiet (mret a).
Proof. by apply emits_ret. Qed.
Lemma quiet_lift {A} (r : outcome A) : quiet (lift r).
Proof. eapply emits_quiet, emits_lift. Qed.
Lemma quiet_get : quiet st_get.
Proof. intros w. exists []. by split_and!; [|constructor|]. Qed.
Lemma quiet_bind {A B} (m : ST World A) (k : A -> ST World B) : quiet m -> (forall a, quiet (k a)) -> quiet (m ≫= k).
Proof. intros Hm Hk. by eapply emits_quiet, (emits_bind P (fun _ _ _ => True) (fun _ _ _ _ => True)). Qed.
Lemma quiet_wrap {A} fmt (m : ST World A) : quiet m -> quiet (wrap fmt m).
Proof. apply emits_wrap. Qed.
Lemma quiet_try {A} (m : ST World A) : quiet m -> quiet (try m).
Proof. intros Hm. eapply emits_quiet, emits_try, Hm. Qed.
Lemma quiet_print s : P (EOut s) -> quiet (Print_out s).
Proof. intros HP. by eapply emits_quiet, emits_print. Qed.
Lemma quiet_io {A} part ev (m : ST FS A) : P ev -> quiet (io_with part ev m).
Proof. intros HP. by eapply emits_quiet, emits_io. Qed.
Lemma quiet_walk root visit :
  (forall p, quiet (visit p)) -> (forall op args, P (EOS op args)) -> quiet (WalkDir root visit).
Proof.
  intros Hv HP. unfold WalkDir. apply quiet_bind; [by apply quiet_io|]. intros _.
  apply quiet_bind; [apply quiet_get|]. intros w. generalize (walk root (fs w)). intros ps.
  induction ps as [|p ps IH]; cbn [walk_each]; [apply quiet_ret|].
  apply quiet_bind; [apply Hv|]. intros _. apply quiet_bind; [apply quiet_get|]. intros v.
  apply quiet_bind; [|done]. destruct (fs v !! p) as [[]|]; first [apply quiet_ret|by apply quiet_io].
Qed.
Lemma quiet_deferred {A} (m : ST World A) f : quiet m -> quiet f -> quiet (deferred m f).
Proof.
  intros Hm Hf w. specialize (Hm w). unfold deferred. destruct (m w) as [r w1].
  destruct Hm as (n1 & Hl1 & Hf1 & _). specialize (Hf w1). destruct (f w1) as [r2 w2].
  destruct Hf as (n2 & Hl2 & Hf2 & _).
  assert (Hlog : log w2 = (n2 ++ n1) ++ log w) by (by rewrite Hl2, Hl1, (assoc_L (++))).
  assert (Hall : Forall P (n2 ++ n1)) by (by apply Forall_app).
  destruct r; [exists (n2 ++ n1)..|exists n1]; by split_and!.
Qed.
Lemma quiet_MkdirTemp pattern : (forall op args, op = "mkdirtemp" -> P (EOS op args)) -> quiet (MkdirTemp pattern).
Proof.
  intros HP w. unfold MkdirTemp, io. set (dir := path_join _).
  pose proof (quiet_io (fun _ f => f) (EOS "mkdirtemp" [dir]) (mkdir_all dir 448) (HP _ _ eq_refl) w) as Hm.
  destruct (io_with _ _ _ w) as [r w']. destruct Hm as (new & Hl & Hf & _).
  destruct r as [[]| | |]; exists new; by split_and!.
Qed.
Lemma quiet_net {A} ev (ask : list event -> A) : P ev -> quiet (net ev ask).
Proof. intros HP w. exists [ev]. split_and!; [done|by constructor|done]. Qed.
Lemma quiet_Glob dir suffix : P (EOS "glob" [dir; suffix]) -> quiet (Glob dir suffix).
Proof. intros HP w. exists [EOS "glob" [dir; suffix]]. split_and!; [done|by constructor|done]. Qed.
Lemma quiet_Statfs p : P (EOS "statfs" [p]) -> quiet (Statfs p).
Proof. intros HP w. exists [EOS "statfs" [p]]. split_and!; [done|by constructor|done]. Qed.
Lemma quiet_rand n : P (EOS "rand" []) -> quiet (rand_Read n).
Proof.
  intros HP w. unfold rand_Read. destruct (io_err _); exists [EOS "rand" []]; (split_and!; [done|by repeat constructor|done]).
Qed.

(** A fact about the results adds to what is known of the events. *)
Lemma emits_and {A} (Q : A -> list event -> list event -> Prop) (R : A -> Prop) m :
  emits P Q m -> (forall w a w', m w = (Ok a, w') -> R a) -> emits P (fun a new base => Q a new base /\ R a) m.
Proof.
  intros Hm HR w. specialize (Hm w). specialize (HR w). destruct (m w) as [r w'].
  destruct Hm as (new & Hl & Hf & Ha). exists new. split_and!; [done|done|].
  intros a ->. split; [by apply Ha|by eapply HR].
Qed.

(** What is known before, for the rest of a computation *)
Lemma emits_bind_pre {A B} (Q1 : A -> list event -> list event -> Prop)
    (Q : B -> list event -> list event -> Prop) m (k : A -> ST World B) :
  emits P Q1 m ->
  (forall a n1 base, Q1 a n1 base -> emits P (fun b new mid => mid = n1 ++ base -> Q b (new ++ n1) base) (k a)) ->
  emits P Q (m ≫= k).
Proof.
  intros Hm Hk w. specialize (Hm w). unfold mbind, ST_bind.
  destruct (m w) as [[a|e| |] w1]; destruct Hm as (n1 & Hl1 & Hf1 & Ha).
  2-4: by exists n1.
  specialize (Hk a n1 (log w) (Ha a eq_refl) w1). destruct (k a w1) as [r w2].
  destruct Hk as (n2 & Hl2 & Hf2 & Hb).
  exists (n2 ++ n1). rewrite Hl2, Hl1, (assoc_L (++)). split_and!; [done|by apply Forall_app|].
  intros b Hr. by apply Hb.
Qed.
End quiet.

#[export] Hint Resolve quiet_ret quiet_lift quiet_get quiet_bind quiet_wrap quiet_try quiet_print quiet_net quiet_deferred
  quiet_Glob quiet_Statfs quiet_rand : quiet.
#[export] Hint Extern 1 (quiet _ Now) => apply quiet_net : quiet.
#[export] Hint Extern 1 (quiet _ (Sleep _)) => apply quiet_net : quiet.
#[export] Hint Extern 1 (quiet _ (io _ _)) => apply quiet_io : quiet.
#[export] Hint Extern 1 (quiet _ (MkdirAll _ _)) => apply quiet_io : quiet.
#[export] Hint Extern 1 (quiet _ (WriteFile _ _ _)) => apply quiet_io : quiet.
#[export] Hint Extern 1 (quiet _ (AppendFile _ _ _)) => apply quiet_io : quiet.
#[export] Hint Extern 1 (quiet _ (TouchFile _ _)) => apply quiet_io : quiet.
#[export] Hint Extern 1 (quiet _ (ReadFile _)) => apply quiet_io : quiet.
#[export] Hint Extern 1 (quiet _ (Stat _)) => apply quiet_io : quiet.
#[export] Hint Extern 1 (quiet _ (Lstat _)) => apply quiet_io : quiet.
#[export] Hint Extern 1 (quiet _ (Symlink _ _)) => apply quiet_io : quiet.
#[export] Hint Extern 1 (quiet _ (Remove _)) => apply quiet_io : quiet.
#[export] Hint Extern 1 (quiet _ (RemoveAll _)) => apply quiet_io : quiet.
#[export] Hint Extern 1 (quiet _ (Lchown _ _ _)) => apply quiet_io : quiet.
#[export] Hint Extern 1 (quiet _ (Chmod _ _)) => apply quiet_io : quiet.
#[export] Hint Extern 1 (quiet _ (Chown _ _ _)) => apply quiet_io : quiet.
#[export] Hint Extern 2 (quiet _ (if _ then _ else _)) => case_match : quiet.
#[export] Hint Extern 2 (quiet _ (match _ with _ => _ end)) => case_match : quiet.

Lemma emits_mono {E : Env} {A} (P P' : event -> Prop) (Q : A -> list event -> list event -> Prop) m :
  emits P Q m -> (forall e, P e -> P' e) -> emits P' Q m.
Proof.
  intros Hm HP w. specialize (Hm w). destruct (m w) as [r w'].
  destruct Hm as (new & Hl & Hf & Ha). exists new. split_and!; [done|by eapply Forall_impl|done].
Qed.

(** ** Computations that end

    [ends m]: whatever the environment answers, [m] returns or fails; it neither
    panics nor needs more fuel. *)
Section ends.
Context {E : Env}.

Definition ends {A} (m : ST World A) : Prop := forall w, fine (m w).1.

Lemma ends_ret {A} (a : A) : ends (mret a).
Proof. by intros w. Qed.
Lemma ends_lift {A} (r : outcome A) : fine r -> ends (lift r).
Proof. by intros H w. Qed.
Lemma ends_bind {A B} (m : ST World A) (k : A -> ST World B) : ends m -> (forall a, ends (k a)) -> ends (m ≫= k).
Proof.
  intros Hm Hk w. specialize (Hm w). unfold mbind, ST_bind.
  destruct (m w) as [[a|e| |] w1]; try done. apply Hk.
Qed.
Lemma ends_wrap {A} fmt (m : ST World A) : ends m -> ends (wrap fmt m).
Proof. intros Hm w. specialize (Hm w). unfold wrap. by destruct (m w) as [[]]. Qed.
Lemma ends_try {A} (m : ST World A) : ends m -> ends (try m).
Proof. intros Hm w. specialize (Hm w). unfold try. by destruct (m w) as [[]]. Qed.
Lemma ends_get : ends st_get.
Proof. by intros w. Qed.
Lemma ends_print s : ends (Print_out s).
Proof. by intros w. Qed.
Lemma ends_net {A} ev (ask : list event -> A) : ends (net ev ask).
Proof. by intros w. Qed.
Lemma ends_deferred {A} (m : ST World A) f : ends m -> ends (deferred m f).
Proof. intros Hm w. specialize (Hm w). unfold deferred. by destruct (m w) as [[]]. Qed.

Lemma ends_io {A} part ev (m : ST FS A) :
  (forall f, match (m f).1 with Ok _ | Err _ => True | _ => False end) -> ends (io_with part ev m).
Proof.
  intros Hm w. unfold io_with. destruct (io_err _); [done|]. specialize (Hm (fs (add_log ev w))).
  by destruct (m _).
Qed.

Lemma mkdirs_ends ps perm f : match (mkdirs ps perm f).1 with Ok _ | Err _ => True | _ => False end.
Proof.
  revert f. induction ps as [|p ps IH]; intros f; simpl; [done|].
  destruct (is_dir _ _); [apply IH|]. destruct (f !! _); [done|apply IH].
Qed.
Lemma ends_MkdirAll p perm : ends (MkdirAll p perm).
Proof. apply ends_io. intros f. apply mkdirs_ends. Qed.
Lemma ends_WriteFile p c perm : ends (WriteFile p c perm).
Proof. apply ends_io. intros f. unfold write_with. by repeat case_match. Qed.
Lemma ends_AppendFile p c perm : ends (AppendFile p c perm).
Proof. apply ends_io. intros f. unfold write_with. by repeat case_match. Qed.
Lemma ends_TouchFile p perm : ends (TouchFile p perm).
Proof. apply ends_io. intros f. unfold write_with. by repeat case_match. Qed.
Lemma ends_ReadFile p : ends (ReadFile p).
Proof. apply ends_io. intros f. unfold read_file. by repeat case_match. Qed.
Lemma ends_Stat p : ends (Stat p).
Proof. apply ends_io. intros f. unfold stat. by repeat case_match. Qed.
Lemma ends_Lstat p : ends (Lstat p).
Proof. apply ends_io. intros f. unfold lstat. by repeat case_match. Qed.
Lemma ends_Symlink t p : ends (Symlink t p).
Proof. apply ends_io. intros f. unfold symlink. by repeat case_match. Qed.
Lemma ends_Remove p : ends (Remove p).
Proof. apply ends_io. intros f. unfold remove. by repeat case_match. Qed.
Lemma ends_RemoveAll p : ends (RemoveAll p).
Proof. by apply ends_io. Qed.
Lemma ends_Chmod p perm : ends (Chmod p perm).
Proof. apply ends_io. intros f. unfold change. by repeat case_match. Qed.
Lemma ends_Chown p u g : ends (Chown p u g).
Proof. apply ends_io. intros f. unfold change. by repeat case_match. Qed.
Lemma ends_Lchown p u g : ends (Lchown p u g).
Proof. apply ends_io. intros f. unfold lchange. by repeat case_match. Qed.
Lemma ends_WalkDir root visit : (forall p, ends (visit p)) -> ends (WalkDir root visit).
Proof.
  intros Hv. unfold WalkDir. apply ends_bind; [apply ends_Lstat|]. intros _.
  apply ends_bind; [apply ends_get|]. intros w. generalize (walk root (fs w)). intros ps.
  induction ps as [|p ps IH]; cbn [walk_each]; [apply ends_ret|].
  apply ends_bind; [apply Hv|]. intros _. apply ends_bind; [apply ends_get|]. intros v.
  apply ends_bind; [|done]. destruct (fs v !! p) as [[]|]; first [apply ends_ret|by apply ends_io].
Qed.
Lemma ends_Glob dir suffix : ends (Glob dir suffix).
Proof. by intros w. Qed.
Lemma ends_MkdirTemp p : ends (MkdirTemp p).
Proof.
  intros w. unfold MkdirTemp, io. set (dir := path_join _).
  pose proof (ends_io (fun _ f => f) (EOS "mkdirtemp" [dir]) (mkdir_all dir 448) (fun f => mkdirs_ends _ _ f) w) as He.
  by destruct (io_with _ _ _ w) as [[[]| | |]].
Qed.
Lemma ends_rand n : ends (rand_Read n).
Proof. intros w. unfold rand_Read. by destruct (io_err _). Qed.

(** [may_panic X m]: [m] ends, or panics in a world where [X] holds. *)
Definition may_panic {A} (X : World -> Prop) (m : ST World A) : Prop :=
  forall w, let '(r, w') := m w in
  match r with Ok _ | Err _ => True | Panic => X w' | OutOfFuel => False end.
Lemma ends_may_panic {A} X (m : ST World A) : ends m -> may_panic X m.
Proof. intros Hm w. specialize (Hm w). by destruct (m w) as [[]]. Qed.
Lemma may_panic_bind {A B} X (m : ST World A) (k : A -> ST World B) :
  may_panic X m -> (forall a, may_panic X (k a)) -> may_panic X (m ≫= k).
Proof.
  intros Hm Hk w. specialize (Hm w). unfold mbind, ST_bind.
  destruct (m w) as [[a|e| |] w1]; try done. apply Hk.
Qed.
Lemma may_panic_weaken {A} (X Y : World -> Prop) (m : ST World A) :
  may_panic X m -> (forall w, X w -> Y w) -> may_panic Y m.
Proof. intros Hm HX w. specialize (Hm w). destruct (m w) as [[]]; auto. Qed.
Lemma ends_Now : ends Now.
Proof. apply ends_net. Qed.
Lemma ends_Sleep d : ends (Sleep d).
Proof. apply ends_net. Qed.
Lemma ends_Statfs p : ends (Statfs p).
Proof. intros w. unfold Statfs. cbn. by destruct (statfs _ _). Qed.
End ends.

#[export] Hint Resolve ends_ret ends_bind ends_wrap ends_try ends_get ends_print ends_net ends_deferred
  ends_MkdirAll ends_WriteFile ends_AppendFile ends_TouchFile ends_ReadFile ends_Stat ends_Lstat ends_Symlink
  ends_Remove ends_RemoveAll ends_Chmod ends_Chown ends_Lchown ends_WalkDir ends_Glob ends_MkdirTemp ends_rand
  ends_Now ends_Sleep ends_Statfs : ends.
#[export] Hint Extern 1 (ends (lift _)) => apply ends_lift; exact I : ends.
#[export] Hint Extern 2 (ends (if _ then _ else _)) => case_match : ends.
#[export] Hint Extern 2 (ends (match _ with _ => _ end)) => case_match : ends.

(** A deferred [RemoveAll] removes, however the computation ends. *)
Lemma deferred_RemoveAll `{NoFaults} {A} (m : ST World A) dir w p :
  ends m -> under (clean dir) p = true -> fs (deferred m (RemoveAll dir) w).2 !! p = None.
Proof.
  intros Hm Hp. specialize (Hm w). unfold deferred. destruct (m w) as [r w1].
  assert (Hgone : fs (RemoveAll dir w1).2 !! p = None).
  { unfold RemoveAll. rewrite io_ok. pose proof (remove_all_spec dir (fs w1) p) as Hrm.
    destruct (remove_all dir (fs w1)) as [rm f]. cbn [snd fs] in *. by rewrite Hrm, Hp. }
  by destruct r.
Qed.

(** ** What a computation preserves of the files *)
Section preserves.
Context {E : Env} (I : FS -> Prop).

Definition preserves {A} (m : ST World A) : Prop := forall w, I (fs w) -> I (fs (m w).2).
Lemma preserves_same {A} (m : ST World A) : (forall w, fs (m w).2 = fs w) -> preserves m.
Proof. intros Hm w Hw. by rewrite Hm. Qed.
Lemma preserves_io_with {A} part ev (m : ST FS A) :
  (forall f, I f -> I (m f).2) -> (forall n f, I f -> I (part n f)) -> preserves (io_with part ev m).
Proof.
  intros Hm Hp w Hw. unfold io_with. set (w1 := add_log ev w). destruct (io_err (log w1)).
  - cbn. destruct (io_part _); [by apply Hp|done].
  - specialize (Hm (fs w1) Hw). by destruct (m (fs w1)).
Qed.
Lemma preserves_io {A} ev (m : ST FS A) : (forall f, I f -> I (m f).2) -> preserves (io ev m).
Proof. intros Hm. by apply preserves_io_with. Qed.
Lemma preserves_bind {A B} (m : ST World A) (k : A -> ST World B) :
  preserves m -> (forall a, preserves (k a)) -> preserves (m ≫= k).
Proof.
  intros Hm Hk w Hw. specialize (Hm w Hw). unfold mbind, ST_bind.
  destruct (m w) as [[a|e| |] w1]; [by apply Hk|done..].
Qed.
Lemma preserves_wrap {A} fmt (m : ST World A) : preserves m -> preserves (wrap fmt m).
Proof. intros Hm w Hw. specialize (Hm w Hw). unfold wrap. by destruct (m w). Qed.
Lemma returns_kept {A} (m : ST World A) Q w :
  preserves m -> I (fs w) -> returns m Q w -> returns m (fun a w' => Q a w' /\ I (fs w')) w.
Proof. intros Hm Hw. specialize (Hm w Hw). unfold returns. by destruct (m w) as [[]]. Qed.
End preserves.

(** ** Operations that succeed *)

(** The file at [p] can be opened for writing. *)
Definition creatable (p : string) (f : FS) : bool :=
  let q := follow f p in
  negb (is_dir f q) &&
  match f !! q with Some (NFile _ _ _ _) => true | Some _ => false | None => is_dir f (path_dir q) end.

Lemma write_with_creatable upd p perm f : creatable p f = true <-> exists f', write_with upd p perm f = (Ok tt, f').
Proof.
  unfold creatable, write_with. cbv zeta. destruct (is_dir f (follow f p)); [split; [done|by intros [? [=]]]|]. cbn [negb andb].
  destruct (f !! follow f p) as [[]|]; try (split; [done|by intros [? [=]]]); [split; eauto|].
  destruct (is_dir f (path_dir (follow f p))); split; eauto; [done|by intros [? [=]]].
Qed.

Section succeed.
Context {E : Env}.

Lemma returns_io `{!NoFaults} {A} part ev (m : ST FS A) (Q : A -> World -> Prop) w :
  returns m (fun a f => Q a (MkWorld f (console w) (ev :: log w))) (fs w) -> returns (io_with part ev m) Q w.
Proof. unfold returns. rewrite io_with_ok, io_ok. by destruct (m (fs w)) as [[]]. Qed.
Lemma returns_print s (Q : unit -> World -> Prop) w : Q tt (add_log (EOut s) w) -> returns (Print_out s) Q w.
Proof. done. Qed.
(** What ends can be tried. *)
Lemma returns_try_ends {A} (m : ST World A) w : ends m -> returns (try m) (fun _ _ => True) w.
Proof. intros Hm. specialize (Hm w). unfold returns, try. by destruct (m w) as [[]]. Qed.
Lemma returns_net {A} ev (ask : list event -> A) (Q : A -> World -> Prop) w :
  Q (ask (ev :: log w)) (add_log ev w) -> returns (net ev ask) Q w.
Proof. done. Qed.
Lemma returns_deferred {A} (m : ST World A) f (Q : A -> World -> Prop) w :
  returns m (fun a w' => Q a (f w').2) w -> returns (deferred m f) Q w.
Proof. unfold returns, deferred. by destruct (m w) as [[]]. Qed.
End succeed.
