(* ===== verification/Runx.v ===== *)
(** Running external commands (internal/runx/runx.go): the argument vector that
    is really executed, and which outcomes are errors. *)
From S2P Require Import Prelude Bytes GoStrings World.

Record Options := MkOptions {
  AsUser : string;
  Root : string;
  Input : option string;
  Capture : bool;
  NoCheck : bool;
  Env_ : list string;
}.

(** [runx.Options{}] and the fields that callers set *)
Definition no_options : Options := MkOptions "" "" None false false [].
Definition captured : Options := MkOptions "" "" None true false [].
Definition with_capture (o : Options) : Options :=
  MkOptions (AsUser o) (Root o) (Input o) true (NoCheck o) (Env_ o).
Definition with_input (s : string) (o : Options) : Options :=
  MkOptions (AsUser o) (Root o) (Some s) (Capture o) (NoCheck o) (Env_ o).
Definition with_env (e : list string) (o : Options) : Options :=
  MkOptions (AsUser o) (Root o) (Input o) (Capture o) (NoCheck o) e.
Definition as_user (u : string) (o : Options) : Options :=
  MkOptions u (Root o) (Input o) (Capture o) (NoCheck o) (Env_ o).
Definition unchecked (o : Options) : Options :=
  MkOptions (AsUser o) (Root o) (Input o) (Capture o) true (Env_ o).
Definition in_root (r : string) (o : Options) : Options :=
  MkOptions (AsUser o) r (Input o) (Capture o) (NoCheck o) (Env_ o).

Record Result := MkResult { Stdout : string; Stderr : string; ExitCode : Z }.

Definition buildArgv (argv : list string) (opts : Options) : list string :=
  let full := argv in
  let full := if decide (AsUser opts = "") then full
              else ["runuser"; "-u"; AsUser opts; "--"] ++ full in
  if decide (Root opts = "") then full else ["chroot"; Root opts] ++ full.

Section run.
Context {E : Env}.

(** [cmd.Run()]: the process runs on the file system and is logged. *)
Definition cmd_Run (c : cmd) : ST World exec_result := fun w =>
  let w := add_log (EExec (c_argv c) (c_env c) (c_input c)) w in
  let '(r, f) := exec (log w) (fs w) c in
  (Ok r, set_fs f w).

Definition Run (argv : list string) (opts : Options) : ST World Result :=
  if decide (argv = []) then lift (Err (Errorf "runx: empty argv"))
  else
    let full := buildArgv argv opts in
    r ← cmd_Run (Cmd full (Env_ opts) (Input opts) (Capture opts));
    let failed := lift (Err (Wrapf "runx: %v: %w (stderr: %s)" (ErrOS "exec" (default "" (head full))))) in
    match r with
    | NotStarted => failed
    | Exited code out err =>
        let res := if Capture opts then MkResult out err code else MkResult "" "" code in
        if decide (code = 0) then mret res
        else if NoCheck opts then mret res
        else failed
    end.

Definition RunChecked (argv : list string) (opts : Options) : ST World string :=
  res ← Run argv (with_capture opts);
  mret (Stdout res).

(** [runx.Run(argv, opts)] whose result is not used *)
Definition run_ (fmt : string) (argv : list string) (opts : Options) : ST World unit :=
  _ ← wrap fmt (Run argv opts); mret tt.
End run.

(** ** Lemmas *)
Section run_lemmas.
Context {E : Env}.

(** What a command that was given does to the world. *)
Definition ran (argv : list string) (opts : Options) (w : World) : exec_result * World :=
  let full := buildArgv argv opts in
  let w := add_log (EExec full (Env_ opts) (Input opts)) w in
  let '(r, f) := exec (log w) (fs w) (Cmd full (Env_ opts) (Input opts) (Capture opts)) in
  (r, set_fs f w).

Lemma Run_ran argv opts w :
  argv <> [] ->
  Run argv opts w
    = (let '(r, w') := ran argv opts w in
      (match r with
        | NotStarted =>
            Err (Wrapf "runx: %v: %w (stderr: %s)" (ErrOS "exec" (default "" (head (buildArgv argv opts)))))
        | Exited code out err =>
            if decide (code = 0) then Ok (if Capture opts then MkResult out err code else MkResult "" "" code)
            else if NoCheck opts then Ok (if Capture opts then MkResult out err code else MkResult "" "" code)
            else Err (Wrapf "runx: %v: %w (stderr: %s)" (ErrOS "exec" (default "" (head (buildArgv argv opts)))))
        end, w')).
Proof.
  intros Hne. unfold Run, ran. rewrite decide_False by done.
  unfold mbind, ST_bind, cmd_Run. simpl.
  destruct (exec _ _ _) as [[|code out err] f]; [done|].
  repeat case_decide; destruct (Capture opts), (NoCheck opts); done.
Qed.

(** What a run logs *)
Lemma Run_log argv opts w :
  argv <> [] -> log (Run argv opts w).2 = EExec (buildArgv argv opts) (Env_ opts) (Input opts) :: log w.
Proof.
  intros Hne. rewrite Run_ran by done. unfold ran. set (w1 := add_log _ w).
  by destruct (exec (log w1) (fs w1) _) as [r f].
Qed.

(** A successful run is one command, which ended with the status that is
    returned. *)
Lemma emits_Run (P : event -> Prop) argv opts :
  argv <> [] -> P (EExec (buildArgv argv opts) (Env_ opts) (Input opts)) ->
  emits P (fun res new base =>
    let ev := EExec (buildArgv argv opts) (Env_ opts) (Input opts) in
    new = [ev] /\ exists f f' out err,
    exec (ev :: base) f (Cmd (buildArgv argv opts) (Env_ opts) (Input opts) (Capture opts))
      = (Exited (ExitCode res) out err, f') /\ (NoCheck opts = false -> ExitCode res = 0))
    (Run argv opts).
Proof.
  intros Hne HP w. rewrite Run_ran by done. unfold ran. set (ev := EExec _ _ _) in *.
  destruct (exec (log (add_log ev w)) (fs (add_log ev w)) _) as [r f] eqn:Hex.
  exists [ev]. split_and!; [done|by constructor|]. intros res.
  destruct r as [|code out err]; [done|]. intros Hr. split; [done|].
  exists (fs w), f, out, err. cbn [log fs add_log] in Hex.
  destruct (decide (code = 0)) as [->|]; [|destruct (NoCheck opts)];
    destruct (Capture opts) eqn:Hc; simplify_eq; by rewrite ?Hc.
Qed.

Lemma quiet_Run (P : event -> Prop) argv opts :
  argv <> [] -> P (EExec (buildArgv argv opts) (Env_ opts) (Input opts)) -> quiet P (Run argv opts).
Proof. intros Hne HP. by eapply emits_quiet, emits_Run. Qed.

Lemma quiet_run_ (P : event -> Prop) fmt argv opts :
  argv <> [] -> P (EExec (buildArgv argv opts) (Env_ opts) (Input opts)) -> quiet P (run_ fmt argv opts).
Proof. intros Hne HP. apply quiet_bind; [by apply quiet_wrap, quiet_Run|auto with quiet]. Qed.

(** A command whose result is not used: its event, and an error unless it ended
    with status 0. *)
Definition succeeded (r : exec_result) : bool :=
  match r with Exited code _ _ => bool_decide (code = 0) | NotStarted => false end.
Lemma run__ran fmt argv opts w :
  argv <> [] -> NoCheck opts = false ->
  exists e, run_ fmt argv opts w =
    (if succeeded (ran argv opts w).1 then Ok tt else Err e, (ran argv opts w).2).
Proof.
  intros Hne Hnc.
  exists (Wrapf fmt (Wrapf "runx: %v: %w (stderr: %s)" (ErrOS "exec" (default "" (head (buildArgv argv opts)))))).
  unfold run_, mbind, ST_bind, wrap. rewrite Run_ran by done. rewrite Hnc.
  destruct (ran argv opts w) as [[|code out err] w']; [done|].
  cbn. case_decide; subst; [done|by rewrite bool_decide_false].
Qed.

Lemma ends_Run argv opts : ends (Run argv opts).
Proof.
  intros w. destruct (decide (argv = [])) as [->|Hne]; [done|]. rewrite Run_ran by done.
  destruct (ran _ _ w) as [[|code out err] w']; [done|]. cbn. by repeat case_decide; destruct (NoCheck opts).
Qed.
Lemma ends_RunChecked argv opts : ends (RunChecked argv opts).
Proof. apply ends_bind; [apply ends_Run|intros; apply ends_ret]. Qed.
Lemma ends_run_ fmt argv opts : ends (run_ fmt argv opts).
Proof. apply ends_bind; [apply ends_wrap, ends_Run|intros; apply ends_ret]. Qed.
End run_lemmas.

#[export] Hint Resolve ends_Run ends_RunChecked ends_run_ : ends.

(** ** Commands that succeed

    Every command that is run can be started, and ends with status 0 unless it is
    one of those that may have something else to say. *)
Class Obedient {E : Env} (free : list string -> bool) : Prop := obedient : forall l f c,
  match (exec l f c).1 with Exited code _ _ => code = 0 \/ free (c_argv c) = true | NotStarted => False end.

Section succeed.
Context {E : Env} (free : list string -> bool) `{!Obedient free}.

Lemma Run_returns argv opts w : argv <> [] ->
  NoCheck opts = true \/ free (buildArgv argv opts) = false -> returns (Run argv opts) (fun _ _ => True) w.
Proof using Type*.
  intros Hne Hf. unfold returns. rewrite Run_ran by done. unfold ran. cbn zeta.
  match goal with |- context [exec ?l ?f ?c] => pose proof (obedient l f c) as Ho; destruct (exec l f c) as [[|code out err] g] end;
    [done|]. cbn in Ho. destruct (decide (code = 0)); [done|]. destruct Ho as [|Ho]; [done|].
  destruct (NoCheck opts); [done|]. rewrite Ho in Hf. naive_solver.
Qed.
Lemma RunChecked_returns argv opts w : argv <> [] -> NoCheck opts = true \/ free (buildArgv argv opts) = false ->
  returns (RunChecked argv opts) (fun _ _ => True) w.
Proof using Type*. intros Hne Hf. apply returns_bind. by eapply returns_mono; [apply Run_returns|]. Qed.
Lemma run__returns fmt argv opts w : argv <> [] -> free (buildArgv argv opts) = false ->
  returns (run_ fmt argv opts) (fun _ _ => True) w.
Proof using Type*.
  intros Hne Hf. apply returns_bind, returns_wrap. by eapply returns_mono; [apply Run_returns; [|right]|].
Qed.
End succeed.

(** * Properties *)

(** [runx.Run] runs the command exactly once, with [chroot] outermost and
    [runuser] inside it, and reports an error exactly when the process could not
    be started, or ended with a non-zero status that the caller did not ask to
    see itself; the output is only returned when it was captured. *)
Theorem Run_outcome `{Env} argv opts w :
  argv <> [] ->
  let full := (if decide (Root opts = "") then [] else ["chroot"; Root opts]) ++
              (if decide (AsUser opts = "") then [] else ["runuser"; "-u"; AsUser opts; "--"]) ++ argv in
  let ev := EExec full (Env_ opts) (Input opts) in
  let '(r, f) := exec (ev :: log w) (fs w) (Cmd full (Env_ opts) (Input opts) (Capture opts)) in
  exists res, Run argv opts w = (res, MkWorld f (console w) (ev :: log w)) /\
  match r with
  | NotStarted => exists e, res = Err e
  | Exited code out err =>
      if decide (code = 0 \/ NoCheck opts = true)
      then res = Ok (if Capture opts then MkResult out err code else MkResult "" "" code)
      else exists e, res = Err e
  end.
Proof.
  intros Hne full ev.
  assert (buildArgv argv opts = full) as Hfull.
  { unfold buildArgv, full. by repeat case_decide. }
  rewrite Run_ran by done. unfold ran. rewrite Hfull. cbn [log add_log]. fold ev.
  destruct (exec (ev :: log w) (fs w) _) as [[|code out err] f] eqn:He;
    cbn [fs add_log]; rewrite He; [eauto|].
  destruct (NoCheck opts); repeat case_decide; naive_solver.
Qed.

(** * Witnesses *)

(** An environment in which every command succeeds and prints its last
    argument. *)
#[local] Instance echo_env : Env :=
  simple_env (fun _ f c => (Exited 0 (List.last (c_argv c) "") "", f)) (fun _ => HttpError) (fun _ => false).

Lemma Run_outcome_witness :
  exists res, Run ["id"; "-u"] (as_user "svc" (in_root "/mnt" captured)) (MkWorld ∅ "" [])
    = (res, MkWorld ∅ "" [EExec ["chroot"; "/mnt"; "runuser"; "-u"; "svc"; "--"; "id"; "-u"] [] None]) /\
    res = Ok (MkResult "-u" "" 0).
Proof.
  exact (Run_outcome ["id"; "-u"] (as_user "svc" (in_root "/mnt" captured)) (MkWorld ∅ "" []) ltac:(done)).
Defined.
