(* ===== verification/Json.v ===== *)
(** The fragment of encoding/json that the program uses: [json.Unmarshal] of a
    whole document, [json.Marshal] and [json.MarshalIndent], with the theorem
    that the first inverts the others.

    A number keeps its literal, an object is a map (a repeated key is
    overwritten, keys are printed in order), and strings are assumed to be valid
    UTF-8, which the parser and the printer leave as it is. *)
From S2P Require Import Prelude Bytes GoStrings.

Inductive json : Set :=
| JNull
| JBool (b : bool)
| JNum (lit : string)
| JStr (s : string)
| JArr (l : list json)
| JObj (m : gmap string json).

Definition DQ : ascii := "034"%char.
Definition BS : ascii := "\"%char.

(** ** Strings *)

(** UTF-8 encoding of a code point *)
Definition utf8 (n : Z) : string :=
  let c z := String (byte_of_Z z) "" in
  if n <? 128 then c n
  else if n <? 2048 then c (192 + n / 64) +:+ c (128 + n mod 64)
  else if n <? 65536 then c (224 + n / 4096) +:+ c (128 + n / 64 mod 64) +:+ c (128 + n mod 64)
  else c (240 + n / 262144) +:+ c (128 + n / 4096 mod 64) +:+ c (128 + n / 64 mod 64) +:+ c (128 + n mod 64).

Definition hex_val (c : ascii) : option Z :=
  let z := Z_of_byte c in
  if is_digit c then Some (z - 48)
  else if (97 <=? z) && (z <=? 102) then Some (z - 87)
  else if (65 <=? z) && (z <=? 70) then Some (z - 55)
  else None.

Definition hex4 (a b c d : ascii) : option Z :=
  a ← hex_val a; b ← hex_val b; c ← hex_val c; d ← hex_val d;
  Some (4096 * a + 256 * b + 16 * c + d).

Definition unescape (c : ascii) : option ascii :=
  if Ascii.eqb c DQ then Some DQ
  else if Ascii.eqb c BS then Some BS
  else if Ascii.eqb c "/" then Some "/"%char
  else if Ascii.eqb c "b" then Some "008"%char
  else if Ascii.eqb c "f" then Some "012"%char
  else if Ascii.eqb c "n" then Some LF
  else if Ascii.eqb c "r" then Some "013"%char
  else if Ascii.eqb c "t" then Some "009"%char
  else None.

Definition high_surrogate (n : Z) : bool := (55296 <=? n) && (n <? 56320).
Definition low_surrogate (n : Z) : bool := (56320 <=? n) && (n <? 57344).

(** The rest of a string literal, after its opening quote. *)
Fixpoint parse_str (s : string) : option (string * string) :=
  match s with
  | EmptyString => None
  | String c s =>
      if Ascii.eqb c DQ then Some ("", s)
      else if Z_of_byte c <? 32 then None
      else if Ascii.eqb c BS then
        match s with
        | EmptyString => None
        | String e s =>
            if Ascii.eqb e "u" then
              match s with
              | String h1 (String h2 (String h3 (String h4 s))) =>
                  n ← hex4 h1 h2 h3 h4;
                  let single :=
                    '(t, r) ← parse_str s;
                    Some (utf8 (if high_surrogate n || low_surrogate n then 65533 else n) +:+ t, r) in
                  if high_surrogate n then
                    match s with
                    | String b (String u (String l1 (String l2 (String l3 (String l4 s))))) =>
                        if Ascii.eqb b BS && Ascii.eqb u "u" then
                          m ← hex4 l1 l2 l3 l4;
                          if low_surrogate m then
                            '(t, r) ← parse_str s;
                            Some (utf8 (65536 + (n - 55296) * 1024 + (m - 56320)) +:+ t, r)
                          else single
                        else single
                    | _ => single
                    end
                  else single
              | _ => None
              end
            else
              d ← unescape e;
              '(t, r) ← parse_str s;
              Some (String d t, r)
        end
      else
        '(t, r) ← parse_str s;
        Some (String c t, r)
  end.

(** How Go writes one byte of a string: HTML characters are escaped too. *)
Definition u00 (c : ascii) : string :=
  let z := Z_of_byte c in
  "\u00" +:+ String (hex_digit (Z.shiftr z 4)) (String (hex_digit (Z.land z 15)) "").

Definition escape_char (c : ascii) : string :=
  if Ascii.eqb c DQ then String BS (String DQ "")
  else if Ascii.eqb c BS then String BS (String BS "")
  else if Ascii.eqb c "008" then "\b"
  else if Ascii.eqb c "012" then "\f"
  else if Ascii.eqb c LF then "\n"
  else if Ascii.eqb c "013" then "\r"
  else if Ascii.eqb c "009" then "\t"
  else if Z_of_byte c <? 32 then u00 c
  else if Ascii.eqb c "<" || Ascii.eqb c ">" || Ascii.eqb c "&" then u00 c
  else String c "".

(** U+2028 and U+2029 are escaped as well. *)
Definition line_sep (a b c : ascii) : option string :=
  if Ascii.eqb a "226" && Ascii.eqb b "128" then
    if Ascii.eqb c "168" then Some "\u2028"
    else if Ascii.eqb c "169" then Some "\u2029"
    else None
  else None.

Fixpoint escape (s : string) : string :=
  match s with
  | String a (String b (String c s') as s1) =>
      match line_sep a b c with
      | Some e => e +:+ escape s'
      | None => escape_char a +:+ escape s1
      end
  | String a s1 => escape_char a +:+ escape s1
  | EmptyString => ""
  end.

Definition quote (s : string) : string := String DQ (escape s +:+ String DQ "").

(** ** Numbers *)
Fixpoint span_digits (s : string) : string * string :=
  match s with
  | String c r =>
      if is_digit c then let '(d, r) := span_digits r in (String c d, r) else ("", s)
  | EmptyString => ("", "")
  end.

(** [-]int[.digits][(e|E)[+-]digits]: the literal and the rest *)
Definition parse_int_part (s : string) : option (string * string) :=
  match s with
  | String c r =>
      if Ascii.eqb c "0" then Some ("0", r)
      else if is_digit c then Some (span_digits s) else None
  | EmptyString => None
  end.
Definition parse_frac_part (s : string) : option (string * string) :=
  match s with
  | String c r =>
      if Ascii.eqb c "." then
        match span_digits r with
        | (EmptyString, _) => None
        | (d, r) => Some (String c d, r)
        end
      else Some ("", s)
  | EmptyString => Some ("", s)
  end.
Definition parse_exp_part (s : string) : option (string * string) :=
  match s with
  | String c r =>
      if Ascii.eqb c "e" || Ascii.eqb c "E" then
        let '(sign, r) := match r with
          | String d r' => if Ascii.eqb d "+" || Ascii.eqb d "-" then (String d "", r') else ("", r)
          | EmptyString => ("", r)
          end in
        match span_digits r with
        | (EmptyString, _) => None
        | (d, r) => Some (String c (sign +:+ d), r)
        end
      else Some ("", s)
  | EmptyString => Some ("", s)
  end.
Definition parse_num (s : string) : option (string * string) :=
  let '(sign, s) := match s with
    | String c r => if Ascii.eqb c "-" then ("-", r) else ("", s)
    | EmptyString => ("", s)
    end in
  '(i, s) ← parse_int_part s;
  '(f, s) ← parse_frac_part s;
  '(e, s) ← parse_exp_part s;
  Some (sign +:+ i +:+ f +:+ e, s).

(** A whole number literal *)
Definition num_ok (lit : string) : bool :=
  match parse_num lit with Some (l, EmptyString) => String.eqb l lit | _ => false end.

(** ** Documents *)
Definition is_json_space (c : ascii) : bool :=
  Ascii.eqb c " " || Ascii.eqb c "009" || Ascii.eqb c LF || Ascii.eqb c "013".
Fixpoint skip (s : string) : string :=
  match s with
  | String c r => if is_json_space c then skip r else s
  | EmptyString => ""
  end.

(** The elements after the first of an array, or the members of an object. *)
Fixpoint parse_items (value : string -> option (json * string)) (gas : nat) (s : string)
    : option (list json * string) :=
  match gas with
  | O => None
  | S gas =>
      '(v, s) ← value s;
      match skip s with
      | String c s =>
          if Ascii.eqb c "]" then Some ([v], s)
          else if Ascii.eqb c "," then '(vs, s) ← parse_items value gas s; Some (v :: vs, s)
          else None
      | EmptyString => None
      end
  end.

Fixpoint parse_members (value : string -> option (json * string)) (gas : nat) (s : string)
    (m : gmap string json) : option (gmap string json * string) :=
  match gas with
  | O => None
  | S gas =>
      match skip s with
      | String q s =>
          if Ascii.eqb q DQ then
            '(k, s) ← parse_str s;
            match skip s with
            | String c s =>
                if Ascii.eqb c ":" then
                  '(v, s) ← value s;
                  match skip s with
                  | String c s =>
                      if Ascii.eqb c "}" then Some (<[k := v]> m, s)
                      else if Ascii.eqb c "," then parse_members value gas s (<[k := v]> m)
                      else None
                  | EmptyString => None
                  end
                else None
            | EmptyString => None
            end
          else None
      | EmptyString => None
      end
  end.

Fixpoint parse_value (fuel : nat) (s : string) : option (json * string) :=
  match fuel with
  | O => None
  | S fuel =>
      let s := skip s in
      match s with
      | EmptyString => None
      | String c r =>
          if Ascii.eqb c DQ then '(t, r) ← parse_str r; Some (JStr t, r)
          else if Ascii.eqb c "{" then
            match skip r with
            | String d r' =>
                if Ascii.eqb d "}" then Some (JObj ∅, r')
                else '(m, r) ← parse_members (parse_value fuel) fuel r ∅; Some (JObj m, r)
            | EmptyString => None
            end
          else if Ascii.eqb c "[" then
            match skip r with
            | String d r' =>
                if Ascii.eqb d "]" then Some (JArr [], r')
                else '(l, r) ← parse_items (parse_value fuel) fuel r; Some (JArr l, r)
            | EmptyString => None
            end
          else match cut_prefix s "null", cut_prefix s "true", cut_prefix s "false" with
          | Some r, _, _ => Some (JNull, r)
          | _, Some r, _ => Some (JBool true, r)
          | _, _, Some r => Some (JBool false, r)
          | None, None, None => '(n, r) ← parse_num s; Some (JNum n, r)
          end
      end
  end.

(** [json.Unmarshal]: one value and nothing after it.  Every level of nesting
    consumes a byte, so the length of the input is enough fuel. *)
Definition unmarshal (s : string) : outcome json :=
  match parse_value (S (slen s)) s with
  | Some (v, r) => if String.eqb (skip r) "" then Ok v else Err (Errorf "invalid character after top-level value")
  | None => Err (Errorf "invalid JSON")
  end.

(** ** Printing *)

(** Keys are printed in byte order. *)
Definition key_le {A} : relation (string * A) := fun a b => String.leb a.1 b.1 = true.
#[export] Instance key_le_dec {A} : RelDecision (@key_le A) :=
  fun a b => decide (String.leb a.1 b.1 = true).

(** [ind]: the indentation of the elements of the value, [None] for
    [json.Marshal]. *)
Fixpoint spaces (n : nat) : string := match n with O => "" | S n => String " " (spaces n) end.
Definition newline (ind : option nat) : string :=
  match ind with Some n => String LF (spaces n) | None => "" end.
Definition deeper (ind : option nat) : option nat := (fun n => n + 2)%nat <$> ind.
Definition colon (ind : option nat) : string :=
  match ind with Some _ => ": " | None => ":" end.

Fixpoint print (ind : option nat) (v : json) : string :=
  match v with
  | JNull => "null"
  | JBool true => "true"
  | JBool false => "false"
  | JNum n => n
  | JStr s => quote s
  | JArr [] => "[]"
  | JArr l =>
      let ind' := deeper ind in
      "[" +:+ newline ind' +:+ join ("," +:+ newline ind') (print ind' <$> l) +:+ newline ind +:+ "]"
  | JObj m =>
      let ind' := deeper ind in
      match merge_sort key_le (map_to_list (print ind' <$> m)) with
      | [] => "{}"
      | members =>
          "{" +:+ newline ind' +:+
          join ("," +:+ newline ind') ((fun kv => quote kv.1 +:+ colon ind +:+ kv.2) <$> members) +:+
          newline ind +:+ "}"
      end
  end.

Definition marshal (v : json) : string := print None v.
Definition marshal_indent (v : json) : string := print (Some 0%nat) v.

(** [json.Marshal] of a struct: its fields in order *)
Definition marshal_fields (fields : list (string * json)) : string :=
  "{" +:+ join "," ((fun kv => quote kv.1 +:+ ":" +:+ print None kv.2) <$> fields) +:+ "}".

(** ** Fields of structs

    How encoding/json stores the member [k] of an object in a field of each type;
    an absent member and null leave the zero value. *)
Definition string_field (m : gmap string json) (k : string) : outcome string :=
  match m !! k with
  | None | Some JNull => Ok ""
  | Some (JStr s) => Ok s
  | Some _ => Err (Errorf "json: cannot unmarshal into Go struct field of type string")
  end.
Definition bool_field (m : gmap string json) (k : string) : outcome bool :=
  match m !! k with
  | None | Some JNull => Ok false
  | Some (JBool b) => Ok b
  | Some _ => Err (Errorf "json: cannot unmarshal into Go struct field of type bool")
  end.
(** json.Number *)
Definition number_field (m : gmap string json) (k : string) : outcome string :=
  match m !! k with
  | None | Some JNull => Ok ""
  | Some (JNum n) => Ok n
  | Some (JStr s) =>
      if String.eqb s "" || num_ok s then Ok s else Err (Errorf "json: invalid number literal")
  | Some _ => Err (Errorf "json: cannot unmarshal into Go struct field of type json.Number")
  end.
(** [*int]; [int] is the value or 0 *)
Definition opt_int_field (m : gmap string json) (k : string) : outcome (option Z) :=
  match m !! k with
  | None | Some JNull => Ok None
  | Some (JNum n) =>
      match atoi n with
      | Ok z => Ok (Some z)
      | _ => Err (Errorf "json: cannot unmarshal number into Go struct field of type int")
      end
  | Some _ => Err (Errorf "json: cannot unmarshal into Go struct field of type int")
  end.
Definition int_field (m : gmap string json) (k : string) : outcome Z :=
  z ← opt_int_field m k; Ok (default 0 z).
(** A slice, each element read by [f] *)
Definition list_field {A} (f : json -> outcome A) (m : gmap string json) (k : string) : outcome (list A) :=
  match m !! k with
  | None | Some JNull => Ok []
  | Some (JArr l) => map_outcome f l
  | Some _ => Err (Errorf "json: cannot unmarshal into Go struct field")
  end.
(** A struct, each member read by [f]; null is the zero value *)
Definition struct_of {A} (f : gmap string json -> outcome A) (v : json) : outcome A :=
  match v with
  | JNull => f ∅
  | JObj m => f m
  | _ => Err (Errorf "json: cannot unmarshal into Go value")
  end.

(** ** Lemmas *)

(** *** Reading values ends *)
Lemma fine_unmarshal s : fine (unmarshal s).
Proof. unfold unmarshal. by repeat (case_match; simplify_eq/=). Qed.
Lemma fine_string_field m k : fine (string_field m k).
Proof. unfold string_field. by destruct (m !! k) as [[]|]. Qed.
Lemma fine_bool_field m k : fine (bool_field m k).
Proof. unfold bool_field. by destruct (m !! k) as [[]|]. Qed.
Lemma fine_number_field m k : fine (number_field m k).
Proof. unfold number_field. destruct (m !! k) as [[]|]; try done. by case_match. Qed.
Lemma fine_opt_int_field m k : fine (opt_int_field m k).
Proof. unfold opt_int_field. destruct (m !! k) as [[]|]; try done. by destruct (atoi _). Qed.
Lemma fine_int_field m k : fine (int_field m k).
Proof. unfold int_field. apply fine_bind; [apply fine_opt_int_field|done]. Qed.
Lemma fine_list_field {A} (f : json -> outcome A) m k : (forall v, fine (f v)) -> fine (list_field f m k).
Proof. intros Hf. unfold list_field. destruct (m !! k) as [[]|]; try done. by apply fine_map. Qed.
Lemma fine_struct_of {A} (f : gmap string json -> outcome A) v : (forall m, fine (f m)) -> fine (struct_of f v).
Proof. intros Hf. destruct v; cbn [struct_of]; try done; apply Hf. Qed.
#[export] Hint Resolve fine_unmarshal fine_string_field fine_bool_field fine_number_field fine_opt_int_field
  fine_int_field fine_list_field fine_struct_of : fine.

(** *** Strings *)
Lemma parse_str_escape_char c t s r :
  parse_str t = Some (s, r) -> parse_str (escape_char c +:+ t) = Some (String c s, r).
Proof.
  intros Ht. destruct c as [[] [] [] [] [] [] [] []]; cbv -[parse_str String.append];
    cbn [String.append]; (simpl; rewrite Ht; reflexivity).
Qed.

Lemma parse_str_line_sep a b c e t s r :
  line_sep a b c = Some e -> parse_str t = Some (s, r) ->
  parse_str (e +:+ t) = Some (String a (String b (String c s)), r).
Proof.
  unfold line_sep. intros He Ht.
  destruct (Ascii.eqb_spec a "226") as [->|]; [|done].
  destruct (Ascii.eqb_spec b "128") as [->|]; [|done].
  destruct (Ascii.eqb_spec c "168") as [->|]; [|destruct (Ascii.eqb_spec c "169") as [->|]; [|done]];
    injection He as <-; simpl; by rewrite Ht.
Qed.

Lemma parse_str_escape s rest : parse_str (escape s +:+ String DQ rest) = Some (s, rest).
Proof.
  assert (H : forall n s, (slen s <= n)%nat -> parse_str (escape s +:+ String DQ rest) = Some (s, rest));
    [|by apply (H (slen s))]. clear s.
  induction n as [|n IH]; intros s Hs; [by destruct s; [|simpl in Hs; lia]|].
  destruct s as [|a s1]; [done|]. simpl in Hs.
  assert (Hone : parse_str ((escape_char a +:+ escape s1) +:+ String DQ rest) = Some (String a s1, rest)).
  { rewrite sapp_assoc. apply parse_str_escape_char, IH. lia. }
  destruct s1 as [|b [|c s']]; [exact Hone|exact Hone|].
  change (escape (String a (String b (String c s')))) with
    (match line_sep a b c with
     | Some e => e +:+ escape s'
     | None => escape_char a +:+ escape (String b (String c s'))
     end).
  destruct (line_sep a b c) as [e|] eqn:He; [|exact Hone].
  rewrite sapp_assoc. apply (parse_str_line_sep _ _ _ _ _ _ _ He), IH. simpl in Hs. lia.
Qed.

(** *** Numbers *)

(** What follows a number in a document cannot extend it. *)
Definition num_end (s : string) : Prop :=
  match s with
  | EmptyString => True
  | String c _ => is_digit c = false /\ c <> "."%char /\ c <> "e"%char /\ c <> "E"%char
  end.

Lemma num_end_app r rest : num_end rest -> num_end r -> num_end (r +:+ rest).
Proof. by destruct r. Qed.

Lemma span_digits_app s d r rest :
  span_digits s = (d, r) -> num_end rest -> span_digits (s +:+ rest) = (d, r +:+ rest).
Proof.
  intros Hs Hrest. revert d r Hs. induction s as [|c s IH]; intros d r; simpl.
  - intros [= <- <-]. destruct rest as [|c rest]; [done|]. simpl. destruct Hrest as (-> & _). done.
  - destruct (is_digit c) eqn:Hc; [|by intros [= <- <-]].
    destruct (span_digits s) as [d' r']. intros [= <- <-]. by rewrite (IH d' r').
Qed.

Lemma parse_int_part_app s d r rest :
  parse_int_part s = Some (d, r) -> num_end rest -> parse_int_part (s +:+ rest) = Some (d, r +:+ rest).
Proof.
  destruct s as [|c s]; [done|]. simpl. intros Hs Hrest.
  destruct (Ascii.eqb c "0"); [by injection Hs as <- <-|].
  destruct (is_digit c) eqn:Hc; [|done].
  destruct (span_digits s) as [d' r'] eqn:Hd. injection Hs as <- <-.
  by rewrite (span_digits_app s d' r').
Qed.

Lemma parse_frac_part_app s d r rest :
  parse_frac_part s = Some (d, r) -> num_end rest -> parse_frac_part (s +:+ rest) = Some (d, r +:+ rest).
Proof.
  destruct s as [|c s]; simpl; intros Hs Hrest.
  - injection Hs as <- <-. destruct rest as [|c rest]; [done|]. destruct Hrest as (_ & Hc & _).
    cbn [parse_frac_part String.append]. by destruct (Ascii.eqb_spec c ".").
  - destruct (Ascii.eqb c "."); [|by injection Hs as <- <-].
    destruct (span_digits s) as [d' r'] eqn:Hd. rewrite (span_digits_app s d' r') by done.
    destruct d'; [done|]. by injection Hs as <- <-.
Qed.

Lemma parse_exp_part_app s d r rest :
  parse_exp_part s = Some (d, r) -> num_end rest -> parse_exp_part (s +:+ rest) = Some (d, r +:+ rest).
Proof.
  destruct s as [|c s]; simpl; intros Hs Hrest.
  - injection Hs as <- <-. destruct rest as [|c rest]; [done|]. destruct Hrest as (_ & _ & He & HE).
    cbn [parse_exp_part String.append].
    by destruct (Ascii.eqb_spec c "e"), (Ascii.eqb_spec c "E").
  - destruct (_ || _); [|by injection Hs as <- <-].
    destruct s as [|e s].
    { simpl in Hs. done. }
    cbn [String.append]. destruct (Ascii.eqb e "+" || Ascii.eqb e "-").
    + destruct (span_digits s) as [d' r'] eqn:Hd. rewrite (span_digits_app s d' r') by done.
      destruct d'; [done|]. by injection Hs as <- <-.
    + destruct (span_digits (String e s)) as [d' r'] eqn:Hd.
      change (String e (s +:+ rest)) with (String e s +:+ rest).
      rewrite (span_digits_app _ d' r') by done.
      destruct d'; [done|]. by injection Hs as <- <-.
Qed.

Lemma parse_num_app lit rest :
  num_ok lit = true -> num_end rest -> parse_num (lit +:+ rest) = Some (lit, rest).
Proof.
  unfold num_ok. destruct (parse_num lit) as [[l r]|] eqn:Hn; [|done].
  destruct r; [|done]. intros ->%String.eqb_eq Hrest. revert Hn. unfold parse_num.
  set (f := fun s => match s with
    | String c r => if Ascii.eqb c "-" then ("-", r) else ("", s)
    | EmptyString => ("", s) end).
  fold (f lit) (f (lit +:+ rest)).
  destruct (f lit) as [sign s1] eqn:Hf.
  intros ((i & s2) & Hi & Hn)%bind_Some.
  apply bind_Some in Hn as ((fr & s3) & Hfr & Hn).
  apply bind_Some in Hn as ((ex & s4) & Hex & Hn). injection Hn as Hl ->.
  assert (f (lit +:+ rest) = (sign, s1 +:+ rest)) as ->.
  { destruct lit as [|c lit]; unfold f in Hf |- *.
    - injection Hf as <- <-. done.
    - cbn [String.append]. destruct (Ascii.eqb c "-"); by injection Hf as <- <-. }
  rewrite (parse_int_part_app _ _ _ _ Hi Hrest). cbn [mbind option_bind].
  rewrite (parse_frac_part_app _ _ _ _ Hfr Hrest). cbn [mbind option_bind].
  rewrite (parse_exp_part_app _ _ _ _ Hex Hrest). cbn [mbind option_bind].
  by rewrite Hl.
Qed.

(** *** Documents *)
Fixpoint json_ok (v : json) : bool :=
  match v with
  | JNum n => num_ok n
  | JArr l => forallb json_ok l
  | JObj m => map_fold (fun _ v b => json_ok v && b) true m
  | _ => true
  end.

Lemma json_ok_obj (m : gmap string json) k v :
  json_ok (JObj m) = true -> m !! k = Some v -> json_ok v = true.
Proof.
  simpl. revert k v. refine (map_fold_weak_ind
    (fun b (m : gmap string json) => forall k v, b = true -> m !! k = Some v -> json_ok v = true) _ _ _ _ m).
  - intros k v _ Hm. by rewrite lookup_empty in Hm.
  - intros i x m' b _ IH k v [Hx Hb]%andb_true_iff. rewrite lookup_insert_Some.
    intros [[_ <-]|[_ Hm]]; [done|by eapply IH].
Qed.

Lemma json_ok_obj_2 (m : gmap string json) :
  (forall k v, m !! k = Some v -> json_ok v = true) -> json_ok (JObj m) = true.
Proof.
  simpl. refine (map_fold_weak_ind
    (fun b (m : gmap string json) => (forall k v, m !! k = Some v -> json_ok v = true) -> b = true) _ _ _ _ m).
  - done.
  - intros i x m' b Hi IH Hall. apply andb_true_iff. split.
    + apply (Hall i). by rewrite lookup_insert_eq.
    + apply IH. intros k v Hk. apply (Hall k). rewrite lookup_insert_ne; [done|naive_solver].
Qed.

Lemma skip_newline ind s : skip (newline ind +:+ s) = skip s.
Proof.
  destruct ind as [n|]; [|done]. cbn [newline String.append skip].
  change (is_json_space LF) with true. cbv iota. induction n as [|n IH]; [done|exact IH].
Qed.

Lemma skip_id c s : is_json_space c = false -> skip (String c s) = String c s.
Proof. intros Hc. simpl. by rewrite Hc. Qed.

Lemma parse_value_skip fuel s s' : skip s = skip s' -> parse_value fuel s = parse_value fuel s'.
Proof. intros Hs. destruct fuel; [done|]. cbn [parse_value]. by rewrite Hs. Qed.

Lemma parse_num_head c s p : parse_num (String c s) = Some p -> c = "-"%char \/ is_digit c = true.
Proof.
  unfold parse_num. destruct (Ascii.eqb_spec c "-") as [->|]; [by left|]. right.
  unfold parse_int_part in *. destruct (Ascii.eqb_spec c "0") as [->|]; [done|]. by destruct (is_digit c).
Qed.

Lemma num_head lit : num_ok lit = true ->
  exists c s, lit = String c s /\ (c = "-"%char \/ is_digit c = true).
Proof.
  unfold num_ok. destruct lit as [|c s]; [done|]. destruct (parse_num (String c s)) eqn:Hn; [|done].
  exists c, s. split; [done|]. by eapply parse_num_head.
Qed.

(** The first byte of a printed value. *)
Definition starts (c : ascii) : bool :=
  Ascii.eqb c "n" || Ascii.eqb c "t" || Ascii.eqb c "f" || Ascii.eqb c DQ || Ascii.eqb c "[" ||
  Ascii.eqb c "{" || Ascii.eqb c "-" || is_digit c.

Lemma starts_spec c : starts c = true ->
  is_json_space c = false /\ Ascii.eqb c "]" = false /\ Ascii.eqb c "}" = false.
Proof. by destruct c as [[] [] [] [] [] [] [] []]. Qed.

Lemma print_head ind v : json_ok v = true ->
  exists c s, print ind v = String c s /\ starts c = true.
Proof.
  destruct v as [|[]|lit|s|[|x l]|m]; simpl; intros Hok; try (by eexists _, _).
  - destruct (num_head lit Hok) as (c & s & -> & Hc). exists c, s. split; [done|].
    destruct Hc as [->|Hc]; [done|]. unfold starts. by rewrite Hc, orb_true_r.
  - destruct (merge_sort _ _); by eexists _, _.
Qed.

Lemma fold_insert_perm {V} (kvs : list (string * V)) (m : gmap string V) :
  kvs ≡ₚ map_to_list m -> fold_left (fun m kv => <[kv.1 := kv.2]> m) kvs ∅ = m.
Proof.
  intros Hp. assert (Hnd : NoDup kvs.*1) by (rewrite Hp; apply NoDup_fst_map_to_list).
  assert (Hl : forall m0 : gmap string V,
    fold_left (fun m kv => <[kv.1 := kv.2]> m) kvs m0 = list_to_map kvs ∪ m0).
  { clear Hp. induction kvs as [|[k v] kvs IH]; intros m0; simpl; [by rewrite (left_id_L ∅ _)|].
    apply NoDup_cons in Hnd as [Hk Hnd]. rewrite IH by done.
    rewrite <- insert_union_r, insert_union_l; [done|]. by apply not_elem_of_list_to_map_1. }
  rewrite Hl, (right_id_L ∅ _), <- (list_to_map_to_list m).
  symmetry. apply list_to_map_proper; [by apply NoDup_fst_map_to_list|by symmetry].
Qed.

(** [prints fuel ind v]: the parser reads [v] back from its text. *)
Definition prints (fuel : nat) (ind : option nat) (v : json) : Prop :=
  forall rest, num_end rest -> parse_value fuel (print ind v +:+ rest) = Some (v, rest).

Lemma num_end_close ind c rest :
  Ascii.eqb c "]" || Ascii.eqb c "}" || Ascii.eqb c "," = true ->
  num_end (newline ind +:+ String c rest).
Proof.
  intros Hc. destruct ind; [done|]. simpl.
  destruct c as [[] [] [] [] [] [] [] []]; done.
Qed.

Lemma parse_items_print fuel gas ind ind' l rest :
  l <> [] -> Forall (prints fuel ind') l -> (length l <= gas)%nat ->
  parse_items (parse_value fuel) gas
    (newline ind' +:+ join ("," +:+ newline ind') (print ind' <$> l) +:+ newline ind +:+ "]" +:+ rest)
  = Some (l, rest).
Proof.
  intros Hne Hl. revert gas. induction Hl as [|v l Hv Hl IH]; intros gas Hg; [done|].
  destruct gas as [|gas]; [simpl in Hg; lia|]. cbn [parse_items].
  erewrite parse_value_skip by apply skip_newline.
  destruct l as [|w l].
  - cbn [fmap list_fmap join]. rewrite Hv by (apply (num_end_close ind "]"); done).
    cbn [mbind option_bind]. by rewrite skip_newline.
  - change (join _ (print ind' <$> v :: w :: l)) with
      (print ind' v +:+ ("," +:+ newline ind') +:+ join ("," +:+ newline ind') (print ind' <$> w :: l)).
    rewrite !sapp_assoc, Hv by done. cbn [mbind option_bind String.append skip].
    change (is_json_space ",") with false. cbv iota. change (Ascii.eqb "," "]") with false. cbv iota.
    change (Ascii.eqb "," ",") with true. cbv iota.
    rewrite IH; [done|done|simpl in *; lia].
Qed.

Lemma parse_members_print fuel gas ind ind' kvs m rest :
  kvs <> [] -> Forall (fun kv : string * json => prints fuel ind' kv.2) kvs -> (length kvs <= gas)%nat ->
  parse_members (parse_value fuel) gas
    (newline ind' +:+ join ("," +:+ newline ind')
       ((fun kv => quote kv.1 +:+ colon ind +:+ kv.2) <$> (prod_map id (print ind') <$> kvs)) +:+
     newline ind +:+ "}" +:+ rest) m
  = Some (fold_left (fun m kv => <[kv.1 := kv.2]> m) kvs m, rest).
Proof.
  intros Hne Hl. revert gas m. induction Hl as [|[k v] kvs Hv Hl IH]; intros gas m Hg; [done|].
  destruct gas as [|gas]; [simpl in Hg; lia|]. cbn [parse_members]. rewrite skip_newline.
  assert (Hcolon : forall s, parse_value fuel (print ind' v +:+ s) = Some (v, s) ->
    exists t, skip (colon ind +:+ print ind' v +:+ s) = String ":" t /\ parse_value fuel t = Some (v, s)).
  { intros s Hp. destruct ind; eexists; (split; [reflexivity|]); [|done].
    rewrite <- Hp. by apply parse_value_skip. }
  simpl in Hv. destruct kvs as [|kv kvs].
  - cbn [fmap list_fmap join prod_map fst snd id]. rewrite !sapp_assoc. unfold quote.
    cbn [String.append skip]. change (is_json_space DQ) with false. cbv iota.
    change (Ascii.eqb DQ DQ) with true. cbv iota.
    rewrite sapp_assoc. cbn [String.append]. rewrite parse_str_escape. cbn [mbind option_bind].
    destruct (Hcolon (newline ind +:+ String "}" rest)) as (t & Ht & Hp).
    { apply Hv. by apply num_end_close. }
    change ("}" +:+ rest) with (String "}" rest).
    rewrite Ht. change (Ascii.eqb ":" ":") with true. cbv iota. rewrite Hp. cbn [mbind option_bind].
    by rewrite skip_newline.
  - set (rec := join ("," +:+ newline ind') ((fun kv => quote kv.1 +:+ colon ind +:+ kv.2) <$>
      (prod_map id (print ind') <$> kv :: kvs))) in *.
    change (join _ _) with ((quote k +:+ colon ind +:+ print ind' v) +:+ ("," +:+ newline ind') +:+ rec).
    rewrite !sapp_assoc. unfold quote.
    cbn [String.append skip]. change (is_json_space DQ) with false. cbv iota.
    change (Ascii.eqb DQ DQ) with true. cbv iota.
    rewrite sapp_assoc. cbn [String.append]. rewrite parse_str_escape. cbn [mbind option_bind].
    destruct (Hcolon (String "," (newline ind' +:+ rec +:+ newline ind +:+ String "}" rest)))
      as (t & Ht & Hp); [by apply Hv|].
    rewrite Ht. change (Ascii.eqb ":" ":") with true. cbv iota. rewrite Hp. cbn [mbind option_bind].
    cbn [String.append skip]. change (is_json_space ",") with false. cbv iota. change (Ascii.eqb "," "}") with false. cbv iota.
    change (Ascii.eqb "," ",") with true. cbv iota.
    by rewrite IH by (done || (simpl in *; lia)).
Qed.

Lemma slen_join_elem sep ps p : p ∈ ps -> (slen p <= slen (join sep ps))%nat.
Proof.
  induction ps as [|q ps IH]; [by intros ?%elem_of_nil|].
  intros [->|Hp]%elem_of_cons; destruct ps as [|q' ps].
  - done.
  - change (join sep (q :: q' :: ps)) with (q +:+ sep +:+ join sep (q' :: ps)).
    rewrite !slen_app. lia.
  - by apply elem_of_nil in Hp.
  - change (join sep (q :: q' :: ps)) with (q +:+ sep +:+ join sep (q' :: ps)).
    rewrite !slen_app. specialize (IH Hp). lia.
Qed.

Lemma length_join sep ps : Forall (fun p => 0 < slen p)%nat ps -> (length ps <= slen (join sep ps))%nat.
Proof.
  induction 1 as [|q ps Hq Hps IH]; [simpl; lia|]. destruct ps as [|q' ps]; [simpl in *; lia|].
  change (join sep (q :: q' :: ps)) with (q +:+ sep +:+ join sep (q' :: ps)).
  rewrite !slen_app. simpl in *. lia.
Qed.

Lemma sorted_members ind (m : gmap string json) :
  exists kvs, merge_sort key_le (map_to_list (print ind <$> m)) = prod_map id (print ind) <$> kvs /\
    kvs ≡ₚ map_to_list m.
Proof.
  pose proof (merge_sort_Permutation (@key_le string) (map_to_list (print ind <$> m))) as Hp.
  rewrite map_to_list_fmap in Hp. apply Permutation_map_inv in Hp as (kvs & Heq & Hp).
  rewrite map_to_list_fmap. by exists kvs.
Qed.

Lemma print_nonempty ind v : json_ok v = true -> (0 < slen (print ind v))%nat.
Proof. intros Hok. destruct (print_head ind v Hok) as (c & s & -> & _). simpl. lia. Qed.

Lemma prints_number fuel ind lit : json_ok (JNum lit) = true -> prints (S fuel) ind (JNum lit).
Proof.
  simpl. intros Hok rest Hrest. destruct (num_head lit Hok) as (c & s & -> & Hc).
  cbn [print parse_value]. change (String c s +:+ rest) with (String c (s +:+ rest)).
  rewrite skip_id by (destruct Hc as [->|Hc]; [done|destruct c as [[] [] [] [] [] [] [] []]; done]).
  pose proof (parse_num_app (String c s) rest Hok Hrest) as Hn. cbn [String.append] in Hn.
  rewrite Hn.
  destruct Hc as [->|Hc]; [done|]. destruct c as [[] [] [] [] [] [] [] []]; done.
Qed.

Lemma prints_string fuel ind s : prints (S fuel) ind (JStr s).
Proof.
  intros rest _. cbn [print]. unfold quote. cbn [parse_value String.append]. rewrite skip_id by done.
  rewrite Ascii.eqb_refl, sapp_assoc. cbn [String.append]. by rewrite parse_str_escape.
Qed.

(** An array is read back when its elements, whose texts are shorter, are. *)
Lemma prints_array fuel ind l :
  json_ok (JArr l) = true -> (slen (print ind (JArr l)) <= S fuel)%nat ->
  (forall v, v ∈ l -> json_ok v = true -> (slen (print (deeper ind) v) <= fuel)%nat -> prints fuel (deeper ind) v) ->
  prints (S fuel) ind (JArr l).
Proof.
  intros Hok Hf IH rest Hrest. destruct l as [|x l]; [done|].
  assert (Hall : forall y, y ∈ x :: l -> json_ok y = true).
  { intros y Hy. apply list_elem_of_In in Hy. revert y Hy. by apply forallb_forall. }
  clear Hok. cbn [print] in Hf. set (ind' := deeper ind) in *. rewrite !slen_app in Hf.
  cbn [String.length] in Hf. fold (print ind' <$> x :: l) in *.
  assert (Hnil : Forall (fun p => 0 < slen p)%nat (print ind' <$> x :: l)).
  { apply Forall_fmap, Forall_forall. intros y Hy. by apply print_nonempty, Hall. }
  pose proof (length_join ("," +:+ newline ind') _ Hnil) as Hlen'. rewrite length_fmap in Hlen'.
  assert (Hp : Forall (prints fuel ind') (x :: l)).
  { apply Forall_forall. intros y Hy. apply IH; [done|by apply Hall|].
    pose proof (slen_join_elem ("," +:+ newline ind') (print ind' <$> x :: l) (print ind' y)
      (list_elem_of_fmap_2 _ _ _ Hy)). lia. }
  destruct (print_head ind' x (Hall x ltac:(left))) as (c & s & Hc & Hst).
  apply starts_spec in Hst as (Hsp & Hcl & _).
  assert (exists t, join ("," +:+ newline ind') (print ind' <$> x :: l) = String c t) as [t Ht].
  { destruct l; cbn [fmap list_fmap join]; rewrite Hc; by eexists. }
  pose proof (parse_items_print fuel fuel ind ind' (x :: l) rest ltac:(done) Hp ltac:(lia)) as Hpi.
  cbn [print]. fold ind'. fold (print ind' <$> x :: l). rewrite Ht in Hpi |- *. rewrite !sapp_assoc.
  cbn [parse_value String.append]. rewrite skip_id by done. cbv zeta. cbv iota.
  change (Ascii.eqb "[" DQ) with false. change (Ascii.eqb "[" "{") with false.
  change (Ascii.eqb "[" "[") with true. cbv iota.
  rewrite skip_newline, skip_id, Hcl by done. cbn [String.append] in Hpi.
  by rewrite Hpi.
Qed.

(** The texts of the members of an object, in the order of the printer. *)
Definition member_texts (ind : option nat) (kvs : list (string * json)) : list string :=
  (fun kv => quote kv.1 +:+ colon ind +:+ kv.2) <$> (prod_map id (print (deeper ind)) <$> kvs).

Lemma print_obj ind m : m <> ∅ -> exists kvs, kvs <> [] /\ kvs ≡ₚ map_to_list m /\
  print ind (JObj m) = "{" +:+ newline (deeper ind) +:+
    join ("," +:+ newline (deeper ind)) (member_texts ind kvs) +:+ newline ind +:+ "}".
Proof.
  intros Hm. destruct (sorted_members (deeper ind) m) as (kvs & Hs & Hperm). exists kvs.
  destruct kvs as [|kv kvs].
  - symmetry in Hperm. apply Permutation_nil_r in Hperm. by apply map_to_list_empty_iff in Hperm.
  - split_and!; [done|done|]. cbn [print]. by rewrite Hs.
Qed.

Lemma member_text_bound ind kvs kv : kv ∈ kvs ->
  (slen (print (deeper ind) kv.2) <= slen (join ("," +:+ newline (deeper ind)) (member_texts ind kvs)))%nat.
Proof.
  intros Hkv. etrans; [|apply slen_join_elem; unfold member_texts; by do 2 eapply list_elem_of_fmap_2].
  rewrite !slen_app. simpl. lia.
Qed.

Lemma prints_object fuel ind m :
  json_ok (JObj m) = true -> (slen (print ind (JObj m)) <= S fuel)%nat ->
  (forall k v, m !! k = Some v -> json_ok v = true -> (slen (print (deeper ind) v) <= fuel)%nat ->
    prints fuel (deeper ind) v) ->
  prints (S fuel) ind (JObj m).
Proof.
  intros Hok Hf IH rest Hrest. destruct (decide (m = ∅)) as [->|Hne]; [done|].
  destruct (print_obj ind m Hne) as (kvs & Hkvs & Hperm & Hprint).
  rewrite Hprint in Hf |- *. rewrite !slen_app in Hf. cbn [String.length] in Hf.
  assert (Hnil : Forall (fun p => 0 < slen p)%nat (member_texts ind kvs)).
  { unfold member_texts. apply Forall_fmap, Forall_forall. intros ? _. simpl. lia. }
  pose proof (length_join ("," +:+ newline (deeper ind)) _ Hnil) as Hlen'.
  unfold member_texts in Hlen' at 1. rewrite !length_fmap in Hlen'.
  assert (Hp : Forall (fun kv : string * json => prints fuel (deeper ind) kv.2) kvs).
  { apply Forall_forall. intros [k v] Hkv. pose proof (member_text_bound ind kvs _ Hkv).
    rewrite Hperm, elem_of_map_to_list in Hkv. apply (IH k); [done|by eapply json_ok_obj|simpl in *; lia]. }
  pose proof (parse_members_print fuel fuel ind _ kvs ∅ rest Hkvs Hp ltac:(lia)) as Hpm.
  rewrite (fold_insert_perm _ m) in Hpm by done. fold (member_texts ind kvs) in Hpm.
  assert (exists t, join ("," +:+ newline (deeper ind)) (member_texts ind kvs) = String DQ t) as [t Ht].
  { destruct kvs as [|kv []]; [done|..]; unfold member_texts; cbn [fmap list_fmap join]; by eexists. }
  rewrite Ht in Hpm |- *. rewrite !sapp_assoc.
  cbn [parse_value String.append]. rewrite skip_id by done. cbv zeta. cbv iota.
  change (Ascii.eqb "{" DQ) with false. change (Ascii.eqb "{" "{") with true. cbv iota.
  rewrite skip_newline, skip_id by done. cbv iota.
  change (Ascii.eqb DQ "}") with false. cbv iota. cbn [String.append] in Hpm.
  by rewrite Hpm.
Qed.

Lemma parse_print fuel ind v :
  json_ok v = true -> (slen (print ind v) <= fuel)%nat -> prints fuel ind v.
Proof.
  revert ind v. induction fuel as [|fuel IH]; intros ind v Hok Hf.
  { pose proof (print_nonempty ind v Hok). lia. }
  destruct v as [|[]|lit|s|l|m]; [done|done|done|..].
  - by apply prints_number.
  - apply prints_string.
  - apply prints_array; auto.
  - apply prints_object; auto.
Qed.

(** Unmarshal inverts Marshal and MarshalIndent, also before a final newline. *)
Lemma unmarshal_print ind v r :
  json_ok v = true -> skip r = "" -> num_end r -> unmarshal (print ind v +:+ r) = Ok v.
Proof.
  intros Hok Hr Hn. unfold unmarshal.
  rewrite (parse_print _ ind v Hok); [by rewrite Hr|rewrite slen_app; lia|done].
Qed.

(** *** What the parser returns is well formed *)
Definition digit_end (s : string) : Prop :=
  match s with String c _ => is_digit c = false | EmptyString => True end.
Definition not_first (a b : ascii) (s : string) : Prop :=
  match s with String c _ => c <> a /\ c <> b | EmptyString => True end.

Lemma span_digits_again s d r t :
  span_digits s = (d, r) -> digit_end t -> span_digits (d +:+ t) = (d, t).
Proof.
  intros Hs Ht. revert d r Hs. induction s as [|c s IH]; intros d r; simpl.
  - intros [= <- <-]. destruct t as [|c t]; [done|]. simpl in *. by rewrite Ht.
  - destruct (is_digit c) eqn:Hc.
    + destruct (span_digits s) as [d' r'] eqn:Hd. intros [= <- <-]. simpl.
      by rewrite Hc, (IH d' r').
    + intros [= <- <-]. destruct t as [|c' t]; [done|]. simpl in *. by rewrite Ht.
Qed.

Lemma parse_int_part_again s d r t :
  parse_int_part s = Some (d, r) -> digit_end t -> parse_int_part (d +:+ t) = Some (d, t).
Proof.
  destruct s as [|c s]; [done|]. simpl. intros Hs Ht.
  destruct (Ascii.eqb c "0") eqn:H0; [by injection Hs as <- <-|].
  destruct (is_digit c) eqn:Hc; [|done].
  destruct (span_digits s) as [d' r'] eqn:Hd. injection Hs as <- <-.
  simpl. by rewrite H0, Hc, (span_digits_again _ _ _ _ Hd).
Qed.

Lemma parse_frac_part_again s d r t :
  parse_frac_part s = Some (d, r) -> digit_end t -> not_first "." "." t ->
  parse_frac_part (d +:+ t) = Some (d, t) /\ (d = "" \/ exists x, d = String "." x).
Proof.
  assert (H0 : not_first "." "." t -> parse_frac_part ("" +:+ t) = Some ("", t)).
  { destruct t as [|c t]; [done|]. intros [Hc _]. cbn [parse_frac_part String.append].
    by destruct (Ascii.eqb_spec c "."). }
  destruct s as [|c s]; simpl; intros Hs Ht Hn; [injection Hs as <- <-; auto|].
  destruct (Ascii.eqb_spec c ".") as [->|]; [|injection Hs as <- <-; auto].
  destruct (span_digits s) as [d' r'] eqn:Hd. pose proof (span_digits_again _ _ _ t Hd Ht) as Ha.
  destruct d' as [|e d']; [done|]. injection Hs as <- <-. split; [|eauto].
  cbn [String.append parse_frac_part] in *. by rewrite Ha.
Qed.

Lemma parse_exp_part_again s d r :
  parse_exp_part s = Some (d, r) ->
  parse_exp_part d = Some (d, "") /\ (d = "" \/ exists c x, d = String c x /\ (c = "e"%char \/ c = "E"%char)).
Proof.
  destruct s as [|c s]; simpl; intros Hs; [injection Hs as <- <-; auto|].
  destruct (Ascii.eqb c "e" || Ascii.eqb c "E") eqn:Hc; [|injection Hs as <- <-; auto].
  assert (Hce : c = "e"%char \/ c = "E"%char).
  { apply orb_true_iff in Hc as [Hc|Hc]; apply Ascii.eqb_eq in Hc; auto. }
  destruct s as [|e s]; [done|].
  destruct (Ascii.eqb e "+" || Ascii.eqb e "-") eqn:He.
  - destruct (span_digits s) as [d' r'] eqn:Hd. pose proof (span_digits_again _ _ _ "" Hd I) as Ha.
    rewrite sapp_nil_r in Ha.
    destruct d' as [|x d']; [done|]. injection Hs as <- <-. split; [|eauto 6].
    cbn [String.append parse_exp_part]. by rewrite Hc, He, Ha.
  - destruct (span_digits (String e s)) as [d' r'] eqn:Hd.
    pose proof (span_digits_again _ _ _ "" Hd I) as Ha. rewrite sapp_nil_r in Ha.
    destruct d' as [|x d']; [done|]. injection Hs as <- <-. split; [|eauto 6].
    cbn [String.append parse_exp_part]. rewrite Hc.
    assert (x = e) as ->.
    { cbn [span_digits] in Hd. destruct (is_digit e); [|done].
      destruct (span_digits s). by injection Hd. }
    by rewrite He, Ha.
Qed.

Lemma parse_num_ok s l r : parse_num s = Some (l, r) -> num_ok l = true.
Proof.
  unfold parse_num, num_ok.
  set (f := fun s => match s with
    | String c r => if Ascii.eqb c "-" then ("-", r) else ("", s)
    | EmptyString => ("", s) end).
  fold (f s). destruct (f s) as [sign s1] eqn:Hf.
  intros ((i & s2) & Hi & Hn)%bind_Some.
  apply bind_Some in Hn as ((fr & s3) & Hfr & Hn).
  apply bind_Some in Hn as ((ex & s4) & Hex & Hn). injection Hn as <- ->.
  apply parse_exp_part_again in Hex as [Hex Hex0].
  destruct (parse_frac_part_again _ _ _ ex Hfr) as [Hfr' Hfr0].
  { by destruct Hex0 as [->|(c & x & -> & [->| ->])]. }
  { by destruct Hex0 as [->|(c & x & -> & [->| ->])]. }
  pose proof (parse_int_part_again _ _ _ (fr +:+ ex) Hi) as Hi'.
  assert (f (sign +:+ i +:+ fr +:+ ex) = (sign, i +:+ fr +:+ ex)) as Hf'.
  { destruct s as [|c s]; unfold f in Hf; [by injection Hf as <- <-|].
    destruct (Ascii.eqb c "-") eqn:Hc; injection Hf as <- <-; [done|].
    cbn [parse_int_part span_digits] in Hi. destruct (Ascii.eqb c "0") eqn:H0; [by injection Hi as <- <-|].
    destruct (is_digit c); [|done]. destruct (span_digits s). injection Hi as <- <-.
    simpl. by rewrite Hc. }
  unfold parse_num. fold (f (sign +:+ i +:+ fr +:+ ex)). rewrite Hf', Hi'.
  - cbn [mbind option_bind]. rewrite Hfr'. cbn [mbind option_bind]. rewrite Hex.
    cbn [mbind option_bind]. apply String.eqb_refl.
  - destruct Hfr0 as [->|(x & ->)]; [|done].
    by destruct Hex0 as [->|(c & x & -> & [->| ->])].
Qed.

Section parse_ok.
Context (value : string -> option (json * string)).
Context (Hvalue : forall s v r, value s = Some (v, r) -> json_ok v = true).

Lemma parse_items_ok gas s l r : parse_items value gas s = Some (l, r) -> forallb json_ok l = true.
Proof using Hvalue.
  revert s l r. induction gas as [|gas IH]; intros s l r; [done|]. cbn [parse_items].
  intros ((v & s1) & Hv & Hs)%bind_Some. apply Hvalue in Hv.
  destruct (skip s1) as [|c s2]; [done|]. destruct (Ascii.eqb c "]").
  - injection Hs as <- <-. simpl. by rewrite Hv.
  - destruct (Ascii.eqb c ","); [|done]. apply bind_Some in Hs as ((vs & s3) & Hvs & Hs).
    injection Hs as <- <-. apply IH in Hvs. simpl. by rewrite Hv, Hvs.
Qed.

Lemma json_ok_insert m k v :
  json_ok (JObj m) = true -> json_ok v = true -> json_ok (JObj (<[k := v]> m)) = true.
Proof using.
  intros Hm Hv. apply json_ok_obj_2. intros k' v'. rewrite lookup_insert_Some.
  intros [[_ <-]|[_ Hk]]; [done|]. by eapply json_ok_obj.
Qed.

Lemma parse_members_ok gas s m m' r :
  json_ok (JObj m) = true -> parse_members value gas s m = Some (m', r) -> json_ok (JObj m') = true.
Proof using Hvalue.
  revert s m. induction gas as [|gas IH]; intros s m Hm; [done|]. cbn [parse_members].
  destruct (skip s) as [|q s1]; [done|]. destruct (Ascii.eqb q DQ); [|done].
  intros ((k & s2) & _ & Hs)%bind_Some. destruct (skip s2) as [|c s3]; [done|].
  destruct (Ascii.eqb c ":"); [|done]. apply bind_Some in Hs as ((v & s4) & Hv & Hs).
  apply Hvalue in Hv. pose proof (json_ok_insert m k v Hm Hv) as Hm'.
  destruct (skip s4) as [|c' s5]; [done|]. destruct (Ascii.eqb c' "}"); [by injection Hs as <- <-|].
  destruct (Ascii.eqb c' ","); [|done]. by eapply IH.
Qed.
End parse_ok.

Lemma parse_value_ok fuel s v r : parse_value fuel s = Some (v, r) -> json_ok v = true.
Proof.
  revert s v r. induction fuel as [|fuel IH]; intros s v r; [done|]. cbn [parse_value].
  destruct (skip s) as [|c s1]; [done|]. destruct (Ascii.eqb c DQ).
  { by intros ((? & ?) & _ & [= <- <-])%bind_Some. }
  destruct (Ascii.eqb c "{").
  { destruct (skip s1) as [|d s2]; [done|]. destruct (Ascii.eqb d "}"); [by intros [= <- <-]|].
    intros ((m & ?) & Hm & [= <- <-])%bind_Some. by eapply parse_members_ok in Hm. }
  destruct (Ascii.eqb c "[").
  { destruct (skip s1) as [|d s2]; [done|]. destruct (Ascii.eqb d "]"); [by intros [= <- <-]|].
    intros ((l & ?) & Hl & [= <- <-])%bind_Some. by eapply parse_items_ok in Hl. }
  repeat case_match; try (by intros [= <- <-]).
  intros ((n & ?) & Hn & [= <- <-])%bind_Some. by eapply parse_num_ok.
Qed.

Lemma unmarshal_ok s v : unmarshal s = Ok v -> json_ok v = true.
Proof.
  unfold unmarshal. destruct (parse_value _ s) as [[v' r]|] eqn:Hp; [|done].
  case_match; [|done]. intros [= <-]. by eapply parse_value_ok.
Qed.

(** *** A text that is cut

    What was read from a text is read from any longer one, unless it is a number
    at the end of the text. *)
Lemma span_digits_more s d r t :
  span_digits s = (d, r) -> r <> "" -> span_digits (s +:+ t) = (d, r +:+ t).
Proof.
  revert d r. induction s as [|c s IH]; intros d r; simpl; [by intros [= <- <-]|].
  destruct (is_digit c); [|by intros [= <- <-]].
  destruct (span_digits s) as [d' r']. intros [= <- <-] Hr. by rewrite (IH d' r').
Qed.

Lemma parse_int_part_more s d r t :
  parse_int_part s = Some (d, r) -> r <> "" -> parse_int_part (s +:+ t) = Some (d, r +:+ t).
Proof.
  destruct s as [|c s]; [done|]. cbn [parse_int_part String.append]. intros Hs Hr.
  destruct (Ascii.eqb c "0"); [by injection Hs as <- <-|]. destruct (is_digit c); [|done].
  injection Hs as Hs. change (String c (s +:+ t)) with (String c s +:+ t). by rewrite (span_digits_more _ d r).
Qed.

Lemma parse_frac_part_more s d r t :
  parse_frac_part s = Some (d, r) -> r <> "" -> parse_frac_part (s +:+ t) = Some (d, r +:+ t).
Proof.
  destruct s as [|c s]; cbn [parse_frac_part String.append]; intros Hs Hr; [by injection Hs as <- <-|].
  destruct (Ascii.eqb c "."); [|by injection Hs as <- <-].
  destruct (span_digits s) as [d' r'] eqn:Hd. destruct d'; [done|]. injection Hs as <- <-.
  by rewrite (span_digits_more _ _ _ t Hd).
Qed.

Lemma parse_exp_part_more s d r t :
  parse_exp_part s = Some (d, r) -> r <> "" -> parse_exp_part (s +:+ t) = Some (d, r +:+ t).
Proof.
  destruct s as [|c s]; cbn [parse_exp_part String.append]; intros Hs Hr; [by injection Hs as <- <-|].
  destruct (Ascii.eqb c "e" || Ascii.eqb c "E"); [|by injection Hs as <- <-].
  destruct s as [|e s]; [done|]. cbn [String.append].
  destruct (Ascii.eqb e "+" || Ascii.eqb e "-").
  - destruct (span_digits s) as [d' r'] eqn:Hd. destruct d'; [done|]. injection Hs as <- <-.
    by rewrite (span_digits_more _ _ _ t Hd).
  - destruct (span_digits (String e s)) as [d' r'] eqn:Hd. destruct d'; [done|]. injection Hs as <- <-.
    change (String e (s +:+ t)) with (String e s +:+ t). by rewrite (span_digits_more _ _ _ t Hd).
Qed.

Lemma parse_num_more s l r t :
  parse_num s = Some (l, r) -> r <> "" -> parse_num (s +:+ t) = Some (l, r +:+ t).
Proof.
  unfold parse_num.
  set (f := fun s => match s with
    | String c r => if Ascii.eqb c "-" then ("-", r) else ("", s)
    | EmptyString => ("", s) end).
  fold (f s) (f (s +:+ t)). destruct (f s) as [sign s1] eqn:Hf.
  intros ((i & s2) & Hi & Hn)%bind_Some Hr.
  apply bind_Some in Hn as ((fr & s3) & Hfr & Hn).
  apply bind_Some in Hn as ((ex & s4) & Hex & Hn). injection Hn as <- ->.
  assert (H3 : s3 <> "") by (intros ->; by injection Hex as _ <-).
  assert (H2 : s2 <> "") by (intros ->; injection Hfr as _ <-; by apply H3).
  assert (f (s +:+ t) = (sign, s1 +:+ t)) as ->.
  { destruct s as [|c s]; [by injection Hf as <- <-|]. unfold f in Hf |- *.
    cbn [String.append]. destruct (Ascii.eqb c "-"); by injection Hf as <- <-. }
  rewrite (parse_int_part_more _ _ _ t Hi H2). cbn [mbind option_bind].
  rewrite (parse_frac_part_more _ _ _ t Hfr H3). cbn [mbind option_bind].
  by rewrite (parse_exp_part_more _ _ _ t Hex Hr).
Qed.

Lemma skip_more s t : skip s <> "" -> skip (s +:+ t) = skip s +:+ t.
Proof. induction s as [|c s IH]; [done|]. simpl. by destruct (is_json_space c). Qed.

(** No escape [\u] follows. *)
Definition no_pair (s : string) : Prop :=
  match s with String b (String x _) => Ascii.eqb b BS && Ascii.eqb x "u" = false | _ => True end.
Lemma cut_pair {A} s (pair : ascii -> ascii -> ascii -> ascii -> string -> A) (single : A) :
  no_pair s ->
  match s with
  | String b (String u (String l1 (String l2 (String l3 (String l4 s))))) =>
      if Ascii.eqb b BS && Ascii.eqb u "u" then pair l1 l2 l3 l4 s else single
  | _ => single
  end = single.
Proof. intros Hb. destruct s as [|? [|? [|? [|? [|? [|? s]]]]]]; try done. simpl in Hb. by rewrite Hb. Qed.

Lemma no_pair_or s : no_pair s \/ exists s', s = String BS (String "u" s').
Proof.
  destruct s as [|b [|x s]]; [by left..|]. simpl. destruct (Ascii.eqb_spec b BS) as [->|]; [|by left].
  destruct (Ascii.eqb_spec x "u") as [->|]; [|by left]. right. by exists s.
Qed.
(** The end of the text cannot be the start of an escape, since a literal was read. *)
Lemma no_pair_more s t p : parse_str s = Some p -> no_pair s -> no_pair (s +:+ t).
Proof.
  destruct s as [|b [|x s]]; [done| |done]. intros Hs _. assert (b = DQ) as ->; [|by destruct t].
  cbn [parse_str] in Hs. destruct (Ascii.eqb_spec b DQ) as [->|]; [done|]. by repeat case_match.
Qed.

(** A literal that was read has its closing quote after every escape. *)
Lemma parse_str_more s v r t : parse_str s = Some (v, r) -> parse_str (s +:+ t) = Some (v, r +:+ t).
Proof.
  assert (H : forall n s v r, (slen s <= n)%nat -> parse_str s = Some (v, r) ->
    parse_str (s +:+ t) = Some (v, r +:+ t)); [|by apply (H (slen s))]. clear s v r.
  induction n as [|n IH]; intros s v r Hn; [by destruct s; [|simpl in Hn; lia]|].
  destruct s as [|c s]; [done|]. simpl in Hn. cbn [parse_str String.append].
  destruct (Ascii.eqb c DQ); [by intros [= <- <-]|]. destruct (Z_of_byte c <? 32); [done|].
  destruct (Ascii.eqb c BS).
  2:{ intros ((v' & r') & Hs & [= <- <-])%bind_Some. by rewrite (IH s v' r') by (done || lia). }
  destruct s as [|e s]; [done|]. simpl in Hn. cbn [String.append]. destruct (Ascii.eqb e "u").
  2:{ intros (d & -> & ((v' & r') & Hs & [= <- <-])%bind_Some)%bind_Some. cbn [mbind option_bind].
      by rewrite (IH s v' r') by (done || lia). }
  destruct s as [|h1 [|h2 [|h3 [|h4 s]]]]; try done. simpl in Hn. cbn [String.append].
  intros (u & -> & Hs)%bind_Some. cbn [mbind option_bind].
  assert (Hsingle : forall w, ('(t0, r0) ← parse_str s; Some (w +:+ t0, r0)) = Some (v, r) ->
    ('(t0, r0) ← parse_str (s +:+ t); Some (w +:+ t0, r0)) = Some (v, r +:+ t)).
  { intros w ((v' & r') & Hs' & [= <- <-])%bind_Some. by rewrite (IH s v' r') by (done || lia). }
  destruct (high_surrogate u); [|by apply Hsingle]. cbn [orb] in *.
  (* the escape may be the first half of a pair *)
  destruct (no_pair_or s) as [Hno|[s' ->]].
  { rewrite cut_pair in Hs by done. pose proof (Hsingle _ Hs) as Hg. rewrite cut_pair; [done|].
    apply bind_Some in Hs as (? & Hs & _). by eapply no_pair_more. }
  destruct s' as [|l1 [|l2 [|l3 [|l4 s']]]]; try done. simpl in Hn.
  cbn [String.append] in *. change (Ascii.eqb BS BS && Ascii.eqb "u" "u") with true in *. cbv iota in *.
  apply bind_Some in Hs as (m & -> & Hs). cbn [mbind option_bind].
  destruct (low_surrogate m); [|by apply Hsingle].
  apply bind_Some in Hs as ((v' & r') & Hs & [= <- <-]). by rewrite (IH s' v' r') by (done || lia).
Qed.

Lemma cut_prefix_more s p r t : cut_prefix s p = Some r -> cut_prefix (s +:+ t) p = Some (r +:+ t).
Proof. rewrite !cut_prefix_spec. intros ->. by rewrite sapp_assoc. Qed.

(** A value that more text cannot change: not a number at the end. *)
Definition settled_value (v : json) (r : string) : Prop :=
  r <> "" \/ match v with JNum _ => False | _ => True end.

Section more.
Context (value value' : string -> option (json * string)) (t : string).
Context (Hvalue : forall s v r, value s = Some (v, r) -> settled_value v r -> value' (s +:+ t) = Some (v, r +:+ t)).

Lemma parse_items_more gas gas' s l r : (gas <= gas')%nat ->
  parse_items value gas s = Some (l, r) -> parse_items value' gas' (s +:+ t) = Some (l, r +:+ t).
Proof using Hvalue.
  revert gas' s l r. induction gas as [|gas IH]; intros [|gas'] s l r Hg; try done; [lia|]. cbn [parse_items].
  intros ((v & s1) & Hv & Hs)%bind_Some. destruct (skip s1) as [|c s2] eqn:Hsk; [done|].
  rewrite (Hvalue _ _ _ Hv) by (left; by intros ->). cbn [mbind option_bind].
  rewrite skip_more, Hsk by (by rewrite Hsk). cbn [String.append].
  destruct (Ascii.eqb c "]"); [by injection Hs as <- <-|]. destruct (Ascii.eqb c ","); [|done].
  apply bind_Some in Hs as ((vs & s3) & Hvs & [= <- <-]). by rewrite (IH gas' s2 vs s3) by (done || lia).
Qed.

Lemma parse_members_more gas gas' s m m' r : (gas <= gas')%nat ->
  parse_members value gas s m = Some (m', r) -> parse_members value' gas' (s +:+ t) m = Some (m', r +:+ t).
Proof using Hvalue.
  revert gas' s m. induction gas as [|gas IH]; intros [|gas'] s m Hg; try done; [lia|]. cbn [parse_members].
  destruct (skip s) as [|q s1] eqn:Hs0; [done|]. rewrite skip_more, Hs0 by (by rewrite Hs0). cbn [String.append].
  destruct (Ascii.eqb q DQ); [|done]. intros ((k & s2) & Hk & Hs)%bind_Some.
  rewrite (parse_str_more _ _ _ t Hk). cbn [mbind option_bind].
  destruct (skip s2) as [|c s3] eqn:Hs2; [done|]. rewrite skip_more, Hs2 by (by rewrite Hs2). cbn [String.append].
  destruct (Ascii.eqb c ":"); [|done]. apply bind_Some in Hs as ((v & s4) & Hv & Hs).
  destruct (skip s4) as [|d s5] eqn:Hs4; [done|].
  rewrite (Hvalue _ _ _ Hv) by (left; by intros ->). cbn [mbind option_bind].
  rewrite skip_more, Hs4 by (by rewrite Hs4). cbn [String.append].
  destruct (Ascii.eqb d "}"); [by injection Hs as <- <-|]. destruct (Ascii.eqb d ","); [|done].
  apply IH; [lia|done].
Qed.
End more.

Lemma parse_value_more fuel fuel' s v r t : (fuel <= fuel')%nat ->
  parse_value fuel s = Some (v, r) -> settled_value v r -> parse_value fuel' (s +:+ t) = Some (v, r +:+ t).
Proof.
  revert fuel' s v r. induction fuel as [|fuel IH]; intros [|fuel'] s v r Hf; try done; [lia|].
  cbn [parse_value]. destruct (skip s) as [|c s1] eqn:Hs; [done|].
  rewrite skip_more, Hs by (by rewrite Hs). cbn [String.append].
  destruct (Ascii.eqb c DQ).
  { intros ((w & r') & Hw & [= <- <-])%bind_Some _. by rewrite (parse_str_more _ _ _ t Hw). }
  destruct (Ascii.eqb c "{").
  { destruct (skip s1) as [|d s2] eqn:Hs1; [done|]. rewrite skip_more, Hs1 by (by rewrite Hs1). cbn [String.append].
    destruct (Ascii.eqb d "}"); [by intros [= <- <-]|]. intros ((m & r') & Hm & [= <- <-])%bind_Some _.
    rewrite (parse_members_more (parse_value fuel) (parse_value fuel') t) with (m' := m) (r := r') (gas := fuel);
      [done|..|done]; [|lia]. intros; apply IH; [lia|done..]. }
  destruct (Ascii.eqb c "[").
  { destruct (skip s1) as [|d s2] eqn:Hs1; [done|]. rewrite skip_more, Hs1 by (by rewrite Hs1). cbn [String.append].
    destruct (Ascii.eqb d "]"); [by intros [= <- <-]|]. intros ((l & r') & Hl & [= <- <-])%bind_Some _.
    rewrite (parse_items_more (parse_value fuel) (parse_value fuel') t) with (l := l) (r := r') (gas := fuel);
      [done|..|done]; [|lia]. intros; apply IH; [lia|done..]. }
  change (String c (s1 +:+ t)) with (String c s1 +:+ t).
  destruct (cut_prefix (String c s1) "null") as [r0|] eqn:Hn.
  { intros [= <- <-] _. by rewrite (cut_prefix_more _ _ _ t Hn). }
  destruct (cut_prefix (String c s1) "true") as [r0|] eqn:Ht.
  { intros [= <- <-] _. rewrite (cut_prefix_more _ _ _ t Ht). by apply cut_prefix_spec in Ht as ->. }
  destruct (cut_prefix (String c s1) "false") as [r0|] eqn:Hfa.
  { intros [= <- <-] _. rewrite (cut_prefix_more _ _ _ t Hfa). by apply cut_prefix_spec in Hfa as ->. }
  intros ((n & r') & Hp & [= <- <-])%bind_Some [Hr|[]].
  assert (Hlit : forall p, (p = "null" \/ p = "true" \/ p = "false") -> cut_prefix (String c s1 +:+ t) p = None).
  { intros p Hp'. destruct (parse_num_head _ _ _ Hp) as [->|Hd]; [by destruct Hp' as [->|[->| ->]]|].
    destruct Hp' as [->|[->| ->]]; by destruct c as [[] [] [] [] [] [] [] []]. }
  rewrite !Hlit by auto. by rewrite (parse_num_more _ _ _ t Hp Hr).
Qed.

(** A document that is cut is the whole of it or no document: the object of a
    text is not read from a part of it, except without the last newline. *)
Lemma unmarshal_cut ind m r p q :
  json_ok (JObj m) = true -> num_end r -> p +:+ q = print ind (JObj m) +:+ r ->
  unmarshal p = Ok (JObj m) \/ exists e, unmarshal p = Err e.
Proof.
  intros Hok Hr Hpq. unfold unmarshal. destruct (parse_value (S (slen p)) p) as [[v s]|] eqn:Hp; [|eauto].
  case_match; [|eauto]. left. f_equal.
  assert (exists t, print ind (JObj m) = String "{" t) as [t Ht].
  { cbn [print]. destruct (merge_sort _ _); by eexists. }
  destruct p as [|c p]; [done|].
  assert (c = "{"%char) as -> by (rewrite Ht in Hpq; by injection Hpq).
  assert (Hv : settled_value v s).
  { right. cbn [parse_value] in Hp. rewrite skip_id in Hp by done. cbv zeta in Hp.
    change (Ascii.eqb "{" DQ) with false in Hp. change (Ascii.eqb "{" "{") with true in Hp. cbv iota in Hp.
    destruct (skip p) as [|d s2]; [done|]. destruct (Ascii.eqb d "}"); [by injection Hp as <- _|].
    by apply bind_Some in Hp as ((? & ?) & _ & [= <- _]). }
  set (n := slen (String "{" p +:+ q)).
  assert (Hlong : parse_value (S n) (String "{" p +:+ q) = Some (v, s +:+ q)).
  { apply (parse_value_more (S (slen (String "{" p)))); [|done..]. unfold n. rewrite slen_app. lia. }
  assert (Hall : parse_value (S n) (print ind (JObj m) +:+ r) = Some (JObj m, r)).
  { apply parse_print; [done| |done]. unfold n. rewrite Hpq, slen_app. lia. }
  rewrite Hpq, Hall in Hlong. by injection Hlong as <- _.
Qed.

(** *** Compact text has no control characters *)
Fixpoint no_ctl (s : string) : bool :=
  match s with EmptyString => true | String c s => (32 <=? Z_of_byte c) && no_ctl s end.

Lemma no_ctl_app s t : no_ctl (s +:+ t) = no_ctl s && no_ctl t.
Proof. induction s as [|c s IH]; simpl; [done|]. by rewrite IH, andb_assoc. Qed.

Lemma no_ctl_char c s : Z_of_byte c < 32 -> no_ctl s = true -> no_char c s = true.
Proof.
  intros Hc. induction s as [|d s IH]; simpl; [done|]. intros [Hd Hs]%andb_true_iff.
  rewrite IH by done. destruct (Ascii.eqb_spec d c) as [->|]; [lia|done].
Qed.

Lemma no_ctl_join sep ps : no_ctl sep = true -> Forall (fun p => no_ctl p = true) ps -> no_ctl (join sep ps) = true.
Proof.
  intros Hsep. induction 1 as [|p ps Hp _ IH]; [done|]. destruct ps as [|q ps]; [exact Hp|].
  change (join sep (p :: q :: ps)) with (p +:+ sep +:+ join sep (q :: ps)). by rewrite !no_ctl_app, Hp, Hsep, IH.
Qed.

Lemma no_ctl_escape s : no_ctl (escape s) = true.
Proof.
  assert (Hc : forall c, no_ctl (escape_char c) = true)
    by (intros c; by destruct c as [[] [] [] [] [] [] [] []]).
  assert (H : forall n s, (slen s <= n)%nat -> no_ctl (escape s) = true); [|by apply (H (slen s))]. clear s.
  induction n as [|n IH]; intros s Hs; [by destruct s; [|simpl in Hs; lia]|].
  destruct s as [|a s1]; [done|]. simpl in Hs.
  assert (Hone : no_ctl (escape_char a +:+ escape s1) = true).
  { rewrite no_ctl_app, Hc. apply IH. lia. }
  destruct s1 as [|b [|c s']]; [exact Hone|exact Hone|].
  change (escape (String a (String b (String c s')))) with
    (match line_sep a b c with
     | Some e => e +:+ escape s'
     | None => escape_char a +:+ escape (String b (String c s'))
     end).
  destruct (line_sep a b c) as [e|] eqn:He; [|exact Hone].
  rewrite no_ctl_app, IH by (simpl in Hs; lia). rewrite andb_true_r. clear -He.
  unfold line_sep in He. repeat case_match; try done; by injection He as <-.
Qed.

Lemma no_ctl_quote s : no_ctl (quote s) = true.
Proof. unfold quote. cbn [no_ctl]. by rewrite no_ctl_app, no_ctl_escape. Qed.

Lemma no_ctl_digits s : no_ctl (span_digits s).1 = true.
Proof.
  induction s as [|c s IH]; [done|]. simpl. destruct (is_digit c) eqn:Hc; [|done].
  destruct (span_digits s) as [d r]. simpl in *. rewrite IH, andb_true_r.
  unfold is_digit in Hc. lia.
Qed.

Lemma no_ctl_num lit : num_ok lit = true -> no_ctl lit = true.
Proof.
  unfold num_ok, parse_num. destruct (match lit with String c r => _ | EmptyString => _ end) as [sign s] eqn:Hs.
  assert (Hsign : no_ctl sign = true).
  { destruct lit as [|c r]; [by injection Hs as <- _|]. destruct (Ascii.eqb c "-"); by injection Hs as <- _. }
  destruct (parse_int_part s) as [[i s1]|] eqn:Hi; [|done]. cbn [mbind option_bind].
  assert (Hint : no_ctl i = true).
  { destruct s as [|c s]; [done|]. unfold parse_int_part in Hi. destruct (Ascii.eqb c "0"); [by injection Hi as <- _|].
    destruct (is_digit c); [|done]. assert (Hd : span_digits (String c s) = (i, s1)) by congruence.
    pose proof (no_ctl_digits (String c s)) as Hn. by rewrite Hd in Hn. }
  destruct (parse_frac_part s1) as [[f s2]|] eqn:Hf; [|done]. cbn [mbind option_bind].
  assert (Hfrac : no_ctl f = true).
  { destruct s1 as [|c s1]; [by injection Hf as <- _|]. unfold parse_frac_part in Hf.
    destruct (Ascii.eqb_spec c ".") as [->|]; [|by injection Hf as <- _].
    pose proof (no_ctl_digits s1) as Hd. destruct (span_digits s1) as [[] r]; [done|]. by injection Hf as <- _. }
  destruct (parse_exp_part s2) as [[e s3]|] eqn:He; [|done]. cbn [mbind option_bind].
  assert (Hexp : no_ctl e = true).
  { destruct s2 as [|c s2]; [by injection He as <- _|]. unfold parse_exp_part in He.
    destruct (Ascii.eqb c "e" || Ascii.eqb c "E") eqn:Hc; [|by injection He as <- _].
    assert (H32 : (32 <=? Z_of_byte c) = true) by (apply orb_true_iff in Hc as [Hc|Hc]; apply Ascii.eqb_eq in Hc as ->; done).
    destruct (match s2 with String d r' => _ | EmptyString => _ end) as [sg r] eqn:Hr.
    assert (no_ctl sg = true).
    { destruct s2 as [|d s2]; [by injection Hr as <- _|]. destruct (Ascii.eqb_spec d "+") as [->|]; [by injection Hr as <- _|].
      destruct (Ascii.eqb_spec d "-") as [->|]; by injection Hr as <- _. }
    pose proof (no_ctl_digits r) as Hd. destruct (span_digits r) as [[] r']; [done|]. injection He as <- _.
    cbn [fst] in Hd. change (no_ctl (String c ?s)) with ((32 <=? Z_of_byte c) && no_ctl s).
    by rewrite H32, no_ctl_app, H, Hd. }
  destruct s3; [|done]. intros <-%String.eqb_eq. by rewrite !no_ctl_app, Hsign, Hint, Hfrac, Hexp.
Qed.

Lemma no_ctl_marshal v : json_ok v = true -> no_ctl (marshal v) = true.
Proof.
  unfold marshal. remember (slen (print None v)) as n eqn:Hn. assert (Hle : (slen (print None v) <= n)%nat) by lia.
  clear Hn. revert v Hle. induction n as [|n IH]; intros v Hn Hok.
  { destruct (print_head None v Hok) as (c & s & He & _). rewrite He in Hn. simpl in Hn. lia. }
  destruct v as [|[]|lit|s|[|x l]|m]; try done.
  - by apply no_ctl_num.
  - apply no_ctl_quote.
  - cbn [print] in *. fold (print None <$> x :: l) in *. rewrite !slen_app in Hn. rewrite !no_ctl_app.
    rewrite no_ctl_join; [done|done|]. apply Forall_fmap, Forall_forall. intros y Hy. apply IH.
    + pose proof (slen_join_elem "," (print None <$> x :: l) _ (list_elem_of_fmap_2 (print None) _ _ Hy)).
      cbn [deeper newline] in Hn. simpl in *. lia.
    + simpl in Hok. revert y Hy. apply Forall_forall, Forall_forall. intros y Hy.
      revert y Hy. setoid_rewrite list_elem_of_In. by apply forallb_forall.
  - destruct (sorted_members None m) as (kvs & Hs & Hperm).
    set (q := fun kv : string * string => quote kv.1 +:+ ":" +:+ kv.2).
    set (ps := q <$> (prod_map id (print None) <$> kvs)).
    assert (Hprint : print None (JObj m) = "{" +:+ join "," ps +:+ "}").
    { cbn [print deeper fmap option_fmap option_map]. change (print None <$> m) with (print None <$> m).
      rewrite Hs. unfold ps. by destruct kvs. }
    rewrite Hprint in Hn |- *. rewrite !slen_app in Hn. rewrite !no_ctl_app. rewrite no_ctl_join; [done|done|].
    unfold ps. apply Forall_fmap, Forall_fmap, Forall_forall. intros [k y] Hy.
    change (no_ctl (quote k +:+ ":" +:+ print None y) = true). rewrite !no_ctl_app, no_ctl_quote. apply IH.
    + assert (Hin : q (prod_map id (print None) (k, y)) ∈ ps)
        by (unfold ps; by do 2 apply list_elem_of_fmap_2).
      pose proof (slen_join_elem "," ps _ Hin) as Hle. unfold q in Hle at 1. rewrite !slen_app in Hle. cbn in Hle, Hn. lia.
    + rewrite Hperm, elem_of_map_to_list in Hy. by eapply json_ok_obj.
Qed.
