(* ===== verification/Config.v ===== *)
(** The shared store (internal/config/config.go): config.json, stage markers and
    generated secrets, under an optional root prefix. *)
From S2P Require Import Prelude Bytes GoStrings World Json.

Definition StateDir : string := "/var/lib/slfhst".
Definition ConfigDir : string := "/etc/slfhst".
Definition ConfigFile : string := ConfigDir +:+ "/config.json".
Definition TemplatesDir : string := "/usr/share/slfhst/templates".
Definition DataDir : string := "/srv/data".
Definition ServiceUser : string := "svc".
Definition ServiceHomeDir : string := "/home/svc".

(** A [map[string]any] whose values come from JSON; [None] is the nil map. *)
Abbreviation config := (gmap string json).

Record Store := MkStore { store_root : string }.

Definition path (s : Store) (p : string) : string :=
  if decide (store_root s = "") then p else path_join [store_root s; p].

Definition markerPath (s : Store) (name : string) : string :=
  path s (path_join [StateDir; name +:+ ".done"]).

(** [json.Unmarshal] into a [map[string]any] *)
Definition unmarshal_map (data : string) : outcome (option config) :=
  v ← unmarshal data;
  match v with
  | JObj m => Ok (Some m)
  | JNull => Ok None
  | _ => Err (Errorf "json: cannot unmarshal into Go value of type map[string]interface {}")
  end.

(** [v, _ := cfg[key].(string)] *)
Definition cfg_string (cfg : config) (key : string) : string :=
  match cfg !! key with Some (JStr s) => s | _ => "" end.

(** base64.RawURLEncoding *)
Definition b64_char (n : Z) : ascii :=
  if n <? 26 then byte_of_Z (65 + n)
  else if n <? 52 then byte_of_Z (71 + n)
  else if n <? 62 then byte_of_Z (n - 4)
  else if n =? 62 then "-"%char else "_"%char.
Fixpoint b64 (bs : list byte) : string :=
  let c n := b64_char (Z.land n 63) in
  match bs with
  | x :: y :: z :: bs =>
      let n := Z_of_byte x * 65536 + Z_of_byte y * 256 + Z_of_byte z in
      String (c (Z.shiftr n 18)) (String (c (Z.shiftr n 12)) (String (c (Z.shiftr n 6)) (String (c n) (b64 bs))))
  | [x; y] =>
      let n := Z_of_byte x * 65536 + Z_of_byte y * 256 in
      String (c (Z.shiftr n 18)) (String (c (Z.shiftr n 12)) (String (c (Z.shiftr n 6)) ""))
  | [x] =>
      let n := Z_of_byte x * 65536 in
      String (c (Z.shiftr n 18)) (String (c (Z.shiftr n 12)) "")
  | [] => ""
  end.

Section store.
Context {E : Env}.

Definition Load (s : Store) : ST World (option config) :=
  r ← try (ReadFile (path s ConfigFile));
  match r with
  | inr (ErrNotExist _) => mret (Some ∅)
  | inr e => lift (Err (Wrapf "config: read %s: " e))
  | inl data => wrap "config: parse %s: " (lift (unmarshal_map data))
  end.

Definition Save (s : Store) (cfg : option config) : ST World unit :=
  let dir := path s ConfigDir in
  _ ← wrap "config: mkdir %s: " (MkdirAll dir 493);
  let data := marshal_indent (match cfg with Some m => JObj m | None => JNull end) in
  let data := data +:+ nl in
  let path := path s ConfigFile in
  _ ← wrap "config: write %s: " (WriteFile path data 384);
  wrap "config: chmod %s: " (Chmod path 384).

(** Assigning to an entry of a nil map panics. *)
Definition merge (kv : config) (cfg : option config) : outcome (option config) :=
  match cfg with
  | Some m => Ok (Some (kv ∪ m))
  | None => if decide (kv = ∅) then Ok None else Panic
  end.

Definition Update (s : Store) (kv : config) : ST World unit :=
  cfg ← Load s;
  cfg ← lift (merge kv cfg);
  Save s cfg.

Definition MarkDone (s : Store) (name : string) : ST World unit :=
  let dir := path s StateDir in
  _ ← wrap "config: mkdir %s: " (MkdirAll dir 493);
  wrap "config: mark %s done: " (TouchFile (markerPath s name) 420).

Definition IsDone (s : Store) (name : string) : ST World bool :=
  r ← try (Stat (markerPath s name));
  mret (match r with inl _ => true | inr _ => false end).

Definition RequireDone (s : Store) (name : string) : ST World unit :=
  d ← IsDone s name;
  if d : bool then mret tt else lift (Err (Wrapf "%w: %q" ErrNotDone)).

Definition GenSecret (nbytes : Z) : ST World string :=
  let nbytes := if nbytes <=? 0 then 24 else nbytes in
  buf ← wrap "config: generate secret: " (rand_Read (Z.to_nat nbytes));
  mret (b64 buf).
End store.

(** ** Lemmas *)
Lemma unmarshal_map_ok data m : unmarshal_map data = Ok (Some m) -> json_ok (JObj m) = true.
Proof.
  unfold unmarshal_map. destruct (unmarshal data) as [v| | |] eqn:Hu; simpl; try done.
  apply unmarshal_ok in Hu. destruct v; try done. by intros [= <-].
Qed.

Lemma unmarshal_map_print (m : config) :
  json_ok (JObj m) = true -> unmarshal_map (marshal_indent (JObj m) +:+ nl) = Ok (Some m).
Proof.
  intros Hok. unfold unmarshal_map, marshal_indent.
  rewrite (unmarshal_print (Some 0%nat) (JObj m) nl Hok); [done|done|].
  repeat split; by vm_compute.
Qed.

Lemma json_ok_union (m1 m2 : config) :
  json_ok (JObj m1) = true -> json_ok (JObj m2) = true -> json_ok (JObj (m1 ∪ m2)) = true.
Proof.
  intros H1 H2. apply json_ok_obj_2. intros k v.
  intros [Hk|[_ Hk]]%lookup_union_Some_raw; [exact (json_ok_obj m1 k v H1 Hk)|exact (json_ok_obj m2 k v H2 Hk)].
Qed.

(** What a stage that is (not) done does to the one that needs it; a marker that
    cannot be looked at counts as missing. *)
Lemma RequireDone_cases `{Env} s name w :
  RequireDone s name w =
  (match io_err (EOS "stat" [markerPath s name] :: log w) with
   | None => if exists_at (fs w) (markerPath s name) then Ok tt else Err (Wrapf "%w: %q" ErrNotDone)
   | Some _ => Err (Wrapf "%w: %q" ErrNotDone)
   end, add_log (EOS "stat" [markerPath s name]) w).
Proof.
  unfold RequireDone, IsDone, mbind, ST_bind, try, Stat. rewrite io_cases, stat_exists.
  destruct (io_err _); [done|]. by destruct (exists_at _ _), w.
Qed.
Lemma RequireDone_Ok `{Env} s name w w' : RequireDone s name w = (Ok tt, w') -> exists_at (fs w) (markerPath s name) = true.
Proof. rewrite RequireDone_cases. destruct (io_err _); [done|]. by destruct (exists_at _ _). Qed.

(** Reading the configuration and the markers makes no request and changes no
    file. *)
Section reading.
Context {E : Env}.

Lemma Load_log s w :
  fs (Load s w).2 = fs w /\ requests (log (Load s w).2) = requests (log w).
Proof.
  unfold Load, mbind, ST_bind, try, ReadFile. rewrite io_cases. destruct (io_err _) as [[]|]; try done.
  unfold read_file. destruct (fs w !! follow (fs w) (path s ConfigFile)) as [[]|];
    try destruct (is_dir (fs w) (follow (fs w) (path s ConfigFile))); try done.
  all: cbn [fst snd]; unfold wrap, lift; by destruct (unmarshal_map content).
Qed.

Lemma RequireDone_log s name w :
  fs (RequireDone s name w).2 = fs w /\ requests (log (RequireDone s name w).2) = requests (log w).
Proof. by rewrite RequireDone_cases. Qed.
End reading.

Section store_lemmas.
Context {E : Env} {Hnf : NoFaults}.

(** What [Save] leaves in the file. *)
Lemma Save_file s cfg w w' :
  Save s cfg w = (Ok tt, w') ->
  exists u g, fs w' !! follow (fs w') (path s ConfigFile)
    = Some (NFile (marshal_indent (match cfg with Some m => JObj m | None => JNull end) +:+ nl) 384 u g).
Proof.
  unfold Save. intros ([] & w1 & _ & H)%bind_Ok_inv_st.
  apply bind_Ok_inv_st in H as ([] & w2 & Hw & Hc).
  apply wrap_Ok_inv, io_Ok_inv in Hw as (f2 & Hw & ->).
  apply wrap_Ok_inv, io_Ok_inv in Hc as (f3 & Hc & ->). simpl in *.
  apply write_with_ok in Hw as (c & pm & u & g & -> & Hl & Hd & Hf).
  assert (c = marshal_indent (match cfg with Some m => JObj m | None => JNull end) +:+ nl) as ->
    by (destruct (fs w1 !! _) as [[]|]; destruct_and?; by subst).
  set (q := follow (fs w1) (path s ConfigFile)) in *.
  unfold change in Hc. rewrite follow_insert in Hc by done. fold q in Hc.
  rewrite lookup_insert_eq in Hc. injection Hc as <-.
  assert (Hq : forall n, not_link (Some n) ->
    follow (<[q := n]> (<[q := NFile (marshal_indent (match cfg with Some m => JObj m | None => JNull end) +:+ nl) pm u g]> (fs w1)))
    (path s ConfigFile) = q).
  { intros n Hn. rewrite !follow_insert; [done|done|done|by rewrite lookup_insert_eq|done]. }
  rewrite Hq by done. rewrite lookup_insert_eq. eauto.
Qed.

Lemma Load_file s w m c pm u g :
  fs w !! follow (fs w) (path s ConfigFile) = Some (NFile c pm u g) ->
  unmarshal_map c = Ok m -> (Load s w).1 = Ok m.
Proof.
  intros Hf Hm. unfold Load, mbind, ST_bind, try, ReadFile. rewrite io_ok.
  unfold read_file. rewrite Hf. cbn. by rewrite Hm.
Qed.

Lemma Save_Load s m w w' :
  json_ok (JObj m) = true -> Save s (Some m) w = (Ok tt, w') -> (Load s w').1 = Ok (Some m).
Proof.
  intros Hok Hs. apply Save_file in Hs as (u & g & Hf).
  by eapply Load_file, unmarshal_map_print.
Qed.

Lemma Load_json_ok s w m w' : Load s w = (Ok (Some m), w') -> json_ok (JObj m) = true.
Proof.
  unfold Load. intros (r & w1 & Hr & H)%bind_Ok_inv_st.
  destruct r as [data|[]]; try done.
  - unfold wrap, lift in H. destruct (unmarshal_map data) as [m'| | |] eqn:Hu; try done.
    simpl in H. injection H as -> <-. by eapply unmarshal_map_ok.
  - by injection H as <- <-.
Qed.

Lemma IsDone_exists s name w :
  (IsDone s name w).1 = Ok (exists_at (fs w) (markerPath s name)).
Proof.
  unfold IsDone, mbind, ST_bind, try, Stat. rewrite io_ok, stat_exists. simpl.
  by destruct (exists_at _ _).
Qed.

(** A marker keeps every marker that was there, and adds its own. *)
Lemma MarkDone_exists s name w w' p :
  MarkDone s name w = (Ok tt, w') ->
  exists_at (fs w') (markerPath s name) = true /\
  (exists_at (fs w) p = true -> exists_at (fs w') p = true).
Proof.
  unfold MarkDone. intros ([] & w1 & Hm & Ht)%bind_Ok_inv_st.
  apply wrap_Ok_inv, io_Ok_inv in Hm as (f1 & Hm & ->).
  apply wrap_Ok_inv, io_Ok_inv in Ht as (f2 & Ht & ->). simpl in *. split.
  - apply write_with_ok in Ht as (c & pm & u & g & -> & Hl & Hd & _).
    unfold exists_at. rewrite follow_insert, lookup_insert_eq by done. by rewrite orb_true_r.
  - intros Hp. pose proof (exists_at_mkdirs (path_prefixes (clean (path s StateDir))) 493 (fs w) p Hp) as H1.
    unfold mkdir_all in Hm. rewrite Hm in H1. simpl in H1.
    pose proof (exists_at_write (fun c => c) (markerPath s name) 420 f1 p H1) as H2.
    by rewrite Ht in H2.
Qed.
End store_lemmas.

(** *** The store's operations end; [Update] panics on a null configuration only. *)
Lemma fine_unmarshal_map data : fine (unmarshal_map data).
Proof. unfold unmarshal_map. apply fine_bind; [apply fine_unmarshal|]. by intros []. Qed.
#[export] Hint Resolve fine_unmarshal_map : fine.

Section ends.
Context {E : Env}.

Lemma ends_Load s : ends (Load s).
Proof.
  unfold Load. apply ends_bind; [auto with ends|]. intros [data|[]]; auto with ends.
  apply ends_wrap, ends_lift, fine_unmarshal_map.
Qed.
Lemma ends_Save s cfg : ends (Save s cfg).
Proof. unfold Save. auto 8 with ends. Qed.
Lemma ends_MarkDone s name : ends (MarkDone s name).
Proof. unfold MarkDone. auto 8 with ends. Qed.
Lemma ends_IsDone s name : ends (IsDone s name).
Proof. unfold IsDone. auto 8 with ends. Qed.
Lemma ends_RequireDone s name : ends (RequireDone s name).
Proof. unfold RequireDone. apply ends_bind; [apply ends_IsDone|]. intros []; auto with ends. Qed.
Lemma ends_GenSecret n : ends (GenSecret n).
Proof. unfold GenSecret. auto 8 with ends. Qed.

(** The configuration file holds null. *)
Definition null_config (s : Store) (w : World) : Prop :=
  exists text, (read_file (path s ConfigFile) (fs w)).1 = Ok text /\ unmarshal_map text = Ok None.

Lemma Load_null s w w' : Load s w = (Ok None, w') -> null_config s w'.
Proof.
  unfold Load, mbind, ST_bind, try, ReadFile, io, io_with. set (w0 := add_log _ w).
  destruct (io_err (log w0)) as [e|]; [by destruct e|].
  destruct (read_file (path s ConfigFile) (fs w0)) as [r f] eqn:Hr.
  assert (Hf : f = fs w0) by (unfold read_file in Hr; by injection Hr as _ <-). subst f.
  destruct r as [text|e| |]; try done; [|by destruct e].
  unfold wrap, lift. destruct (unmarshal_map text) as [[]| | |] eqn:Hu; try done.
  intros [= <-]. exists text. split; [|done]. cbn [fs set_fs]. by apply (f_equal fst) in Hr.
Qed.

Lemma Update_may_panic s kv : may_panic (null_config s) (Update s kv).
Proof.
  intros w. unfold Update, mbind, ST_bind. pose proof (ends_Load s w) as Hl.
  destruct (Load s w) as [[cfg|e| |] w1] eqn:Heq; try done.
  pose proof (fun c => ends_may_panic (null_config s) _ (ends_Save s c) w1) as Hsave.
  unfold lift, merge. destruct cfg as [m|]; [apply Hsave|]. case_decide; [apply Hsave|].
  by eapply Load_null.
Qed.
End ends.

Lemma Save_console `{Env} s cfg w r w' : Save s cfg w = (r, w') -> console w' = console w.
Proof.
  unfold Save, MkdirAll, WriteFile, Chmod, io_write, io.
  assert (Hio : forall A part ev (k : ST FS A) fmt v r' v', wrap fmt (io_with part ev k) v = (r', v') -> console v' = console v).
  { intros A part ev k fmt v r' v'. unfold wrap, io_with. destruct (io_err _); [by intros [= _ <-]|].
    destruct (k _). by intros [= _ <-]. }
  unfold mbind, ST_bind. destruct (wrap _ (io_with _ _ _) w) as [[[]|e| |] w1] eqn:H1; apply Hio in H1;
    [|by intros [= _ <-]..].
  destruct (wrap _ (io_with _ _ _) w1) as [[[]|e| |] w2] eqn:H2; apply Hio in H2; [|intros [= _ <-]; congruence..].
  intros H3. apply Hio in H3. congruence.
Qed.

(** *** Faults in the middle of an update

    [stored s f]: the configuration that the files hold. *)
Definition stored (s : Store) (f : FS) : outcome (option config) :=
  match (read_file (path s ConfigFile) f).1 with
  | Ok text => unmarshal_map text
  | Err (ErrNotExist _) => Ok (Some ∅)
  | Err e => Err e
  | Panic => Panic
  | OutOfFuel => OutOfFuel
  end.

(** The text that [Save] writes for an object. *)
Definition config_text (m : config) : string := marshal_indent (JObj m) +:+ nl.

(** A fault is not the absence of a file. *)
Class FaultsOk {E : Env} : Prop := faults_ok : forall l p, io_err l <> Some (ErrNotExist p).

#[export] Instance no_faults_ok `{NoFaults} : FaultsOk.
Proof. intros l p. by rewrite no_faults. Qed.

Lemma substring_cut n s : exists t, String.substring 0 n s +:+ t = s.
Proof.
  revert n. induction s as [|c s IH]; intros [|n]; [by exists ""|by exists ""|by exists (String c s)|].
  destruct (IH n) as [t Ht]. exists t. simpl. by rewrite Ht.
Qed.

Lemma substring_all s : String.substring 0 (slen s) s = s.
Proof. induction s as [|c s IH]; [done|]. simpl. by rewrite IH. Qed.

(** A part of the text of a configuration is read as this configuration or not
    at all. *)
Lemma unmarshal_map_cut m n : json_ok (JObj m) = true ->
  unmarshal_map (String.substring 0 n (config_text m)) = Ok (Some m) \/
  exists e, unmarshal_map (String.substring 0 n (config_text m)) = Err e.
Proof.
  intros Hok. destruct (substring_cut n (config_text m)) as [t Ht].
  destruct (unmarshal_cut (Some 0%nat) m nl _ t Hok ltac:(by repeat split) Ht) as [Hu|[e Hu]];
    unfold unmarshal_map; rewrite Hu; eauto.
Qed.

Section faults.
Context {E : Env}.

(** What the files hold is one of these configurations, or cannot be read. *)
Definition one_of (s : Store) (ms : list config) (f : FS) : Prop :=
  (exists m, m ∈ ms /\ stored s f = Ok (Some m)) \/ exists e, stored s f = Err e.

Lemma Load_stored `{!FaultsOk} s w r w' : Load s w = (r, w') ->
  fs w' = fs w /\ console w' = console w /\ ((exists e, r = Err e) \/ r = stored s (fs w)).
Proof. unfold Load, mbind, ST_bind, try, ReadFile. rewrite io_cases. unfold stored.
  destruct (io_err _) as [e|] eqn:He.
  { destruct e; try (intros [= <- <-]; eauto; fail). by apply faults_ok in He. }
  assert (Hf : (read_file (path s ConfigFile) (fs w)).2 = fs w) by done.
  destruct (read_file _ _) as [[text|[]| |] f]; cbn [fst snd] in *; subst f;
    try (intros [= <- <-]; eauto; fail).
  unfold wrap, lift. destruct (unmarshal_map text); intros [= <- <-]; eauto.
Qed.

Lemma stored_file s f c pm u g :
  f !! follow f (path s ConfigFile) = Some (NFile c pm u g) -> stored s f = unmarshal_map c.
Proof. intros Hf. unfold stored, read_file. by rewrite Hf. Qed.

Lemma Save_stored s m w w' :
  json_ok (JObj m) = true -> Save s (Some m) w = (Ok tt, w') -> stored s (fs w') = Ok (Some m).
Proof.
  intros Hok Hs. apply Save_file in Hs as (u & g & Hs). rewrite (stored_file _ _ _ _ _ _ Hs).
  by apply unmarshal_map_print.
Qed.
Lemma stored_at s f g :
  follow g (path s ConfigFile) = follow f (path s ConfigFile) ->
  g !! follow f (path s ConfigFile) = f !! follow f (path s ConfigFile) -> stored s g = stored s f.
Proof. intros Hfo Hl. unfold stored, read_file, is_dir. by rewrite Hfo, Hl. Qed.

Lemma stored_json_ok s f m : stored s f = Ok (Some m) -> json_ok (JObj m) = true.
Proof.
  unfold stored. destruct (read_file _ _).1 as [text|[]| |]; try done; [apply unmarshal_map_ok|]. by intros [= <-].
Qed.

(** Directories that are made do not change what is stored, unless one takes the
    place of the file. *)
Lemma one_of_mkdirs s ms ps perm f : one_of s ms f -> one_of s ms (mkdirs ps perm f).2.
Proof.
  revert f. induction ps as [|p ps IH]; intros f Hf; [done|]. cbn [mkdirs].
  destruct (is_dir f (follow f p)) eqn:Hd; [by apply IH|].
  destruct (f !! follow f p) as [n|] eqn:Hp; [done|]. apply IH.
  set (g := <[follow f p := NDir perm 0 0]> f).
  assert (Hfo : follow g (path s ConfigFile) = follow f (path s ConfigFile))
    by (unfold g; by rewrite follow_insert; [|rewrite Hp|]).
  destruct (decide (follow f p = follow f (path s ConfigFile))) as [He|Hne].
  - right. exists (ErrOS "read" (path s ConfigFile)). unfold stored, read_file.
    unfold g in *. by rewrite Hfo, He, lookup_insert_eq.
  - unfold one_of. rewrite (stored_at s f g Hfo); [done|]. unfold g. by rewrite lookup_insert_ne.
Qed.

Lemma one_of_chmod s ms perm f : one_of s ms f -> one_of s ms (change "chmod" (set_perm perm) (path s ConfigFile) f).2.
Proof.
  unfold change. destruct (f !! follow f (path s ConfigFile)) as [n|] eqn:Hn; [|by case_match]. cbn [snd].
  destruct n as [pm u g|c pm u g|t]; cbn [set_perm].
  - intros _. right. exists (ErrOS "read" (path s ConfigFile)). unfold stored, read_file.
    rewrite follow_insert by (by rewrite ?Hn). by rewrite lookup_insert_eq.
  - unfold one_of. rewrite (stored_file s f _ _ _ _ Hn).
    assert (Hf : (<[follow f (path s ConfigFile) := NFile c perm u g]> f) !!
      follow (<[follow f (path s ConfigFile) := NFile c perm u g]> f) (path s ConfigFile) = Some (NFile c perm u g)).
    { rewrite follow_insert by (by rewrite ?Hn). by rewrite lookup_insert_eq. }
    by rewrite (stored_file s _ _ _ _ _ Hf).
  - by rewrite insert_id.
Qed.

(** Writing a part of the text of [m] *)
Lemma one_of_write s ms m n perm f :
  json_ok (JObj m) = true -> m ∈ ms -> one_of s ms f ->
  one_of s ms (write_with (fun _ => String.substring 0 n (config_text m)) (path s ConfigFile) perm f).2.
Proof.
  intros Hok Hm Hf. destruct (write_with _ _ _ _) as [[[]|e| |] f'] eqn:Hw.
  - apply write_with_ok in Hw as (c & pm & u & g & -> & Hl & _ & Hc).
    assert (c = String.substring 0 n (config_text m)) as ->
      by (destruct (f !! _) as [[]|]; destruct_and?; by subst).
    unfold one_of. cbn [snd]. erewrite stored_file by (rewrite follow_insert by done; apply lookup_insert_eq).
    destruct (unmarshal_map_cut m n Hok) as [Hu|[e Hu]]; rewrite Hu; eauto.
  - unfold write_with in Hw. repeat case_match; by simplify_eq.
  - unfold write_with in Hw. by repeat case_match.
  - unfold write_with in Hw. by repeat case_match.
Qed.

(** However [Save] ends, the configuration is one of those. *)
Lemma Save_one_of s ms m : json_ok (JObj m) = true -> m ∈ ms -> preserves (one_of s ms) (Save s (Some m)).
Proof.
  intros Hok Hm. unfold Save. apply preserves_bind.
  { apply preserves_wrap, preserves_io_with; intros; by apply one_of_mkdirs. }
  intros _. apply preserves_bind.
  - apply preserves_wrap, preserves_io_with; intros; [|by apply one_of_write].
    rewrite <- (substring_all (_ +:+ nl)). by apply one_of_write.
  - intros _. apply preserves_wrap, preserves_io. intros f. apply one_of_chmod.
Qed.
End faults.

(** *** The store's operations succeed

    Its directory can be made and its file opened for writing. *)
Definition writable (s : Store) (f : FS) : bool :=
  match mkdir_all (path s ConfigDir) 493 f with (Ok _, f') => creatable (path s ConfigFile) f' | _ => false end.

Section succeed.
Context {E : Env} `{!NoFaults}.

Lemma RequireDone_returns s name w : exists_at (fs w) (markerPath s name) = true ->
  returns (RequireDone s name) (fun _ w' => fs w' = fs w /\ console w' = console w) w.
Proof. intros He. unfold returns. by rewrite RequireDone_cases, no_faults, He. Qed.

Lemma Load_returns s c w : stored s (fs w) = Ok c ->
  returns (Load s) (fun c' w' => c' = c /\ fs w' = fs w /\ console w' = console w) w.
Proof.
  unfold stored, Load, returns, mbind, ST_bind, try, ReadFile. rewrite io_ok.
  assert (Hf : (read_file (path s ConfigFile) (fs w)).2 = fs w) by done.
  destruct (read_file _ _) as [[text|[]| |] f]; cbn [fst snd] in *; subst f; try done.
  - unfold wrap, lift. by intros ->.
  - by intros [= <-].
Qed.

Lemma Save_returns s m w : json_ok (JObj m) = true -> writable s (fs w) = true ->
  returns (Save s (Some m)) (fun _ w' => stored s (fs w') = Ok (Some m) /\ console w' = console w) w.
Proof.
  intros Hok Hw. unfold writable in Hw. destruct (mkdir_all _ _ _) as [[[]|e| |] f1] eqn:Hm; try done. rename Hw into Hc.
  eapply (returns_mono _ (fun _ w' => console w' = console w /\ _)); [|intros a w' [Hc' HQ]; split; [exact HQ|exact Hc']].
  apply returns_and; [|by intros [] w' Hs; eapply Save_stored].
  unfold Save. apply returns_bind, returns_wrap, returns_io. unfold returns. rewrite Hm.
  apply returns_bind, returns_wrap, returns_io. cbn [fs console log].
  match goal with |- returns (write_with ?u ?p ?pm) _ _ =>
    destruct (proj1 (write_with_creatable u p pm f1) Hc) as [f2 Hw] end.
  unfold returns. rewrite Hw. apply returns_wrap, returns_io. cbn [fs console log].
  apply write_with_ok in Hw as (c & pm & u & g & -> & Hl & _ & _). unfold returns, change.
  rewrite follow_insert by done. by rewrite lookup_insert_eq.
Qed.

Lemma Update_returns s kv m w : json_ok (JObj kv) = true -> stored s (fs w) = Ok (Some m) -> writable s (fs w) = true ->
  returns (Update s kv) (fun _ w' => stored s (fs w') = Ok (Some (kv ∪ m)) /\ console w' = console w) w.
Proof.
  intros Hkv Hm Hw. unfold Update. apply returns_bind. eapply returns_mono; [by apply Load_returns|].
  intros c w1 (-> & Hf & Hc). apply returns_bind, returns_lift with (a := Some (kv ∪ m)); [done|].
  rewrite <- Hc. apply Save_returns; [|by rewrite Hf]. apply json_ok_union; [done|by eapply stored_json_ok].
Qed.
End succeed.

(** The store only works on files, and only [MarkDone] touches one. *)
Section quiet.
Context {E : Env} (P : event -> Prop) (HP : forall op args, op <> "touch" -> P (EOS op args)).
#[local] Hint Extern 0 (P (EOS _ _)) => apply HP; discriminate : quiet.

Lemma quiet_Load s : quiet P (Load s).
Proof using HP. unfold Load. apply quiet_bind; [auto with quiet|]. intros [data|[]]; auto with quiet. Qed.
Lemma quiet_Save s cfg : quiet P (Save s cfg).
Proof using HP. unfold Save. auto 8 with quiet. Qed.
Lemma quiet_Update s kv : quiet P (Update s kv).
Proof using HP. unfold Update. auto using quiet_Load, quiet_Save with quiet. Qed.
Lemma quiet_GenSecret n : quiet P (GenSecret n).
Proof using HP. unfold GenSecret. auto 8 with quiet. Qed.
Lemma quiet_IsDone s name : quiet P (IsDone s name).
Proof using HP. unfold IsDone. auto 8 with quiet. Qed.
Lemma quiet_RequireDone s name : quiet P (RequireDone s name).
Proof using HP. unfold RequireDone. apply quiet_bind; [apply quiet_IsDone|]. intros []; auto with quiet. Qed.
End quiet.

#[export] Hint Resolve ends_Load ends_Save ends_MarkDone ends_IsDone ends_RequireDone ends_GenSecret : ends.

(** * Properties *)


(** [Update] is a read-modify-write: after a successful update the
    configuration is the one loaded before with the given keys replaced and every
    other key unchanged. *)
Theorem Update_merges `{NoFaults} s kv w w' :
  json_ok (JObj kv) = true -> kv <> ∅ -> Update s kv w = (Ok tt, w') ->
  exists m, (Load s w).1 = Ok (Some m) /\ (Load s w').1 = Ok (Some (kv ∪ m)).
Proof.
  intros Hkv Hne. unfold Update. intros (cfg & w1 & Hl & Hu)%bind_Ok_inv_st.
  destruct cfg as [m|]; unfold merge in Hu.
  - exists m. split; [by rewrite Hl|]. apply (Save_Load s (kv ∪ m) w1); [|exact Hu].
    apply json_ok_union; [done|by eapply Load_json_ok].
  - rewrite decide_False in Hu by done. done.
Qed.

(** C14: an update that is interrupted is never mistaken for another
    configuration.  Whatever the operating system makes fail, and wherever it
    leaves [config.json] when a write fails in the middle, [Update] ends; when it
    succeeds the file holds the merged configuration, and otherwise whoever loads
    the file afterwards gets the configuration from before, the merged one, or an
    error: never a part of it.  Without faults it succeeds, when its directory can
    be made and the file opened for writing. *)
Theorem Update_never_torn `{FaultsOk} s kv m w r w' :
  json_ok (JObj kv) = true -> stored s (fs w) = Ok (Some m) -> Update s kv w = (r, w') ->
  fine r /\
  (NoFaults -> writable s (fs w) = true -> r = Ok tt) /\
  (r = Ok tt -> stored s (fs w') = Ok (Some (kv ∪ m))) /\
  (forall v c v', fs v = fs w' -> Load s v = (Ok c, v') -> c = Some m \/ c = Some (kv ∪ m)).
Proof.
  intros Hkv Hm Hu.
  enough (fine r /\ (r = Ok tt -> stored s (fs w') = Ok (Some (kv ∪ m))) /\ one_of s [m; kv ∪ m] (fs w'))
    as (Hfine & Hok & Hone).
  { split_and!; [done| |done|].
    { intros Hnf Hw. pose proof (Update_returns s kv m w Hkv Hm Hw) as Hr. unfold returns in Hr.
      rewrite Hu in Hr. by destruct r as [[]| | |]. }
    intros v c v' Hv Hl. apply Load_stored in Hl as (_ & _ & [[e He]|Hl]); [done|].
    rewrite Hv in Hl. destruct Hone as [(n & Hn & Hs)|[e Hs]]; rewrite Hs in Hl; [|done].
    injection Hl as ->. rewrite !elem_of_cons, elem_of_nil in Hn. naive_solver. }
  assert (Hone : one_of s [m; kv ∪ m] (fs w)) by (left; exists m; split; [by left|done]).
  assert (Hu' : json_ok (JObj (kv ∪ m)) = true) by (apply json_ok_union; [done|by eapply stored_json_ok]).
  revert Hu. unfold Update, mbind, ST_bind. destruct (Load s w) as [rl w1] eqn:Hl.
  apply Load_stored in Hl as (Hf & _ & [[e ->]| ->]); [intros [= <- <-]; by rewrite Hf|].
  rewrite Hm. cbn [merge lift]. intros Hs. split_and!.
  - pose proof (ends_Save s (Some (kv ∪ m)) w1) as He. unfold merge, lift in Hs. by rewrite Hs in He.
  - intros ->. by eapply Save_stored.
  - pose proof (Save_one_of s [m; kv ∪ m] (kv ∪ m) Hu' ltac:(right; left) w1) as Hp.
    rewrite Hs, Hf in Hp. by apply Hp.
Qed.

(** Stage markers: after [MarkDone name] succeeds, [RequireDone name]
    succeeds, and no stage that was done is undone; [RequireDone] of a stage
    whose marker is missing fails with ErrNotDone, which the command line turns
    into a clean exit. *)
Theorem MarkDone_RequireDone `{NoFaults} s name other w w' :
  MarkDone s name w = (Ok tt, w') ->
  (RequireDone s name w').1 = Ok tt /\
  ((RequireDone s other w).1 = Ok tt -> (RequireDone s other w').1 = Ok tt) /\
  (forall v, match (RequireDone s other v).1 with
             | Ok _ => exists_at (fs v) (markerPath s other) = true
             | Err e => is_not_done e = true /\ exists_at (fs v) (markerPath s other) = false
             | _ => False
             end).
Proof.
  intros Hm.
  assert (Hreq : forall n v, (RequireDone s n v).1
    = if exists_at (fs v) (markerPath s n) then Ok tt else Err (Wrapf "%w: %q" ErrNotDone)).
  { intros n v. unfold RequireDone, mbind, ST_bind. pose proof (IsDone_exists s n v) as Hd.
    destruct (IsDone s n v) as [r v']. simpl in Hd. subst r. by destruct (exists_at _ _). }
  split_and!.
  - rewrite Hreq. by rewrite (proj1 (MarkDone_exists s name w w' "" Hm)).
  - rewrite !Hreq. destruct (exists_at (fs w) (markerPath s other)) eqn:He; [|done].
    by rewrite (proj2 (MarkDone_exists s name w w' _ Hm)).
  - intros v. rewrite Hreq. by destruct (exists_at _ _).
Qed.

(** * Witnesses *)
#[local] Instance calm : Env :=
  simple_env (fun _ f _ => (NotStarted, f)) (fun _ => HttpError) (fun _ => false).

Definition sample_config : config :=
  {["domain" := JStr "example.org"; "network" := JObj {["mode" := JStr "dhcp"]}; "n" := JNum "1.5e3"]}.
Definition target_store : Store := MkStore "/mnt/target".
Definition blank : World := MkWorld ∅ "" [].


Lemma Update_merges_witness :
  let w' := (Update target_store sample_config blank).2 in
  exists m, (Load target_store blank).1 = Ok (Some m) /\
    (Load target_store w').1 = Ok (Some (sample_config ∪ m)).
Proof.
  intros w'.
  assert (Hok : json_ok (JObj sample_config) = true) by (vm_compute; reflexivity).
  assert (Hne : sample_config <> ∅) by (intros H; vm_compute in H; discriminate H).
  assert (Hs : Update target_store sample_config blank = (Ok tt, w')) by (vm_compute; reflexivity).
  exact (Update_merges target_store sample_config blank w' Hok Hne Hs).
Defined.

Lemma MarkDone_RequireDone_witness :
  let w' := (MarkDone target_store "stage1" blank).2 in
  (RequireDone target_store "stage1" w').1 = Ok tt.
Proof.
  intros w'.
  assert (Hs : MarkDone target_store "stage1" blank = (Ok tt, w')) by (vm_compute; reflexivity).
  exact (proj1 (MarkDone_RequireDone target_store "stage1" "stage0" blank w' Hs)).
Defined.

(** A disk that fills up: a write stops after five bytes. *)
Definition full_disk : Env := {|
  io_err := fun l => match l with EOS op (p :: _) :: _ => if String.eqb op "write" then Some (ErrOS "write" p) else None | _ => None end;
  io_part := fun _ => Some 5%nat;
  exec := fun _ f _ => (NotStarted, f); http := fun _ => HttpError; net_ok := fun _ => false; bus := fun _ => None;
  my_uid := 0; rand_bytes := fun _ _ => []; temp_name := fun _ p => p; range_files := fun _ m => map_to_list m;
  now := slept; statfs := fun _ _ => None;
  |}.
#[local] Instance full_disk_ok : FaultsOk (E := full_disk).
Proof. intros [|[op [|p args]| | | |] l] q; try done. cbn. by destruct (String.eqb op "write"). Qed.

(** A configuration in place, under the root of the target *)
Definition kept_config : config := {["domain" := JStr "example.org"; "secret" := JStr "s3cret"]}.
Definition configured : World := (@Save calm target_store (Some kept_config) blank).2.

Lemma Update_never_torn_witness :
  let w' := (@Update full_disk target_store sample_config configured).2 in
  (exists e, stored target_store (fs w') = Err e) /\ (@Update calm target_store sample_config configured).1 = Ok tt /\
  (forall v c v', fs v = fs w' -> @Load full_disk target_store v = (Ok c, v') ->
    c = Some kept_config \/ c = Some (sample_config ∪ kept_config)).
Proof.
  intros w'.
  assert (Hok : json_ok (JObj sample_config) = true) by (vm_compute; reflexivity).
  assert (Hm : stored target_store (fs configured) = Ok (Some kept_config)) by (vm_compute; reflexivity).
  split; [eexists; vm_compute; reflexivity|].
  split.
  - assert (Hw : writable target_store (fs configured) = true) by (vm_compute; reflexivity).
    destruct (@Update_never_torn calm _ target_store sample_config kept_config configured _ _ Hok Hm
      (surjective_pairing (@Update calm target_store sample_config configured))) as (_ & Hr & _).
    exact (Hr _ Hw).
  - exact (proj2 (proj2 (proj2 (@Update_never_torn full_disk full_disk_ok target_store sample_config kept_config configured _ w'
      Hok Hm (surjective_pairing _))))).
Defined.

(** The configuration is written in place: a write that fails in the middle loses
    the previous one, secrets included, and every later step fails to load it. *)
Example interrupted_update_loses_config :
  let w' := (@Update full_disk target_store sample_config configured).2 in
  stored target_store (fs configured) = Ok (Some kept_config) /\
  exists e, (@Load calm target_store w').1 = Err e.
Proof. split; [|eexists]; vm_compute; reflexivity. Qed.
