(* ===== verification/Disks.v ===== *)
(** Disks (internal/disks/disks.go and deploy.go): choosing the root and bulk
    disks, partitioning and mounting them, and deploying the appliance onto
    them. *)
From S2P Require Import Prelude Bytes GoStrings World Runx Json Config.

Definition espSize : string := "512M".
Definition usrSlotSize : string := "3G".
Definition rootSize : string := "1G".

(** ** lsblk output *)
Record blockDevice := BD {
  Name : string;
  Path : string;
  Size : string;     (** json.Number: the literal *)
  Type_ : string;
  Rota : bool;
  RO : bool;
  PKName : string;
}.

(** [lsblkBool.UnmarshalJSON] on a JSON value *)
Definition lsblkBool (v : json) : bool :=
  match v with
  | JStr s | JNum s => String.eqb s "1" || String.eqb s "true"
  | JBool b => b
  | _ => false
  end.

(** A field of type lsblkBool *)
Definition lsblk_field (m : config) (k : string) : bool :=
  match m !! k with None => false | Some v => lsblkBool v end.

Definition parse_device : json -> outcome blockDevice := struct_of (fun m =>
  name ← string_field m "name";
  path ← string_field m "path";
  size ← number_field m "size";
  type ← string_field m "type";
  pkname ← string_field m "pkname";
  Ok (BD name path size type (lsblk_field m "rota") (lsblk_field m "ro") pkname)).

(** The [blockdevices] array of a document, each element read by [f]. *)
Definition parse_blockdevices {A} (f : json -> outcome A) (data : string) : outcome (list A) :=
  v ← unmarshal data;
  struct_of (fun m => list_field f m "blockdevices") v.

Definition sizeOf (d : blockDevice) : Z := parse_int64 (Size d).

(** [int(f)] of the [float64] that a JSON number decodes to, as the exact
    number truncated. *)
Definition num_int (lit : string) : Z :=
  let '(neg, s) := match lit with
    | String c r => if Ascii.eqb c "-" then (true, r) else (false, lit)
    | EmptyString => (false, lit)
    end in
  let '(i, s) := span_digits s in
  let '(f, s) := match s with
    | String c r => if Ascii.eqb c "." then span_digits r else ("", s)
    | EmptyString => ("", s)
    end in
  let e := match s with String _ r => parse_int64 r | EmptyString => 0 end in
  let m := default 0 (digits 0 (i +:+ f)) in
  let e := e - Z.of_nat (slen f) in
  let n := if 0 <=? e then m * 10 ^ e else m / 10 ^ (- e) in
  if neg : bool then - n else n.

(** ** Sorting

    [sort.Slice] sorts in place, in an order that is only specified up to
    elements that compare equal. *)
Class SortSlice := sort_slice : (blockDevice -> blockDevice -> bool) -> list blockDevice -> list blockDevice.
Class SortSliceOk {S : SortSlice} : Prop :=
  sort_slice_ok : forall less l,
    (forall a b, less a b = true -> less b a = false) ->
    (forall a b c, less a b = false -> less b c = false -> less a c = false) ->
    sort_slice less l ≡ₚ l /\ StronglySorted (fun a b => less b a = false) (sort_slice less l).

(** Insertion sort is such a function. *)
Fixpoint insert_by (less : blockDevice -> blockDevice -> bool) (a : blockDevice) (l : list blockDevice)
    : list blockDevice :=
  match l with
  | [] => [a]
  | b :: l' => if less b a then b :: insert_by less a l' else a :: l
  end.
#[export] Instance insertion_sort : SortSlice := fun less l => foldr (insert_by less) [] l.

Definition bootDiskLabel : string := "SLFHST_INSTALL".

Section select.
Context {S : SortSlice}.

Definition is_candidate (excludeName : string) (d : blockDevice) : bool :=
  String.eqb (Type_ d) "disk" && (0 <? sizeOf d) && negb (RO d) &&
  (String.eqb excludeName "" || negb (String.eqb (Name d) excludeName)).

(** When no candidate is non-rotational, [pool] and [candidates] are the same
    slice, so sorting the pool reorders the candidates. *)
Definition selectDisksFrom (all : list blockDevice) (excludeName : string) : outcome (string * string) :=
  let candidates := List.filter (is_candidate excludeName) all in
  if decide (length candidates < 2)%nat then
    Err (Errorf "disks: need at least 2 disks (root + bulk), found %d")
  else
    let nonRotational := List.filter (fun d => negb (Rota d)) candidates in
    let less a b := sizeOf a <? sizeOf b in
    let '(pool, candidates) :=
      match nonRotational with
      | _ :: _ => (sort_slice less nonRotational, candidates)
      | [] => let sorted := sort_slice less candidates in (sorted, sorted)
      end in
    match pool with
    | [] => Panic
    | r :: _ =>
        let rootDisk := Path r in
        let others := List.filter (fun d => negb (String.eqb (Path d) rootDisk)) candidates in
        let others := sort_slice (fun a b => sizeOf b <? sizeOf a) others in
        match others with
        | [] => Panic
        | b :: _ => Ok (rootDisk, Path b)
        end
    end.

Context {E : Env}.

Definition listBlockDevices (columns : string) : ST World (list blockDevice) :=
  out ← wrap "disks: lsblk: " (RunChecked ["lsblk"; "--list"; "-J"; "-b"; "-o"; columns] no_options);
  wrap "disks: parse lsblk output: " (lift (parse_blockdevices parse_device out)).

(** The loop of [bootDiskName] *)
Fixpoint boot_disk_in (bootName : string) (all : list blockDevice) : outcome string :=
  match all with
  | [] => Err (Errorf "disks: boot device %s (label %s) not found in lsblk output")
  | d :: all =>
      if negb (String.eqb (Name d) bootName) then boot_disk_in bootName all
      else if String.eqb (Type_ d) "disk" then Ok (Name d)
      else Ok (PKName d)
  end.

Definition bootDiskName (all : list blockDevice) : ST World string :=
  out ← wrap "disks: could not identify the installer's own boot device (blkid -L %s): %w -- refusing to select disks without being able to exclude it"
    (RunChecked ["blkid"; "-L"; bootDiskLabel] no_options);
  let bootName := path_base (trim_space out) in
  lift (boot_disk_in bootName all).

Definition SelectDisks : ST World (string * string) :=
  all ← listBlockDevices "NAME,PATH,SIZE,TYPE,ROTA,RO,PKNAME";
  excludeName ← bootDiskName all;
  lift (selectDisksFrom all excludeName).
End select.

(** ** Partitioning and mounting *)

(** An optional line of a unit file *)
Definition opt_line (key value : string) : string :=
  if decide (value = "") then "" else key +:+ value +:+ nl.

Definition repartDefinition (partType min max label format : string) : string :=
  "[Partition]" +:+ nl +:+ "Type=" +:+ partType +:+ nl +:+
  opt_line "SizeMinBytes=" min +:+ opt_line "SizeMaxBytes=" max +:+
  opt_line "Format=" format +:+ opt_line "Label=" label.

Definition repartFiles : gmap string string := list_to_map [
  ("10-esp.conf", repartDefinition "esp" espSize espSize "" "vfat");
  ("20-usr-a.conf", repartDefinition "usr" usrSlotSize usrSlotSize "_empty" "erofs");
  ("21-usr-b.conf", repartDefinition "usr" usrSlotSize usrSlotSize "_empty" "erofs");
  ("30-root.conf", repartDefinition "root" rootSize rootSize "slfhst-root" "ext4");
  ("40-var.conf", repartDefinition "var" "256M" "" "slfhst-var" "ext4")].

Definition fhsLinks : gmap string string :=
  list_to_map [("bin", "usr/bin"); ("sbin", "usr/sbin"); ("lib", "usr/lib"); ("lib64", "usr/lib64")].

Definition dataSubdirs : list string := ["stalwart"; "vaultwarden"; "garage"; "traefik"; "ente"].

(** One entry of a [[]map[string]any] *)
Definition parse_map : json -> outcome config := struct_of (fun m => Ok m).

Definition srv_data_mount (uuid : string) : string :=
  "[Unit]" +:+ nl +:+ "Description=slfhst bulk data" +:+ nl +:+ nl +:+
  "[Mount]" +:+ nl +:+ "What=/dev/disk/by-uuid/" +:+ uuid +:+ nl +:+
  "Where=/srv/data" +:+ nl +:+ "Type=xfs" +:+ nl +:+ nl +:+
  "[Install]" +:+ nl +:+ "WantedBy=local-fs.target" +:+ nl.

Definition usrAPartNum : Z := 2.
Definition espPartNum : Z := 1.

Section deploy.
Context {E : Env}.

Fixpoint write_all (fmt dir : string) (files : list (string * string)) : ST World unit :=
  match files with
  | [] => mret tt
  | (name, content) :: files =>
      _ ← wrap fmt (WriteFile (path_join [dir; name]) content 420);
      write_all fmt dir files
  end.

Definition PartitionRoot (disk : string) : ST World unit :=
  dir ← wrap "disks: create repart definitions dir: " (MkdirTemp "slfhst-repart-");
  deferred (
    w ← st_get;
    _ ← write_all "disks: write %s: " dir (range_files (log w) repartFiles);
    _ ← run_ "disks: systemd-repart %s: "
      ["systemd-repart"; "--definitions=" +:+ dir; "--dry-run=no"; "--empty=force"; disk] captured;
    _ ← run_ "disks: partprobe %s: " ["partprobe"; disk] no_options;
    run_ "disks: udevadm settle: " ["udevadm"; "settle"] no_options)
    (RemoveAll dir).

(** The loop of [findPartitionByLabel] *)
Definition labelled (diskName label : string) (d : config) : bool :=
  String.eqb (cfg_string d "pkname") diskName && String.eqb (cfg_string d "partlabel") label.
Definition findPartitionByLabel (disk label : string) : ST World string :=
  out ← wrap "disks: lsblk: "
    (RunChecked ["lsblk"; "--list"; "-J"; "-b"; "-o"; "NAME,PATH,PKNAME,PARTLABEL"] no_options);
  raw ← wrap "disks: parse lsblk output: " (lift (parse_blockdevices parse_map out));
  match find (labelled (path_base disk) label) raw with
  | Some d => mret (cfg_string d "path")
  | None => lift (Err (Errorf "disks: no partition on %s labeled %q"))
  end.

(** Best effort: every error is dropped. *)
Fixpoint umount_all (mountpoint : string) (subs : list string) : ST World unit :=
  match subs with
  | [] => mret tt
  | sub :: subs =>
      _ ← try (Run ["umount"; path_join [mountpoint; sub]] no_options);
      umount_all mountpoint subs
  end.
Definition CleanupMounts (mountpoint : string) : ST World unit :=
  umount_all mountpoint ["srv/data"; "efi"; "usr"; "var"; ""].

Definition MountRootAndVar (disk mountpoint : string) : ST World unit :=
  rootPart ← findPartitionByLabel disk "slfhst-root";
  varPart ← findPartitionByLabel disk "slfhst-var";
  _ ← wrap "disks: mkdir %s: " (MkdirAll mountpoint 493);
  _ ← run_ "disks: mount %s: " ["mount"; rootPart; mountpoint] no_options;
  let varMount := path_join [mountpoint; "var"] in
  _ ← wrap "disks: mkdir %s: " (MkdirAll varMount 493);
  run_ "disks: mount %s: " ["mount"; varPart; varMount] no_options.

Fixpoint fhs_links (mountpoint : string) (links : list (string * string)) : ST World unit :=
  match links with
  | [] => mret tt
  | (name, target) :: links =>
      r ← try (Lstat (path_join [mountpoint; target]));
      match r with
      | inr _ => fhs_links mountpoint links
      | inl _ =>
          let path := path_join [mountpoint; name] in
          r ← try (Lstat path);
          match r with
          | inl _ => fhs_links mountpoint links
          | inr _ =>
              _ ← wrap "disks: symlink %s -> %s: " (Symlink target path);
              fhs_links mountpoint links
          end
      end
  end.
Definition EnsureFHSSymlinks (mountpoint : string) : ST World unit :=
  w ← st_get;
  fhs_links mountpoint (range_files (log w) fhsLinks).

Definition PartitionBulk (disk : string) : ST World string :=
  _ ← run_ "disks: partition %s: "
    ["parted"; "--script"; disk; "mklabel"; "gpt"; "mkpart"; "primary"; "xfs"; "0%"; "100%"] no_options;
  _ ← run_ "disks: partprobe %s: " ["partprobe"; disk] no_options;
  _ ← run_ "disks: udevadm settle: " ["udevadm"; "settle"] no_options;
  all ← listBlockDevices "NAME,PATH,PKNAME";
  let diskName := path_base disk in
  let partition := match find (fun d => String.eqb (PKName d) diskName) all with
    | Some d => Path d | None => "" end in
  if decide (partition = "") then
    lift (Err (Errorf "disks: no partition found on %s after partitioning"))
  else
    _ ← run_ "disks: mkfs.xfs %s: " ["mkfs.xfs"; "-f"; partition] captured;
    mret partition.

Definition writeBulkMountUnit (root partition : string) : ST World unit :=
  uuid ← wrap "disks: blkid %s: " (RunChecked ["blkid"; "-s"; "UUID"; "-o"; "value"; partition] no_options);
  let uuid := trim_space uuid in
  let content := srv_data_mount uuid in
  let unitPath := path_join [root; "etc/systemd/system/srv-data.mount"] in
  _ ← wrap "disks: mkdir: " (MkdirAll (path_dir unitPath) 493);
  _ ← wrap "disks: write %s: " (WriteFile unitPath content 420);
  let wantsDir := path_join [root; "etc/systemd/system/local-fs.target.wants"] in
  _ ← wrap "disks: mkdir %s: " (MkdirAll wantsDir 493);
  let linkPath := path_join [wantsDir; "srv-data.mount"] in
  _ ← try (Remove linkPath);
  wrap "disks: symlink %s: " (Symlink "/etc/systemd/system/srv-data.mount" linkPath).

Fixpoint mkdir_each (fmt dir : string) (names : list string) : ST World unit :=
  match names with
  | [] => mret tt
  | name :: names =>
      _ ← wrap fmt (MkdirAll (path_join [dir; name]) 493);
      mkdir_each fmt dir names
  end.

Definition MountBulk (root partition : string) : ST World unit :=
  let target := path_join [root; "srv/data"] in
  _ ← wrap "disks: mkdir %s: " (MkdirAll target 493);
  _ ← run_ "disks: mount %s at %s: " ["mount"; partition; target] no_options;
  _ ← mkdir_each "disks: mkdir %s/%s: " target dataSubdirs;
  writeBulkMountUnit root partition.

(** ** deploy.go *)
Definition numbered (diskName : string) (n : Z) (d : config) : bool :=
  String.eqb (cfg_string d "pkname") diskName &&
  match d !! "partn" with Some (JNum lit) => num_int lit =? n | _ => false end.
Definition findPartitionByNumber (disk : string) (n : Z) : ST World string :=
  out ← wrap "disks: lsblk: "
    (RunChecked ["lsblk"; "--list"; "-J"; "-b"; "-o"; "NAME,PATH,PKNAME,PARTN"] no_options);
  raw ← wrap "disks: parse lsblk output: " (lift (parse_blockdevices parse_map out));
  match find (numbered (path_base disk) n) raw with
  | Some d => mret (cfg_string d "path")
  | None => lift (Err (Errorf "disks: no partition %d found on %s"))
  end.

Definition ddCopy (src dst : string) : ST World unit :=
  _ ← Run ["dd"; "if=" +:+ src; "of=" +:+ dst; "bs=4M"; "conv=fsync"] captured; mret tt.

Definition DeployUsrContent (disk usrRawPath version : string) : ST World unit :=
  part ← findPartitionByNumber disk usrAPartNum;
  _ ← wrap "disks: write %s onto %s: " (ddCopy usrRawPath part);
  let label := "slfhst_" +:+ version in
  run_ "disks: relabel partition %d as %q: "
    ["parted"; "--script"; disk; "name"; itoa usrAPartNum; label] no_options.

Definition MountUsr (disk mountpoint : string) : ST World unit :=
  part ← findPartitionByNumber disk usrAPartNum;
  let usrMount := path_join [mountpoint; "usr"] in
  _ ← wrap "disks: mkdir %s: " (MkdirAll usrMount 493);
  run_ "disks: mount %s: " ["mount"; "-o"; "ro"; part; usrMount] no_options.

Definition MountESP (disk mountpoint : string) : ST World string :=
  part ← findPartitionByNumber disk espPartNum;
  let espMount := path_join [mountpoint; "efi"] in
  _ ← wrap "disks: mkdir %s: " (MkdirAll espMount 493);
  _ ← run_ "disks: mount ESP %s: " ["mount"; part; espMount] no_options;
  mret espMount.

(** [os.Open], [os.Create] and [io.Copy] *)
Definition copyFile (src dst : string) : ST World unit :=
  content ← ReadFile src;
  WriteFile dst content 438.

Definition DeployUKI (espPath efiSrcPath version : string) : ST World unit :=
  let destDir := path_join [espPath; "EFI"; "Linux"] in
  _ ← wrap "disks: mkdir %s: " (MkdirAll destDir 493);
  let dest := path_join [destDir; "slfhst_" +:+ version +:+ ".efi"] in
  wrap "disks: copy %s to %s: " (copyFile efiSrcPath dest).

Definition InstallBootloader (espPath : string) : ST World unit :=
  run_ "disks: bootctl install: " ["bootctl"; "--esp-path=" +:+ espPath; "install"] captured.

Definition ApplyPresets (mountpoint : string) : ST World unit :=
  run_ "disks: systemctl preset-all: " ["systemctl"; "preset-all"; "--root=" +:+ mountpoint] captured.

Definition SetDefaultTarget (mountpoint : string) : ST World unit :=
  run_ "disks: systemctl set-default: "
    ["systemctl"; "set-default"; "multi-user.target"; "--root=" +:+ mountpoint] captured.
End deploy.

(** ** Lemmas: selection *)
Lemma insert_by_perm less a l : insert_by less a l ≡ₚ a :: l.
Proof.
  induction l as [|b l IH]; [done|]. simpl. destruct (less b a); [|done].
  by rewrite IH, Permutation_swap.
Qed.

#[export] Instance insertion_sort_ok : SortSliceOk.
Proof.
  intros less l Hasym Htrans. unfold sort_slice, insertion_sort.
  induction l as [|a l [IHp IHs]]; simpl; [split; [done|constructor]|].
  split; [by rewrite insert_by_perm, IHp|]. clear IHp.
  set (s := foldr (insert_by less) [] l) in *. clearbody s.
  induction IHs as [|b s Hs IH Hb]; simpl; [repeat constructor|].
  destruct (less b a) eqn:Hba.
  - constructor; [done|]. rewrite insert_by_perm. constructor; [by apply Hasym|done].
  - constructor; [by constructor|]. constructor; [done|].
    eapply Forall_impl; [exact Hb|]. intros c Hcb. simpl in Hcb. by eapply Htrans.
Qed.

Section select_lemmas.
Context `{SortSliceOk}.

Lemma sort_asc_ok l :
  sort_slice (fun a b => sizeOf a <? sizeOf b) l ≡ₚ l /\
  StronglySorted (fun a b => (sizeOf b <? sizeOf a) = false) (sort_slice (fun a b => sizeOf a <? sizeOf b) l).
Proof. apply sort_slice_ok; intros *; rewrite ?Z.ltb_lt, ?Z.ltb_ge; lia. Qed.

Lemma sort_desc_ok l :
  sort_slice (fun a b => sizeOf b <? sizeOf a) l ≡ₚ l /\
  StronglySorted (fun a b => (sizeOf a <? sizeOf b) = false) (sort_slice (fun a b => sizeOf b <? sizeOf a) l).
Proof. apply (sort_slice_ok (fun a b => sizeOf b <? sizeOf a)); intros *; rewrite ?Z.ltb_lt, ?Z.ltb_ge; lia. Qed.

(** The first element of a sorted slice is a smallest (largest) one. *)
Lemma sort_asc_head l r s :
  sort_slice (fun a b => sizeOf a <? sizeOf b) l = r :: s ->
  r ∈ l /\ forall d, d ∈ l -> sizeOf r <= sizeOf d.
Proof.
  intros Hs. destruct (sort_asc_ok l) as [Hp Ho]. rewrite Hs in Hp, Ho. split.
  - rewrite <- Hp. left.
  - intros d Hd. rewrite <- Hp in Hd. apply elem_of_cons in Hd as [->|Hd]; [lia|].
    inversion Ho as [|? ? _ Hall]; subst. rewrite Forall_forall in Hall.
    specialize (Hall d Hd). apply Z.ltb_ge in Hall. lia.
Qed.

Lemma sort_desc_head l r s :
  sort_slice (fun a b => sizeOf b <? sizeOf a) l = r :: s ->
  r ∈ l /\ forall d, d ∈ l -> sizeOf d <= sizeOf r.
Proof.
  intros Hs. destruct (sort_desc_ok l) as [Hp Ho]. rewrite Hs in Hp, Ho. split.
  - rewrite <- Hp. left.
  - intros d Hd. rewrite <- Hp in Hd. apply elem_of_cons in Hd as [->|Hd]; [lia|].
    inversion Ho as [|? ? _ Hall]; subst. rewrite Forall_forall in Hall.
    specialize (Hall d Hd). apply Z.ltb_ge in Hall. lia.
Qed.

Lemma elem_of_lfilter {A} (f : A -> bool) l x : x ∈ List.filter f l <-> x ∈ l /\ f x = true.
Proof. rewrite !list_elem_of_In. apply filter_In. Qed.

(** What the specification says of a choice [(root, bulk)] among the candidates. *)
Definition good_choice (cands : list blockDevice) (root bulk : string) : Prop :=
  exists r b, r ∈ cands /\ b ∈ cands /\ Path r = root /\ Path b = bulk /\ root <> bulk /\
  (Rota r = true -> forall d, d ∈ cands -> Rota d = true) /\
  (forall d, d ∈ cands -> Rota d = Rota r -> sizeOf r <= sizeOf d) /\
  (forall d, d ∈ cands -> Path d <> root -> sizeOf d <= sizeOf b).

(** The choice of the bulk disk, once the root disk is chosen. *)
Lemma select_bulk (cands cands' : list blockDevice) r :
  cands' ≡ₚ cands -> r ∈ cands ->
  (Rota r = true -> forall d, d ∈ cands -> Rota d = true) ->
  (forall d, d ∈ cands -> Rota d = Rota r -> sizeOf r <= sizeOf d) ->
  match (match sort_slice (fun a b => sizeOf b <? sizeOf a)
        (List.filter (fun d => negb (String.eqb (Path d) (Path r))) cands') with
    | [] => Panic | b :: _ => Ok (Path r, Path b) end) with
  | Ok (root, bulk) => good_choice cands root bulk
  | Panic => forall d, d ∈ cands -> Path d = Path r
  | _ => False
  end.
Proof.
  intros Hp Hr Hrota Hmin. set (others := List.filter _ cands').
  assert (Ho : forall d, d ∈ others <-> d ∈ cands /\ Path d <> Path r).
  { intros d. unfold others. rewrite elem_of_lfilter, Hp, negb_true_iff, String.eqb_neq. done. }
  destruct (sort_slice _ others) as [|b s] eqn:Hs.
  - destruct (sort_desc_ok others) as [Hp' _]. rewrite Hs in Hp'. symmetry in Hp'.
    apply Permutation_nil_r in Hp'. intros d Hd. destruct (decide (Path d = Path r)); [done|].
    assert (d ∈ others) as Hin by (by apply Ho). rewrite Hp' in Hin. by apply elem_of_nil in Hin.
  - apply sort_desc_head in Hs as [Hb Hmax]. apply Ho in Hb as [Hb Hne].
    exists r, b. split_and!; try done. intros d Hd Hpd. apply Hmax, Ho. done.
Qed.

Lemma selectDisksFrom_spec all ex :
  let cands := List.filter (is_candidate ex) all in
  match selectDisksFrom all ex with
  | Ok (root, bulk) => good_choice cands root bulk
  | Err _ => (length cands < 2)%nat
  | Panic => exists p, forall d, d ∈ cands -> Path d = p
  | OutOfFuel => False
  end.
Proof.
  intros cands. unfold selectDisksFrom. fold cands. case_decide as Hlen; [done|].
  set (nonrot := List.filter (fun d => negb (Rota d)) cands).
  assert (Hn : forall d, d ∈ nonrot <-> d ∈ cands /\ Rota d = false).
  { intros d. unfold nonrot. by rewrite elem_of_lfilter, negb_true_iff. }
  destruct nonrot as [|n0 nonrot'] eqn:Hnr.
  - destruct (sort_slice (fun a b => sizeOf a <? sizeOf b) cands) as [|r s] eqn:Hs.
    { destruct (sort_asc_ok cands) as [Hp _]. rewrite Hs in Hp. symmetry in Hp.
      apply Permutation_nil_r in Hp. rewrite Hp in Hlen. simpl in Hlen. lia. }
    assert (Hp : r :: s ≡ₚ cands) by (rewrite <- Hs; apply sort_asc_ok).
    apply sort_asc_head in Hs as [Hr Hmin].
    pose proof (select_bulk cands (r :: s) r Hp Hr) as Hb.
    assert (Hall : forall d, d ∈ cands -> Rota d = true).
    { intros d Hd. destruct (Rota d) eqn:He; [done|].
      assert (d ∈ @nil blockDevice) as Hin by (by apply Hn). by apply elem_of_nil in Hin. }
    specialize (Hb (fun _ => Hall) (fun d Hd _ => Hmin d Hd)).
    cbv zeta. destruct (match sort_slice _ _ with [] => Panic | _ => _ end) as [[]| | |]; try done. eauto.
  - rewrite <- Hnr in *.
    destruct (sort_slice (fun a b => sizeOf a <? sizeOf b) nonrot) as [|r s] eqn:Hs.
    { destruct (sort_asc_ok nonrot) as [Hp _]. rewrite Hs in Hp. symmetry in Hp.
      apply Permutation_nil_r in Hp. rewrite Hp in Hnr. done. }
    apply sort_asc_head in Hs as [Hr Hmin]. apply Hn in Hr as [Hr Hrot].
    pose proof (select_bulk cands cands r (Permutation_refl _) Hr) as Hb.
    rewrite Hrot in Hb. specialize (Hb ltac:(done)).
    specialize (Hb ltac:(intros d Hd Hd'; apply Hmin, Hn; done)).
    cbv zeta. destruct (match sort_slice _ _ with [] => Panic | _ => _ end) as [[]| | |]; try done. eauto.
Qed.
End select_lemmas.

(** ** Lemmas: the FHS links *)
Definition present (f : FS) (p : string) : bool :=
  is_dir f (clean p) || bool_decide (is_Some (f !! clean p)).

Lemma lstat_present p f : lstat p f = (if present f p then Ok tt else Err (ErrNotExist p), f).
Proof.
  unfold lstat, present. destruct (is_dir f (clean p)); [done|]. simpl.
  destruct (f !! clean p) eqn:Hf; [by rewrite bool_decide_true|].
  rewrite bool_decide_false; [done|]. by intros [].
Qed.

Lemma symlink_absent t p f :
  present f p = false -> is_dir f (path_dir (clean p)) = true ->
  symlink t p f = (Ok tt, <[clean p := NLink t]> f).
Proof.
  unfold present, symlink. intros [-> Hb]%orb_false_iff Hd. apply bool_decide_eq_false in Hb.
  destruct (f !! clean p) eqn:Hf; [exfalso; eauto|]. by rewrite Hd.
Qed.

Lemma symlink_ok t p f f' :
  symlink t p f = (Ok tt, f') -> f !! clean p = None /\ f' = <[clean p := NLink t]> f.
Proof.
  unfold symlink. destruct (is_dir f (clean p)); [done|]. destruct (f !! clean p) eqn:Hf; [done|].
  case_match; [|done]. by intros [= <-].
Qed.

Section fhs.
Context {E : Env} {Hnf : NoFaults}.

Lemma try_Lstat p w :
  try (Lstat p) w
    = (Ok (if present (fs w) p then inl tt else inr (ErrNotExist p)),
      MkWorld (fs w) (console w) (EOS "lstat" [p] :: log w)).
Proof. unfold try, Lstat. rewrite io_ok, lstat_present. by destruct (present _ _). Qed.

(** One link, as a function of the file system. *)
Lemma fhs_links_cons mp name target links w :
  exists l, fhs_links mp ((name, target) :: links) w
    = (if present (fs w) (path_join [mp; target]) && negb (present (fs w) (path_join [mp; name]))
      then (_ ← wrap "disks: symlink %s -> %s: " (Symlink target (path_join [mp; name]));
        fhs_links mp links)
      else fhs_links mp links) (MkWorld (fs w) (console w) l).
Proof.
  cbn [fhs_links]. unfold mbind at 1, ST_bind at 1. rewrite try_Lstat.
  destruct (present (fs w) (path_join [mp; target])); [|by eexists].
  cbn [andb]. unfold mbind at 1, ST_bind at 1. rewrite try_Lstat. cbn [fs].
  by destruct (present (fs w) (path_join [mp; name])); eexists.
Qed.

Lemma fhs_links_post mp links w w' :
  fhs_links mp links w = (Ok tt, w') ->
  (forall p n, fs w !! p = Some n -> fs w' !! p = Some n) /\
  (forall p, fs w' !! p = fs w !! p \/
    exists name target, (name, target) ∈ links /\ p = clean (path_join [mp; name]) /\
    fs w' !! p = Some (NLink target)) /\
  (forall name target, (name, target) ∈ links ->
    present (fs w) (path_join [mp; target]) = true -> present (fs w') (path_join [mp; name]) = true).
Proof using Hnf.
  revert w. induction links as [|[name target] links IH]; intros w H.
  { injection H as <-. split_and!; [done|by left|by intros ? ? ?%elem_of_nil]. }
  destruct (fhs_links_cons mp name target links w) as [l Hl]. rewrite Hl in H. clear Hl.
  assert (Hmono : forall f f' p, (forall q n, f !! q = Some n -> f' !! q = Some n) ->
    present f p = true -> present f' p = true).
  { intros f f' p Hff. unfold present, is_dir. rewrite !orb_true_iff, !bool_decide_eq_true.
    intros [[Hp|Hp]|[n Hn]]; [by left; left| |right; eauto].
    left; right. destruct (f !! clean p) as [n|] eqn:Hn; [|done]. by rewrite (Hff _ _ Hn). }
  destruct (present (fs w) (path_join [mp; target])) eqn:Ht; cbn [andb] in H.
  2: { apply IH in H as (Ha & Hb & Hc). cbn [fs] in *. split_and!; [done| |].
    - intros p. destruct (Hb p) as [|(n & t & ? & ?)]; [by left|]. right. exists n, t. split; [by right|done].
    - intros n t [[= -> ->]|Hin]%elem_of_cons Hp; [congruence|]. by apply (Hc n t). }
  destruct (present (fs w) (path_join [mp; name])) eqn:Hn; cbn [negb] in H.
  { apply IH in H as (Ha & Hb & Hc). cbn [fs] in *. split_and!; [done| |].
    - intros p. destruct (Hb p) as [|(n & t & ? & ?)]; [by left|]. right. exists n, t. split; [by right|done].
    - intros n t [[= -> ->]|Hin]%elem_of_cons Hp; [by eapply Hmono|]. by apply (Hc n t). }
  apply bind_Ok_inv_st in H as ([] & w1 & Hs & H).
  apply wrap_Ok_inv, io_Ok_inv in Hs as (f1 & Hs & ->). cbn [fs] in Hs.
  apply symlink_ok in Hs as [Hnone ->]. apply IH in H as (Ha & Hb & Hc). cbn [fs] in *.
  set (q := clean (path_join [mp; name])) in *.
  assert (Hins : forall p n, fs w !! p = Some n -> <[q := NLink target]> (fs w) !! p = Some n)
    by (intros p n Hp; rewrite lookup_insert_ne; [done|congruence]).
  split_and!.
  - intros p n Hp. by apply Ha, Hins.
  - intros p. destruct (decide (p = q)) as [->|Hne].
    + right. exists name, target. split_and!; [left|done|]. apply Ha. by rewrite lookup_insert_eq.
    + destruct (Hb p) as [Hp|(n & t & ? & ?)].
      * left. by rewrite Hp, lookup_insert_ne.
      * right. exists n, t. split; [by right|done].
  - intros n t [[= -> ->]|Hin]%elem_of_cons Hp.
    + unfold present. fold q. rewrite (Ha q (NLink target)) by (by rewrite lookup_insert_eq).
      by rewrite bool_decide_true, orb_true_r by eauto.
    + apply (Hc n t Hin). by apply (Hmono (fs w)).
Qed.

Lemma fhs_links_stable mp links w :
  (forall name target, (name, target) ∈ links ->
    present (fs w) (path_join [mp; target]) = true -> present (fs w) (path_join [mp; name]) = true) ->
  exists w', fhs_links mp links w = (Ok tt, w') /\ fs w' = fs w.
Proof using Hnf.
  revert w. induction links as [|[name target] links IH]; intros w H; [by exists w|].
  destruct (fhs_links_cons mp name target links w) as [l ->].
  specialize (H name target ltac:(left)) as Hnt.
  destruct (present (fs w) (path_join [mp; target])); cbn [andb].
  - rewrite Hnt by done. apply (IH (MkWorld (fs w) (console w) l)). intros n t Hin. apply H. by right.
  - apply (IH (MkWorld (fs w) (console w) l)). intros n t Hin. apply H. by right.
Qed.
End fhs.

(** ** Lemmas: partitioning *)
Section repart.
Context {E : Env} {Hnf : NoFaults}.

(** Every file of a fresh directory is written. *)
Lemma fresh_not_dir dir name f :
  abs_path dir -> plain_name name = true -> f !! entry dir name = None -> is_dir f (entry dir name) = false.
Proof using.
  intros Hd Hn Hf. destruct (abs_path_snoc dir name Hd Hn) as (_ & Hr & Hne). fold (entry dir name) in *.
  unfold is_dir. rewrite Hf, orb_false_r, orb_false_iff, !String.eqb_neq. split; [done|].
  intros He. by rewrite He in Hr.
Qed.
Lemma write_fresh content dir name perm f :
  abs_path dir -> plain_name name = true -> is_dir f dir = true -> f !! entry dir name = None ->
  write_with (fun _ => content) (path_join [dir; name]) perm f
  = (Ok tt, <[entry dir name := NFile content perm 0 0]> f).
Proof using.
  intros Hd Hn Hdir Hf.
  assert (Hs : no_char slash name = true) by (unfold plain_name in Hn; by rewrite !andb_true_iff in Hn; tauto).
  rewrite path_join_name by done. fold (entry dir name). unfold write_with.
  rewrite follow_plain; [|by apply clean_snoc|by rewrite Hf].
  rewrite fresh_not_dir by done.
  rewrite Hf. unfold entry at 1. rewrite path_dir_entry by done. by rewrite Hdir.
Qed.

Lemma write_all_returns fmt dir files w :
  abs_path dir -> NoDup files.*1 -> Forall (fun n => plain_name n = true) files.*1 ->
  is_dir (fs w) dir = true -> Forall (fun n => fs w !! entry dir n = None) files.*1 ->
  returns (write_all fmt dir files) (fun _ w' =>
    (forall n c, (n, c) ∈ files -> exists pm u g, fs w' !! entry dir n = Some (NFile c pm u g)) /\
    (forall p, fs w' !! p = fs w !! p \/ exists n, n ∈ files.*1 /\ p = entry dir n) /\
    commands (log w') = commands (log w)) w.
Proof using Hnf.
  intros Hd. revert w. induction files as [|[n c] files IH]; intros w Hnd Hpl Hdir Hnone.
  { split_and!; [by intros ? ? ?%elem_of_nil|by left|done]. }
  apply NoDup_cons in Hnd as [Hni Hnd]. apply Forall_cons in Hpl as [Hn Hpl], Hnone as [Hf Hnone].
  cbn [write_all fst] in *. apply returns_bind, returns_wrap, returns_io.
  unfold returns. rewrite write_fresh by done.
  eapply returns_mono; [apply IH; cbn [fs]; try done|].
  - apply is_dir_insert; [done|by apply fresh_not_dir].
  - rewrite Forall_forall in *. intros m Hm. rewrite lookup_insert_ne by (intros ->%entry_inj; done). by apply Hnone.
  - intros _ w' (Ha & Hb & Hl). cbn [fs log] in *. split_and!.
    + intros m x [[= -> ->]|Hin]%elem_of_cons; [|by apply Ha].
      destruct (Hb (entry dir n)) as [->|(m' & Hm' & ->%entry_inj)]; [|done].
      rewrite lookup_insert_eq. eauto.
    + intros p. destruct (Hb p) as [->|(m & Hm & ->)].
      * destruct (decide (p = entry dir n)) as [->|]; [|by left; rewrite lookup_insert_ne].
        right. exists n. split; [left|done].
      * right. exists m. split; [by right|done].
    + done.
Qed.

(** The definitions are written, and the directory holds nothing else. *)
Lemma definitions_written `{!RangeOk} dir w :
  abs_path dir -> is_dir (fs w) dir = true -> (forall p, p <> dir -> under dir p = true -> fs w !! p = None) ->
  returns (write_all "disks: write %s: " dir (range_files (log w) repartFiles)) (fun _ w1 =>
    commands (log w1) = commands (log w) /\
    forall p content, p <> dir -> under dir p = true ->
      (exists pm u g, fs w1 !! p = Some (NFile content pm u g)) <->
      (exists n, p = entry dir n /\ repartFiles !! n = Some content)) w.
Proof using Hnf.
  intros Habs Hdir Hfresh.
  assert (Hfiles : NoDup (range_files (log w) repartFiles).*1 /\
    Forall (fun n => plain_name n = true) (range_files (log w) repartFiles).*1).
  { rewrite range_files_perm. split; [apply NoDup_fst_map_to_list|].
    apply Forall_fmap, Forall_forall. intros [n c] Hin%elem_of_map_to_list%elem_of_list_to_map_2.
    set_unfold. destruct_or?; try done; by simplify_eq. }
  eapply returns_mono; [apply write_all_returns; [done|apply Hfiles..|done|]|].
  { apply Forall_forall. intros n _. apply Hfresh; [apply entry_ne|apply under_entry]. }
  intros _ w1 (Hall & Honly & Hl). split; [done|]. intros p content Hne Hp. split.
  - intros (pm & u & g & Hf). destruct (Honly p) as [He|(n & Hn & ->)].
    { rewrite He, Hfresh in Hf by done. done. }
    exists n. split; [done|]. apply list_elem_of_fmap in Hn as ([n' c] & -> & Hin). cbn [fst] in *.
    destruct (Hall n' c Hin) as (? & ? & ? & Hf'). rewrite Hf in Hf'. injection Hf' as <- _ _ _.
    rewrite range_files_perm in Hin. by apply elem_of_map_to_list.
  - intros (n & -> & Hn). apply Hall. rewrite range_files_perm. by apply elem_of_map_to_list.
Qed.

(** A command that must succeed: it runs, and what follows it only if it did. *)
Lemma run__step fmt argv opts w :
  argv <> [] -> NoCheck opts = false -> buildArgv argv opts = argv -> Env_ opts = [] -> Input opts = None ->
  exists f (b : bool) e,
  run_ fmt argv opts w = (if b then Ok tt else Err e, MkWorld f (console w) (EExec argv [] None :: log w)) /\
  (Obedient (fun _ => false) -> b = true).
Proof using.
  intros Hne Hnc Hb He Hi. destruct (run__ran fmt argv opts w Hne Hnc) as [e Hr].
  unfold ran in Hr. rewrite Hb, He, Hi in Hr. cbn [log add_log fs] in Hr.
  destruct (exec _ _ _) as [r f] eqn:Hx. exists f, (succeeded r), e. split; [done|].
  intros Hob. match type of Hx with exec ?l ?g ?c = _ => pose proof (Hob l g c) as Hs end.
  rewrite Hx in Hs. cbn in Hs. destruct r as [|code out err]; [done|]. destruct Hs as [->|]; done.
Qed.
Lemma run_three f1 f2 f3 a1 a2 a3 o1 o2 o3 w :
  Forall2 (fun argv opts => argv <> [] /\ NoCheck opts = false /\ buildArgv argv opts = argv /\
    Env_ opts = [] /\ Input opts = None) [a1; a2; a3] [o1; o2; o3] ->
  exists n f r,
  (_ ← run_ f1 a1 o1; _ ← run_ f2 a2 o2; run_ f3 a3 o3) w
  = (r, MkWorld f (console w) (rev ((fun argv => EExec argv [] None) <$> take n [a1; a2; a3]) ++ log w)) /\
  (1 <= n <= 3)%nat /\ fine r /\ (r = Ok tt -> n = 3%nat) /\ (Obedient (fun _ => false) -> r = Ok tt).
Proof using.
  intros H. apply Forall2_cons in H as [H1 H]. apply Forall2_cons in H as [H2 H]. apply Forall2_cons in H as [H3 _].
  destruct_and!.
  destruct (run__step f1 a1 o1 w) as (g1 & b1 & e1 & Hr1 & Ho1); [done..|].
  destruct b1.
  2: { exists 1%nat, g1, (Err e1). unfold mbind, ST_bind. rewrite Hr1. split_and!; (done || lia || by intros ?%Ho1). }
  rewrite (bind_Ok_st _ _ _ _ _ Hr1).
  destruct (run__step f2 a2 o2 (MkWorld g1 (console w) (EExec a1 [] None :: log w))) as (g2 & b2 & e2 & Hr2 & Ho2); [done..|].
  destruct b2.
  2: { exists 2%nat, g2, (Err e2). unfold mbind, ST_bind. rewrite Hr2. split_and!; (done || lia || by intros ?%Ho2). }
  rewrite (bind_Ok_st _ _ _ _ _ Hr2).
  destruct (run__step f3 a3 o3 (MkWorld g2 (console w) (EExec a2 [] None :: EExec a1 [] None :: log w)))
    as (g3 & b3 & e3 & Hr3 & Ho3); [done..|].
  exists 3%nat, g3, (if b3 then Ok tt else Err e3). split; [done|]. split; [lia|]. destruct b3; [done|].
  split_and!; (done || by intros ?%Ho3).
Qed.

End repart.

(** ** Lemmas: the selection succeeds *)
Section finds.
Context `{SortSliceOk, Env}.

(** A command that always prints the same *)
Definition prints (argv : list string) (out : string) : Prop := forall l f, exists err f',
  exec l f (Cmd argv [] None true) = (Exited 0 out err, f').
Definition lists_devices (all : list blockDevice) : Prop := exists out,
  prints ["lsblk"; "--list"; "-J"; "-b"; "-o"; "NAME,PATH,SIZE,TYPE,ROTA,RO,PKNAME"] out /\
  parse_blockdevices parse_device out = Ok all.
Definition booted_from (all : list blockDevice) (ex : string) : Prop := exists out,
  prints ["blkid"; "-L"; bootDiskLabel] out /\ boot_disk_in (path_base (trim_space out)) all = Ok ex.

Lemma prints_returns argv out w : prints argv out -> argv <> [] -> buildArgv argv (with_capture no_options) = argv ->
  returns (RunChecked argv no_options) (fun o _ => o = out) w.
Proof using.
  intros Hp Hne Hb. unfold RunChecked. apply returns_bind. unfold returns at 1. rewrite Run_ran by done.
  unfold ran. rewrite Hb. cbn [log add_log fs Env_ Input Capture with_capture no_options].
  match goal with |- context [exec ?l ?f _] => destruct (Hp l f) as (err & f' & ->) end. done.
Qed.

Lemma SelectDisks_finds all ex w :
  lists_devices all -> booted_from all ex ->
  (exists c d, c ∈ List.filter (is_candidate ex) all /\ d ∈ List.filter (is_candidate ex) all /\ Path c <> Path d) ->
  returns SelectDisks (fun _ _ => True) w.
Proof using All.
  intros (out & Ho & Hall) (boot & Hb & Hex) (c & d & Hc & Hd & Hne). unfold SelectDisks, listBlockDevices, bootDiskName.
  apply returns_bind, returns_bind, returns_wrap. eapply returns_mono; [by apply prints_returns|]. intros ? w1 ->.
  apply returns_wrap, returns_lift with (a := all); [done|].
  apply returns_bind, returns_bind, returns_wrap. eapply returns_mono; [by apply prints_returns|]. intros ? w2 ->.
  apply returns_lift with (a := ex); [done|].
  pose proof (selectDisksFrom_spec all ex) as Hs. destruct (selectDisksFrom all ex) as [[root bulk]|e| |]; [done|exfalso..].
  - set (cands := List.filter _ _) in *. clearbody cands. destruct cands as [|x [|y cands]]; [by apply elem_of_nil in Hc| |cbn in Hs; lia].
    apply list_elem_of_singleton in Hc, Hd. congruence.
  - destruct Hs as [p Hp]. apply Hne. by rewrite (Hp c Hc), (Hp d Hd).
  - done.
Qed.
End finds.

(** * Properties *)

(** C7: the choice of disks.  Among the candidates (writable disks of positive
    size other than the boot device) the root disk is the smallest
    non-rotational one, or the smallest of all when every one is rotational; the
    bulk disk has another path and is the largest of those.  The only error is
    that there are fewer than two candidates, and the only panic (index out of
    range) is that all candidates have the same path.  This holds for every
    in-place sort that orders by size. *)
Theorem selectDisksFrom_correct `{SortSliceOk} all ex :
  let cands := List.filter (is_candidate ex) all in
  match selectDisksFrom all ex with
  | Ok (root, bulk) => good_choice cands root bulk
  | Err _ => (length cands < 2)%nat
  | Panic => exists p, forall d, d ∈ cands -> Path d = p
  | OutOfFuel => False
  end.
Proof. apply selectDisksFrom_spec. Qed.


(** The usr-merge links: when [EnsureFHSSymlinks] succeeds, every link whose
    target existed is present; nothing that existed was changed or removed, and
    what is new is one of the four links; running it again succeeds and changes
    nothing. *)
Theorem EnsureFHSSymlinks_idempotent `{NoFaults, !RangeOk} mp w w' :
  abs_path mp -> EnsureFHSSymlinks mp w = (Ok tt, w') ->
  (forall p n, fs w !! p = Some n -> fs w' !! p = Some n) /\
  (forall p, fs w' !! p = fs w !! p \/
     exists name target, fhsLinks !! name = Some target /\ p = entry mp name /\
       fs w' !! p = Some (NLink target)) /\
  (forall name target, fhsLinks !! name = Some target ->
     present (fs w) (path_join [mp; target]) = true -> present (fs w') (path_join [mp; name]) = true) /\
  exists w'', EnsureFHSSymlinks mp w' = (Ok tt, w'') /\ fs w'' = fs w'.
Proof.
  intros Hmp. unfold EnsureFHSSymlinks, mbind, ST_bind, st_get. cbv beta iota.
  intros (Ha & Hb & Hc)%fhs_links_post.
  assert (Hin : forall l n t, (n, t) ∈ range_files l fhsLinks <-> fhsLinks !! n = Some t)
    by (intros; rewrite range_files_perm; apply elem_of_map_to_list).
  assert (Hnames : forall n t, fhsLinks !! n = Some t ->
    plain_name n = true /\ clean (path_join [mp; n]) = entry mp n /\
    exists b, plain_name b = true /\ t = "usr/" +:+ b).
  { intros n t Hn.
    assert (plain_name n = true /\ exists b, plain_name b = true /\ t = "usr/" +:+ b) as [Hpn Hb'].
    { apply elem_of_list_to_map_2 in Hn. set_unfold. destruct_or?; try done; simplify_eq;
        (split; [done|]); [exists "bin"|exists "sbin"|exists "lib"|exists "lib64"]; done. }
    split_and!; [done| |done]. rewrite path_join_name by done. by apply clean_snoc. }
  split_and!; [done| | |].
  - intros p. destruct (Hb p) as [|(n & t & Hn & -> & Hl)]; [by left|]. right. apply Hin in Hn.
    destruct (Hnames n t Hn) as (_ & He & _). exists n, t. by rewrite <- He.
  - intros n t Hn. by apply Hc, Hin.
  - apply fhs_links_stable. intros n t Hn Hp. apply Hin in Hn. apply (Hc n t); [by apply Hin|].
    destruct (Hnames n t Hn) as (_ & _ & b & Hpb & ->).
    unfold present, is_dir in Hp |- *.
    set (q := clean (path_join [mp; "usr/" +:+ b])) in *.
    destruct (Hb q) as [<-|(n' & t' & Hn' & Hq & _)]; [done|]. exfalso.
    apply Hin in Hn'. destruct (Hnames n' t' Hn') as (Hpn & He & _). rewrite He in Hq.
    unfold q in Hq. change ("usr/" +:+ b) with ("usr" +:+ "/" +:+ b) in Hq.
    rewrite path_join_2 in Hq by done.
    assert (Habs := clean_snoc (mp +:+ "/" +:+ "usr") b (abs_path_snoc mp "usr" Hmp eq_refl) Hpb).
    rewrite !sapp_assoc in Habs. rewrite Habs in Hq. unfold entry in Hq.
    do 2 apply sapp_inj_l in Hq. rewrite <- Hq in Hpn. done.
Qed.


(** * Witnesses *)
Definition sample_disks : list blockDevice := [
  BD "sr0" "/dev/sr0" "734003200" "disk" false false "";
  BD "vda" "/dev/vda" "10737418240" "disk" true false "";
  BD "vdb" "/dev/vdb" "21474836480" "disk" false false "";
  BD "vdc" "/dev/vdc" "107374182400" "disk" false false ""].

Lemma selectDisksFrom_correct_witness :
  good_choice (List.filter (is_candidate "sr0") sample_disks) "/dev/vdb" "/dev/vdc".
Proof. exact (selectDisksFrom_correct sample_disks "sr0"). Defined.

(** A machine whose lsblk lists the disks above, and whose label is on sr0. *)
Definition DQs : string := String DQ "".
Definition member (k v : string) : string := DQs +:+ k +:+ DQs +:+ ":" +:+ v.
Definition quoted (s : string) : string := DQs +:+ s +:+ DQs.
Definition lsblk_text : string :=
  "{" +:+ member "blockdevices" ("[" +:+ join "," ((fun d =>
    "{" +:+ join "," [member "name" (quoted (Name d)); member "path" (quoted (Path d));
      member "size" (Size d); member "type" (quoted (Type_ d));
      member "rota" (if Rota d then "true" else "false"); member "ro" "false";
      member "pkname" "null"] +:+ "}") <$> sample_disks) +:+ "]") +:+ "}".

#[local] Instance lab : Env :=
  simple_env (fun _ f c =>
    match c_argv c with
    | "lsblk" :: _ => (Exited 0 lsblk_text "", f)
    | "blkid" :: _ => (Exited 0 ("/dev/sr0" +:+ nl) "", f)
    | _ => (Exited 0 "" "", f)
    end) (fun _ => HttpError) (fun _ => false).

Definition machine : World :=
  MkWorld {["/tmp" := NDir 511 0 0; "/mnt" := NDir 493 0 0; "/mnt/t" := NDir 493 0 0;
            "/mnt/t/usr" := NDir 493 0 0; "/mnt/t/usr/bin" := NDir 493 0 0]} "" [].


Lemma EnsureFHSSymlinks_idempotent_witness :
  let w' := (EnsureFHSSymlinks "/mnt/t" machine).2 in
  fs w' !! "/mnt/t/bin" = Some (NLink "usr/bin") /\
  exists w'', EnsureFHSSymlinks "/mnt/t" w' = (Ok tt, w'') /\ fs w'' = fs w'.
Proof.
  intros w'. split; [vm_compute; reflexivity|].
  assert (Habs : abs_path "/mnt/t") by (split_and!; (done || vm_compute; reflexivity)).
  assert (Hr : EnsureFHSSymlinks "/mnt/t" machine = (Ok tt, w')) by (vm_compute; reflexivity).
  exact (proj2 (proj2 (proj2 (EnsureFHSSymlinks_idempotent "/mnt/t" machine w' Habs Hr)))).
Defined.

