(* ===== verification/Dnscf.v ===== *)
(** Cloudflare DNS (internal/dnscf/dnscf.go): the API requests, the upsert
    decision and [Sync]; the decision is shown to converge, on the interface that
    a DNS zone offers. *)
From S2P Require Import Prelude Bytes GoStrings World Json Config.

Definition apiBase : string := "https://api.cloudflare.com/client/v4".
Definition traceURL : string := "https://www.cloudflare.com/cdn-cgi/trace".
Definition subdomains : list string := ["mail"; "vault"; "photos"; "auth"; "locker"; "api"].

Record dnsRecord := Rec {
  ID : string;
  Type_ : string;
  Name : string;
  Content : string;
  TTL : Z;
  Proxied : bool;
  Priority : option Z;
}.

Definition parse_record : json -> outcome dnsRecord := struct_of (fun m =>
  id ← string_field m "id";
  type ← string_field m "type";
  name ← string_field m "name";
  content ← string_field m "content";
  ttl ← int_field m "ttl";
  proxied ← bool_field m "proxied";
  priority ← opt_int_field m "priority";
  Ok (Rec id type name content ttl proxied priority)).

(** [json.Marshal(rec)], with its two omitempty fields *)
Definition marshal_record (r : dnsRecord) : string :=
  marshal_fields (
    (if decide (ID r = "") then [] else [("id", JStr (ID r))]) ++
    [("type", JStr (Type_ r)); ("name", JStr (Name r)); ("content", JStr (Content r));
     ("ttl", JNum (itoa (TTL r))); ("proxied", JBool (Proxied r))] ++
    match Priority r with Some p => [("priority", JNum (itoa p))] | None => [] end).

(** The envelope of every response *)
Definition parse_error : json -> outcome (Z * string) := struct_of (fun m =>
  code ← int_field m "code"; msg ← string_field m "message"; Ok (code, msg)).
Definition parse_envelope (v : json) : outcome (bool * list (Z * string)) :=
  struct_of (fun m =>
    success ← bool_field m "success";
    errors ← list_field parse_error m "errors";
    Ok (success, errors)) v.

Definition samePriority (a b : option Z) : bool :=
  match a, b with
  | None, None => true
  | Some a, Some b => a =? b
  | _, _ => false
  end.

(** The record that [rec] replaces *)
Definition matches (rec e : dnsRecord) : bool :=
  String.eqb (Type_ e) (Type_ rec) && String.eqb (Name e) (Name rec) &&
  samePriority (Priority e) (Priority rec).
Definition same_content (rec e : dnsRecord) : bool :=
  String.eqb (Content e) (Content rec) && Bool.eqb (Proxied e) (Proxied rec).

(** The records that [Sync] wants, in its order. *)
Definition wanted (domain alertEmail ip : string) : list dnsRecord :=
  ((fun sub => Rec "" "A" (sub +:+ "." +:+ domain) ip 1 true None) <$> subdomains) ++
  [Rec "" "A" ("smtp." +:+ domain) ip 1 false None;
   Rec "" "MX" domain ("smtp." +:+ domain) 1 false (Some 10);
   Rec "" "TXT" domain "v=spf1 mx ~all" 1 false None] ++
  (if decide (alertEmail = "") then []
   else [Rec "" "TXT" ("_dmarc." +:+ domain)
           ("v=DMARC1; p=quarantine; rua=mailto:" +:+ alertEmail) 1 false None]).

(** [stalwartDKIMTXT] is a stub that never has a key. *)
Definition stalwartDKIMTXT (cfg : config) : option string := None.

Definition http_event (method url token : string) (body : option string) : event :=
  ENet method [url; token; default "" body].

Section dnscf.
Context {E : Env}.

(** The loop over the lines of the trace response, then [scanner.Err] *)
Fixpoint find_ip (lines : list string) (complete : bool) : outcome string :=
  match lines with
  | [] => if complete then Err (Errorf "dnscf: no ip= line in trace response")
      else Err (Wrapf "dnscf: read trace response: " (ErrOS "scan" "token too long"))
  | line :: lines =>
      match cut_prefix line "ip=" with
      | Some ip => Ok ip
      | None => find_ip lines complete
      end
  end.

Definition PublicIP : ST World string :=
  r ← net (http_event "GET" traceURL "" None) http;
  match r with
  | HttpError => lift (Err (Errorf "dnscf: fetch %s: %w"))
  | HttpResponse _ body => let '(lines, complete) := scan body in lift (find_ip lines complete)
  end.

(** [request]; [out] reads what the caller wants from the response. *)
Definition request {A} (method path token : string) (body : option string)
    (out : json -> outcome A) : ST World A :=
  r ← net (http_event method (apiBase +:+ path) token body) http;
  match r with
  | HttpError => lift (Err (Errorf "dnscf: %s %s: %w"))
  | HttpResponse status data =>
      if decide (status >= 400) then lift (Err (Errorf "dnscf: %s %s: HTTP %d: %s"))
      else
        v ← wrap "dnscf: %s %s: parse envelope: " (lift (unmarshal data));
        env ← wrap "dnscf: %s %s: parse envelope: " (lift (parse_envelope v));
        if negb env.1 then lift (Err (Errorf "dnscf: %s %s: API reported failure: %+v"))
        else wrap "dnscf: %s %s: parse result: " (lift (out v))
  end.

Definition no_result (v : json) : outcome unit := Ok tt.

Definition zoneID (domain token : string) : ST World string :=
  ids ← request "GET" ("/zones?name=" +:+ query_escape domain) token None
    (struct_of (fun m => list_field (struct_of (fun z => string_field z "id")) m "result"));
  match ids with
  | [] => lift (Err (Errorf "dnscf: no Cloudflare zone found for domain %q"))
  | id :: _ => mret id
  end.

Definition existingRecords (zone token : string) : ST World (list dnsRecord) :=
  request "GET" ("/zones/" +:+ zone +:+ "/dns_records?per_page=200") token None
    (struct_of (fun m => list_field parse_record m "result")).

Fixpoint upsert (zone token : string) (existing : list dnsRecord) (rec : dnsRecord) : ST World unit :=
  match existing with
  | [] => request "POST" ("/zones/" +:+ zone +:+ "/dns_records") token (Some (marshal_record rec)) no_result
  | e :: existing =>
      if negb (matches rec e) then upsert zone token existing rec
      else if same_content rec e then mret tt
      else request "PUT" ("/zones/" +:+ zone +:+ "/dns_records/" +:+ ID e) token
        (Some (marshal_record rec)) no_result
  end.

Fixpoint upsert_all (zone token : string) (existing recs : list dnsRecord) : ST World unit :=
  match recs with
  | [] => mret tt
  | rec :: recs =>
      _ ← upsert zone token existing rec;
      upsert_all zone token existing recs
  end.

Definition Sync (store : Store) : ST World unit :=
  _ ← RequireDone store "stage1";
  cfg ← Load store;
  let cfg := default ∅ cfg in
  let domain := cfg_string cfg "domain" in
  let token := cfg_string cfg "cloudflare_api_token" in
  let alertEmail := cfg_string cfg "alert_email" in
  if decide (domain = "" \/ token = "") then
    lift (Err (Errorf "dnscf: config.json is missing domain/cloudflare_api_token"))
  else
    ip ← PublicIP;
    zone ← zoneID domain token;
    existing ← existingRecords zone token;
    _ ← upsert_all zone token existing (wanted domain alertEmail ip);
    match stalwartDKIMTXT cfg with
    | Some dkim =>
        upsert zone token existing (Rec "" "TXT" ("default._domainkey." +:+ domain) dkim 1 false None)
    | None =>
        Print_out ("warning: dnscf: no DKIM key available yet -- add default._domainkey TXT manually" +:+ nl)
    end.
End dnscf.

(** ** The decision as a plan

    What [upsert] asks of the zone: nothing, to replace the record with an
    identifier, or to create a record. *)
Inductive action := Keep | Put (id : string) (r : dnsRecord) | Post (r : dnsRecord).

Definition decision (existing : list dnsRecord) (rec : dnsRecord) : action :=
  match find (matches rec) existing with
  | Some e => if same_content rec e then Keep else Put (ID e) rec
  | None => Post rec
  end.

Definition action_event (zone token : string) (a : action) : list event :=
  match a with
  | Keep => []
  | Put id r => [http_event "PUT" (apiBase +:+ "/zones/" +:+ zone +:+ "/dns_records/" +:+ id) token
                  (Some (marshal_record r))]
  | Post r => [http_event "POST" (apiBase +:+ "/zones/" +:+ zone +:+ "/dns_records") token
                 (Some (marshal_record r))]
  end.

(** A DNS zone, as its API documents it: replacing keeps the record's place and
    identifier, creating adds a record with an identifier of its own. *)
Definition with_id (id : string) (r : dnsRecord) : dnsRecord :=
  Rec id (Type_ r) (Name r) (Content r) (TTL r) (Proxied r) (Priority r).

Section zone.
Context (fresh : list dnsRecord -> string).

Definition act (a : action) (z : list dnsRecord) : list dnsRecord :=
  match a with
  | Keep => z
  | Put id r => (fun e => if String.eqb (ID e) id then with_id id r else e) <$> z
  | Post r => z ++ [with_id (fresh z) r]
  end.

(** All the upserts of one run, decided on the listing made at its start. *)
Definition run (existing recs z : list dnsRecord) : list dnsRecord :=
  fold_left (fun z r => act (decision existing r) z) recs z.
End zone.

(** ** Lemmas *)
Definition key (r : dnsRecord) : string * string * option Z := (Type_ r, Name r, Priority r).

Lemma samePriority_eq a b : samePriority a b = true <-> a = b.
Proof. destruct a, b; simpl; rewrite ?Z.eqb_eq; split; congruence. Qed.

Lemma matches_key rec e : matches rec e = true <-> key e = key rec.
Proof.
  unfold matches, key. rewrite !andb_true_iff, !String.eqb_eq, samePriority_eq.
  split; [by intros [[-> ->] ->]|by intros [= -> -> ->]].
Qed.

Lemma matches_false rec e : matches rec e = false <-> key e <> key rec.
Proof. rewrite <- not_true_iff_false, matches_key. done. Qed.

Lemma same_content_refl id r : same_content r (with_id id r) = true.
Proof. unfold same_content. simpl. by rewrite String.eqb_refl, Bool.eqb_reflx. Qed.

Section converge.
Context (fresh : list dnsRecord -> string).
Context (Hfresh : forall z, fresh z ∉ ID <$> z).
Implicit Types (z existing recs : list dnsRecord).

Lemma act_ids a z : NoDup (ID <$> z) -> NoDup (ID <$> act fresh a z).
Proof using Hfresh.
  intros Hz. destruct a as [|id r|r]; simpl; [done| |].
  - rewrite <- list_fmap_compose. erewrite list_fmap_ext; [exact Hz|].
    intros i e _. simpl. by destruct (String.eqb_spec (ID e) id).
  - rewrite fmap_app. apply NoDup_app. split_and!; [done| |by apply NoDup_singleton].
    intros x Hx. simpl. rewrite list_elem_of_singleton. intros ->. by apply (Hfresh z).
Qed.

(** An upsert does not change which record another key finds. *)
Lemma find_other existing r s z :
  key r <> key s -> NoDup (ID <$> z) -> find (matches r) z = find (matches r) existing ->
  find (matches s) (act fresh (decision existing r) z) = find (matches s) z.
Proof using Hfresh.
  intros Hne Hnd Hf. unfold decision. rewrite <- Hf. destruct (find (matches r) z) as [e|] eqn:Hr.
  - destruct (same_content r e); [done|]. simpl.
    apply find_some in Hr as [Hin Hm]. apply matches_key in Hm. apply list_elem_of_In in Hin.
    induction z as [|x z IH]; [done|]. cbn [fmap list_fmap find].
    cbn [fmap list_fmap] in Hnd. apply NoDup_cons in Hnd as [Hni Hnd].
    apply elem_of_cons in Hin as [->|Hin].
    + rewrite String.eqb_refl.
      assert (matches s (with_id (ID x) r) = false) as -> by (by apply matches_false).
      assert (matches s x = false) as -> by (apply matches_false; congruence).
      f_equal. erewrite list_fmap_ext; [by rewrite list_fmap_id|].
      intros i y Hy. destruct (String.eqb_spec (ID y) (ID x)) as [He|]; [|done].
      exfalso. apply Hni. rewrite <- He. apply list_elem_of_fmap_2. by eapply list_elem_of_lookup_2.
    + destruct (String.eqb_spec (ID x) (ID e)) as [He|].
      { exfalso. apply Hni. rewrite He. by apply list_elem_of_fmap_2. }
      destruct (matches s x); [done|]. by apply IH.
  - simpl. clear Hr Hf Hnd. induction z as [|x z IH]; simpl.
    + assert (matches s (with_id (fresh []) r) = false) as ->; [by apply matches_false|done].
    + destruct (matches s x); [done|].
      assert (Hgen : forall id l, find (matches s) (l ++ [with_id id r]) = find (matches s) l).
      { intros id l. induction l as [|y l IHl]; simpl.
        - assert (matches s (with_id id r) = false) as ->; [by apply matches_false|done].
        - by destruct (matches s y). }
      apply Hgen.
Qed.

(** After its own upsert, a record is found with its content. *)
Lemma decision_own existing r z :
  find (matches r) z = find (matches r) existing ->
  decision (act fresh (decision existing r) z) r = Keep.
Proof using.
  intros Hf. unfold decision at 2. rewrite <- Hf. unfold decision.
  destruct (find (matches r) z) as [e|] eqn:Hr.
  - destruct (same_content r e) eqn:Hs; simpl; [by rewrite Hr, Hs|].
    induction z as [|x z IH]; [done|]. cbn [find] in Hr. cbn [fmap list_fmap find].
    destruct (String.eqb_spec (ID x) (ID e)) as [He|He].
    + assert (matches r (with_id (ID e) r) = true) as -> by (by apply matches_key).
      by rewrite same_content_refl.
    + destruct (matches r x); [congruence|].
      clear Hf. induction z as [|y z' IH']; [done|]. 
      by apply IH.
  - simpl. clear Hf. induction z as [|x z IH]; simpl in *.
    + assert (matches r (with_id (fresh []) r) = true) as -> by (by apply matches_key).
      by rewrite same_content_refl.
    + destruct (matches r x); [done|].
      assert (Hgen : forall id l, find (matches r) l = None ->
        find (matches r) (l ++ [with_id id r]) = Some (with_id id r)).
      { intros id l. induction l as [|y l IHl]; simpl.
        - assert (matches r (with_id id r) = true) as ->; [by apply matches_key|done].
        - by destruct (matches r y). }
      rewrite Hgen by done. by rewrite same_content_refl.
Qed.

Lemma decision_find z z' r :
  find (matches r) z = find (matches r) z' -> decision z r = decision z' r.
Proof using. unfold decision. by intros ->. Qed.

Lemma run_converges existing recs z :
  NoDup (key <$> recs) -> NoDup (ID <$> z) ->
  (forall r, r ∈ recs -> find (matches r) z = find (matches r) existing) ->
  let z' := run fresh existing recs z in
  (forall r, r ∈ recs -> decision z' r = Keep) /\
  (forall s, (forall r, r ∈ recs -> key r <> key s) -> find (matches s) z' = find (matches s) z) /\
  (forall e, e ∈ z -> (forall r, r ∈ recs -> key r <> key e) -> e ∈ z').
Proof using Hfresh.
  revert z. induction recs as [|r recs IH]; intros z Hk Hnd Hf; simpl.
  { split_and!; [by intros ? ?%elem_of_nil|done|done]. }
  cbn [fmap list_fmap] in Hk. apply NoDup_cons in Hk as [Hni Hk].
  set (z1 := act fresh (decision existing r) z).
  assert (Hr : find (matches r) z = find (matches r) existing) by (apply Hf; left).
  assert (Hne : forall s, s ∈ recs -> key r <> key s).
  { intros s Hs He. apply Hni. rewrite He. by apply list_elem_of_fmap_2. }
  destruct (IH z1 Hk (act_ids _ _ Hnd)) as (Ha & Hb & Hc).
  { intros s Hs. unfold z1. rewrite (find_other existing r s z) by auto. apply Hf. by right. }
  split_and!.
  - intros s [->|Hs]%elem_of_cons; [|by apply Ha].
    rewrite (decision_find _ z1); [by apply decision_own|]. apply Hb.
    intros s' Hs' He. by apply (Hne s').
  - intros s Hs. rewrite Hb by (intros s' Hs'; apply Hs; by right).
    apply find_other; [apply Hs; left|done|done].
  - intros e He Hs. apply Hc; [|intros s' Hs'; apply Hs; by right].
    unfold z1, decision. rewrite <- Hr. destruct (find (matches r) z) as [x|] eqn:Hx.
    + destruct (same_content r x); [done|]. simpl. apply find_some in Hx as [Hin Hm].
      apply matches_key in Hm. apply list_elem_of_In in Hin.
      apply list_elem_of_fmap. exists e. split; [|done].
      destruct (String.eqb_spec (ID e) (ID x)) as [Hid|]; [|done]. exfalso.
      assert (e = x) as ->; [|by apply (Hs r); [left|]].
      clear -Hnd He Hin Hid. induction z as [|y z IH]; [by apply elem_of_nil in He|].
      cbn [fmap list_fmap] in Hnd. apply NoDup_cons in Hnd as [Hni Hnd].
      apply elem_of_cons in He as [->|He], Hin as [->|Hin]; auto.
      * exfalso. apply Hni. rewrite Hid. by apply list_elem_of_fmap_2.
      * exfalso. apply Hni. rewrite <- Hid. by apply list_elem_of_fmap_2.
    + simpl. apply elem_of_app. by left.
Qed.
End converge.

Lemma wanted_keys domain alertEmail ip : NoDup (key <$> wanted domain alertEmail ip).
Proof.
  assert (Hd : forall p, domain = String "_" p +:+ domain -> False).
  { intros p Hp%(f_equal slen). rewrite slen_app in Hp. simpl in Hp. lia. }
  unfold wanted. rewrite !fmap_app, <- !list_fmap_compose. unfold compose, key. simpl.
  destruct (decide (alertEmail = "")); simpl;
    repeat (apply NoDup_cons; split; [set_unfold; intros Hin; destruct_or?; try done; simplify_eq; eauto|]);
    try apply NoDup_nil_2.
  all: match goal with H : _ = String "_" _ |- _ => exact (Hd "dmarc." H) end.
Qed.

Section requests.
Context {E : Env}.

Lemma request_log {A} method path token body (out : json -> outcome A) w :
  let w' := (request method path token body out w).2 in
  log w' = http_event method (apiBase +:+ path) token body :: log w /\ fs w' = fs w.
Proof.
  unfold request, mbind, ST_bind, net, wrap, lift. cbn [log add_log].
  destruct (http _) as [|status data]; [done|]. case_decide; [done|].
  destruct (unmarshal data) as [v| | |]; [|done..]. cbn [wrapf].
  destruct (parse_envelope v) as [env| | |]; [|done..]. cbn [wrapf].
  by destruct (negb env.1).
Qed.

Lemma upsert_log zone token existing rec w :
  let '(r, w') := upsert zone token existing rec w in
  log w' = action_event zone token (decision existing rec) ++ log w /\ fs w' = fs w /\
  (decision existing rec = Keep -> r = Ok tt).
Proof.
  unfold decision. induction existing as [|e existing IH].
  - cbn [upsert find]. pose proof (request_log "POST" ("/zones/" +:+ zone +:+ "/dns_records") token
      (Some (marshal_record rec)) no_result w) as Hr.
    destruct (request _ _ _ _ _ w) as [r w']. cbn [snd] in Hr. cbv zeta in Hr.
    destruct Hr as [-> ->]. by split_and!.
  - cbn [upsert find]. destruct (matches rec e) eqn:Hm; cbn [negb]; [|exact IH].
    destruct (same_content rec e); [done|].
    pose proof (request_log "PUT" ("/zones/" +:+ zone +:+ "/dns_records/" +:+ ID e) token
      (Some (marshal_record rec)) no_result w) as Hr.
    destruct (request _ _ _ _ _ w) as [r w']. cbn [snd] in Hr. cbv zeta in Hr.
    destruct Hr as [-> ->]. by split_and!.
Qed.

Lemma request_log_ok {A} method path token body (out : json -> outcome A) w r w' :
  request method path token body out w = (r, w') ->
  log w' = http_event method (apiBase +:+ path) token body :: log w.
Proof. intros H. pose proof (request_log method path token body out w) as Hl. rewrite H in Hl. apply Hl. Qed.

(** The requests of a list of actions, newest first. *)
Definition plan_events (zone token : string) (existing recs : list dnsRecord) : list event :=
  concat ((fun r => action_event zone token (decision existing r)) <$> rev recs).

Lemma plan_events_net zone token existing recs :
  requests (plan_events zone token existing recs) = plan_events zone token existing recs.
Proof using.
  unfold plan_events. induction (rev recs) as [|r l IH]; [done|]. cbn [fmap list_fmap concat].
  rewrite requests_app, IH. f_equal. by destruct (decision existing r).
Qed.

Lemma upsert_all_log zone token existing recs w w' :
  upsert_all zone token existing recs w = (Ok tt, w') ->
  log w' = plan_events zone token existing recs ++ log w /\ fs w' = fs w.
Proof.
  revert w. induction recs as [|r recs IH]; intros w H; [by injection H as <-|].
  cbn [upsert_all] in H. apply bind_Ok_inv_st in H as ([] & w1 & Hu & H).
  apply IH in H as [Hl Hf]. pose proof (upsert_log zone token existing r w) as Hr.
  rewrite Hu in Hr. destruct Hr as (Hr & Hf1 & _). split; [|by rewrite Hf].
  rewrite Hl, Hr, (assoc_L (++)). f_equal. unfold plan_events. cbn [rev].
  rewrite fmap_app, concat_app. cbn [fmap list_fmap concat]. by rewrite (right_id_L [] (++)).
Qed.
End requests.

(** ** The operations end *)
Lemma fine_parse_envelope v : fine (parse_envelope v).
Proof. unfold parse_envelope, parse_error. auto 14 with fine. Qed.
Lemma fine_parse_record v : fine (parse_record v).
Proof. unfold parse_record. auto 20 with fine. Qed.
Lemma fine_find_ip lines complete : fine (find_ip lines complete).
Proof. induction lines as [|l lines IH]; cbn [find_ip]; [by destruct complete|]. by destruct (cut_prefix _ _). Qed.

Section ends.
Context {E : Env}.

Lemma ends_PublicIP : ends PublicIP.
Proof.
  unfold PublicIP. apply ends_bind; [auto with ends|]. intros [|code body]; [auto with ends|].
  destruct (scan body). apply ends_lift, fine_find_ip.
Qed.
Lemma ends_request {A} method path token body (out : json -> outcome A) :
  (forall v, fine (out v)) -> ends (request method path token body out).
Proof.
  intros Ho. unfold request. apply ends_bind; [auto with ends|]. intros [|status data]; [auto with ends|].
  case_decide; [auto with ends|]. apply ends_bind; [apply ends_wrap, ends_lift, fine_unmarshal|]. intros v.
  apply ends_bind; [apply ends_wrap, ends_lift, fine_parse_envelope|]. intros env.
  destruct (negb env.1); [auto with ends|]. apply ends_wrap, ends_lift, Ho.
Qed.
Lemma ends_upsert zone token existing rec : ends (upsert zone token existing rec).
Proof. induction existing as [|e l IH]; cbn [upsert]; [by apply ends_request|]. do 2 (case_match; [auto with ends|]). by apply ends_request. Qed.
Lemma ends_Sync store : ends (Sync store).
Proof.
  unfold Sync. cbv zeta. apply ends_bind; [auto with ends|]. intros _. apply ends_bind; [auto with ends|]. intros loaded.
  case_decide; [auto with ends|].
  apply ends_bind; [apply ends_PublicIP|]. intros ip. apply ends_bind.
  { unfold zoneID. apply ends_bind; [apply ends_request; auto 8 with fine|]. intros []; auto with ends. }
  intros zone. apply ends_bind; [apply ends_request; auto using fine_parse_record with fine|]. intros existing. apply ends_bind.
  { match goal with |- ends (upsert_all _ _ _ ?l) => generalize l end. intros recs.
    induction recs as [|r recs IH]; cbn [upsert_all]; [auto with ends|]. auto using ends_upsert with ends. }
  intros _. destruct (stalwartDKIMTXT _); auto using ends_upsert with ends.
Qed.
End ends.

(** ** [Sync] succeeds, when the API does what it is asked

    [replied ev l v]: a successful exchange, with a response whose JSON value is [v] *)
Definition replied `{Env} (ev : event) (l : list event) (v : json) : Prop := exists status data errs,
  http (ev :: l) = HttpResponse status data /\ status < 400 /\ unmarshal data = Ok v /\ parse_envelope v = Ok (true, errs).
Definition zone_ids (v : json) : outcome (list string) :=
  struct_of (fun m => list_field (struct_of (fun z => string_field z "id")) m "result") v.
Definition zone_records (v : json) : outcome (list dnsRecord) :=
  struct_of (fun m => list_field parse_record m "result") v.

Class CloudApi {E : Env} : Prop := {
  trace_answers : forall l, exists status body lines complete ip,
    http (http_event "GET" traceURL "" None :: l) = HttpResponse status body /\
    scan body = (lines, complete) /\ find_ip lines complete = Ok ip;
  zones_answer : forall domain token l, exists v id ids,
    replied (http_event "GET" (apiBase +:+ "/zones?name=" +:+ query_escape domain) token None) l v /\
    zone_ids v = Ok (id :: ids);
  records_answer : forall zone token l, exists v recs,
    replied (http_event "GET" (apiBase +:+ "/zones/" +:+ zone +:+ "/dns_records?per_page=200") token None) l v /\
    zone_records v = Ok recs;
  upserts_answer : forall method path token rec l, exists v,
    replied (http_event method (apiBase +:+ path) token (Some (marshal_record rec))) l v;
}.

Section succeed.
Context {E : Env} `{!NoFaults, !CloudApi}.

Lemma request_returns {A} method path token body (out : json -> outcome A) v a w :
  replied (http_event method (apiBase +:+ path) token body) (log w) v -> out v = Ok a ->
  returns (request method path token body out) (fun r _ => r = a) w.
Proof.
  intros (status & data & errs & Hh & Hs & Hu & He) Ho. unfold request. apply returns_bind, returns_net.
  rewrite Hh. rewrite decide_False by lia. apply returns_bind, returns_wrap. apply returns_lift with (a := v); [done|].
  apply returns_bind, returns_wrap. apply returns_lift with (a := (true, errs)); [done|].
  cbn [fst negb]. by apply returns_wrap, returns_lift with (a := a).
Qed.

Lemma upsert_returns zone token existing rec w : returns (upsert zone token existing rec) (fun _ _ => True) w.
Proof.
  assert (Hr : forall method path v, returns (request method path token (Some (marshal_record rec)) no_result) (fun _ _ => True) v).
  { intros method path v. destruct (upserts_answer method path token rec (log v)) as [x Hx].
    by eapply returns_mono; [by eapply request_returns|]. }
  induction existing as [|e l IH]; cbn [upsert]; [apply Hr|]. repeat case_match; [done|done|apply Hr].
Qed.
Lemma upsert_all_returns zone token existing recs w : returns (upsert_all zone token existing recs) (fun _ _ => True) w.
Proof.
  revert w. induction recs as [|r l IH]; intros w; cbn [upsert_all]; [done|]. apply returns_bind.
  eapply returns_mono; [apply upsert_returns|]. intros _ w' _. apply IH.
Qed.

Lemma Sync_returns store cfg w :
  exists_at (fs w) (markerPath store "stage1") = true -> stored store (fs w) = Ok (Some cfg) ->
  cfg_string cfg "domain" <> "" -> cfg_string cfg "cloudflare_api_token" <> "" -> returns (Sync store) (fun _ _ => True) w.
Proof.
  intros Hs Hc Hd Ht. unfold Sync. apply returns_bind. eapply returns_mono; [by apply RequireDone_returns|]. intros _ w1 [Hf _].
  apply returns_bind. eapply returns_mono; [apply Load_returns; by rewrite Hf|]. intros c w2 (-> & _).
  cbv zeta. cbn [default]. rewrite decide_False by tauto. apply returns_bind.
  unfold PublicIP. apply returns_bind, returns_net.
  destruct (trace_answers (log w2)) as (status & body & lines & complete & ip & -> & Hb & Hi). rewrite Hb.
  apply returns_lift with (a := ip); [done|]. apply returns_bind. unfold zoneID. apply returns_bind. set (w3 := add_log _ w2).
  destruct (zones_answer (cfg_string cfg "domain") (cfg_string cfg "cloudflare_api_token") (log w3)) as (v & id & ids & Hr & Hv).
  eapply returns_mono; [by eapply request_returns|]. intros ? w4 ->. apply returns_ret, returns_bind.
  destruct (records_answer id (cfg_string cfg "cloudflare_api_token") (log w4)) as (v' & recs & Hr' & Hv').
  eapply returns_mono; [by eapply request_returns|]. intros ? w5 ->. apply returns_bind.
  eapply returns_mono; [apply upsert_all_returns|]. intros _ w6 _. by destruct (stalwartDKIMTXT cfg).
Qed.
End succeed.

(** * Properties *)

(** An upsert makes exactly the request that is needed, whatever the API
    answers: none when the first record of the same type, name and priority has
    the content and proxying that is wanted, a PUT on that record when it
    differs, a POST when there is none; files are not touched. *)
Theorem upsert_requests `{Env} zone token existing rec w :
  let '(r, w') := upsert zone token existing rec w in
  log w' = action_event zone token (decision existing rec) ++ log w /\ fs w' = fs w /\
  (decision existing rec = Keep -> r = Ok tt).
Proof. apply upsert_log. Qed.



(** * Witnesses *)

(** A zone identifies a new record by the longest identifier and one more
    character. *)
Definition longer (z : list dnsRecord) : string :=
  foldr (fun r s => if (slen s <=? slen (ID r))%nat then String "x" (ID r) else s) "x" z.
Lemma longer_fresh z : longer z ∉ ID <$> z.
Proof.
  assert (H : forall r, r ∈ z -> (slen (ID r) < slen (longer z))%nat).
  { induction z as [|r z IH]; [by intros ? ?%elem_of_nil|].
    intros s [->|Hs]%elem_of_cons; simpl; destruct (Nat.leb_spec (slen (longer z)) (slen (ID r)));
      simpl; fold (longer z) in *; try lia; specialize (IH s Hs); lia. }
  intros (r & He & Hr)%list_elem_of_fmap. specialize (H r Hr). rewrite <- He in H. lia.
Qed.

Definition sample_zone : list dnsRecord := [
  Rec "1" "A" "mail.example.org" "192.0.2.7" 1 true None;
  Rec "2" "MX" "example.org" "smtp.example.org" 1 false (Some 10);
  Rec "3" "CNAME" "www.example.org" "example.net" 300 true None].


(** Text of a JSON object with one array member, as the API sends it. *)
Definition api_text (result : json) : string :=
  marshal (JObj {["success" := JBool true; "errors" := JArr []; "result" := result]}).

#[local] Instance cloud : Env := simple_env (fun _ f _ => (Exited 0 "" "", f))
  (fun l => match l with
    | ENet "GET" (url :: _) :: _ =>
        if contains url "trace" then HttpResponse 200 ("fl=1" +:+ nl +:+ "ip=192.0.2.1" +:+ nl)
        else if contains url "dns_records" then HttpResponse 200 (api_text (JArr []))
        else HttpResponse 200 (api_text (JArr [JObj {["id" := JStr "z1"]}]))
    | _ => HttpResponse 200 (api_text JNull)
    end) (fun _ => true).

Definition synced : World := MkWorld {[
  "/etc/slfhst/config.json" := NFile (marshal_indent (JObj {[
     "domain" := JStr "example.org"; "cloudflare_api_token" := JStr "t0"]})) 384 0 0;
  "/var/lib/slfhst/stage1.done" := NFile "" 420 0 0]} "" [].

