(* ===== verification/Bus.v ===== *)
(** The interface between the D-Bus client and the components that use it: a
    typeclass with the one operation they need, the client of Conn.v as its
    implementation, and an abstract bus that records the calls made to it. *)
From S2P Require Import Prelude Bytes GoStrings Signature Marshal MarshalSpec MarshalSafety Message Conn World.

(** A method call, as its caller writes it. *)
Record bus_call := BCall {
  b_path : string;
  b_iface : string;
  b_method : string;
  b_insig : string;
  b_args : list any;
  b_outsig : string;
  b_dest : list Assign.dest_ty;
}.

(** [call destination c]: the values stored through [dest], or the error; a
    [CallError] is an answer of the remote end. *)
Class BusClient (C : Type) := call : string -> bus_call -> ST C (list any).

(** The implementation: [Conn.Call]. *)
#[export] Instance conn_client `{MapRange} : BusClient Conn := fun destination c =>
  Call destination (b_path c) (b_iface c) (b_method c) (b_insig c) (b_args c) (b_outsig c) (b_dest c).

(** An abstract bus: what was called, newest first, and the answer to the call
    at the head.  Answers are well formed when the call succeeds: as many values
    as destinations. *)
Record Oracle := MkOracle { calls : list bus_call }.
Class Answers := answer : list bus_call -> outcome (list any).
#[export] Instance oracle_client `{Answers} : BusClient Oracle := fun _ c o =>
  (answer (c :: calls o), MkOracle (c :: calls o)).

(** ** Components act on the world and on a connection *)
Section bus.
Context {C : Type}.

Definition on_world {A} (m : ST World A) : ST (World * C) A := fun '(w, c) =>
  let '(r, w) := m w in (r, (w, c)).
Definition on_conn {A} (m : ST C A) : ST (World * C) A := fun '(w, c) =>
  let '(r, c) := m c in (r, (w, c)).
End bus.

(** [dbus.SystemBus()], the component's work, and the deferred [Close]. *)
Definition with_system_bus `{Env, MapRange} {A} (fmt : string) (m : ST (World * Conn) A) : ST World A := fun w =>
  let ev := ENet "dial" ["/run/dbus/system_bus_socket"] in
  let w := add_log ev w in
  match bus (log w) with
  | None => (Err (Wrapf fmt (Errorf "dbus: dial %s: ")), w)
  | Some stream =>
      match Dial (fresh_conn my_uid all_writes stream) with
      | (Ok _, c) => let '(r, (w, _)) := m (w, c) in (r, w)
      | (Err e, _) => (Err (Wrapf fmt e), w)
      | (Panic, _) => (Panic, w)
      | (OutOfFuel, _) => (OutOfFuel, w)
      end
  end.

(** [errors.Join] *)
Definition join_errors (errs : list error) : outcome unit :=
  match errs with [] => Ok tt | _ => Err (Joined errs) end.

(** The only value stored by a call with one destination. *)
Definition string_result (vs : list any) : string :=
  match vs with VString s :: _ => s | _ => "" end.

(** ** Every call that a computation makes

    [calls_ok P m]: whatever the bus answers, [m] only makes calls that satisfy
    [P]. *)
Section calls_ok.
Context `{Answers} (P : bus_call -> Prop).

Definition calls_ok {A} (m : ST (World * Oracle) A) : Prop :=
  forall s, Forall P (calls s.2) -> Forall P (calls (m s).2.2).

Lemma calls_ok_bind {A B} (m : ST (World * Oracle) A) (k : A -> ST (World * Oracle) B) :
  calls_ok m -> (forall a, calls_ok (k a)) -> calls_ok (m ≫= k).
Proof.
  intros Hm Hk s Hs. specialize (Hm s Hs). unfold mbind, ST_bind.
  destruct (m s) as [[a| | |] s']; try done. by apply Hk.
Qed.

Lemma calls_ok_wrap {A} fmt (m : ST (World * Oracle) A) : calls_ok m -> calls_ok (wrap fmt m).
Proof. intros Hm s Hs. specialize (Hm s Hs). unfold wrap. by destruct (m s). Qed.

Lemma calls_ok_try {A} (m : ST (World * Oracle) A) : calls_ok m -> calls_ok (try m).
Proof. intros Hm s Hs. specialize (Hm s Hs). unfold try. by destruct (m s) as [[]]. Qed.

Lemma calls_ok_lift {A} (r : outcome A) : calls_ok (lift r).
Proof. by intros s Hs. Qed.

Lemma calls_ok_ret {A} (a : A) : calls_ok (mret a).
Proof. by intros s Hs. Qed.

Lemma calls_ok_world {A} (m : ST World A) : calls_ok (on_world m).
Proof. intros [w o] Hs. unfold on_world. by destruct (m w). Qed.

Lemma calls_ok_call d c : P c -> calls_ok (on_conn (call d c)).
Proof. intros Hc [w o] Hs. by constructor. Qed.
End calls_ok.

#[export] Hint Resolve calls_ok_bind calls_ok_wrap calls_ok_try calls_ok_lift calls_ok_ret
  calls_ok_world calls_ok_call : calls.

(** ** What a computation over a connection logs

    The world of a component over any client only gains the events of its
    operations on the world, and the dialing of the bus. *)
Section quiet_on.
Context {E : Env} {C : Type} (P : event -> Prop).

Definition quiet_on {A} (m : ST (World * C) A) : Prop := forall s,
  exists new, log (m s).2.1 = new ++ log s.1 /\ Forall P new.

Lemma quiet_on_bind {A B} (m : ST (World * C) A) (k : A -> ST (World * C) B) :
  quiet_on m -> (forall a, quiet_on (k a)) -> quiet_on (m ≫= k).
Proof.
  intros Hm Hk s. destruct (Hm s) as (n1 & Hl & Hf). unfold mbind, ST_bind.
  destruct (m s) as [[a|e| |] s1]; [|by exists n1..]. cbn [snd] in Hl.
  destruct (Hk a s1) as (n2 & Hl2 & Hf2). exists (n2 ++ n1).
  split; [by rewrite Hl2, Hl, (assoc_L (++))|by apply Forall_app].
Qed.
Lemma quiet_on_wrap {A} fmt (m : ST (World * C) A) : quiet_on m -> quiet_on (wrap fmt m).
Proof. intros Hm s. specialize (Hm s). unfold wrap. by destruct (m s). Qed.
Lemma quiet_on_try {A} (m : ST (World * C) A) : quiet_on m -> quiet_on (try m).
Proof. intros Hm s. specialize (Hm s). unfold try. by destruct (m s) as [[]]. Qed.
Lemma quiet_on_lift {A} (r : outcome A) : quiet_on (lift r).
Proof. intros s. exists []. by split. Qed.
Lemma quiet_on_ret {A} (a : A) : quiet_on (mret a).
Proof. intros s. exists []. by split. Qed.
Lemma quiet_on_world {A} (m : ST World A) : quiet P m -> quiet_on (on_world m).
Proof.
  intros Hm [w c]. specialize (Hm w). unfold on_world. destruct (m w) as [r w'].
  destruct Hm as (new & ? & ? & _). by exists new.
Qed.
Lemma quiet_on_conn {A} (m : ST C A) : quiet_on (on_conn m).
Proof. intros [w c]. unfold on_conn. destruct (m c) as [r c']. exists []. by split. Qed.
End quiet_on.

#[export] Hint Resolve quiet_on_bind quiet_on_wrap quiet_on_try quiet_on_lift quiet_on_ret quiet_on_world
  quiet_on_conn : quiet.

Lemma quiet_system_bus `{Env, MapRange} {A} (P : event -> Prop) fmt (m : ST (World * Conn) A) :
  P (ENet "dial" ["/run/dbus/system_bus_socket"]) -> quiet_on P m -> quiet P (with_system_bus fmt m).
Proof.
  intros HP Hm w. unfold with_system_bus. set (w1 := add_log _ w).
  assert (Hd : forall r : outcome A, exists new, log w1 = new ++ log w /\ Forall P new /\ forall a, r = Ok a -> True)
    by (intros r; eexists [_]; split_and!; [done|by constructor|done]).
  destruct (bus (log w1)) as [stream|]; [|apply Hd].
  destruct (Dial _) as [[u|e| |] c]; [|apply Hd..].
  destruct (Hm (w1, c)) as (new & Hl & Hf). destruct (m (w1, c)) as [r [w' c']]. cbn [fst snd] in Hl.
  exists (new ++ [ENet "dial" ["/run/dbus/system_bus_socket"]]). split_and!; [|by apply Forall_app; split; [|constructor]|done].
  by rewrite Hl, <- (assoc_L (++)).
Qed.

(** A call whose arguments have the types of its signature, nested at most three
    deep: the client can always encode it ([encodable_call]). *)
Definition well_typed (c : bus_call) : Prop :=
  exists ts, b_insig c = sig_of_list ts /\ Forall2 (typed 3) ts (b_args c) /\ (slen (b_insig c) < 256)%nat.

(** The bytes that [Conn.Call] makes for a call are its message. *)
Definition encodable `{MapRange} (c : bus_call) : Prop :=
  forall serial destination, exists ts bs,
    encodeMethodCall (depth (VAnys (b_args c))) serial destination
      (b_path c) (b_iface c) (b_method c) (b_insig c) (b_args c) = Ok bs /\
    message_wire (call_message serial destination (b_path c) (b_iface c) (b_method c) ts (b_args c)) bs.

Lemma encodable_call `{MapRangeOk} c : well_typed c -> encodable c.
Proof.
  intros (ts & Hs & Ht & Hl) serial destination. rewrite Hs in *.
  destruct (encodeMethodCall_wire (depth (VAnys (b_args c))) (depth (VAnys (b_args c))) serial destination
    (b_path c) (b_iface c) (b_method c) ts (b_args c)) as (bs & He & Hw); try done; [|eauto].
  by eapply typed_args_depth.
Qed.
