(* ===== verification/Peer.v ===== *)
(** The D-Bus client and a peer that keeps to the protocol's signatures: every call
    ends, whatever messages the peer sends, in whatever order and however short
    its stream is cut; and so does everything that is built on calls. *)
From S2P Require Import Prelude Bytes GoStrings Signature SigParse Marshal Checked MarshalSpec MarshalSafety Message MessageSafety.
From S2P Require Import Conn World Bus.

(** ** Streams without garbled messages

    [next] is what is left of a stream after reading one message, or after
    failing to. *)
Definition next (bs : list byte) : list byte := (readMessage bs).2.
Definition lawful (bs : list byte) : Prop := forall k, ~ garbled (Nat.iter k next bs).

Lemma lawful_here bs : lawful bs -> ~ garbled bs.
Proof. intros Hc. exact (Hc 0%nat). Qed.
Lemma lawful_next bs : lawful bs -> lawful (next bs).
Proof. intros Hc k. rewrite <- Nat.iter_succ_r. apply Hc. Qed.

(** A stream of well-formed messages is one. *)
Lemma lawful_messages ms bss : Forall2 sends ms bss -> lawful (concat bss).
Proof.
  intros Hs k. revert ms bss Hs. induction k as [|k IH]; intros ms bss Hs.
  - destruct Hs as [|m bs ms bss (Hw & Hok & Hsz) _]; [by intros (e & [= <-] & [=])|].
    by apply (message_not_garbled m).
  - rewrite Nat.iter_succ_r. destruct Hs as [|m bs ms bss (Hw & Hok & Hsz) Hs]; [by apply (IH [] [])|].
    unfold next. cbn [concat]. rewrite (readMessage_wire m) by done. by apply (IH ms).
Qed.

(** ** What a call leaves

    [good Q m]: on a lawful stream, [m] ends with a value that satisfies [Q] or an
    error, and leaves the stream lawful. *)
Definition good {A} (Q : A -> Prop) (m : ST Conn A) : Prop := forall c, lawful (incoming c) ->
  lawful (incoming (m c).2) /\ match (m c).1 with Ok a => Q a | Err _ => True | Panic | OutOfFuel => False end.

Lemma good_bind {A B} (Q : A -> Prop) (R : B -> Prop) (m : ST Conn A) (k : A -> ST Conn B) :
  good Q m -> (forall a, Q a -> good R (k a)) -> good R (m ≫= k).
Proof.
  intros Hm Hk c Hc. destruct (Hm c Hc) as [Hc' Hr]. unfold mbind, ST_bind.
  destruct (m c) as [[a|e| |] c']; simpl in *; try done. by apply (Hk a Hr c').
Qed.
Lemma good_wrap {A} (Q : A -> Prop) s (m : ST Conn A) : good Q m -> good Q (wrap s m).
Proof. intros Hm c Hc. destruct (Hm c Hc) as [? Hr]. unfold wrap. by destruct (m c) as [[]]. Qed.
Lemma good_try {A} (Q : A -> Prop) (m : ST Conn A) :
  good Q m -> good (fun r => match r with inl a => Q a | inr _ => True end) (try m).
Proof. intros Hm c Hc. destruct (Hm c Hc) as [? Hr]. unfold try. by destruct (m c) as [[]]. Qed.
Lemma good_lift {A} (Q : A -> Prop) (r : outcome A) :
  match r with Ok a => Q a | Err _ => True | _ => False end -> good Q (lift r).
Proof. by intros Hr c Hc. Qed.
Lemma good_ret {A} (Q : A -> Prop) (a : A) : Q a -> good Q (mret a).
Proof. by intros Ha c Hc. Qed.
Lemma good_weaken {A} (Q R : A -> Prop) (m : ST Conn A) : good Q m -> (forall a, Q a -> R a) -> good R m.
Proof. intros Hm HR c Hc. destruct (Hm c Hc) as [? Hr]. destruct (m c) as [[]]; simpl in *; auto. Qed.
(** What does not read the stream *)
Lemma good_quiet {A} (Q : A -> Prop) (m : ST Conn A) :
  (forall c, incoming (m c).2 = incoming c /\ match (m c).1 with Ok a => Q a | Err _ => True | _ => False end) ->
  good Q m.
Proof. intros Hm c Hc. destruct (Hm c) as [He Hr]. by rewrite He. Qed.
Lemma good_Write b : good (fun _ => True) (Write b).
Proof. apply good_quiet. intros c. unfold Write. by case_match. Qed.
Lemma good_Close : good (fun _ => True) Close.
Proof. by apply good_quiet. Qed.

(** The values stored by a call: those of some body of the call's signature *)
Definition answered (outSig : string) (dest : list Assign.dest_ty) (ws : list any) : Prop :=
  outSig = "" \/ exists body, Assign.decodeInto body outSig dest = Ok ws.

Lemma assign_fine dest v : fine (Assign.assign dest v).
Proof.
  destruct dest, v; try done. simpl. apply fine_bind; [|done].
  induction vs as [|x vs IH]; [done|]. destruct x; try done. simpl. by apply fine_bind.
Qed.
Lemma decodeInto_fine body sig dest : fine (Assign.decodeInto body sig dest).
Proof.
  unfold Assign.decodeInto. generalize 0%nat. assert (Hg : (slen sig <= slen sig)%nat) by lia. revert Hg.
  generalize (slen sig) at 2 3. intros gas. revert sig.
  induction gas as [|gas IH]; intros [|c sig] Hg i; cbn [Assign.decodeInto_loop]; try done; [simpl in Hg; lia|].
  apply fine_bind_ok; [apply splitSig_fine|]. intros [f r] [Hs Hne]%splitSig_app.
  case_match; [|done]. case_match; [|done]. apply fine_bind; [apply fine_wrapf, assign_fine|]. intros w.
  apply fine_bind; [|done]. apply IH. rewrite <- Hs, slen_app in Hg. destruct f; [done|simpl in Hg; lia].
Qed.

(** ** A call on a lawful stream *)
Lemma Call_loop_ends gas ser outSig dest c :
  lawful (incoming c) -> (length (incoming c) < gas)%nat ->
  let '(r, c') := Call_loop gas ser outSig dest c in
  lawful (incoming c') /\ match r with Ok ws => answered outSig dest ws | Err _ => True | _ => False end.
Proof.
  revert c. induction gas as [|gas IH]; intros c Hc Hg; [lia|]. cbn [Call_loop].
  pose proof (lawful_next _ Hc) as Hn. pose proof (readMessage_ends _ (lawful_here _ Hc)) as He. unfold next in Hn.
  unfold mbind, ST_bind, wrap, read. destruct (readMessage (incoming c)) as [[reply|e| |] rest]; cbn in *; try done.
  case_decide; [apply IH; simpl; [done|lia]|]. unfold lift. split; [done|]. unfold reply_result.
  destruct (Ascii.eqb _ _); [done|]. case_decide; [by left|].
  generalize (decodeInto_fine (body reply) outSig dest). destruct (Assign.decodeInto _ _ _) eqn:Hd; try done.
  right. by eexists.
Qed.

Section call.
Context `{MapRangeOk}.

Lemma good_call destination c : well_typed c -> good (answered (b_outsig c) (b_dest c)) (call destination c).
Proof.
  intros Hw s Hs. unfold call, conn_client, Call, nextSerial, wrap, lift, Write, st_get, st_modify, mbind, ST_bind, mret, ST_ret.
  cbn -[encodeMethodCall Call_loop depth to_unsigned].
  destruct (encodable_call c Hw (to_unsigned 32 (serial s + 1)) destination) as (ts & bs & He & _). rewrite He.
  cbn -[Call_loop to_unsigned]. destruct (write_ok s _); [|done]. cbn -[Call_loop to_unsigned].
  match goal with |- context [Call_loop ?g ?n ?o ?d ?c0] => pose proof (Call_loop_ends g n o d c0) as Hc end.
  cbn [incoming add_write set_serial] in Hc. specialize (Hc Hs ltac:(lia)). by destruct (Call_loop _ _ _ _ _).
Qed.
End call.

(** One value of a complete type *)
Lemma decodeInto_one body sig p ws :
  sig <> "" -> splitSig sig = Ok (sig, "") -> Assign.decodeInto body sig [p] = Ok ws ->
  exists v w, Assign.assign p v = Ok w /\ ws = [w].
Proof.
  intros Hne Hs. destruct sig as [|c sig]; [done|]. unfold Assign.decodeInto. cbn [String.length Assign.decodeInto_loop].
  rewrite Hs. cbn [mbind outcome_bind]. destruct body as [|v body]; [done|]. cbn [lookup list_lookup].
  destruct (Assign.assign p v) as [w|e| |] eqn:Hw; try done. cbn [wrapf mbind outcome_bind].
  intros Hd. exists v, w. split; [done|]. destruct (slen sig); injection Hd as <-; done.
Qed.
Lemma answered_string sig ws :
  sig <> "" -> splitSig sig = Ok (sig, "") -> answered sig [Assign.PString] ws -> exists s, ws = [VString s].
Proof.
  intros Hne Hs [->|[body Hb]]; [done|]. destruct (decodeInto_one _ _ _ _ Hne Hs Hb) as (v & w & Hv & ->).
  destruct v; try done. injection Hv as <-. by eexists.
Qed.
Lemma answered_items sig ws :
  sig <> "" -> splitSig sig = Ok (sig, "") -> answered sig [Assign.PAnys] ws -> exists vs, ws = [VAnys vs].
Proof.
  intros Hne Hs [->|[body Hb]]; [done|]. destruct (decodeInto_one _ _ _ _ Hne Hs Hb) as (v & w & Hv & ->).
  destruct v; injection Hv as <-; by eexists.
Qed.

(** ** Dialing *)
Lemma readLine_fine bs : fine (readLine bs).1.
Proof. induction bs as [|b bs IH]; simpl; [done|]. case_match; [done|]. by destruct (readLine bs) as [[]]. Qed.

Lemma authenticate_ends c :
  let '(r, c') := authenticate c in
  match r with Ok _ => incoming c' = (readLine (incoming c)).2 | Err _ => True | _ => False end.
Proof.
  unfold authenticate, mbind, ST_bind, wrap, Write, st_get, read.
  destruct (write_ok c _); [|done]. cbn -[authLine readLine has_prefix].
  destruct (write_ok c _); [|done]. cbn -[authLine readLine has_prefix].
  pose proof (readLine_fine (incoming c)) as Hf. destruct (readLine (incoming c)) as [[line|e| |] rest]; try done.
  cbn -[authLine readLine has_prefix]. case_decide; [done|]. destruct (has_prefix line "OK"); [|done].
  cbn -[authLine readLine has_prefix]. by destruct (write_ok c _).
Qed.

Section dial.
Context `{MapRangeOk}.

Lemma Dial_ends c : lawful (readLine (incoming c)).2 ->
  let '(r, c') := Dial c in match r with Ok _ => lawful (incoming c') | Err _ => True | _ => False end.
Proof.
  intros Hc. unfold Dial, mbind at 1, ST_bind at 1, try at 1. pose proof (authenticate_ends c) as Ha.
  destruct (authenticate c) as [[[]|e| |] c1]; try done. rewrite <- Ha in Hc.
  assert (Hw : well_typed (BCall "/org/freedesktop/DBus" "org.freedesktop.DBus" "Hello" "" [] "s" [Assign.PString]))
    by (exists []; split_and!; [done|constructor|simpl; lia]).
  pose proof (good_try _ _ (good_call "org.freedesktop.DBus" _ Hw) c1 Hc) as [Hc' Hr].
  unfold call, conn_client in Hr, Hc'. cbn [b_path b_iface b_method b_insig b_args b_outsig b_dest] in *.
  unfold mbind, ST_bind. destruct (try _ c1) as [[[ws|e]|e| |] c2]; try done.
  apply answered_string in Hr as [name ->]; done.
Qed.
End dial.

(** ** Components on a connection, and on the bus of the world *)
Section on_ends.
Context {E : Env}.

Definition on_ends {A} (Q : A -> Prop) (m : ST (World * Conn) A) : Prop := forall s, lawful (incoming s.2) ->
  lawful (incoming (m s).2.2) /\ match (m s).1 with Ok a => Q a | Err _ => True | Panic | OutOfFuel => False end.

Lemma on_ends_bind {A B} (Q : A -> Prop) (R : B -> Prop) (m : ST (World * Conn) A) (k : A -> ST (World * Conn) B) :
  on_ends Q m -> (forall a, Q a -> on_ends R (k a)) -> on_ends R (m ≫= k).
Proof.
  intros Hm Hk s Hs. destruct (Hm s Hs) as [Hs' Hr]. unfold mbind, ST_bind.
  destruct (m s) as [[a|e| |] s']; simpl in *; try done. by apply (Hk a Hr s').
Qed.
Lemma on_ends_wrap {A} (Q : A -> Prop) fmt (m : ST (World * Conn) A) : on_ends Q m -> on_ends Q (wrap fmt m).
Proof. intros Hm s Hs. destruct (Hm s Hs) as [? Hr]. unfold wrap. by destruct (m s) as [[]]. Qed.
Lemma on_ends_try {A} (Q : A -> Prop) (m : ST (World * Conn) A) :
  on_ends Q m -> on_ends (fun r => match r with inl a => Q a | inr _ => True end) (try m).
Proof. intros Hm s Hs. destruct (Hm s Hs) as [? Hr]. unfold try. by destruct (m s) as [[]]. Qed.
Lemma on_ends_lift {A} (Q : A -> Prop) (r : outcome A) :
  match r with Ok a => Q a | Err _ => True | _ => False end -> on_ends Q (lift r).
Proof. by intros Hr s Hs. Qed.
Lemma on_ends_ret {A} (Q : A -> Prop) (a : A) : Q a -> on_ends Q (mret a).
Proof. by intros Ha s Hs. Qed.
Lemma on_ends_world {A} (m : ST World A) : ends m -> on_ends (fun _ => True) (on_world m).
Proof. intros Hm [w c] Hc. specialize (Hm w). unfold on_world. by destruct (m w) as [[]]. Qed.
Lemma on_ends_conn {A} (Q : A -> Prop) (m : ST Conn A) : good Q m -> on_ends Q (on_conn m).
Proof. intros Hm [w c] Hc. destruct (Hm c Hc) as [? Hr]. unfold on_conn. by destruct (m c) as [[]]. Qed.

(** The bus daemon of the system checks the signatures of the messages that it
    delivers, as the D-Bus specification asks for: every stream that it sends is
    lawful from the end of the handshake on. *)
Class BusLawful : Prop := bus_lawful : forall l stream, bus l = Some stream -> lawful (readLine stream).2.

Lemma ends_system_bus `{MapRangeOk, !BusLawful} {A} fmt (m : ST (World * Conn) A) :
  on_ends (fun _ => True) m -> ends (with_system_bus fmt m).
Proof.
  intros Hm w. unfold with_system_bus. set (w1 := add_log _ w). destruct (bus (log w1)) as [stream|] eqn:Hb; [|done].
  pose proof (Dial_ends (fresh_conn my_uid all_writes stream) (bus_lawful _ _ Hb)) as Hd.
  destruct (Dial _) as [[u|e| |] c]; try done. destruct (Hm (w1, c) Hd) as [_ Hr]. by destruct (m (w1, c)) as [[] []].
Qed.
End on_ends.

Lemma on_ends_any {E : Env} {A} (Q : A -> Prop) (m : ST (World * Conn) A) : on_ends Q m -> on_ends (fun _ => True) m.
Proof. intros Hm s Hs. destruct (Hm s Hs) as [? Hr]. by destruct (m s) as [[]]. Qed.

(** * Properties *)

(** C24: a call ends, and never succeeds without its reply.  Whatever bytes the peer
    sends, well formed or not, a call that returns values read a message whose reply
    serial is the call's, which is not an error, and whose body has the values.  For
    arguments of the types of the call, on every connection whose stream never holds
    a message with a signature that is no complete type (it may be cut anywhere, hold
    any other messages and never the reply), the call returns or fails, and the
    stream stays such a stream. *)
Theorem Call_ends `{MapRangeOk} destination c k :
  let '(r, k') := Call destination (b_path c) (b_iface c) (b_method c) (b_insig c) (b_args c) (b_outsig c) (b_dest c) k in
  (forall ws, r = Ok ws -> exists bs reply, readMessage bs = (Ok reply, incoming k') /\
     replySerial reply = to_unsigned 32 (serial k + 1) /\ msgType reply <> msgTypeError /\
     (b_outsig c <> "" -> Assign.decodeInto (body reply) (b_outsig c) (b_dest c) = Ok ws)) /\
  (well_typed c -> lawful (incoming k) -> fine r /\ lawful (incoming k')).
Proof.
  pose proof (Call_success_needs_reply destination (b_path c) (b_iface c) (b_method c) (b_insig c) (b_args c)
    (b_outsig c) (b_dest c) k) as Hok. pose proof (good_call destination c) as Hg. unfold call, conn_client in Hg.
  destruct (Call _ _ _ _ _ _ _ _ k) as [r k'] eqn:Hr. split; [by intros ws ->; apply Hok|].
  intros Hw Hc. destruct (Hg Hw k Hc) as [Hc' Hq]. rewrite Hr in *. by destruct r.
Qed.

(** * Witnesses *)
Lemma two_messages_lawful : lawful (bytes_of_message sample_signal ++ bytes_of_message sample_reply).
Proof.
  destruct sample_sends as [Hr Hs].
  pose proof (lawful_messages [sample_signal; sample_reply] [bytes_of_message sample_signal; bytes_of_message sample_reply]) as Hl.
  cbn [concat] in Hl. rewrite (right_id_L [] (++)) in Hl. apply Hl.
  inversion Hs as [|? ? ? ? [Hsig _]]; subst. apply Forall2_cons_2; [done|]. by apply Forall2_cons_2; [|constructor].
Qed.

(** Serial 41 has no reply in the stream of a signal and a reply to serial 1; serial 1
    has one. *)
Definition get_id : bus_call := BCall "/" "org.freedesktop.DBus" "GetId" "" [] "s" [Assign.PString].
Definition peer_at (n : Z) : Conn :=
  MkConn 0 [] all_writes (bytes_of_message sample_signal ++ bytes_of_message sample_reply) n ":1.7" false.
Lemma Call_ends_witness :
  (exists e, (call "org.freedesktop.DBus" get_id (peer_at 40)).1 = Err e) /\
  exists bs reply k', readMessage bs = (Ok reply, incoming k') /\ replySerial reply = 1.
Proof.
  split.
  - pose proof (Call_ends "org.freedesktop.DBus" get_id (peer_at 40)) as H.
    assert (Hw : well_typed get_id) by (exists []; split_and!; [done|constructor|simpl; lia]).
    assert (Hv : match (call "org.freedesktop.DBus" get_id (peer_at 40)).1 with Ok _ => false | _ => true end = true)
      by (vm_compute; reflexivity).
    unfold call, conn_client in *. destruct (Call _ _ _ _ _ _ _ _ (peer_at 40)) as [r k']. destruct H as [_ Hr].
    destruct (Hr Hw two_messages_lawful) as [Hf _]. cbn [fst] in *.
    destruct r as [ws|e| |]; [discriminate Hv|exists e; reflexivity|destruct Hf..].
  - pose proof (Call_ends "org.freedesktop.DBus" get_id (peer_at 0)) as H.
    assert (Hv : (call "org.freedesktop.DBus" get_id (peer_at 0)).1 = Ok [VString ":1.42"]) by (vm_compute; reflexivity).
    unfold call, conn_client in *. destruct (Call _ _ _ _ _ _ _ _ (peer_at 0)) as [r k']. destruct H as [Hr _].
    destruct (Hr _ Hv) as (bs & reply & Hm & Hs & _). exists bs, reply, k'. split; [exact Hm|exact Hs].
Defined.
