(* ===== verification/Serve.v ===== *)
(** A bus whose peer answers every call: the streams of such a peer, and what a
    component that calls it can rely on. *)
From S2P Require Import Prelude Bytes GoStrings Signature Marshal MarshalSpec MarshalSafety Message Conn World Bus Peer.

(** [served n ms bs]: from the serial [n] on, the stream [bs] holds a reply to each
    call in turn, the messages of [ms], with any other messages in between; what
    follows the last is arbitrary. *)
Inductive served : Z -> list message -> list byte -> Prop :=
| served_nil n rest : served n [] rest
| served_cons n others bss m bs ms rest :
    Forall2 (fun m bs => sends m bs /\ ~ replies n m) others bss ->
    sends m bs -> replies n m -> served (n + 1) ms rest ->
    served n (m :: ms) (concat bss ++ bs ++ rest).

(** A connection whose last serial is [n] *)
Definition serves (n : Z) (ms : list message) (c : Conn) : Prop :=
  serial c = n /\ write_ok c = all_writes /\ 0 <= n /\ n + Z.of_nat (length ms) < 2 ^ 32 /\ served (n + 1) ms (incoming c).

(** A peer that accepts the client and answers Hello, and then the calls *)
Definition welcomes (stream : list byte) (ms : list message) : Prop := exists line hello name rest,
  stream = bytes_of_string line ++ LF :: rest /\ no_char LF line = true /\ has_prefix line "OK" = true /\
  served 1 (hello :: ms) rest /\ m_type hello <> msgTypeError /\ m_body hello = [VString name] /\
  1 + Z.of_nat (length ms) < 2 ^ 32.

(** What a call makes of a message *)
Definition result_of (c : bus_call) (m : message) : outcome (list any) :=
  reply_result (b_outsig c) (b_dest c) (parsed m).

Lemma result_void c m : m_type m <> msgTypeError -> b_outsig c = "" -> result_of c m = Ok [].
Proof.
  intros Ht Ho. unfold result_of, reply_result. rewrite Ho, decide_True by done.
  assert (msgType (parsed m) = m_type m) as -> by (simpl; unfold header_of; by rewrite setFields_type).
  by destruct (Ascii.eqb_spec (m_type m) msgTypeError).
Qed.
Lemma result_string c m s : m_type m <> msgTypeError -> b_outsig c = "o" \/ b_outsig c = "s" ->
  b_dest c = [Assign.PString] -> m_body m = [VString s] -> result_of c m = Ok [VString s].
Proof.
  intros Ht Ho Hd Hb. unfold result_of, reply_result.
  assert (msgType (parsed m) = m_type m) as -> by (simpl; unfold header_of; by rewrite setFields_type).
  destruct (Ascii.eqb_spec (m_type m) msgTypeError); [done|]. rewrite Hd. simpl. rewrite Hb.
  by destruct Ho as [-> | ->].
Qed.
Lemma result_error c m : m_type m = msgTypeError -> exists name body, result_of c m = Err (CallError name body).
Proof.
  intros Ht. unfold result_of, reply_result.
  assert (msgType (parsed m) = m_type m) as -> by (simpl; unfold header_of; by rewrite setFields_type).
  rewrite Ht. by eexists _, _.
Qed.

Section calls.
Context `{MapRangeOk}.

Lemma call_served destination c n m ms k : well_typed c -> serves n (m :: ms) k ->
  exists k', call destination c k = (result_of c m, k') /\ serves (n + 1) ms k'.
Proof.
  intros (ts & Hs & Ht & Hl) (<- & Hw & Hn & Hb & Hin). cbn [length] in Hb.
  inversion Hin as [|? others bss ? bs ? rest Ho Hm Hr Hrest Heq]; subst.
  assert (Hser : to_unsigned 32 (serial k + 1) = serial k + 1) by (apply Z.mod_small; lia).
  destruct (Call_reads 3 destination (b_path c) (b_iface c) (b_method c) ts (b_args c) (b_outsig c) (b_dest c)
    others bss m bs rest k) as (msg & _ & Hc); rewrite ?Hser; try done; [by rewrite <- Hs|by rewrite Hw|].
  eexists. unfold call, conn_client. rewrite Hs, Hc, Hser. split; [done|].
  split_and!; cbn; try done; lia.
Qed.

Lemma call_returns destination c n m ms vs k : well_typed c -> serves n (m :: ms) k -> result_of c m = Ok vs ->
  returns (call destination c) (fun vs' k' => vs' = vs /\ serves (n + 1) ms k') k.
Proof.
  intros Hc Hk Hr. destruct (call_served destination c n m ms k Hc Hk) as (k' & He & Hk').
  unfold returns. by rewrite He, Hr.
Qed.

Lemma Dial_serves id stream ms : welcomes stream ms ->
  returns Dial (fun _ c => serves 1 ms c) (fresh_conn id all_writes stream).
Proof.
  intros (line & hello & name & rest & -> & Hl & HOK & Hs & Ht & Hb & Hlen).
  inversion Hs as [|? others bss ? bs ? rest' Ho Hm Hr Hrest]; subst.
  destruct (Dial_connects id line others bss hello bs rest' name) as (msg & _ & Hd); try done.
  unfold returns. rewrite Hd. split_and!; cbn; done || lia.
Qed.
End calls.

(** ** Components over such a bus *)
Section components.
Context {E : Env} `{MapRangeOk}.

Lemma on_world_returns {C A} (m : ST World A) (Q : A -> World * C -> Prop) w c :
  returns m (fun a w' => Q a (w', c)) w -> returns (on_world m) Q (w, c).
Proof. unfold returns, on_world. by destruct (m w) as [[]]. Qed.
Lemma on_conn_returns {C A} (m : ST C A) (Q : A -> World * C -> Prop) w c :
  returns m (fun a c' => Q a (w, c')) c -> returns (on_conn m) Q (w, c).
Proof. unfold returns, on_conn. by destruct (m c) as [[]]. Qed.

Lemma with_system_bus_returns {A} fmt (m : ST (World * Conn) A) (Q : A -> World -> Prop) w stream ms :
  let w1 := add_log (ENet "dial" ["/run/dbus/system_bus_socket"]) w in
  bus (log w1) = Some stream -> welcomes stream ms ->
  (forall c, serves 1 ms c -> returns m (fun a s => Q a s.1) (w1, c)) -> returns (with_system_bus fmt m) Q w.
Proof.
  intros w1 Hb Hw Hm. unfold returns, with_system_bus. fold w1. rewrite Hb.
  pose proof (Dial_serves my_uid stream ms Hw) as Hd. unfold returns in Hd.
  destruct (Dial _) as [[u|e| |] c]; try done. specialize (Hm c Hd). unfold returns in Hm.
  by destruct (m (w1, c)) as [[a|e| |] [w' c']].
Qed.
End components.
