(* ===== verification/Sysupdate.v ===== *)
(** System updates (internal/sysupdate/sysupdate.go): which targets the appliance
    manages, checking them for a new version and applying it, over the bus
    interface of Bus.v. *)
From S2P Require Import Prelude Bytes GoStrings Signature Marshal Message Conn World Bus Peer.

Definition busName : string := "org.freedesktop.sysupdate1".
Definition managerPath : string := "/org/freedesktop/sysupdate1".
Definition managerIface : string := "org.freedesktop.sysupdate1.Manager".
Definition targetIface : string := "org.freedesktop.sysupdate1.Target".
Definition componentUKI : string := "uki".

Record target := Target { t_class : string; t_name : string; t_path : string }.

Definition isHost (t : target) : bool := String.eqb (t_class t) "host".
Definition isUKI (t : target) : bool :=
  String.eqb (t_class t) "component" && String.eqb (t_name t) componentUKI.
Definition label (t : target) : string := if decide (t_name t = "") then "host" else t_name t.

(** [s, _ := v.(string)] *)
Definition as_string (v : any) : string := match v with VString s => s | _ => "" end.

(** The loop of [listTargets]: items that are not triples are skipped. *)
Fixpoint parse_targets (raw : list any) : list target :=
  match raw with
  | [] => []
  | VAnys [c; n; p] :: raw => Target (as_string c) (as_string n) (as_string p) :: parse_targets raw
  | _ :: raw => parse_targets raw
  end.

Definition managedTargets (all : list target) : outcome (list target) :=
  let out := List.filter isHost all ++ List.filter isUKI all in
  match out, all with
  | _ :: _, _ => Ok out
  | [], _ :: _ => Ok all
  | [], [] => Err (Errorf "sysupdate: no targets found (expected the host usr target and/or the %q component)")
  end.

Section sysupdate.
Context {E : Env} {C : Type} `{BusClient C}.

Definition listTargets : ST (World * C) (list target) :=
  vs ← wrap "sysupdate: ListTargets: " (on_conn (call busName
      (BCall managerPath managerIface "ListTargets" "" [] "a(sso)" [Assign.PAnys])));
  match vs with
  | [VAnys raw] => mret (parse_targets raw)
  | _ => lift Panic
  end.

Definition currentTargets : ST (World * C) (list target) :=
  targets ← listTargets;
  lift (managedTargets targets).

Definition checkNew_call (t : target) : bus_call :=
  BCall (t_path t) targetIface "CheckNew" "" [] "s" [Assign.PString].
Definition update_call (t : target) (version : string) : bus_call :=
  BCall (t_path t) targetIface "Update" "st" [VString version; VUint64 0] "sto"
    [Assign.PString; Assign.PUint64; Assign.PString].

Definition checkNew (t : target) : ST (World * C) string :=
  vs ← wrap "CheckNew: " (on_conn (call busName (checkNew_call t)));
  mret (string_result vs).

Definition CheckNewVersion_on : ST (World * C) string :=
  managed ← wrap "sysupdate: " currentTargets;
  match managed with
  | [] => lift Panic
  | t0 :: _ =>
      let t := default t0 (find isHost managed) in
      wrap "sysupdate: %s: " (checkNew t)
  end.

(** The loop of [Check]: a failed target does not stop the others. *)
Fixpoint check_loop (managed : list target) (errs : list error) : ST (World * C) (list error) :=
  match managed with
  | [] => mret errs
  | t :: managed =>
      r ← try (checkNew t);
      match r with
      | inr e =>
          _ ← on_world (Print_out (label t +:+ ": check failed: %v" +:+ nl));
          check_loop managed (errs ++ [Wrapf "%s: " e])
      | inl v =>
          _ ← on_world (Print_out (label t +:+ ": new version available: " +:+ v +:+ nl));
          check_loop managed errs
      end
  end.

Definition Check_on : ST (World * C) unit :=
  managed ← wrap "sysupdate: " currentTargets;
  errs ← check_loop managed [];
  lift (join_errors errs).

(** The loop of [Apply] *)
Fixpoint apply_loop (managed : list target) (errs : list error) : ST (World * C) (list error) :=
  match managed with
  | [] => mret errs
  | t :: managed =>
      r ← try (checkNew t);
      match r with
      | inr e => apply_loop managed (errs ++ [Wrapf "%s: " e])
      | inl newVersion =>
          r ← try (on_conn (call busName (update_call t newVersion)));
          match r with
          | inr e => apply_loop managed (errs ++ [Wrapf "%s: Update: " e])
          | inl vs =>
              _ ← on_world (Print_out (label t +:+ ": updating to " +:+ string_result vs +:+ " (job %d, %s)" +:+ nl));
              apply_loop managed errs
          end
      end
  end.

Definition Apply_on : ST (World * C) unit :=
  managed ← wrap "sysupdate: " currentTargets;
  errs ← apply_loop managed [];
  lift (join_errors errs).
End sysupdate.

Section live.
Context `{Env, MapRange}.
Definition CheckNewVersion : ST World string := with_system_bus "sysupdate: " CheckNewVersion_on.
Definition Check : ST World unit := with_system_bus "sysupdate: " Check_on.
Definition Apply : ST World unit := with_system_bus "sysupdate: " Apply_on.
End live.

(** ** What [Apply] does to the bus, as a step relation

    [applied h ts h' ok]: starting from the calls [h], the targets [ts] are
    handled one after the other up to the calls [h']; [ok] says that nothing
    failed.  Each target is asked for its new version, and updated to it when it
    answers. *)
Definition fails (r : outcome (list any)) : Prop := exists e, r = Err e.

Inductive applied `{Answers} : list bus_call -> list target -> list bus_call -> bool -> Prop :=
| applied_nil h : applied h [] h true
| applied_check_failed h t ts h' ok :
    fails (answer (checkNew_call t :: h)) ->
    applied (checkNew_call t :: h) ts h' ok -> applied h (t :: ts) h' false
| applied_update_failed h t ts h' ok vs :
    answer (checkNew_call t :: h) = Ok vs ->
    fails (answer (update_call t (string_result vs) :: checkNew_call t :: h)) ->
    applied (update_call t (string_result vs) :: checkNew_call t :: h) ts h' ok ->
    applied h (t :: ts) h' false
| applied_updated h t ts h' ok vs ws :
    answer (checkNew_call t :: h) = Ok vs ->
    answer (update_call t (string_result vs) :: checkNew_call t :: h) = Ok ws ->
    applied (update_call t (string_result vs) :: checkNew_call t :: h) ts h' ok ->
    applied h (t :: ts) h' ok.

Section lemmas.
Context {E : Env} `{Answers}.
(** The remote end always answers, with values or with an error. *)
Context (Htotal : forall l, match answer l with Ok _ | Err _ => True | _ => False end).

Lemma try_checkNew t w h :
  try (checkNew t) (w, MkOracle h)
    = (Ok (match answer (checkNew_call t :: h) with
      | Ok vs => inl (string_result vs)
      | Err e => inr (Wrapf "CheckNew: " e)
      | _ => inl "" end), (w, MkOracle (checkNew_call t :: h))).
Proof using Htotal.
  unfold try, checkNew, mbind, ST_bind, wrap, on_conn, call, oracle_client. cbn [calls].
  pose proof (Htotal (checkNew_call t :: h)). by destruct (answer _).
Qed.

Lemma try_call d c (w : World) h :
  try (on_conn (call d c)) (w, MkOracle h)
    = (Ok (match answer (c :: h) with Ok vs => inl vs | Err e => inr e | _ => inl [] end),
      (w, MkOracle (c :: h))).
Proof using Htotal.
  unfold try, on_conn, call, oracle_client. cbn [calls].
  pose proof (Htotal (c :: h)). by destruct (answer _).
Qed.

Lemma apply_loop_applied managed errs w h :
  exists h' w' es, apply_loop managed errs (w, MkOracle h) = (Ok (errs ++ es), (w', MkOracle h')) /\
  applied h managed h' (bool_decide (es = [])).
Proof using Htotal.
  revert errs w h. induction managed as [|t managed IH]; intros errs w h.
  { exists h, w, []. rewrite (right_id_L [] (++)), bool_decide_true by done. split; [done|constructor]. }
  cbn [apply_loop]. unfold mbind at 1, ST_bind at 1. rewrite try_checkNew.
  pose proof (Htotal (checkNew_call t :: h)) as Ht.
  destruct (answer (checkNew_call t :: h)) as [vs|e| |] eqn:Ha; try done.
  - unfold mbind at 1, ST_bind at 1. rewrite try_call.
    pose proof (Htotal (update_call t (string_result vs) :: checkNew_call t :: h)) as Ht'.
    destruct (answer (update_call _ _ :: _)) as [ws|e| |] eqn:Hb; try done.
    + unfold mbind at 1, ST_bind at 1, on_world at 1, Print_out.
      edestruct IH as (h' & w' & es & -> & Hap). exists h', w', es. split; [done|].
      by eapply applied_updated.
    + destruct (IH (errs ++ [Wrapf "%s: Update: " e]) w
        (update_call t (string_result vs) :: checkNew_call t :: h)) as (h' & w' & es & -> & Hap).
      exists h', w', (Wrapf "%s: Update: " e :: es). rewrite <- (assoc_L (++)). split; [done|].
      rewrite bool_decide_false by done. eapply applied_update_failed; [done|by eexists|exact Hap].
  - destruct (IH (errs ++ [Wrapf "%s: " (Wrapf "CheckNew: " e)]) w (checkNew_call t :: h))
      as (h' & w' & es & -> & Hap).
    exists h', w', (Wrapf "%s: " (Wrapf "CheckNew: " e) :: es). rewrite <- (assoc_L (++)). split; [done|].
    rewrite bool_decide_false by done. eapply applied_check_failed; [by eexists|exact Hap].
Qed.

Definition list_call : bus_call := BCall managerPath managerIface "ListTargets" "" [] "a(sso)" [Assign.PAnys].

Lemma currentTargets_oracle raw ms w h :
  answer (list_call :: h) = Ok [VAnys raw] -> managedTargets (parse_targets raw) = Ok ms ->
  currentTargets (w, MkOracle h) = (Ok ms, (w, MkOracle (list_call :: h))).
Proof using.
  intros Ha Hm. unfold currentTargets, listTargets, mbind, ST_bind, wrap, on_conn, call, oracle_client.
  cbn [calls]. fold list_call. rewrite Ha. cbn. unfold lift. by rewrite Hm.
Qed.
End lemmas.

(** Which targets are managed *)
Lemma managedTargets_spec all :
  match managedTargets all with
  | Ok ms =>
      ms <> [] /\
      (forall t, t ∈ ms -> t ∈ all) /\
      ((exists t, t ∈ all /\ (isHost t = true \/ isUKI t = true)) ->
       ms = List.filter isHost all ++ List.filter isUKI all) /\
      ((forall t, t ∈ all -> isHost t = false /\ isUKI t = false) -> ms = all)
  | Err _ => all = []
  | _ => False
  end.
Proof.
  unfold managedTargets.
  assert (Hin : forall t, t ∈ List.filter isHost all ++ List.filter isUKI all <->
    t ∈ all /\ (isHost t = true \/ isUKI t = true)).
  { intros t. rewrite list_elem_of_In, in_app_iff, !filter_In, <- list_elem_of_In. naive_solver. }
  destruct (List.filter isHost all ++ List.filter isUKI all) as [|t0 out] eqn:Hout.
  - destruct all as [|t all]; [done|]. split_and!; [done|done| |done].
    intros (x & Hx & Hh). assert (x ∈ @nil target) as Hn by (by apply Hin). by apply elem_of_nil in Hn.
  - split_and!; [done|intros t Ht; by apply Hin|done|].
    intros Hnone. assert (t0 ∈ all /\ (isHost t0 = true \/ isUKI t0 = true)) as [Ht Hh] by (apply Hin; left).
    destruct (Hnone t0 Ht) as [? ?]. destruct Hh; congruence.
Qed.

(** ** The operations end, over a bus that keeps to the signatures *)
Section ends.
Context {E : Env} `{MapRangeOk, !BusLawful}.

Lemma plain_call_typed path iface method outsig dest :
  well_typed (BCall path iface method "" [] outsig dest).
Proof. exists []. split_and!; [done|constructor|simpl; lia]. Qed.
Lemma update_typed t version : well_typed (update_call t version).
Proof. exists [TStr SString; TUint64]. split_and!; [done| |simpl; lia]. repeat constructor. simpl. lia. Qed.

Lemma managedTargets_some all : match managedTargets all with Ok l => l <> [] | Err _ => True | _ => False end.
Proof.
  unfold managedTargets. destruct (_ ++ _) as [|t l]; [|done]. by destruct all.
Qed.
Lemma on_ends_currentTargets : on_ends (fun l => l <> []) (currentTargets (C := Conn)).
Proof.
  unfold currentTargets, listTargets. apply (on_ends_bind (fun _ => True)).
  - eapply on_ends_bind; [apply on_ends_wrap, on_ends_conn, good_call, plain_call_typed|].
    intros vs Hvs. apply answered_items in Hvs as [raw ->]; [by apply on_ends_ret|done|done].
  - intros targets _. apply on_ends_lift, managedTargets_some.
Qed.
Lemma on_ends_checkNew t : on_ends (fun _ => True) (checkNew (C := Conn) t).
Proof.
  unfold checkNew. eapply on_ends_bind; [apply on_ends_wrap, on_ends_conn, good_call, plain_call_typed|].
  intros vs _. by apply on_ends_ret.
Qed.
Lemma on_ends_managed : on_ends (fun l => l <> []) (wrap "sysupdate: " (currentTargets (C := Conn))).
Proof. apply on_ends_wrap, on_ends_currentTargets. Qed.
Lemma on_ends_join errs : on_ends (fun _ => True) (lift (join_errors errs)).
Proof. apply on_ends_lift. by destruct errs. Qed.

Lemma ends_CheckNewVersion : ends CheckNewVersion.
Proof.
  apply ends_system_bus. unfold CheckNewVersion_on. eapply on_ends_bind; [apply on_ends_managed|].
  intros [|t0 managed] Hne; [done|]. apply on_ends_wrap, on_ends_checkNew.
Qed.
Lemma ends_Check : ends Check.
Proof.
  apply ends_system_bus. unfold Check_on. eapply on_ends_bind; [apply on_ends_managed|]. intros managed _.
  apply (on_ends_bind (fun _ => True)); [|intros errs _; apply on_ends_join]. generalize (@nil error).
  induction managed as [|t managed IH]; intros errs; cbn [check_loop]; [by apply on_ends_ret|].
  eapply on_ends_bind; [apply on_ends_try, on_ends_checkNew|].
  intros [v|e] _; (eapply on_ends_bind; [apply on_ends_world; auto with ends|]; intros _ _; apply IH).
Qed.
Lemma ends_Apply : ends Apply.
Proof.
  apply ends_system_bus. unfold Apply_on. eapply on_ends_bind; [apply on_ends_managed|]. intros managed _.
  apply (on_ends_bind (fun _ => True)); [|intros errs _; apply on_ends_join]. generalize (@nil error).
  induction managed as [|t managed IH]; intros errs; cbn [apply_loop]; [by apply on_ends_ret|].
  eapply on_ends_bind; [apply on_ends_try, on_ends_checkNew|]. intros [v|e] _; [|apply IH].
  eapply on_ends_bind; [apply on_ends_try, on_ends_conn, good_call, update_typed|]. intros [vs|e] _; [|apply IH].
  eapply on_ends_bind; [apply on_ends_world; auto with ends|]. intros _ _. apply IH.
Qed.
End ends.

#[export] Hint Resolve ends_CheckNewVersion ends_Check ends_Apply : ends.

(** * Properties *)

(** The targets the appliance manages are its host targets followed by its
    uki components, in the order in which the daemon lists them; when there is
    neither, all the listed targets; the only error is an empty list. *)
Theorem managedTargets_correct all :
  match managedTargets all with
  | Ok ms =>
      ms <> [] /\
      (forall t, t ∈ ms -> t ∈ all) /\
      ((exists t, t ∈ all /\ (isHost t = true \/ isUKI t = true)) ->
       ms = List.filter isHost all ++ List.filter isUKI all) /\
      ((forall t, t ∈ all -> isHost t = false /\ isUKI t = false) -> ms = all)
  | Err _ => all = []
  | _ => False
  end.
Proof. apply managedTargets_spec. Qed.

(** C18: [Apply] handles every managed target independently: whatever each call
    answers, each target is asked for its new version and, when it answers, told
    to update to exactly that version; a failure of one never stops the others;
    the result is an error exactly when something failed. *)
Theorem Apply_attempts_every_target `{Env, Answers} raw ms w h :
  (forall l, match answer l with Ok _ | Err _ => True | _ => False end) ->
  answer (list_call :: h) = Ok [VAnys raw] -> managedTargets (parse_targets raw) = Ok ms ->
  exists h' ok, applied (list_call :: h) ms h' ok /\
    let '(r, (_, o)) := Apply_on (w, MkOracle h) in
    calls o = h' /\ if ok : bool then r = Ok tt else exists es, r = Err (Joined es).
Proof.
  intros Htotal Ha Hm. unfold Apply_on, mbind at 1, ST_bind at 1, wrap.
  rewrite (currentTargets_oracle _ _ _ _ Ha Hm). cbn [wrapf].
  destruct (apply_loop_applied Htotal ms [] w (list_call :: h)) as (h' & w' & es & Heq & Hap).
  exists h', (bool_decide (es = [])). split; [done|].
  unfold mbind, ST_bind. rewrite Heq. unfold lift. cbn [app]. split; [done|].
  destruct es; [done|]. rewrite bool_decide_false by done. eauto.
Qed.

(** The version that monitoring reports is the host target's: on success,
    [CheckNewVersion] has listed the targets and asked exactly one of them, the
    first managed host target if there is one, and returns its answer. *)
Theorem CheckNewVersion_asks_host `{Env, Answers} raw ms w h v w' o' :
  answer (list_call :: h) = Ok [VAnys raw] -> managedTargets (parse_targets raw) = Ok ms ->
  CheckNewVersion_on (w, MkOracle h) = (Ok v, (w', o')) ->
  exists t vs, t ∈ ms /\ ((exists x, x ∈ ms /\ isHost x = true) -> isHost t = true) /\
    calls o' = checkNew_call t :: list_call :: h /\
    answer (calls o') = Ok vs /\ v = string_result vs.
Proof.
  intros Ha Hm. unfold CheckNewVersion_on. intros HS.
  apply bind_Ok_inv_st in HS as (ms' & s1 & Hc & HS). apply wrap_Ok_inv in Hc.
  rewrite (currentTargets_oracle _ _ _ _ Ha Hm) in Hc. injection Hc as <- <-.
  destruct ms as [|t0 ms]; [done|]. apply wrap_Ok_inv in HS.
  set (t := default t0 (find isHost (t0 :: ms))) in *.
  unfold checkNew in HS. apply bind_Ok_inv_st in HS as (vs & s2 & Hcall & HS).
  apply wrap_Ok_inv in Hcall. unfold on_conn, call, oracle_client in Hcall. cbn [calls] in Hcall.
  injection Hcall as Hvs <-. injection HS as <- <- <-.
  exists t, vs. cbn [calls]. split_and!; try done.
  - unfold t. destruct (find isHost (t0 :: ms)) as [x|] eqn:Hf; [|left].
    apply find_some in Hf as [Hf _]. by apply list_elem_of_In.
  - intros (x & Hx & Hh). unfold t. destruct (find isHost (t0 :: ms)) as [y|] eqn:Hf.
    + by apply find_some in Hf as [_ Hf].
    + apply list_elem_of_In in Hx. pose proof (find_none _ _ Hf x Hx). congruence.
Qed.

(** * Witnesses *)
Definition sample_targets : list any := [
  VAnys [VString "component"; VString "uki"; VString "/t/uki"];
  VString "noise";
  VAnys [VString "host"; VString ""; VString "/t/host"]].

(** The host fails to check; the uki component has version 2. *)
#[local] Instance daemon : Answers := fun l =>
  match l with
  | c :: _ =>
      if String.eqb (b_method c) "ListTargets" then Ok [VAnys sample_targets]
      else if String.eqb (b_path c) "/t/host" then Err (CallError "org.example.Failed" [])
      else if String.eqb (b_method c) "CheckNew" then Ok [VString "2"]
      else Ok [VString "2"; VUint64 7; VString "/job/7"]
  | [] => Err (Errorf "")
  end.
Lemma daemon_total l : match daemon l with Ok _ | Err _ => True | _ => False end.
Proof. unfold daemon. by repeat case_match. Qed.

Definition the_host : target := Target "host" "" "/t/host".
Definition the_uki : target := Target "component" "uki" "/t/uki".
#[local] Instance silent_bus : Env := simple_env (fun _ f _ => (NotStarted, f)) (fun _ => HttpError) (fun _ => false).

Lemma Apply_attempts_every_target_witness :
  exists h' ok, applied [list_call] [the_host; the_uki] h' ok /\
    let '(r, (_, o)) := Apply_on (MkWorld ∅ "" [], MkOracle []) in
    calls o = h' /\ if ok : bool then r = Ok tt else exists es, r = Err (Joined es).
Proof.
  exact (Apply_attempts_every_target sample_targets [the_host; the_uki] (MkWorld ∅ "" []) []
    daemon_total eq_refl eq_refl).
Defined.

#[local] Instance newer : Answers := fun l =>
  match l with
  | c :: _ => if String.eqb (b_method c) "ListTargets" then Ok [VAnys sample_targets] else Ok [VString "3"]
  | [] => Err (Errorf "")
  end.

Lemma CheckNewVersion_asks_host_witness :
  exists t vs, t ∈ [the_host; the_uki] /\
    ((exists x, x ∈ [the_host; the_uki] /\ isHost x = true) -> isHost t = true) /\
    [checkNew_call the_host; list_call] = checkNew_call t :: [list_call] /\
    newer [checkNew_call the_host; list_call] = Ok vs /\ "3" = string_result vs.
Proof.
  exact (CheckNewVersion_asks_host sample_targets [the_host; the_uki] (MkWorld ∅ "" []) [] "3"
    (MkWorld ∅ "" []) (MkOracle [checkNew_call the_host; list_call]) eq_refl eq_refl eq_refl).
Defined.
