(* ===== verification/Firewall.v ===== *)
(** The firewall (internal/firewall/firewall.go and preboot.go): keeping the
    Cloudflare address sets of the running firewalld up to date over the bus, and
    the configuration files that the installer writes before the first boot. *)
From S2P Require Import Prelude Bytes GoStrings Signature Marshal MarshalSpec Message MessageSafety Conn World Bus Peer Serve.

(** ** firewall.go *)
Definition busName : string := "org.fedoraproject.FirewallD1".
Definition rootPath : string := "/org/fedoraproject/FirewallD1".
Definition configPath : string := "/org/fedoraproject/FirewallD1/config".
Definition rootIface : string := "org.fedoraproject.FirewallD1".
Definition configIface : string := "org.fedoraproject.FirewallD1.config".
Definition ipsetIface : string := "org.fedoraproject.FirewallD1.config.ipset".
Definition cfIPListDir : string := "usr/share/slfhst/cloudflare-ips".
Definition cfIPSetV4 : string := "cloudflare-v4".
Definition cfIPSetV6 : string := "cloudflare-v6".

Record ipset_spec := Spec { s_name : string; s_file : string; s_family : string }.
Definition cfIPSets : list ipset_spec := [
  Spec cfIPSetV4 "v4.txt" "inet";
  Spec cfIPSetV6 "v6.txt" "inet6"].

(** The loop of [readCIDRList] over the lines of its file *)
Fixpoint cidr_lines (lines : list string) : list string :=
  match lines with
  | [] => []
  | line :: lines =>
      let line := trim_space line in
      if decide (line <> "") then line :: cidr_lines lines else cidr_lines lines
  end.

Definition getIPSet_call (name : string) : bus_call :=
  BCall configPath configIface "getIPSetByName" "s" [VString name] "o" [Assign.PString].
Definition addIPSet_call (name family : string) : bus_call :=
  let settings := VAnys [VString ""; VString ""; VString ""; VString "hash:net";
    VMap {["family" := VString family]}; VStrings []] in
  BCall configPath configIface "addIPSet" "s(ssssa{ss}as)" [VString name; settings] "o" [Assign.PString].
Definition setEntries_call (path : string) (ranges : list string) : bus_call :=
  BCall path ipsetIface "setEntries" "as" [VStrings ranges] "" [].
Definition reload_call : bus_call := BCall rootPath rootIface "reload" "" [] "" [].

Section firewall.
Context {E : Env}.

Definition readCIDRList (path : string) : ST World (list string) :=
  text ← ReadFile path;
  let '(lines, complete) := scan text in
  if complete then mret (cidr_lines lines)
  else lift (Err (ErrOS "scan" "token too long")).

Section live.
Context {C : Type} `{BusClient C}.

Definition ensureIPSet (name family : string) : ST C string :=
  r ← try (call busName (getIPSet_call name));
  match r with
  | inl vs => mret (string_result vs)
  | inr (CallError _ _) =>
      vs ← wrap "addIPSet: " (call busName (addIPSet_call name family));
      mret (string_result vs)
  | inr e => lift (Err e)
  end.

(** The loop of [SyncCloudflareIPSets] *)
Fixpoint sync_sets (specs : list ipset_spec) : ST (World * C) unit :=
  match specs with
  | [] => mret tt
  | spec :: specs =>
      ranges ← wrap "firewall: read %s: "
        (on_world (readCIDRList (path_join ["/"; cfIPListDir; s_file spec])));
      path ← wrap "firewall: ensure ipset %s: " (on_conn (ensureIPSet (s_name spec) (s_family spec)));
      _ ← wrap "firewall: setEntries on %s: " (on_conn (call busName (setEntries_call path ranges)));
      sync_sets specs
  end.

Definition SyncCloudflareIPSets_on : ST (World * C) unit :=
  _ ← sync_sets cfIPSets;
  _ ← wrap "firewall: reload: " (on_conn (call busName reload_call));
  mret tt.
End live.

Definition SyncCloudflareIPSets `{MapRange} : ST World unit :=
  with_system_bus "firewall: " SyncCloudflareIPSets_on.

(** ** preboot.go *)
Definition mailForwards : list (Z * Z) := [(25, 2525); (465, 4465); (993, 4993)].
Definition manageSievePort : Z := 4190.
Definition webPublicPort : Z := 443.
Definition webPrivatePort : Z := 8443.
Definition mailRateLimits : list (Z * string) :=
  [(25, "20/m"); (465, "20/m"); (993, "20/m"); (manageSievePort, "20/m")].
Definition sshPort : Z := 22.
Definition sshRateLimit : string := "10/m".

(** A double quote *)
Definition dq : string := String "034" "".
Definition attr (name value : string) : string := " " +:+ name +:+ "=" +:+ dq +:+ value +:+ dq.
Definition xml_head : string :=
  "<?xml" +:+ attr "version" "1.0" +:+ attr "encoding" "utf-8" +:+ "?>" +:+ nl.

Definition sconcat (l : list string) : string := foldr String.append "" l.

Definition ipset_xml (family : string) (entries : list string) : string :=
  xml_head +:+ "<ipset" +:+ attr "type" "hash:net" +:+ ">" +:+ nl +:+
  "  <option" +:+ attr "name" "family" +:+ attr "value" family +:+ "/>" +:+ nl +:+
  sconcat ((fun entry => "  <entry>" +:+ entry +:+ "</entry>" +:+ nl) <$> entries) +:+
  "</ipset>" +:+ nl.

Definition writeIPSetXML (root name family : string) (entries : list string) : ST World unit :=
  let path := path_join [root; "etc/firewalld/ipsets"; name +:+ ".xml"] in
  _ ← wrap "firewall: mkdir: " (MkdirAll (path_dir path) 488);
  wrap "firewall: write %s: " (WriteFile path (ipset_xml family entries) 420).

Definition port_xml (indent : string) (port : Z) : string :=
  indent +:+ "<port" +:+ attr "port" (itoa port) +:+ attr "protocol" "tcp" +:+ "/>" +:+ nl.
Definition forward_xml (from to : Z) : string :=
  "  <forward-port" +:+ attr "port" (itoa from) +:+ attr "protocol" "tcp" +:+
  attr "to-port" (itoa to) +:+ "/>" +:+ nl.
Definition limited_rule (family : string) (port : Z) (limit : string) : string :=
  "  <rule" +:+ attr "family" family +:+ attr "priority" "-10" +:+ ">" +:+ nl +:+
  port_xml "    " port +:+
  "    <accept>" +:+ nl +:+ "      <limit" +:+ attr "value" limit +:+ "/>" +:+ nl +:+
  "    </accept>" +:+ nl +:+
  "  </rule>" +:+ nl.

(** What [writeZoneXML] writes *)
Definition zone_xml : string :=
  xml_head +:+ "<zone>" +:+ nl +:+ "  <short>Public</short>" +:+ nl +:+
  "  <description>slfhst: public zone, ports scoped to what this appliance actually serves.</description>" +:+ nl +:+
  sconcat ((fun fw => port_xml "  " fw.1 +:+ forward_xml fw.1 fw.2) <$> mailForwards) +:+
  port_xml "  " manageSievePort +:+
  forward_xml webPublicPort webPrivatePort +:+
  sconcat ((fun family : string * string =>
    "  <rule" +:+ attr "family" family.1 +:+ ">" +:+ nl +:+
    "    <source" +:+ attr "ipset" family.2 +:+ "/>" +:+ nl +:+
    port_xml "    " webPrivatePort +:+
    "    <accept/>" +:+ nl +:+ "  </rule>" +:+ nl) <$> [("ipv4", cfIPSetV4); ("ipv6", cfIPSetV6)]) +:+
  sconcat ((fun family =>
    limited_rule family sshPort sshRateLimit +:+
    sconcat ((fun rl => limited_rule family rl.1 rl.2) <$> mailRateLimits)) <$> ["ipv4"; "ipv6"]) +:+
  "  <forward/>" +:+ nl +:+ "</zone>" +:+ nl.

Definition writeZoneXML (root : string) : ST World unit :=
  let path := path_join [root; "etc/firewalld/zones/public.xml"] in
  _ ← wrap "firewall: mkdir: " (MkdirAll (path_dir path) 488);
  wrap "firewall: write %s: " (WriteFile path zone_xml 420).

Definition SetupPreBoot (root : string) : ST World unit :=
  v4ranges ← wrap "firewall: read v4.txt: " (readCIDRList (path_join [root; cfIPListDir; "v4.txt"]));
  v6ranges ← wrap "firewall: read v6.txt: " (readCIDRList (path_join [root; cfIPListDir; "v6.txt"]));
  _ ← writeIPSetXML root cfIPSetV4 "inet" v4ranges;
  _ ← writeIPSetXML root cfIPSetV6 "inet6" v6ranges;
  writeZoneXML root.
End firewall.

(** ** Specifications *)

(** The nonblank lines of a readable file, without surrounding space. *)
Definition cidr_file (f : FS) (path : string) (ranges : list string) : Prop :=
  exists text lines, (read_file path f).1 = Ok text /\ scan text = (lines, true) /\
    ranges = List.filter (fun line => negb (String.eqb line "")) (trim_space <$> lines).

(** [ensured name family h h' path]: after the calls [h], the set [name] is
    looked up and, only when the daemon itself answers that it has none, added;
    [path] is the daemon's answer. *)
Inductive ensured `{Answers} (name family : string) : list bus_call -> list bus_call -> string -> Prop :=
| ensured_found h vs :
    answer (getIPSet_call name :: h) = Ok vs ->
    ensured name family h (getIPSet_call name :: h) (string_result vs)
| ensured_added h e body vs :
    answer (getIPSet_call name :: h) = Err (CallError e body) ->
    answer (addIPSet_call name family :: getIPSet_call name :: h) = Ok vs ->
    ensured name family h (addIPSet_call name family :: getIPSet_call name :: h) (string_result vs).

(** Each set in turn is ensured, then given exactly its ranges. *)
Inductive refreshed `{Answers} : list (ipset_spec * list string) -> list bus_call -> list bus_call -> Prop :=
| refreshed_nil h : refreshed [] h h
| refreshed_cons spec ranges l h h1 path h' :
    ensured (s_name spec) (s_family spec) h h1 path ->
    (exists vs, answer (setEntries_call path ranges :: h1) = Ok vs) ->
    refreshed l (setEntries_call path ranges :: h1) h' ->
    refreshed ((spec, ranges) :: l) h h'.

(** A firewalld zone: its elements, and their XML. *)
Inductive element : Set :=
| OpenPort (port : Z)
| ForwardPort (from to : Z)
| Allow (family : string) (source : option string) (port : Z) (limit : option string).

Definition element_xml (e : element) : string :=
  match e with
  | OpenPort p => port_xml "  " p
  | ForwardPort p q => forward_xml p q
  | Allow family source p limit =>
      "  <rule" +:+ attr "family" family +:+
        match limit with Some _ => attr "priority" "-10" | None => "" end +:+ ">" +:+ nl +:+
      match source with
      | Some set => "    <source" +:+ attr "ipset" set +:+ "/>" +:+ nl
      | None => "" end +:+
      port_xml "    " p +:+
      match limit with
      | Some l => "    <accept>" +:+ nl +:+ "      <limit" +:+ attr "value" l +:+ "/>" +:+ nl +:+
                  "    </accept>" +:+ nl
      | None => "    <accept/>" +:+ nl end +:+
      "  </rule>" +:+ nl
  end.

Definition zone_of (l : list element) : string :=
  xml_head +:+ "<zone>" +:+ nl +:+ "  <short>Public</short>" +:+ nl +:+
  "  <description>slfhst: public zone, ports scoped to what this appliance actually serves.</description>" +:+ nl +:+
  sconcat (element_xml <$> l) +:+ "  <forward/>" +:+ nl +:+ "</zone>" +:+ nl.

Definition limited (family : string) : list element := [
  Allow family None 22 (Some "10/m"); Allow family None 25 (Some "20/m");
  Allow family None 465 (Some "20/m"); Allow family None 993 (Some "20/m");
  Allow family None 4190 (Some "20/m")].
Definition public_zone : list element := [
  OpenPort 25; ForwardPort 25 2525; OpenPort 465; ForwardPort 465 4465;
  OpenPort 993; ForwardPort 993 4993; OpenPort 4190; ForwardPort 443 8443;
  Allow "ipv4" (Some "cloudflare-v4") 8443 None; Allow "ipv6" (Some "cloudflare-v6") 8443 None] ++
  limited "ipv4" ++ limited "ipv6".

(** ** Lemmas *)
Lemma cidr_lines_spec lines :
  cidr_lines lines = List.filter (fun line => negb (String.eqb line "")) (trim_space <$> lines).
Proof.
  induction lines as [|l lines IH]; [done|]. cbn [cidr_lines fmap list_fmap List.filter].
  destruct (String.eqb_spec (trim_space l) ""); case_decide; try done. cbn. by rewrite IH.
Qed.

Lemma zone_xml_public : zone_xml = zone_of public_zone.
Proof. vm_compute. reflexivity. Qed.

(** The writes among what was logged. *)
Definition is_write (e : event) : bool :=
  match e with EOS op _ => String.eqb op "write" | _ => false end.
Definition writes (l : list event) : list event := List.filter is_write l.

Section file_lemmas.
Context {E : Env}.

Lemma readCIDRList_ok path w l w' :
  readCIDRList path w = (Ok l, w') ->
  cidr_file (fs w) path l /\ fs w' = fs w /\ log w' = EOS "read" [path] :: log w.
Proof.
  unfold readCIDRList. intros (text & w1 & Hr & HS)%bind_Ok_inv_st.
  apply io_Ok_inv in Hr as (f & Hr & ->).
  assert (f = fs w) as -> by (unfold read_file in Hr; congruence).
  destruct (scan text) as [lines complete] eqn:Hs. destruct complete; [|done].
  injection HS as <- <-. split; [|done]. exists text, lines. by rewrite Hr, cidr_lines_spec.
Qed.

Lemma put_file_writes dir path content fmt fmt' w w' :
  (wrap fmt (MkdirAll dir 488) ≫= fun _ => wrap fmt' (WriteFile path content 420)) w = (Ok tt, w') ->
  writes (log w') = EOS "write" [path; content] :: writes (log w).
Proof.
  intros ([] & w1 & Hm%wrap_Ok_inv & Hw%wrap_Ok_inv)%bind_Ok_inv_st.
  apply io_Ok_inv in Hm as (f & _ & ->), Hw as (f' & _ & ->). done.
Qed.
End file_lemmas.

Section bus_lemmas.
Context {E : Env} `{Answers}.

Lemma call_oracle d c h r o :
  call d c (MkOracle h) = (r, o) -> o = MkOracle (c :: h) /\ r = answer (c :: h).
Proof. unfold call, oracle_client. cbn [calls]. by intros [= <- <-]. Qed.

Lemma ensureIPSet_ok name family h path o :
  ensureIPSet name family (MkOracle h) = (Ok path, o) ->
  exists h', o = MkOracle h' /\ ensured name family h h' path.
Proof.
  unfold ensureIPSet, try, mbind at 1, ST_bind at 1, call at 1, oracle_client at 1. cbn [calls].
  destruct (answer (getIPSet_call name :: h)) as [vs|e| |] eqn:Ha; [| |done..].
  - intros [= <- <-]. eexists. split; [done|]. by apply ensured_found.
  - destruct e; try done. intros (vs & o' & Hc%wrap_Ok_inv & Hr)%bind_Ok_inv_st.
    apply call_oracle in Hc as [-> Hc]. injection Hr as <- <-.
    eexists. split; [done|]. by eapply ensured_added.
Qed.

(** [sets specs f l]: the list of each set's file. *)
Definition lists_of (f : FS) (spec : ipset_spec) (p : ipset_spec * list string) : Prop :=
  p.1 = spec /\ cidr_file f (path_join ["/"; cfIPListDir; s_file spec]) p.2.

Lemma sync_sets_ok specs w h s' :
  sync_sets specs (w, MkOracle h) = (Ok tt, s') ->
  exists l h', s'.2 = MkOracle h' /\ Forall2 (lists_of (fs w)) specs l /\ refreshed l h h' /\
  fs s'.1 = fs w.
Proof.
  revert w h. induction specs as [|spec specs IH]; intros w h HS.
  { injection HS as <-. exists [], h. by repeat constructor. }
  cbn [sync_sets] in HS. apply bind_Ok_inv_st in HS as (ranges & [w1 o1] & Hr%wrap_Ok_inv & HS).
  unfold on_world in Hr. destruct (readCIDRList _ w) as [r w1'] eqn:Hc. injection Hr as -> -> <-.
  apply readCIDRList_ok in Hc as (Hc & Hf & _).
  apply bind_Ok_inv_st in HS as (path & [w2 o2] & He%wrap_Ok_inv & HS).
  unfold on_conn in He. destruct (ensureIPSet _ _ _) as [r o2'] eqn:Hens. injection He as -> <- ->.
  apply ensureIPSet_ok in Hens as (h1 & -> & Hens).
  apply bind_Ok_inv_st in HS as (vs & [w3 o3] & Hse%wrap_Ok_inv & HS).
  unfold on_conn in Hse. destruct (call _ _ _) as [r o3'] eqn:Hcall. injection Hse as -> <- ->.
  apply call_oracle in Hcall as [-> Hcall].
  apply IH in HS as (l & h' & Ho & Hl & Hre & Hf'). exists ((spec, ranges) :: l), h'.
  rewrite Hf in *. split_and!; try done.
  - by constructor.
  - by econstructor; eauto.
Qed.
End bus_lemmas.

(** The arguments of every call have the types of its signature. *)
Lemma getIPSet_typed name : well_typed (getIPSet_call name).
Proof. exists [TStr SString]. split_and!; [done|by repeat constructor|simpl; lia]. Qed.
Lemma addIPSet_typed name family : well_typed (addIPSet_call name family).
Proof.
  exists [TStr SString; TStruct [TStr SString; TStr SString; TStr SString; TStr SString;
    TDict SString (TStr SString); TArray (TStr SString)]].
  split_and!; [done| |simpl; lia]. repeat apply Forall2_cons_2; try done.
  - intros key x [<- <-]%lookup_singleton_Some. done.
  - exists []. by repeat constructor.
Qed.
Lemma setEntries_typed path ranges : well_typed (setEntries_call path ranges).
Proof.
  exists [TArray (TStr SString)]. split_and!; [done| |simpl; lia]. repeat constructor.
  exists (VString <$> ranges). split; [done|]. apply Forall_forall.
  by intros x (s & -> & _)%list_elem_of_fmap.
Qed.
Lemma reload_typed : well_typed reload_call.
Proof. exists []. split_and!; [done|constructor|simpl; lia]. Qed.

#[export] Hint Resolve getIPSet_typed addIPSet_typed setEntries_typed reload_typed : calls.

Section encodes.
Context `{Env, Answers}.

Lemma ensureIPSet_calls name family : calls_ok well_typed (on_conn (ensureIPSet name family)).
Proof.
  intros [w o] Hs. unfold on_conn, ensureIPSet, try, wrap, mbind, ST_bind, call, oracle_client.
  cbn [snd calls] in *. destruct (answer (getIPSet_call name :: _)) as [|e| |]; cbn.
  2: destruct e; cbn; try destruct (answer _); cbn.
  all: repeat apply Forall_cons_2; auto with calls.
Qed.

Lemma sync_sets_calls specs : calls_ok well_typed (sync_sets specs).
Proof.
  induction specs as [|spec specs IH]; cbn [sync_sets]; auto 10 using ensureIPSet_calls with calls.
Qed.
End encodes.

(** *** The configuration written before the first boot only uses files. *)
Section preboot.
Context {E : Env}.

Lemma ends_readCIDRList path : ends (readCIDRList path).
Proof. unfold readCIDRList. apply ends_bind; [auto with ends|]. intros text. destruct (scan text). auto with ends. Qed.

Lemma ends_SetupPreBoot root : ends (SetupPreBoot root).
Proof.
  unfold SetupPreBoot, writeIPSetXML, writeZoneXML. cbv zeta. auto 12 using ends_readCIDRList with ends.
Qed.

Lemma quiet_SetupPreBoot (P : event -> Prop) root :
  (forall op args, op <> "touch" -> P (EOS op args)) -> quiet P (SetupPreBoot root).
Proof.
  intros HP. assert (Hr : forall path, quiet P (readCIDRList path)).
  { intros path. unfold readCIDRList. apply quiet_bind; [by apply quiet_io, HP|]. intros text.
    destruct (scan text) as [l []]; auto with quiet. }
  unfold SetupPreBoot, writeIPSetXML, writeZoneXML. cbv zeta.
  do 2 (apply quiet_bind; [auto with quiet|]; intros ?).
  repeat first [apply quiet_bind; [|intros ?] | apply quiet_wrap | apply quiet_io; by apply HP].
Qed.
End preboot.

(** ** The operations end, over a bus that keeps to the signatures *)
Section bus_ends.
Context {E : Env} `{MapRangeOk, !BusLawful}.

Lemma good_ensureIPSet name family : good (fun _ => True) (ensureIPSet (C := Conn) name family).
Proof.
  unfold ensureIPSet. eapply good_bind; [apply good_try, good_call, getIPSet_typed|].
  intros [vs|e] _; [by apply good_ret|]. destruct e; try by apply good_lift.
  eapply good_bind; [apply good_wrap, good_call, addIPSet_typed|]. intros vs _. by apply good_ret.
Qed.
Lemma on_ends_sync_sets specs : on_ends (fun _ => True) (sync_sets (C := Conn) specs).
Proof.
  induction specs as [|s specs IH]; cbn [sync_sets]; [by apply on_ends_ret|].
  eapply on_ends_bind; [apply on_ends_wrap, on_ends_world, ends_readCIDRList|]. intros ranges _.
  eapply on_ends_bind; [apply on_ends_wrap, on_ends_conn, good_ensureIPSet|]. intros path _.
  eapply on_ends_bind; [apply on_ends_wrap, on_ends_conn, good_call, setEntries_typed|]. intros _ _. apply IH.
Qed.
Lemma ends_SyncCloudflareIPSets : ends SyncCloudflareIPSets.
Proof.
  apply ends_system_bus. unfold SyncCloudflareIPSets_on. eapply on_ends_bind; [apply on_ends_sync_sets|]. intros _ _.
  eapply on_ends_bind; [apply on_ends_wrap, on_ends_conn, good_call, reload_typed|]. intros _ _. by apply on_ends_ret.
Qed.
End bus_ends.

(** ** A refresh succeeds, when the lists can be read and the daemon answers.

    The daemon knows a set, or does not and adds it. *)
Inductive set_answers : list message -> Prop :=
| set_known m s : m_type m <> msgTypeError -> m_body m = [VString s] -> set_answers [m]
| set_added e m s :
    m_type e = msgTypeError -> m_type m <> msgTypeError -> m_body m = [VString s] -> set_answers [e; m].
Definition firewall_answers (ms : list message) : Prop := exists a4 v4 a6 v6 r,
  ms = a4 ++ v4 :: a6 ++ [v6; r] /\ set_answers a4 /\ set_answers a6 /\
  Forall (fun m => m_type m <> msgTypeError) [v4; v6; r].
Definition lists_readable (f : FS) : Prop :=
  Forall (fun spec => exists ranges, cidr_file f (path_join ["/"; cfIPListDir; s_file spec]) ranges) cfIPSets.

Section bus_returns.
Context {E : Env} `{MapRangeOk, !NoFaults}.

Lemma readCIDRList_returns path ranges w : cidr_file (fs w) path ranges ->
  returns (readCIDRList path) (fun l w' => fs w' = fs w /\ console w' = console w) w.
Proof.
  intros (text & lines & Hr & Hs & _). unfold readCIDRList. apply returns_bind, returns_io.
  unfold returns. destruct (read_file path (fs w)) as [r f] eqn:He.
  assert (f = fs w) as -> by (unfold read_file in He; congruence). cbn [fst] in Hr. subst r.
  rewrite Hs. by apply returns_ret.
Qed.

Lemma ensureIPSet_returns name family a n ms k : set_answers a -> serves n (a ++ ms) k ->
  returns (ensureIPSet name family) (fun _ k' => exists n', serves n' ms k') k.
Proof.
  intros [m s Ht Hb|e m s He Ht Hb] Hk; cbn [app] in Hk; unfold ensureIPSet; apply returns_bind;
    (destruct (call_served busName (getIPSet_call name) n _ _ k ltac:(auto with calls) Hk) as (k' & Hc & Hk');
    unfold returns at 1, try; rewrite Hc).
  - rewrite (result_string _ _ s) by auto. apply returns_ret. eauto.
  - destruct (result_error (getIPSet_call name) e He) as (nm & body & ->).
    apply returns_bind, returns_wrap. eapply returns_mono; [eapply call_returns; [auto with calls|done|]|].
    + by apply (result_string _ _ s); auto.
    + intros vs k2 [_ Hk2]. apply returns_ret. eauto.
Qed.

Lemma call_void_returns c n m ms k : well_typed c -> b_outsig c = "" -> m_type m <> msgTypeError ->
  serves n (m :: ms) k -> returns (call busName c) (fun _ k' => exists n', serves n' ms k') k.
Proof.
  intros Hc Ho Ht Hk. eapply returns_mono; [eapply call_returns; [done|done|by apply result_void]|].
  intros vs k' [_ Hk']. eauto.
Qed.

Lemma SyncCloudflareIPSets_returns w stream ms :
  bus (ENet "dial" ["/run/dbus/system_bus_socket"] :: log w) = Some stream -> welcomes stream ms -> firewall_answers ms ->
  lists_readable (fs w) ->
  returns SyncCloudflareIPSets (fun _ w' => fs w' = fs w /\ console w' = console w) w.
Proof.
  intros Hb Hw (a4 & v4 & a6 & v6 & r & -> & H4 & H6 & Hv) Hl.
  apply Forall_cons in Hl as [[r4 Hr4] Hl]. apply Forall_cons in Hl as [[r6 Hr6] _].
  apply Forall_cons in Hv as [Hv4 Hv]. apply Forall_cons in Hv as [Hv6 Hv]. apply Forall_cons in Hv as [Hr _].
  eapply with_system_bus_returns; [exact Hb|exact Hw|]. intros c Hc.
  unfold SyncCloudflareIPSets_on, cfIPSets. cbn [sync_sets].
  apply returns_bind, returns_bind, returns_wrap, on_world_returns.
  eapply returns_mono; [by eapply readCIDRList_returns|]. intros l4 w1 [Hf1 Hc1].
  apply returns_bind, returns_wrap, on_conn_returns. eapply returns_mono; [eapply (ensureIPSet_returns _ _ a4); [exact H4|exact Hc]|].
  intros path4 c1 [n1 Hk1]. apply returns_bind, returns_wrap, on_conn_returns.
  eapply returns_mono; [eapply call_void_returns; [auto with calls|done|exact Hv4|exact Hk1]|]. intros _ c2 [n2 Hk2].
  apply returns_bind, returns_wrap, on_world_returns.
  eapply returns_mono; [eapply readCIDRList_returns; by rewrite Hf1|]. intros l6 w2 [Hf2 Hc2].
  apply returns_bind, returns_wrap, on_conn_returns. eapply returns_mono; [eapply (ensureIPSet_returns _ _ a6); [exact H6|exact Hk2]|].
  intros path6 c3 [n3 Hk3]. apply returns_bind, returns_wrap, on_conn_returns.
  eapply returns_mono; [eapply call_void_returns; [auto with calls|done|exact Hv6|exact Hk3]|]. intros _ c4 [n4 Hk4].
  apply returns_ret, returns_bind, returns_wrap, on_conn_returns.
  eapply returns_mono; [eapply call_void_returns; [auto with calls|done|exact Hr|exact Hk4]|]. intros _ c5 _.
  apply returns_ret. cbn [fst]. split; [by rewrite Hf2, Hf1|by rewrite Hc2, Hc1].
Qed.
End bus_returns.

(** The same of any client, whose answers are then [obliging]: a set is known, or
    the daemon says that it is not, and it can be added, filled and loaded. *)
Definition obliging `{Answers} : Prop := forall h,
  (forall name, (exists vs, answer (getIPSet_call name :: h) = Ok vs) \/
    exists e body, answer (getIPSet_call name :: h) = Err (CallError e body)) /\
  (forall name family, exists vs, answer (addIPSet_call name family :: h) = Ok vs) /\
  (forall path ranges, exists vs, answer (setEntries_call path ranges :: h) = Ok vs) /\
  exists vs, answer (reload_call :: h) = Ok vs.

Section obliging.
Context {E : Env} `{Answers, !NoFaults}.
Context (Hobl : obliging).

Lemma answered d c o : (exists vs, answer (c :: calls o) = Ok vs) -> returns (call d c) (fun _ _ => True) o.
Proof using. intros [vs Hv]. unfold returns, call, oracle_client. by rewrite Hv. Qed.

Lemma ensureIPSet_obliged name family o : returns (ensureIPSet name family) (fun _ _ => True) o.
Proof using Hobl.
  destruct (Hobl (calls o)) as (Hget & _). unfold ensureIPSet. apply returns_bind.
  destruct (Hget name) as [[vs Hv]|(e & body & He)]; unfold returns at 1, try, call at 1, oracle_client at 1.
  - by rewrite Hv.
  - rewrite He. apply returns_bind, returns_wrap. eapply returns_mono; [apply answered, Hobl|done].
Qed.

Lemma sync_sets_obliged specs w o :
  Forall (fun spec => exists ranges, cidr_file (fs w) (path_join ["/"; cfIPListDir; s_file spec]) ranges) specs ->
  returns (sync_sets specs) (fun _ _ => True) (w, o).
Proof using All.
  revert w o. induction specs as [|spec specs IH]; intros w o Hl; [done|].
  apply Forall_cons in Hl as [[r Hr] Hl]. cbn [sync_sets]. apply returns_bind, returns_wrap, on_world_returns.
  eapply returns_mono; [by eapply readCIDRList_returns|]. intros l w1 [Hf _].
  apply returns_bind, returns_wrap, on_conn_returns. eapply returns_mono; [apply ensureIPSet_obliged|]. intros path o1 _.
  apply returns_bind, returns_wrap, on_conn_returns. eapply returns_mono; [apply answered, Hobl|]. intros _ o2 _.
  apply IH. by rewrite Hf.
Qed.

Lemma SyncCloudflareIPSets_obliged w o : lists_readable (fs w) ->
  returns SyncCloudflareIPSets_on (fun _ _ => True) (w, o).
Proof using All.
  intros Hl. unfold SyncCloudflareIPSets_on. apply returns_bind.
  eapply returns_mono; [by apply sync_sets_obliged|]. intros _ [w1 o1] _.
  apply returns_bind, returns_wrap, on_conn_returns. eapply returns_mono; [apply answered, Hobl|done].
Qed.
End obliging.

(** * Properties *)

(** C19: a successful refresh replaces the entries of both Cloudflare sets by the
    nonblank lines of their files, whatever the daemon answers: for each set, in
    order, the daemon is asked for it, it is created only when the daemon itself
    (not the transport) says that it does not have it, and its entries are set;
    then firewalld is reloaded, once; no file changes.  And a refresh succeeds
    whenever both files can be read and the daemon is obliging. *)
Theorem SyncCloudflareIPSets_replaces `{Env, Answers} w h :
  let '(r, (w', o')) := SyncCloudflareIPSets_on (w, MkOracle h) in
  (r = Ok tt -> exists v4 v6 h',
    cidr_file (fs w) "/usr/share/slfhst/cloudflare-ips/v4.txt" v4 /\
    cidr_file (fs w) "/usr/share/slfhst/cloudflare-ips/v6.txt" v6 /\
    refreshed [(Spec "cloudflare-v4" "v4.txt" "inet", v4); (Spec "cloudflare-v6" "v6.txt" "inet6", v6)] h h' /\
    calls o' = reload_call :: h' /\ fs w' = fs w) /\
  (NoFaults -> lists_readable (fs w) -> obliging -> r = Ok tt).
Proof.
  destruct (SyncCloudflareIPSets_on _) as [r [w' o']] eqn:Heq. split.
  2: { intros Hnf Hl Hobl. pose proof (SyncCloudflareIPSets_obliged Hobl w (MkOracle h) Hl) as Hret.
       unfold returns in Hret. rewrite Heq in Hret. by destruct r as [[]| | |]. }
  intros ->. revert Heq. unfold SyncCloudflareIPSets_on. intros ([] & [w1 o1] & Hs & HS)%bind_Ok_inv_st.
  apply sync_sets_ok in Hs as (l & h' & Ho & Hl & Hr & Hf). cbn [fst snd] in *. subst o1.
  apply bind_Ok_inv_st in HS as (vs & [w2 o2] & Hc%wrap_Ok_inv & HS). injection HS as <- <-.
  unfold on_conn in Hc. destruct (call _ _ _) as [r o2'] eqn:Hcall. injection Hc as -> <- <-.
  apply call_oracle in Hcall as [-> _].
  apply Forall2_cons_inv_l in Hl as ([s4 v4] & l1 & [H4s H4] & Hl & ->).
  apply Forall2_cons_inv_l in Hl as ([s6 v6] & l2 & [H6s H6] & Hl & ->).
  apply Forall2_nil_inv_l in Hl as ->. cbn [fst snd] in *. subst s4 s6.
  exists v4, v6, h'. by split_and!.
Qed.

(** C37: whatever the files hold and whatever the daemon answers, the client can
    encode every call that a refresh makes: for any serial and destination the
    arguments are marshaled, and the bytes are the message of that call. *)
Theorem SyncCloudflareIPSets_encodes `{MapRangeOk, Env, Answers} w :
  let '(_, (_, o)) := SyncCloudflareIPSets_on (w, MkOracle []) in
  forall c, c ∈ calls o -> encodable c.
Proof.
  assert (Hok : calls_ok well_typed SyncCloudflareIPSets_on)
    by (unfold SyncCloudflareIPSets_on; auto 10 using sync_sets_calls with calls).
  specialize (Hok (w, MkOracle []) (Forall_nil_2 _)).
  destruct (SyncCloudflareIPSets_on _) as [r [w' o]]. cbn [snd] in Hok.
  intros c Hc. apply encodable_call. by eapply Forall_forall in Hok.
Qed.

(** A successful [SetupPreBoot] writes three files: the two address sets, with
    the ranges of the image that is being installed, and the public zone. *)
Theorem SetupPreBoot_writes `{Env} root w w' :
  SetupPreBoot root w = (Ok tt, w') ->
  exists v4 v6 f,
    cidr_file (fs w) (path_join [root; cfIPListDir; "v4.txt"]) v4 /\
    cidr_file f (path_join [root; cfIPListDir; "v6.txt"]) v6 /\ f = fs w /\
    writes (log w') =
      [EOS "write" [path_join [root; "etc/firewalld/zones/public.xml"]; zone_of public_zone];
       EOS "write" [path_join [root; "etc/firewalld/ipsets"; "cloudflare-v6.xml"]; ipset_xml "inet6" v6];
       EOS "write" [path_join [root; "etc/firewalld/ipsets"; "cloudflare-v4.xml"]; ipset_xml "inet" v4]] ++
      writes (log w).
Proof.
  unfold SetupPreBoot. intros (v4 & w1 & H4%wrap_Ok_inv & HS)%bind_Ok_inv_st.
  apply readCIDRList_ok in H4 as (H4 & Hf4 & Hl4).
  apply bind_Ok_inv_st in HS as (v6 & w2 & H6%wrap_Ok_inv & HS).
  apply readCIDRList_ok in H6 as (H6 & Hf6 & Hl6).
  apply bind_Ok_inv_st in HS as ([] & w3 & Hw4%put_file_writes & HS).
  apply bind_Ok_inv_st in HS as ([] & w4 & Hw6%put_file_writes & Hz%put_file_writes).
  exists v4, v6, (fs w). rewrite Hf4 in H6. split_and!; try done.
  rewrite Hz, Hw6, Hw4, Hl6, Hl4, zone_xml_public. done.
Qed.

(** What the zone written before the first boot lets in: exactly the mail and
    sieve ports are open to everyone; the web backend is only open to the two
    Cloudflare sets, and public port 443 leads to it; ssh is only accepted with a
    rate limit; every other forward starts at an open port; and each open port
    also has a rate-limited rule per family. *)
Theorem zone_exposure :
  zone_xml = zone_of public_zone /\
  (forall p, OpenPort p ∈ public_zone <-> p ∈ [25; 465; 993; 4190]) /\
  (forall family source limit, Allow family source webPrivatePort limit ∈ public_zone <->
     limit = None /\ (family, source) ∈ [("ipv4", Some cfIPSetV4); ("ipv6", Some cfIPSetV6)]) /\
  (forall family source limit, Allow family source sshPort limit ∈ public_zone ->
     source = None /\ limit = Some "10/m") /\
  (forall p q, ForwardPort p q ∈ public_zone -> OpenPort p ∈ public_zone \/ (p, q) = (webPublicPort, webPrivatePort)) /\
  (forall p family, OpenPort p ∈ public_zone -> family ∈ ["ipv4"; "ipv6"] ->
     Allow family None p (Some "20/m") ∈ public_zone).
Proof.
  split; [exact zone_xml_public|]. unfold public_zone, limited. cbn [app].
  repeat setoid_rewrite elem_of_cons. repeat setoid_rewrite elem_of_nil.
  unfold webPrivatePort, sshPort, webPublicPort, cfIPSetV4, cfIPSetV6.
  split_and!; intros; naive_solver.
Qed.

(** * Witnesses *)
#[local] Instance no_network : Env := simple_env (fun _ f _ => (NotStarted, f)) (fun _ => HttpError) (fun _ => false).

(** A daemon that knows the first set only. *)
#[local] Instance daemon : Answers := fun l =>
  match l with
  | c :: _ =>
      if String.eqb (b_method c) "getIPSetByName" then
        match b_args c with
        | [VString name] =>
            if String.eqb name "cloudflare-v4" then Ok [VString "/ipset/0"]
            else Err (CallError "org.fedoraproject.FirewallD1.Exception" [])
        | _ => Err (Errorf "")
        end
      else if String.eqb (b_method c) "addIPSet" then Ok [VString "/ipset/1"]
      else Ok []
  | [] => Err (Errorf "")
  end.

Definition image (root : string) : World := MkWorld {[
  root +:+ "usr/share/slfhst/cloudflare-ips/v4.txt" := NFile ("192.0.2.0/24" +:+ nl +:+ nl +:+ " 198.51.100.0/24 " +:+ nl) 420 0 0;
  root +:+ "usr/share/slfhst/cloudflare-ips/v6.txt" := NFile "2001:db8::/32" 420 0 0]} "" [].

Lemma SyncCloudflareIPSets_replaces_witness :
  exists v4 v6 h',
    cidr_file (fs (image "/")) "/usr/share/slfhst/cloudflare-ips/v4.txt" v4 /\
    cidr_file (fs (image "/")) "/usr/share/slfhst/cloudflare-ips/v6.txt" v6 /\
    refreshed [(Spec "cloudflare-v4" "v4.txt" "inet", v4); (Spec "cloudflare-v6" "v6.txt" "inet6", v6)] [] h' /\
    calls (SyncCloudflareIPSets_on (image "/", MkOracle [])).2.2 = reload_call :: h' /\
    fs (SyncCloudflareIPSets_on (image "/", MkOracle [])).2.1 = fs (image "/").
Proof.
  pose proof (SyncCloudflareIPSets_replaces (image "/") []) as Hs.
  assert (Hnf : NoFaults) by done.
  assert (Hl : lists_readable (fs (image "/"))).
  { repeat constructor; eexists _, _, _; by vm_compute. }
  assert (Ho : obliging).
  { intros h. split_and!; [|by eexists..]. intros name. cbn. destruct (String.eqb _ _); eauto. }
  destruct (SyncCloudflareIPSets_on _) as [r [w o]]. destruct Hs as [Hs Hok]. exact (Hs (Hok Hnf Hl Ho)).
Defined.

Lemma SyncCloudflareIPSets_encodes_witness :
  Forall encodable (calls (SyncCloudflareIPSets_on (image "/", MkOracle [])).2.2).
Proof.
  pose proof (SyncCloudflareIPSets_encodes (image "/")) as He.
  destruct (SyncCloudflareIPSets_on _) as [r [w o]]. by apply Forall_forall.
Defined.

Definition mounted : World := (MkdirAll "/mnt" 493 (image "/mnt/")).2.

Lemma SetupPreBoot_writes_witness :
  exists v4 v6 f,
    cidr_file (fs mounted) (path_join ["/mnt"; cfIPListDir; "v4.txt"]) v4 /\
    cidr_file f (path_join ["/mnt"; cfIPListDir; "v6.txt"]) v6 /\ f = fs mounted /\
    writes (log (SetupPreBoot "/mnt" mounted).2) =
      [EOS "write" ["/mnt/etc/firewalld/zones/public.xml"; zone_of public_zone];
       EOS "write" ["/mnt/etc/firewalld/ipsets/cloudflare-v6.xml"; ipset_xml "inet6" v6];
       EOS "write" ["/mnt/etc/firewalld/ipsets/cloudflare-v4.xml"; ipset_xml "inet" v4]] ++
      writes (log mounted).
Proof.
  apply (SetupPreBoot_writes "/mnt" mounted (SetupPreBoot "/mnt" mounted).2).
  assert (Hs : (SetupPreBoot "/mnt" mounted).1 = Ok tt) by (vm_compute; reflexivity).
  rewrite <- Hs. apply surjective_pairing.
Defined.
