(* ===== verification/Monitor.v ===== *)
(** Monitoring (internal/monitor/monitor.go): service states, port checks, DNS
    block lists and the mail that reports what is wrong. *)
From S2P Require Import Prelude Bytes GoStrings Signature Marshal Message Conn World Runx Json Config.
From S2P Require Import Dnscf Bus Peer Sysupdate Firewall.

Definition appServices : list string := [
  "traefik"; "postgres"; "garage"; "stalwart"; "bulwark"; "museum";
  "ente-web-photos"; "ente-web-auth"; "ente-web-locker"; "vaultwarden"].
Definition portChecks : list Z := [8443; 2525; 4465; 4993; 4190].
Definition dnsblZones : list string := ["zen.spamhaus.org"; "bl.spamcop.net"; "b.barracudacentral.org"].
Definition smtpHost : string := "127.0.0.1".
Definition smtpPort : Z := 2525.

Definition is_active_argv (name : string) : list string :=
  ["systemctl"; "--user"; "is-active"; name +:+ ".service"].
Definition is_active_opts : Options := unchecked (as_user ServiceUser captured).

(** [fmt.Sprintf] of [%-20s] *)
Definition pad20 (s : string) : string := s +:+ String.concat "" (replicate (20 - slen s) " ").

Definition reverseIPv4 (ip : string) : option string :=
  match split "." ip with
  | [p0; p1; p2; p3] => Some (p3 +:+ "." +:+ p2 +:+ "." +:+ p1 +:+ "." +:+ p0)
  | _ => None
  end.

(** [net.JoinHostPort] for a host without a colon *)
Definition joinHostPort (host : string) (port : Z) : string := host +:+ ":" +:+ itoa port.
Definition dial_event (port : Z) : event := ENet "dial" [joinHostPort "127.0.0.1" port].
Definition lookup_event (rev zone : string) : event := ENet "lookup" [rev +:+ "." +:+ zone].
Definition smtp_event (args : list string) : event := ENet "smtp" args.

Definition alert_text (domain alertEmail subject body : string) : string :=
  "From: " +:+ "slfhst@" +:+ domain +:+ CRLF +:+ "To: " +:+ alertEmail +:+ CRLF +:+
  "Subject: [slfhst] " +:+ subject +:+ CRLF +:+ CRLF +:+ body +:+ CRLF.

Section monitor.
Context {E : Env}.

(** The loop of [ServiceStatus] *)
Fixpoint status_loop (names : list string) (out : gmap string string) : ST World (gmap string string) :=
  match names with
  | [] => mret out
  | name :: names =>
      r ← try (Run (is_active_argv name) is_active_opts);
      let status := match r with
        | inl res => let s := trim_space (Stdout res) in if decide (s <> "") then s else "unknown"
        | inr _ => "unknown"
        end in
      status_loop names (<[name := status]> out)
  end.
Definition ServiceStatus : ST World (gmap string string) := status_loop appServices ∅.

(** A missing key of a Go map gives the empty string. *)
Definition status_in (statuses : gmap string string) (name : string) : string := default "" (statuses !! name).

Fixpoint print_statuses (statuses : gmap string string) (names : list string) : ST World unit :=
  match names with
  | [] => mret tt
  | name :: names =>
      _ ← Print_out (pad20 name +:+ " " +:+ status_in statuses name +:+ nl);
      print_statuses statuses names
  end.
Definition Status (store : Store) : ST World unit :=
  statuses ← ServiceStatus;
  print_statuses statuses appServices.

(** A loop that makes one exchange per element, and keeps the elements for which
    its success is [keep]. *)
Fixpoint filter_net {A} (ev : A -> event) (keep : bool) (l : list A) : ST World (list A) :=
  match l with
  | [] => mret []
  | a :: l =>
      ok ← net (ev a) net_ok;
      rest ← filter_net ev keep l;
      mret (if Bool.eqb ok keep then a :: rest else rest)
  end.

Definition failedPorts : ST World (list Z) := filter_net dial_event false portChecks.

Definition dnsblListings (ip : string) : ST World (list string) :=
  match reverseIPv4 ip with
  | None => mret []
  | Some rev => filter_net (lookup_event rev) true dnsblZones
  end.

(** The steps of the SMTP exchange, up to the first that fails, which is warned
    about; [true] when none did. *)
Fixpoint smtp_steps (steps : list (event * string)) : ST World bool :=
  match steps with
  | [] => mret true
  | (ev, warning) :: steps =>
      ok ← net ev net_ok;
      if ok : bool then smtp_steps steps
      else
        _ ← Print_out ("warning: monitor: " +:+ warning +:+ ": %v" +:+ nl);
        mret false
  end.

(** Dialing, the SMTP handshake, the envelope, the text and its end *)
Definition alert_steps (from alertEmail msg : string) : list (event * string) := [
  (smtp_event ["dial"; joinHostPort smtpHost smtpPort], "alert relay unreachable");
  (smtp_event ["hello"; smtpHost], "alert SMTP handshake failed");
  (smtp_event ["MAIL"; from], "alert MAIL FROM failed");
  (smtp_event ["RCPT"; alertEmail], "alert RCPT TO failed");
  (smtp_event ["DATA"], "alert DATA failed");
  (smtp_event ["write"; msg], "alert write failed");
  (smtp_event ["end"], "alert send failed")].

Definition sendAlert (cfg : config) (subject body : string) : ST World unit :=
  let domain := cfg_string cfg "domain" in
  let alertEmail := cfg_string cfg "alert_email" in
  if decide (alertEmail = "") then
    Print_out ("warning: monitor: no alert_email configured, not sending alert" +:+ nl)
  else
    let from := "slfhst@" +:+ domain in
    let msg := alert_text domain alertEmail subject body in
    ok ← smtp_steps (alert_steps from alertEmail msg);
    if ok : bool then _ ← net (smtp_event ["QUIT"]) net_ok; mret tt else mret tt.

(** The loops of [CheckAll] *)
Fixpoint service_issues (statuses : gmap string string) (names : list string) : list string :=
  match names with
  | [] => []
  | name :: names =>
      if decide (status_in statuses name <> "active")
      then ("service " +:+ name +:+ " is " +:+ status_in statuses name) :: service_issues statuses names
      else service_issues statuses names
  end.
Definition port_issue (port : Z) : string := "port " +:+ itoa port +:+ " is not accepting connections".

Definition dns_issues : ST World (list string) :=
  r ← try PublicIP;
  match r with
  | inr _ => mret ["could not determine public IP for DNSBL check: %v"]
  | inl ip =>
      listed ← dnsblListings ip;
      mret (if decide (listed <> []) then ["listed on DNSBL(s): " +:+ join ", " listed] else [])
  end.

Definition find_issues : ST World (list string) :=
  statuses ← ServiceStatus;
  failed ← failedPorts;
  dns ← dns_issues;
  mret (service_issues statuses appServices ++ (port_issue <$> failed) ++ dns).

Definition CheckAll `{MapRange} (store : Store) : ST World unit :=
  done2 ← IsDone store "stage2";
  if negb done2 then Print_out ("monitor: stage2 not done yet, skipping check-all" +:+ nl)
  else
    cfg ← Load store;
    issues ← find_issues;
    r ← try SyncCloudflareIPSets;
    _ ← match r with
      | inr _ => Print_out ("warning: monitor: cf-ips sync failed during check-all: %v" +:+ nl)
      | inl _ => mret tt
      end;
    r ← try CheckNewVersion;
    let updateStatus := match r with
      | inr _ => "update check failed: %v"
      | inl v => if decide (v <> "") then "new version available: " +:+ v else "up to date"
      end in
    if decide (issues = []) then Print_out ("monitor: all clear" +:+ nl)
    else
      let body := join nl issues +:+ nl +:+ nl +:+ "OS update status: " +:+ updateStatus in
      sendAlert (default ∅ cfg) "action needed" body.
End monitor.

(** ** What the outside answers *)
Section answers.
Context {E : Env}.

(** The answer to each exchange of a sequence that starts after the events [base]. *)
Fixpoint net_answers {A} (ev : A -> event) (l : list A) (base : list event) : list (A * bool) :=
  match l with
  | [] => []
  | a :: l => (a, net_ok (ev a :: base)) :: net_answers ev l (ev a :: base)
  end.

(** The answer to each [systemctl is-active], and the world after them. *)
Fixpoint service_answers (names : list string) (w : World) : list (string * exec_result) * World :=
  match names with
  | [] => ([], w)
  | name :: names =>
      let '(r, w) := ran (is_active_argv name) is_active_opts w in
      let '(l, w) := service_answers names w in
      ((name, r) :: l, w)
  end.
Definition active (r : exec_result) : Prop :=
  match r with Exited _ out _ => trim_space out = "active" | NotStarted => False end.

Definition trace_event : event := http_event "GET" traceURL "" None.

(** Everything is fine: the services are active, the ports answer, the public
    address is known and, when it is an IPv4 address, no block list has it. *)
Definition healthy (w : World) : Prop :=
  let '(services, w1) := service_answers appServices w in
  let base := rev (dial_event <$> portChecks) ++ log w1 in
  Forall (fun x => active x.2) services /\
  Forall (fun x => x.2 = true) (net_answers dial_event portChecks (log w1)) /\
  exists status body ip, http (trace_event :: base) = HttpResponse status body /\
  find_ip (scan body).1 (scan body).2 = Ok ip /\
  forall rv, reverseIPv4 ip = Some rv ->
  Forall (fun x => x.2 = false) (net_answers (lookup_event rv) dnsblZones (trace_event :: base)).

(** ** Lemmas *)
Lemma filter_net_answers {A} (ev : A -> event) keep l w :
  filter_net ev keep l w
    = (Ok ((List.filter (fun x => Bool.eqb x.2 keep) (net_answers ev l (log w))).*1),
      MkWorld (fs w) (console w) (rev (ev <$> l) ++ log w)).
Proof.
  revert w. induction l as [|a l IH]; intros w; [by destruct w|].
  cbn [filter_net]. unfold mbind, ST_bind, net. rewrite IH. cbn [log fs console add_log].
  cbn [fmap list_fmap rev net_answers List.filter]. rewrite <- (assoc_L (++)). cbn [app].
  cbn [snd]. by destruct (Bool.eqb (net_ok (ev a :: log w)) keep).
Qed.

Lemma filter_net_nil {A} (ev : A -> event) keep l base :
  (List.filter (fun x => Bool.eqb x.2 keep) (net_answers ev l base)).*1 = [] <->
  Forall (fun x => x.2 = negb keep) (net_answers ev l base).
Proof.
  induction (net_answers ev l base) as [|[a ok] xs IH]; [by split|].
  cbn [List.filter snd]. rewrite Forall_cons. cbn [snd].
  destruct ok, keep; cbn; naive_solver.
Qed.

Lemma status_ran name w :
  let '(r, w1) := ran (is_active_argv name) is_active_opts w in
  exists s, try (Run (is_active_argv name) is_active_opts) w = (Ok s, w1) /\
  let status := match s with
    | inl res => let s := trim_space (Stdout res) in if decide (s <> "") then s else "unknown"
    | inr _ => "unknown"
    end in
  status = "active" <-> active r.
Proof.
  unfold try. rewrite Run_ran by done. destruct (ran _ _ _) as [[|code out err] w1].
  - eexists. split; [done|]. by split.
  - cbn [is_active_opts unchecked as_user captured NoCheck Capture].
    case_decide; (eexists; split; [done|]; cbn [active Stdout]);
      case_decide as Hd; split; try done; by rewrite Hd.
Qed.

Lemma status_loop_answers names out w :
  NoDup names ->
  let '(answers, w') := service_answers names w in
  exists m, status_loop names out w = (Ok m, w') /\
  (forall name, name ∉ names -> m !! name = out !! name) /\
  (Forall (fun x => active x.2) answers <-> forall name, name ∈ names -> status_in m name = "active").
Proof.
  revert out w. induction names as [|name names IH]; intros out w Hnd.
  { exists out. split_and!; [done|done|]. split; [by intros _ ? ?%elem_of_nil|constructor]. }
  apply NoDup_cons in Hnd as [Hni Hnd]. cbn [service_answers status_loop].
  pose proof (status_ran name w) as Hr. destruct (ran _ _ w) as [r w1].
  destruct Hr as (s & Hs & Hact). set (status := match s with inl _ => _ | _ => _ end) in Hact.
  specialize (IH (<[name := status]> out) w1 Hnd).
  destruct (service_answers names w1) as [l w2]. destruct IH as (m & Hm & Hout & Hall).
  exists m. rewrite (bind_Ok_st _ _ _ _ _ Hs). split_and!; [exact Hm| |].
  - intros x [Hx1 Hx2]%not_elem_of_cons. rewrite Hout by done. by rewrite lookup_insert_ne.
  - rewrite Forall_cons, Hall. cbn [snd]. rewrite <- Hact.
    assert (status_in m name = status) as Hst
      by (unfold status_in; rewrite Hout by done; by rewrite lookup_insert_eq).
    setoid_rewrite elem_of_cons. rewrite <- Hst. naive_solver.
Qed.

Lemma service_issues_nil statuses names :
  service_issues statuses names = [] <-> forall name, name ∈ names -> status_in statuses name = "active".
Proof.
  induction names as [|n names IH]; cbn [service_issues].
  - split; [by intros _ ? ?%elem_of_nil|done].
  - setoid_rewrite elem_of_cons. case_decide as Hd; [split; [done|naive_solver]|].
    rewrite IH. naive_solver.
Qed.
End answers.

Section more_lemmas.
Context {E : Env}.

Lemma ServiceStatus_answers w :
  let '(answers, w') := service_answers appServices w in
  exists m, ServiceStatus w = (Ok m, w') /\
  (Forall (fun x => active x.2) answers <-> service_issues m appServices = []).
Proof.
  pose proof (status_loop_answers appServices ∅ w) as Hs.
  destruct (service_answers appServices w) as [answers w'].
  destruct Hs as (m & Hm & _ & Hall); [by apply (bool_decide_unpack _)|].
  exists m. split; [done|]. by rewrite service_issues_nil.
Qed.

(** The question about the public address always ends. *)
Lemma find_ip_no_panic lines complete :
  (exists ip, find_ip lines complete = Ok ip) \/ (exists e, find_ip lines complete = Err e).
Proof.
  induction lines as [|l lines IH]; simpl; [destruct complete; eauto|].
  destruct (cut_prefix l "ip="); eauto.
Qed.

Lemma dns_issues_answers w :
  exists issues w', dns_issues w = (Ok issues, w') /\
  (issues = [] <-> exists status body ip,
    http (trace_event :: log w) = HttpResponse status body /\
    find_ip (scan body).1 (scan body).2 = Ok ip /\
    forall rv, reverseIPv4 ip = Some rv ->
    Forall (fun x => x.2 = false) (net_answers (lookup_event rv) dnsblZones (trace_event :: log w))).
Proof.
  unfold dns_issues, PublicIP, mbind, ST_bind, try, net. cbn [log add_log]. fold trace_event.
  destruct (http (trace_event :: log w)) as [|status body].
  { eexists _, _. split; [done|]. split; [done|naive_solver]. }
  destruct (scan body) as [lines complete] eqn:Hsc. unfold lift.
  destruct (find_ip_no_panic lines complete) as [[ip Hip]|[e He]].
  2: { rewrite He. eexists _, _. split; [done|]. split; [done|].
    intros (s & b & ip & [= <- <-] & Hip & _). rewrite Hsc in Hip. cbn in Hip. congruence. }
  rewrite Hip. unfold dnsblListings. destruct (reverseIPv4 ip) as [rv|] eqn:Hrv.
  - rewrite filter_net_answers. eexists _, _. split; [reflexivity|]. cbn [log add_log].
    pose proof (filter_net_nil (lookup_event rv) true dnsblZones (trace_event :: log w)) as Hnil.
    split.
    + case_decide as Hd; [done|]. intros _. exists status, body, ip. rewrite Hsc.
      split_and!; [done|done|]. intros rv' Hrv'. assert (rv' = rv) as -> by congruence. by apply Hnil.
    + intros (s & b & ip' & [= <- <-] & Hip' & Hall). rewrite Hsc in Hip'. cbn in Hip'.
      case_decide as Hd; [|done]. exfalso. apply Hd, Hnil, Hall. congruence.
  - eexists _, _. split; [reflexivity|]. rewrite decide_False by (intros Hn; by apply Hn).
    split; [|done]. intros _. exists status, body, ip. rewrite Hsc. split_and!; [done|done|congruence].
Qed.

Lemma smtp_steps_answers steps w :
  exists w', smtp_steps steps w = (Ok (forallb snd (net_answers id steps.*1 (log w))), w') /\
  fs w' = fs w /\
  (forallb snd (net_answers id steps.*1 (log w)) = true -> log w' = rev steps.*1 ++ log w) /\
  (forallb snd (net_answers id steps.*1 (log w)) = false ->
    exists k ev warning, steps !! k = Some (ev, warning) /\
    snd <$> (net_answers id steps.*1 (log w) !! k) = Some false /\
    log w' = EOut ("warning: monitor: " +:+ warning +:+ ": %v" +:+ nl) ::
    rev (take (S k) steps.*1) ++ log w).
Proof.
  unfold id. revert w. induction steps as [|[ev warning] steps IH]; intros w; [by exists w|].
  cbn [smtp_steps]. unfold mbind, ST_bind, net. cbn [fmap list_fmap net_answers forallb fst snd].
  change (log (add_log ev w)) with (ev :: log w).
  destruct (net_ok (ev :: log w)) eqn:Hok; cbn [andb].
  - destruct (IH (add_log ev w)) as (w' & -> & Hf & Ht & Hff). exists w'.
    change (log (add_log ev w)) with (ev :: log w) in *.
    split_and!; [done|done| |].
    + intros Ha. rewrite Ht by done. cbn [rev]. by rewrite <- (assoc_L (++)).
    + intros Ha. destruct (Hff Ha) as (k & ev' & wn & Hk & Hn & Hl). exists (S k), ev', wn.
      split_and!; [done|done|]. rewrite Hl. cbn [take rev]. by rewrite <- (assoc_L (++)).
  - eexists. split; [reflexivity|]. split_and!; [done|done|]. intros _.
    exists 0%nat, ev, warning. by split_and!.
Qed.

Lemma find_issues_spec w :
  exists issues w', find_issues w = (Ok issues, w') /\ (issues = [] <-> healthy w).
Proof.
  unfold find_issues, healthy. pose proof (ServiceStatus_answers w) as Hs.
  destruct (service_answers appServices w) as [answers w1]. destruct Hs as (m & Hm & Hall).
  rewrite (bind_Ok_st _ _ _ _ _ Hm).
  unfold failedPorts. rewrite (bind_Ok_st _ _ _ _ _ (filter_net_answers _ _ _ _)).
  set (w2 := MkWorld _ _ _). destruct (dns_issues_answers w2) as (dns & w3 & Hd & Hdns).
  rewrite (bind_Ok_st _ _ _ _ _ Hd). eexists _, _. split; [reflexivity|].
  pose proof (filter_net_nil dial_event false portChecks (log w1)) as Hp. cbn [negb] in Hp.
  change (log w2) with (rev (dial_event <$> portChecks) ++ log w1) in Hdns.
  rewrite Hall, <- Hp, <- Hdns. rewrite !app_nil.
  assert (Hn : forall l, port_issue <$> l = [] <-> l = []) by (by intros []).
  by rewrite Hn.
Qed.

Lemma sendAlert_Ok cfg subject body w : exists w', sendAlert cfg subject body w = (Ok tt, w').
Proof.
  unfold sendAlert. case_decide; [by eexists|]. set (steps := alert_steps _ _ _).
  destruct (smtp_steps_answers steps w) as (w' & Hs & _). rewrite (bind_Ok_st _ _ _ _ _ Hs).
  destruct (forallb _ _); by eexists.
Qed.
End more_lemmas.

(** Four parts without a dot, joined by dots *)
Definition dotted (a b c d : string) : string := a +:+ "." +:+ b +:+ "." +:+ c +:+ "." +:+ d.

Lemma split_dotted a b c d :
  Forall (fun p => no_char "." p = true) [a; b; c; d] -> split "." (dotted a b c d) = [a; b; c; d].
Proof.
  rewrite !Forall_cons. intros (Ha & Hb & Hc & Hd & _). unfold dotted. cbn [String.append].
  by rewrite !split_app, split_no_char by done.
Qed.

Lemma reverseIPv4_spec ip :
  match reverseIPv4 ip with
  | Some rv => exists a b c d, Forall (fun p => no_char "." p = true) [a; b; c; d] /\
      ip = dotted a b c d /\ rv = dotted d c b a
  | None => forall a b c d, Forall (fun p => no_char "." p = true) [a; b; c; d] -> ip <> dotted a b c d
  end.
Proof.
  unfold reverseIPv4.
  assert (Hnone : length (split "." ip) <> 4%nat -> forall a b c d,
    Forall (fun p => no_char "." p = true) [a; b; c; d] -> ip <> dotted a b c d).
  { intros Hl a b c d Hp ->. by rewrite split_dotted in Hl. }
  destruct (split "." ip) as [|a [|b [|c [|d [|]]]]] eqn:Hs; try (by apply Hnone).
  exists a, b, c, d. split_and!; [|by rewrite <- (join_split "." ip), Hs|done].
  apply Forall_forall. intros p Hp. apply (split_parts "." ip). by rewrite Hs.
Qed.

(** ** The operations end *)
Section ends.
Context {E : Env}.

Lemma ends_ServiceStatus : ends ServiceStatus.
Proof.
  unfold ServiceStatus. generalize (∅ : gmap string string). generalize appServices. intros l.
  induction l as [|n l IH]; intros out; cbn [status_loop]; auto 8 with ends.
Qed.
Lemma ends_Status store : ends (Status store).
Proof.
  unfold Status. apply ends_bind; [apply ends_ServiceStatus|]. intros statuses. generalize appServices.
  intros l. induction l as [|n l IH]; cbn [print_statuses]; auto with ends.
Qed.
Lemma ends_filter_net {A} (ev : A -> event) keep l : ends (filter_net ev keep l).
Proof. induction l as [|a l IH]; cbn [filter_net]; auto 8 with ends. Qed.
Lemma ends_find_issues : ends find_issues.
Proof.
  unfold find_issues, failedPorts, dns_issues, dnsblListings. apply ends_bind; [apply ends_ServiceStatus|]. intros statuses.
  apply ends_bind; [apply ends_filter_net|]. intros failed. apply ends_bind; [|auto with ends].
  apply ends_bind; [apply ends_try, ends_PublicIP|]. intros [ip|e]; [|auto with ends].
  apply ends_bind; [|auto with ends]. destruct (reverseIPv4 ip); [apply ends_filter_net|auto with ends].
Qed.
Lemma ends_sendAlert cfg subject body : ends (sendAlert cfg subject body).
Proof.
  unfold sendAlert. cbv zeta. case_decide; [auto with ends|]. apply ends_bind; [|intros []; auto with ends].
  generalize (alert_steps ("slfhst@" +:+ cfg_string cfg "domain") (cfg_string cfg "alert_email")
    (alert_text (cfg_string cfg "domain") (cfg_string cfg "alert_email") subject body)). intros l.
  induction l as [|[ev warning] l IH]; cbn [smtp_steps]; auto 8 with ends.
Qed.
Lemma ends_CheckAll `{MapRangeOk, !BusLawful} store : ends (CheckAll store).
Proof.
  unfold CheckAll. apply ends_bind; [auto with ends|]. intros []; cbn [negb]; [|auto with ends].
  apply ends_bind; [auto with ends|]. intros cfg. apply ends_bind; [apply ends_find_issues|]. intros issues.
  apply ends_bind; [apply ends_try, ends_SyncCloudflareIPSets|]. intros r1.
  apply ends_bind; [auto with ends|]. intros _. apply ends_bind; [auto with ends|].
  intros r2. cbv zeta. case_decide; [auto with ends|apply ends_sendAlert].
Qed.
End ends.

(** * Properties *)

(** C34: the checks are complete: they always end without an error, whatever the
    commands and hosts answer, and they find no issue exactly when the system is
    healthy: [systemctl] reports every service active, every port accepts a
    connection, the public address is known, and no block list resolves its
    reversed form. *)
Theorem find_issues_complete `{Env} w :
  exists issues w', find_issues w = (Ok issues, w') /\ (issues = [] <-> healthy w).
Proof. apply find_issues_spec. Qed.


(** An alert never fails; without an address it sends nothing; with one, it
    goes through the SMTP exchange for exactly the configured address and the
    composed message, up to the first step that fails, which is warned about, and
    quits after the last step when none fails; no file is touched. *)
Theorem sendAlert_transcript `{Env} cfg subject body w :
  let domain := cfg_string cfg "domain" in
  let email := cfg_string cfg "alert_email" in
  let steps := alert_steps ("slfhst@" +:+ domain) email (alert_text domain email subject body) in
  exists w', sendAlert cfg subject body w = (Ok tt, w') /\ fs w' = fs w /\
    if decide (email = "") then requests (log w') = requests (log w)
    else if forallb snd (net_answers id steps.*1 (log w)) then
      log w' = smtp_event ["QUIT"] :: rev steps.*1 ++ log w
    else exists k ev warning, steps !! k = Some (ev, warning) /\
      snd <$> (net_answers id steps.*1 (log w) !! k) = Some false /\
      log w' = EOut ("warning: monitor: " +:+ warning +:+ ": %v" +:+ nl) :: rev (take (S k) steps.*1) ++ log w.
Proof.
  intros domain email steps. unfold sendAlert. fold domain email. fold steps.
  case_decide; [by eexists|].
  destruct (smtp_steps_answers steps w) as (w' & Hs & Hf & Ht & Hff).
  rewrite (bind_Ok_st _ _ _ _ _ Hs). destruct (forallb _ _).
  - eexists. split; [reflexivity|]. split; [done|]. cbn [log add_log]. by rewrite Ht.
  - eexists. split; [reflexivity|]. split; [done|]. by apply Hff.
Qed.

(** The block lists are asked about the reversed address, and only about IPv4
    addresses: for an address of four parts, one query per zone, in order, for
    the four parts in reverse order, and the zones that answer are those
    returned; for anything else there is no query. *)
Theorem dnsblListings_queries `{Env} ip w :
  (forall a b c d, Forall (fun p => no_char "." p = true) [a; b; c; d] -> ip = dotted a b c d ->
     let query := lookup_event (dotted d c b a) in
     dnsblListings ip w
     = (Ok (List.filter (fun x => Bool.eqb x.2 true) (net_answers query dnsblZones (log w))).*1,
        MkWorld (fs w) (console w) (rev (query <$> dnsblZones) ++ log w))) /\
  ((forall a b c d, Forall (fun p => no_char "." p = true) [a; b; c; d] -> ip <> dotted a b c d) ->
     dnsblListings ip w = (Ok [], w)).
Proof.
  unfold dnsblListings. split.
  - intros a b c d Hp ->. unfold reverseIPv4. rewrite split_dotted by done. apply filter_net_answers.
  - intros Hn. pose proof (reverseIPv4_spec ip) as Hr. destruct (reverseIPv4 ip) as [rv|]; [|done].
    destruct Hr as (a & b & c & d & Hp & -> & _). by destruct (Hn a b c d Hp).
Qed.

(** * Witnesses *)

(** Every service is active, every port answers, no block list has 192.0.2.1, the
    system bus is down. *)
#[local] Instance calm : Env := simple_env (fun _ f _ => (Exited 0 ("active" +:+ nl) "", f))
  (fun _ => HttpResponse 200 ("ip=192.0.2.1" +:+ nl))
  (fun l => match l with ENet "lookup" _ :: _ => false | _ => true end).

Definition alert_cfg : config := {["alert_email" := JStr "root@example.org"]}.
Definition running : World := MkWorld {[
  "/etc/slfhst/config.json" := NFile (marshal_indent (JObj alert_cfg)) 384 0 0;
  "/var/lib/slfhst/stage2.done" := NFile "" 420 0 0]} "" [].


Lemma dnsblListings_queries_witness :
  exists w', dnsblListings "192.0.2.1" running = (Ok [], w').
Proof.
  destruct (dnsblListings_queries "192.0.2.1" running) as [Hq _].
  eexists. rewrite (Hq "192" "0" "2" "1"); [vm_compute; reflexivity| |reflexivity].
  repeat constructor.
Defined.
