(* ===== verification/Quadlet.v ===== *)
(** Quadlet rendering (internal/quadlet/expand.go and quadlet.go): the strict
    template expander, the podman secrets and the rendering of every template. *)
From S2P Require Import Prelude Bytes GoStrings World Runx Json Config.

(** ** expand.go *)
Definition ident_start (c : ascii) : bool := is_upper c || is_lower c || Ascii.eqb c "_".
Definition ident_char (c : ascii) : bool := ident_start c || is_digit c.

(** The longest run of identifier characters *)
Fixpoint take_ident (s : string) : string * string :=
  match s with
  | EmptyString => ("", "")
  | String c r =>
      if ident_char c then let '(x, r) := take_ident r in (String c x, r) else ("", s)
  end.

(** [A-Za-z_][A-Za-z0-9_]* at the start of a text, and what follows it *)
Definition identifier (s : string) : option (string * string) :=
  match s with
  | String c _ => if ident_start c then Some (take_ident s) else None
  | EmptyString => None
  end.

(** What follows a dollar, when it is a match of [varPattern]: the variable, and
    the rest of the text. *)
Definition match_var (s : string) : option (string * string) :=
  match s with
  | String "{" s =>
      match identifier s with
      | Some (x, String "}" r) => Some (x, r)
      | _ => None
      end
  | _ => identifier s
  end.

(** [varPattern.ReplaceAllStringFunc]: the text, and the variables that are not
    defined, in order. Each step consumes a character, so the length of the text
    is fuel enough. *)
Fixpoint expand (fuel : nat) (vars : gmap string string) (s : string) : string * list string :=
  match fuel, s with
  | S fuel, String c r =>
      match (if Ascii.eqb c "$" then match_var r else None) with
      | Some (x, r') =>
          let '(out, missing) := expand fuel vars r' in
          match vars !! x with
          | Some v => (v +:+ out, missing)
          | None => (String.substring 0 (slen s - slen r') s +:+ out, x :: missing)
          end
      | None => let '(out, missing) := expand fuel vars r in (String c out, missing)
      end
  | _, _ => ("", [])
  end.

Definition strictExpand (text : string) (vars : gmap string string) : outcome string :=
  let '(result, missing) := expand (slen text) vars text in
  match missing with
  | [] => Ok result
  | _ => Err (Errorf ("undefined template variable(s): " +:+ join ", " missing))
  end.

(** ** quadlet.go *)
Definition quadletDir : string := path_join [ServiceHomeDir; ".config/containers/systemd"].
Definition unitDir : string := path_join [ServiceHomeDir; ".config/systemd/user"].
Definition configFileDests : gmap string string := {[
  "traefik-dynamic.yml" := "traefik/dynamic"; "museum.yaml" := "ente"; "garage.toml" := "garage"]}.
Definition quadletSuffixes : list string := [".container"; ".network"; ".volume"].
Definition secretEnvNames : gmap string string := {[
  "cloudflare_api_token" := "cf_api_token";
  "vaultwarden_admin_token" := "vaultwarden_admin_token";
  "postgres_password" := "postgres_password";
  "garage_rpc_secret" := "garage_rpc_secret";
  "garage_admin_token" := "garage_admin_token";
  "stalwart_admin_password" := "stalwart_recovery_admin"]}.

Definition secretValueTransform (key value : string) : string :=
  if String.eqb key "stalwart_admin_password" then "admin:" +:+ value else value.

Definition resolveDest (stem : string) : option string :=
  match configFileDests !! stem with
  | Some sub => Some (path_join [DataDir; sub; stem])
  | None =>
      if existsb (has_suffix stem) quadletSuffixes then Some (path_join [quadletDir; stem])
      else if has_suffix stem ".target" then Some (path_join [unitDir; stem])
      else None
  end.

Definition templateVars (cfg : config) : outcome (gmap string string) :=
  let get key := cfg_string cfg key in
  let domain := get "domain" in
  if decide (domain = "") then Err (Errorf "quadlet: config.json has no domain set")
  else Ok (<["ENTE_JWT_SECRET" := get "ente_jwt_secret"]> {[
    "DOMAIN" := domain;
    "MAIL_HOST" := "mail." +:+ domain;
    "VAULT_HOST" := "vault." +:+ domain;
    "PHOTOS_HOST" := "photos." +:+ domain;
    "AUTH_HOST" := "auth." +:+ domain;
    "LOCKER_HOST" := "locker." +:+ domain;
    "API_HOST" := "api." +:+ domain;
    "ALERT_EMAIL" := get "alert_email";
    "POSTGRES_PASSWORD" := get "postgres_password";
    "GARAGE_ADMIN_TOKEN" := get "garage_admin_token";
    "GARAGE_RPC_SECRET" := get "garage_rpc_secret";
    "ENTE_ENCRYPTION_KEY" := get "ente_encryption_key";
    "ENTE_ENCRYPTION_HASH_KEY" := get "ente_encryption_hash_key"]}).

Section quadlet.
Context {E : Env}.

(** The loop of [EnsureSecrets], in the order [range] takes. *)
Fixpoint ensure_secrets (cfg : config) (names : list (string * string)) : ST World unit :=
  match names with
  | [] => mret tt
  | (key, secretName) :: names =>
      let value := cfg_string cfg key in
      if decide (value = "") then
        _ ← Print_out ("warning: quadlet: no value for secret %q, skipping" +:+ nl);
        ensure_secrets cfg names
      else
        let value := secretValueTransform key value in
        res ← wrap "quadlet: check secret %q: " (Run ["podman"; "secret"; "inspect"; secretName]
            (unchecked (as_user ServiceUser captured)));
        if decide (ExitCode res = 0) then ensure_secrets cfg names
        else
          _ ← wrap "quadlet: create secret %q: " (Run ["podman"; "secret"; "create"; secretName; "-"]
              (with_input value (as_user ServiceUser no_options)));
          ensure_secrets cfg names
  end.
Definition EnsureSecrets (cfg : config) : ST World unit :=
  w ← st_get;
  ensure_secrets cfg (range_files (log w) secretEnvNames).

(** The loop of [RenderAll] *)
Fixpoint render_entries (vars : gmap string string) (entries : list string) : ST World unit :=
  match entries with
  | [] => mret tt
  | tmplPath :: entries =>
      let stem := trim_suffix (path_base tmplPath) ".tmpl" in
      match resolveDest stem with
      | None =>
          _ ← Print_out ("warning: quadlet: no destination rule for %q, skipping" +:+ nl);
          render_entries vars entries
      | Some dest =>
          text ← wrap "quadlet: read %s: " (ReadFile tmplPath);
          rendered ← wrap "quadlet: render %s: " (lift (strictExpand text vars));
          _ ← wrap "quadlet: mkdir %s: " (MkdirAll (path_dir dest) 493);
          _ ← wrap "quadlet: write %s: " (WriteFile dest rendered 420);
          render_entries vars entries
      end
  end.

Definition RenderAll (cfg : config) : ST World unit :=
  vars ← lift (templateVars cfg);
  _ ← wrap "quadlet: mkdir %s: " (MkdirAll quadletDir 493);
  _ ← wrap "quadlet: mkdir %s: " (MkdirAll unitDir 493);
  entries ← Glob TemplatesDir ".tmpl";
  _ ← render_entries vars (merge_sort String.le entries);
  _ ← run_ "quadlet: chown .config: "
    ["chown"; "-R"; ServiceUser +:+ ":" +:+ ServiceUser; path_join [ServiceHomeDir; ".config"]] no_options;
  _ ← run_ "quadlet: chown %s: "
    ["chown"; "-R"; ServiceUser +:+ ":" +:+ ServiceUser; DataDir] no_options;
  run_ "quadlet: daemon-reload: "
    ["machinectl"; "shell"; ServiceUser +:+ "@"; "/usr/bin/systemctl"; "--user"; "daemon-reload"] no_options.
End quadlet.

(** ** Templates as a specification

    A template is a sequence of literal characters and references, written with
    or without braces. *)
Inductive token : Set :=
| Lit (c : ascii)
| Ref (braced : bool) (x : string).

Definition token_text (t : token) : string :=
  match t with
  | Lit c => String c ""
  | Ref true x => "${" +:+ x +:+ "}"
  | Ref false x => "$" +:+ x
  end.
Definition source (ts : list token) : string := foldr (fun t s => token_text t +:+ s) "" ts.

Definition is_ident (x : string) : Prop :=
  match x with
  | String c r => ident_start c = true /\ forall d, d ∈ String.list_ascii_of_string r -> ident_char d = true
  | EmptyString => False
  end.

(** Text that, after a dollar, refers to a variable *)
Definition refers (s : string) : Prop :=
  (exists x r, is_ident x /\ s = "{" +:+ x +:+ "}" +:+ r) \/
  (exists c r, s = String c r /\ ident_start c = true).

(** References are to identifiers, an unbraced one is as long as possible, and a
    literal dollar does not start a reference. *)
Fixpoint template (ts : list token) : Prop :=
  match ts with
  | [] => True
  | t :: ts =>
      template ts /\
      match t with
      | Lit c => c = "$"%char -> ~ refers (source ts)
      | Ref braced x => is_ident x /\
          (braced = false -> forall c r, source ts = String c r -> ident_char c = false)
      end
  end.

Definition undefined (vars : gmap string string) (ts : list token) : list string :=
  omap (fun t => match t with
                 | Ref _ x => match vars !! x with Some _ => None | None => Some x end
                 | Lit _ => None end) ts.
Definition rendered (vars : gmap string string) (ts : list token) : string :=
  foldr (fun t s => match t with
                    | Ref _ x => default (token_text t) (vars !! x)
                    | Lit _ => token_text t end +:+ s) "" ts.

(** ** Lemmas *)
Lemma take_ident_spec s :
  let '(x, r) := take_ident s in
  s = x +:+ r /\ (forall d, d ∈ String.list_ascii_of_string x -> ident_char d = true) /\
  (forall c r', r = String c r' -> ident_char c = false).
Proof.
  induction s as [|c s IH]; simpl.
  - split_and!; [done|by intros ? ?%elem_of_nil|done].
  - destruct (ident_char c) eqn:Hc.
    + destruct (take_ident s) as [x r]. destruct IH as (-> & Hx & Hr). split_and!; [done| |done].
      intros d [->|Hd]%elem_of_cons; auto.
    + split_and!; [done|by intros ? ?%elem_of_nil|]. intros ? ? [= <- _]. done.
Qed.

Lemma take_ident_app x r :
  (forall d, d ∈ String.list_ascii_of_string x -> ident_char d = true) ->
  (forall c r', r = String c r' -> ident_char c = false) ->
  take_ident (x +:+ r) = (x, r).
Proof.
  intros Hx Hr. induction x as [|c x IH]; simpl.
  - destruct r as [|c r]; [done|]. simpl. by rewrite (Hr c r eq_refl).
  - rewrite (Hx c) by left. rewrite IH; [done|]. intros d Hd. apply Hx. by right.
Qed.

Lemma identifier_app x r :
  is_ident x -> (forall c r', r = String c r' -> ident_char c = false) ->
  identifier (x +:+ r) = Some (x, r).
Proof.
  intros Hx Hr. destruct x as [|c x]; [done|]. destruct Hx as [Hc Hx].
  change (identifier (String c x +:+ r)) with (if ident_start c then Some (take_ident (String c x +:+ r)) else None).
  rewrite Hc, take_ident_app; [done| |done].
  intros d [->|Hd]%elem_of_cons; [unfold ident_char; by rewrite Hc|by apply Hx].
Qed.

Lemma identifier_Some s x r :
  identifier s = Some (x, r) ->
  is_ident x /\ s = x +:+ r /\ (forall c r', r = String c r' -> ident_char c = false).
Proof.
  destruct s as [|c s]; [done|]. unfold identifier. destruct (ident_start c) eqn:Hc; [|done].
  pose proof (take_ident_spec (String c s)) as Hs. destruct (take_ident (String c s)) as [y q] eqn:Ht.
  intros [= -> ->]. destruct Hs as (Heq & Hx & Hr). split_and!; [|done|done].
  simpl in Ht. unfold ident_char in Ht. rewrite Hc in Ht. simpl in Ht.
  destruct (take_ident s) as [y q]. injection Ht as <- <-. split; [done|].
  intros d Hd. apply Hx. by right.
Qed.

Lemma ident_start_brace c : ident_start c = true -> c <> "{"%char.
Proof. by intros Hc ->. Qed.

Lemma match_var_None s : match_var s = None <-> ~ refers s.
Proof.
  unfold refers. destruct s as [|c s].
  { split; [|done]. intros _ [(x & r & _ & H)|(c & r & H & _)]; done. }
  destruct (decide (c = "{"%char)) as [->|Hc].
  - cbn [match_var]. split.
    + intros Hm [(x & r & Hx & [= ->])|(c & r & [= <- ->] & Hc)]; [|done].
      rewrite identifier_app in Hm; [done|done|]. by intros c r' [= <- _].
    + intros Hn. destruct (identifier s) as [[x r]|] eqn:Hi; [|done].
      apply identifier_Some in Hi as (Hx & -> & _).
      destruct r as [|d r]; [done|]. destruct (decide (d = "}"%char)) as [->|Hd].
      * exfalso. apply Hn. left. by exists x, r.
      * by destruct d as [[] [] [] [] [] [] [] []].
  - assert (match_var (String c s) = identifier (String c s)) as ->
      by (by destruct c as [[] [] [] [] [] [] [] []]).
    cbn [identifier]. destruct (ident_start c) eqn:Hs; split; try done.
    + intros Hn. exfalso. apply Hn. right. eauto.
    + intros _ [(x & r & _ & [= ->])|(d & r & [= <- ->] & Hd)]; congruence.
Qed.

Lemma match_var_Some s x r :
  match_var s = Some (x, r) ->
  exists braced, is_ident x /\ "$" +:+ s = token_text (Ref braced x) +:+ r /\
    (braced = false -> forall c r', r = String c r' -> ident_char c = false).
Proof.
  destruct s as [|c s]; [done|]. destruct (decide (c = "{"%char)) as [->|Hc].
  - cbn [match_var]. destruct (identifier s) as [[y q]|] eqn:Hi; [|done].
    apply identifier_Some in Hi as (Hx & -> & _). intros Hm. exists true.
    destruct q as [|d q]; [done|]. destruct (decide (d = "}"%char)) as [->|Hd].
    + injection Hm as -> ->. split_and!; [done| |done]. cbn. by rewrite sapp_assoc.
    + exfalso. by destruct d as [[] [] [] [] [] [] [] []].
  - assert (match_var (String c s) = identifier (String c s)) as ->
      by (by destruct c as [[] [] [] [] [] [] [] []]).
    intros (Hx & Heq & Hr)%identifier_Some. exists false. split_and!; [done| |done].
    cbn. by rewrite Heq.
Qed.

Lemma match_var_ref braced x r :
  is_ident x -> (braced = false -> forall c r', r = String c r' -> ident_char c = false) ->
  exists s, token_text (Ref braced x) +:+ r = String "$" s /\ match_var s = Some (x, r).
Proof.
  intros Hx Hr. destruct braced.
  - exists ("{" +:+ x +:+ "}" +:+ r). split; [by rewrite <- !sapp_assoc|].
    cbn [String.append match_var]. rewrite identifier_app; [done|done|]. by intros c r' [= <- _].
  - exists (x +:+ r). split; [done|].
    destruct x as [|c x]; [done|]. destruct Hx as [Hc Hx].
    assert (match_var (String c x +:+ r) = identifier (String c x +:+ r)) as ->.
    { pose proof (ident_start_brace c Hc). cbn. by destruct c as [[] [] [] [] [] [] [] []]. }
    apply identifier_app; [by split|by apply Hr].
Qed.

Lemma substring_app s r : String.substring 0 (slen (s +:+ r) - slen r) (s +:+ r) = s.
Proof.
  replace (slen (s +:+ r) - slen r)%nat with (slen s) by (rewrite slen_app; lia).
  induction s as [|c s IH]; simpl; [by destruct r|by rewrite IH].
Qed.

Lemma expand_source vars ts fuel :
  template ts -> (slen (source ts) <= fuel)%nat ->
  expand fuel vars (source ts) = (rendered vars ts, undefined vars ts).
Proof.
  revert fuel. induction ts as [|t ts IH]; intros fuel; [by destruct fuel|].
  cbn [template source foldr]. fold (source ts). intros [Hts Ht]. rewrite slen_app. intros Hf.
  destruct t as [c|braced x].
  - destruct fuel as [|fuel]; [simpl in Hf; lia|]. cbn [token_text String.append expand].
    assert ((if Ascii.eqb c "$" then match_var (source ts) else None) = None) as ->.
    { destruct (Ascii.eqb_spec c "$"); [|done]. by apply match_var_None, Ht. }
    rewrite IH; [done|done|]. simpl in Hf. lia.
  - destruct Ht as [Hx Hr]. destruct (match_var_ref braced x (source ts) Hx Hr) as (s & Hs & Hm).
    assert (Hl : (0 < slen (token_text (Ref braced x)))%nat) by (destruct braced; simpl; lia).
    destruct fuel as [|fuel]; [lia|]. pose proof (substring_app (token_text (Ref braced x)) (source ts)) as Hsub.
    rewrite Hs in Hsub |- *. cbn [expand]. rewrite Ascii.eqb_refl, Hm, IH by (done || lia).
    cbn [rendered undefined foldr omap list_omap]. fold (rendered vars ts).
    destruct (vars !! x) as [v|]; cbn [default]; [done|]. by rewrite Hsub.
Qed.

(** Every text is the source of a template. *)
Lemma template_of s : exists ts, template ts /\ source ts = s.
Proof.
  remember (slen s) as n eqn:Hn. assert (slen s <= n)%nat as Hle by lia. clear Hn. revert s Hle.
  induction n as [|n IH]; intros s Hn.
  { exists []. destruct s; [done|simpl in Hn; lia]. }
  destruct s as [|c r]; [by exists []|]. simpl in Hn.
  assert (Hlit : (c = "$"%char -> match_var r = None) -> exists ts, template ts /\ source ts = String c r).
  { intros Hc. destruct (IH r) as (ts & Hts & Hs); [lia|]. exists (Lit c :: ts).
    split; [|cbn; by rewrite <- Hs]. split; [done|]. rewrite Hs. intros ->. by apply match_var_None, Hc. }
  destruct (decide (c = "$"%char)) as [->|Hc]; [|by apply Hlit].
  destruct (match_var r) as [[x r']|] eqn:Hm; [|by apply Hlit].
  apply match_var_Some in Hm as (braced & Hx & Heq & Hr).
  destruct (IH r') as (ts & Hts & Hs).
  { apply (f_equal slen) in Heq. rewrite !slen_app in Heq. destruct x; [done|].
    destruct braced; simpl in Heq; rewrite ?slen_app in Heq; simpl in Heq; lia. }
  exists (Ref braced x :: ts). split; [|change (token_text (Ref braced x) +:+ source ts = String "$" r); by rewrite Hs].
  cbn [template]. by rewrite Hs.
Qed.

(** *** The events of [EnsureSecrets] *)
Definition as_service (argv : list string) : list string := ["runuser"; "-u"; "svc"; "--"] ++ argv.
Definition inspect_event (name : string) : event :=
  EExec (as_service ["podman"; "secret"; "inspect"; name]) [] None.
Definition create_event (name value : string) : event :=
  EExec (as_service ["podman"; "secret"; "create"; name; "-"]) [] (Some value).

(** What may happen for the secrets [names] *)
Definition secret_event (cfg : config) (names : list (string * string)) (e : event) : Prop :=
  e = EOut ("warning: quadlet: no value for secret %q, skipping" +:+ nl) \/
  exists key name, (key, name) ∈ names /\ cfg_string cfg key <> "" /\
    (e = inspect_event name \/ e = create_event name (secretValueTransform key (cfg_string cfg key))).

(** The secret was created, or [podman] said that it exists: [new] are the events
    that followed [base]. *)
Definition secret_there `{Env} (name value : string) (new base : list event) : Prop :=
  create_event name value ∈ new \/
  exists newer older f out err f', new = newer ++ inspect_event name :: older /\
    exec (inspect_event name :: older ++ base) f
      (Cmd (as_service ["podman"; "secret"; "inspect"; name]) [] None true) = (Exited 0 out err, f').

Section secret_lemmas.
Context {E : Env}.

Lemma secret_event_mono cfg n names e : secret_event cfg names e -> secret_event cfg (n :: names) e.
Proof. intros [->|(k & x & Hin & H)]; [by left|]. right. exists k, x. split; [by right|done]. Qed.

Lemma secret_there_mono name value l new base :
  secret_there name value new base -> secret_there name value (l ++ new) base.
Proof.
  intros [Hc|(newer & older & f & out & err & f' & -> & Hx)]; [left; apply elem_of_app; by right|].
  right. exists (l ++ newer), older, f, out, err, f'. split; [by rewrite (assoc_L (++))|done].
Qed.

Lemma secret_there_app name value new mid base :
  secret_there name value new (mid ++ base) -> secret_there name value (new ++ mid) base.
Proof.
  intros [Hc|(newer & older & f & out & err & f' & -> & Hx)]; [left; apply elem_of_app; by left|].
  right. exists newer, (older ++ mid), f, out, err, f'. rewrite <- !(assoc_L (++)). split; done.
Qed.

(** One secret whose value is configured *)
Lemma ensure_one_emits (P : event -> Prop) name value {A} (Q : A -> list event -> list event -> Prop) (k : ST World A) :
  P (inspect_event name) -> P (create_event name value) -> emits P Q k ->
  emits P (fun a new base => exists n1 n2, new = n2 ++ n1 /\ secret_there name value n1 base /\ Q a n2 (n1 ++ base))
    (res ← wrap "quadlet: check secret %q: " (Run ["podman"; "secret"; "inspect"; name]
        (unchecked (as_user ServiceUser captured)));
      if decide (ExitCode res = 0) then k
      else _ ← wrap "quadlet: create secret %q: " (Run ["podman"; "secret"; "create"; name; "-"]
          (with_input value (as_user ServiceUser no_options)));
      k).
Proof.
  intros Hi Hc Hk. eapply emits_weaken.
  - eapply emits_bind; [by apply emits_wrap, emits_Run|]. intros res.
    instantiate (1 := fun res a new base => exists n1 n2, new = n2 ++ n1 /\
      (ExitCode res = 0 \/ create_event name value ∈ n1) /\ Q a n2 (n1 ++ base)).
    case_decide as H0.
    + eapply emits_weaken; [exact Hk|]. intros a new base Ha. exists [], new.
      rewrite (right_id_L [] (++)). auto.
    + eapply emits_weaken; [eapply emits_bind; [by apply emits_wrap, emits_Run|intros; exact Hk]|].
      intros a new base (? & n1 & n2 & -> & [-> _] & Ha). eexists _, n2. split; [done|].
      split; [right; left|done].
  - intros a new base (res & n1 & n2 & -> & [-> (f & f' & out & err & Hex & _)] & m1 & m2 & -> & H0 & Ha).
    exists (m1 ++ [inspect_event name]), m2. rewrite <- !(assoc_L (++)). split_and!; [done| |exact Ha].
    destruct H0 as [H0|H0]; [|left; apply elem_of_app; by left].
    rewrite H0 in Hex. right. by exists m1, [], f, out, err, f'.
Qed.

Lemma ensure_secrets_emits cfg names :
  emits (secret_event cfg names)
    (fun _ new base => forall key name, (key, name) ∈ names -> cfg_string cfg key <> "" ->
      secret_there name (secretValueTransform key (cfg_string cfg key)) new base)
    (ensure_secrets cfg names).
Proof.
  induction names as [|[key name] names IH]; cbn [ensure_secrets].
  { apply emits_ret. by intros ? ? ? ?%elem_of_nil. }
  apply (emits_mono _ (secret_event cfg ((key, name) :: names))) in IH;
    [|intros; by apply secret_event_mono].
  case_decide as Hv.
  - eapply emits_weaken; [eapply emits_bind; [apply emits_print; by left|intros; exact IH]|].
    intros [] new base (? & n1 & n2 & -> & _ & Hall) k n [[= -> ->]|Hin]%elem_of_cons Hk; [done|].
    by apply secret_there_app, Hall.
  - assert (Hev : forall e, e = inspect_event name \/
      e = create_event name (secretValueTransform key (cfg_string cfg key)) ->
      secret_event cfg ((key, name) :: names) e).
    { intros e He. right. exists key, name. split_and!; [left|done|done]. }
    eapply emits_weaken; [apply ensure_one_emits; [apply Hev; by left|apply Hev; by right|exact IH]|].
    intros [] new base (n1 & n2 & -> & Hs & Hall) k n [[= -> ->]|Hin]%elem_of_cons Hk.
    + by apply secret_there_mono.
    + by apply secret_there_app, Hall.
Qed.
End secret_lemmas.

(** ** The operations end *)
Lemma fine_strictExpand text vars : fine (strictExpand text vars).
Proof. unfold strictExpand. by destruct (expand _ _ _) as [? []]. Qed.
Lemma fine_templateVars cfg : fine (templateVars cfg).
Proof. unfold templateVars. cbv zeta. by case_decide. Qed.

Section ends.
Context {E : Env}.

Lemma ends_EnsureSecrets cfg : ends (EnsureSecrets cfg).
Proof.
  unfold EnsureSecrets. apply ends_bind; [auto with ends|]. intros w. generalize (range_files (log w) secretEnvNames).
  intros l. induction l as [|[k n] l IH]; cbn [ensure_secrets]; [auto with ends|]. cbv zeta. auto 12 with ends.
Qed.
Lemma ends_RenderAll cfg : ends (RenderAll cfg).
Proof.
  unfold RenderAll. apply ends_bind; [apply ends_lift, fine_templateVars|]. intros vars.
  do 2 (apply ends_bind; [auto with ends|]; intros ?). apply ends_bind; [auto with ends|].
  intros entries. apply ends_bind; [|auto 8 with ends]. generalize (merge_sort String.le entries). intros l.
  induction l as [|p l IH]; cbn [render_entries]; [auto with ends|]. cbv zeta.
  destruct (resolveDest _); [|auto with ends]. apply ends_bind; [auto with ends|]. intros text.
  apply ends_bind; [apply ends_wrap, ends_lift, fine_strictExpand|]. auto 8 with ends.
Qed.
End ends.

(** ** The operations succeed

    The names that a text refers to, and those that [templateVars] defines *)
Definition references (text : string) : list string := (expand (slen text) ∅ text).2.
Definition varNames : list string := [
  "DOMAIN"; "MAIL_HOST"; "VAULT_HOST"; "PHOTOS_HOST"; "AUTH_HOST"; "LOCKER_HOST"; "API_HOST"; "ALERT_EMAIL";
  "POSTGRES_PASSWORD"; "GARAGE_ADMIN_TOKEN"; "GARAGE_RPC_SECRET"; "ENTE_ENCRYPTION_KEY"; "ENTE_ENCRYPTION_HASH_KEY";
  "ENTE_JWT_SECRET"].

Lemma expand_missing fuel vars s : (expand fuel vars s).2 = filter (fun x => vars !! x = None) (expand fuel ∅ s).2.
Proof.
  revert s. induction fuel as [|fuel IH]; intros s; [done|]. destruct s as [|c r]; [done|]. cbn [expand].
  destruct (if Ascii.eqb c "$" then match_var r else None) as [[x r']|].
  - specialize (IH r'). destruct (expand fuel vars r') as [o m], (expand fuel ∅ r') as [o' m']. cbn [snd] in IH.
    rewrite lookup_empty. cbn [snd]. destruct (vars !! x) as [v|] eqn:Hv.
    + by rewrite filter_cons_False by congruence.
    + by rewrite filter_cons_True, IH.
  - specialize (IH r). by destruct (expand fuel vars r), (expand fuel ∅ r).
Qed.

Lemma strictExpand_known vars text :
  (forall x, x ∈ references text -> is_Some (vars !! x)) -> exists r, strictExpand text vars = Ok r.
Proof.
  intros Hr. unfold strictExpand. pose proof (expand_missing (slen text) vars text) as Hm.
  destruct (expand (slen text) vars text) as [r m]. cbn [snd] in Hm.
  assert (m = []) as ->; [|by eexists]. rewrite Hm. destruct (filter _ _) as [|x l] eqn:Hf; [done|].
  assert (Hx : x ∈ filter (fun x => vars !! x = None) (expand (slen text) ∅ text).2) by (rewrite Hf; left).
  apply list_elem_of_filter in Hx as [Hn Hx]. apply Hr in Hx as [v Hv]. congruence.
Qed.

Lemma templateVars_names cfg : cfg_string cfg "domain" <> "" ->
  exists vars, templateVars cfg = Ok vars /\ forall x, x ∈ varNames -> is_Some (vars !! x).
Proof.
  intros Hd. unfold templateVars. cbv zeta. rewrite decide_False by done. eexists. split; [done|].
  intros x Hx. unfold varNames in Hx.
  repeat (apply elem_of_cons in Hx as [->|Hx]; [by eexists|]). by apply elem_of_nil in Hx.
Qed.

(** The commands that may say no: the inspection of a secret, the state of a
    service *)
Fixpoint starts (p l : list string) : bool :=
  match p, l with
  | [], _ => true
  | x :: p, y :: l => String.eqb x y && starts p l
  | _ :: _, [] => false
  end.
Definition says_no (argv : list string) : bool :=
  starts ["runuser"; "-u"; "svc"; "--"; "podman"; "secret"; "inspect"] argv ||
  starts ["runuser"; "-u"; "svc"; "--"; "systemctl"; "--user"; "is-active"] argv.

Lemma EnsureSecrets_returns `{Env, !Obedient says_no} cfg w : returns (EnsureSecrets cfg) (fun _ _ => True) w.
Proof.
  unfold EnsureSecrets. apply returns_bind. unfold st_get, returns at 1.
  generalize (range_files (log w) secretEnvNames). intros l. revert w.
  induction l as [|[key name] l IH]; intros w; cbn [ensure_secrets]; [done|]. cbv zeta. case_decide; [apply IH|].
  apply returns_bind, returns_wrap. eapply returns_mono; [apply (Run_returns says_no); [done|by left]|].
  intros res w1 _. case_decide; [apply IH|]. apply returns_bind, returns_wrap.
  eapply returns_mono; [apply (Run_returns says_no); [done|by right]|]. intros _ w2 _. apply IH.
Qed.

(** * Properties *)

(** C16: the expander implements strict templates: every text is the source of a
    template, and however a text is read as a template, each reference is replaced
    by its variable's value (once: values are not expanded again), all else is
    kept, and the only error is a reference to an undefined variable. *)
Theorem strictExpand_renders text vars :
  (exists ts, template ts /\ source ts = text) /\
  (forall ts, template ts -> source ts = text ->
     strictExpand text vars =
       if decide (undefined vars ts = []) then Ok (rendered vars ts)
       else Err (Errorf ("undefined template variable(s): " +:+ join ", " (undefined vars ts)))).
Proof.
  split; [apply template_of|]. intros ts Hts <-. unfold strictExpand.
  rewrite expand_source by done. by destruct (undefined vars ts).
Qed.


(** * Witnesses *)
Lemma strictExpand_renders_witness :
  strictExpand "a=${X}$Y.$5" {["X" := "1"; "Y" := "$X"]} = Ok "a=1$X.$5" /\
  strictExpand "$Z" ∅ = Err (Errorf "undefined template variable(s): Z").
Proof.
  destruct (strictExpand_renders "a=${X}$Y.$5" {["X" := "1"; "Y" := "$X"]}) as [_ H1].
  destruct (strictExpand_renders "$Z" ∅) as [_ H2]. split.
  - rewrite (H1 [Lit "a"; Lit "="; Ref true "X"; Ref false "Y"; Lit "."; Lit "$"; Lit "5"]); [done| |done].
    cbn. split_and!; try done; try (intros d Hd; set_solver).
    all: try (intros _ [(x & r & _ & ?)|(c & r & [= <- <-] & ?)]; done).
  - rewrite (H2 [Ref false "Z"]); [done| |done]. cbn. split_and!; try done. intros d Hd; set_solver.
Defined.

#[local] Instance podman : Env := simple_env (fun _ f _ => (Exited 1 "" "", f)) (fun _ => HttpError) (fun _ => false).

