(* ===== verification/Regex.v ===== *)
(** Regular expressions: the syntax of the program's patterns, the language they
    denote, and a matcher by derivatives that is shown to decide it. A pattern
    anchored at both ends is a full match; one anchored at its start only is
    followed by [anything]. *)
From S2P Require Import Prelude Bytes GoStrings.

Inductive re : Type :=
| Never
| Empty
| Class (p : ascii -> bool)
| Seq (a b : re)
| Alt (a b : re)
| Star (a : re).

Definition Plus (a : re) : re := Seq a (Star a).
Definition Opt (a : re) : re := Alt Empty a.
Definition Char (c : ascii) : re := Class (Ascii.eqb c).
Definition anything : re := Star (Class (fun _ => true)).
Fixpoint Lit (s : string) : re :=
  match s with
  | EmptyString => Empty
  | String c s => Seq (Char c) (Lit s)
  end.
(** [a{lo,lo+more}] *)
Fixpoint Upto (n : nat) (a : re) : re :=
  match n with O => Empty | S n => Opt (Seq a (Upto n a)) end.
Fixpoint Times (n : nat) (a : re) : re :=
  match n with O => Empty | S n => Seq a (Times n a) end.

(** [\s] of Go's regular expressions *)
Definition re_space (c : ascii) : bool :=
  existsb (Ascii.eqb c) ["009"; "010"; "012"; "013"; " "]%char.
(** [\S] *)
Definition nonspace (c : ascii) : bool := negb (re_space c).

(** The longest prefix of characters in a class, and the rest *)
Fixpoint span (p : ascii -> bool) (s : string) : string * string :=
  match s with
  | EmptyString => ("", "")
  | String c r => if p c then let '(x, y) := span p r in (String c x, y) else ("", s)
  end.

(** The language of an expression *)
Inductive lang : re -> string -> Prop :=
| lang_empty : lang Empty ""
| lang_class p c : p c = true -> lang (Class p) (String c "")
| lang_seq a b s t : lang a s -> lang b t -> lang (Seq a b) (s +:+ t)
| lang_alt_l a b s : lang a s -> lang (Alt a b) s
| lang_alt_r a b s : lang b s -> lang (Alt a b) s
| lang_star_nil a : lang (Star a) ""
| lang_star_cons a s t : lang a s -> lang (Star a) t -> lang (Star a) (s +:+ t).

(** The matcher: derivatives, simplified as they are built. *)
Fixpoint nullable (r : re) : bool :=
  match r with
  | Never | Class _ => false
  | Empty | Star _ => true
  | Seq a b => nullable a && nullable b
  | Alt a b => nullable a || nullable b
  end.

Definition seq (a b : re) : re :=
  match a with
  | Never => Never
  | Empty => b
  | _ => Seq a b
  end.
Definition alt (a b : re) : re :=
  match a, b with
  | Never, _ => b
  | _, Never => a
  | _, _ => Alt a b
  end.

Fixpoint deriv (c : ascii) (r : re) : re :=
  match r with
  | Never | Empty => Never
  | Class p => if p c then Empty else Never
  | Seq a b =>
      let d := seq (deriv c a) b in
      if nullable a then alt d (deriv c b) else d
  | Alt a b => alt (deriv c a) (deriv c b)
  | Star a => seq (deriv c a) (Star a)
  end.

Fixpoint matches (r : re) (s : string) : bool :=
  match s with
  | EmptyString => nullable r
  | String c s => matches (deriv c r) s
  end.

(** ** Lemmas *)
Lemma nullable_lang r : nullable r = true <-> lang r "".
Proof.
  induction r as [| |p|a IHa b IHb|a IHa b IHb|a IHa]; simpl; split; try done; try (by constructor).
  - by inversion 1.
  - by inversion 1.
  - intros [Ha Hb]%andb_true_iff. change "" with ("" +:+ "").
    constructor; [by apply IHa|by apply IHb].
  - inversion 1 as [| |? ? s t Hs Ht Heq| | | |]; subst.
    destruct s, t; try done. apply andb_true_iff. by rewrite IHa, IHb.
  - intros [Ha|Hb]%orb_true_iff; [apply lang_alt_l, IHa, Ha|apply lang_alt_r, IHb, Hb].
  - inversion 1; subst; apply orb_true_iff; [left; by apply IHa|right; by apply IHb].
Qed.

Lemma lang_seq_inv a b s : lang (Seq a b) s <-> exists s1 s2, s = s1 +:+ s2 /\ lang a s1 /\ lang b s2.
Proof.
  split; [inversion 1; subst; eauto|]. intros (s1 & s2 & -> & H1 & H2). by constructor.
Qed.

Lemma seq_lang a b s : lang (seq a b) s <-> lang (Seq a b) s.
Proof.
  destruct a; try done; simpl; rewrite lang_seq_inv; split.
  - inversion 1.
  - intros (s1 & s2 & -> & H & _). inversion H.
  - intros H. exists "", s. repeat split; [constructor|done].
  - intros (s1 & s2 & -> & H & Hb). by inversion H.
Qed.

Lemma lang_alt_inv a b s : lang (Alt a b) s <-> lang a s \/ lang b s.
Proof. split; [inversion 1; auto|intros [|]; [by apply lang_alt_l|by apply lang_alt_r]]. Qed.

Lemma alt_lang a b s : lang (alt a b) s <-> lang a s \/ lang b s.
Proof.
  assert (Hn : forall s, lang Never s -> False) by inversion 1.
  destruct a, b; simpl; rewrite ?lang_alt_inv; naive_solver.
Qed.

Lemma star_cons_inv a c s :
  lang (Star a) (String c s) -> exists s1 s2, s = s1 +:+ s2 /\ lang a (String c s1) /\ lang (Star a) s2.
Proof.
  remember (Star a) as r eqn:Hr. remember (String c s) as u eqn:Hu. intros H.
  revert s Hu. induction H as [| | | | | |a' s1 s2 H1 _ H2 IH]; intros s0 Hu; try done.
  injection Hr as ->. destruct s1 as [|c1 s1]; simpl in Hu; [by apply IH|].
  injection Hu as -> <-. eauto.
Qed.

Lemma deriv_lang c r s : lang (deriv c r) s <-> lang r (String c s).
Proof.
  revert s. induction r as [| |p|a IHa b IHb|a IHa b IHb|a IHa]; intros s; simpl.
  - split; inversion 1.
  - split; inversion 1.
  - destruct (p c) eqn:Hp; split; inversion 1; subst; try done; try congruence; by constructor.
  - assert (Hd : lang (seq (deriv c a) b) s <->
      exists s1 s2, s = s1 +:+ s2 /\ lang a (String c s1) /\ lang b s2).
    { rewrite seq_lang, lang_seq_inv. by setoid_rewrite IHa. }
    assert (Hab : lang (Seq a b) (String c s) <->
      (exists s1 s2, s = s1 +:+ s2 /\ lang a (String c s1) /\ lang b s2) \/ (lang a "" /\ lang b (String c s))).
    { rewrite lang_seq_inv. split.
      - intros ([|c' s1] & s2 & Heq & H1 & H2); simpl in Heq; [right; by subst|].
        injection Heq as -> ->. left. eauto.
      - intros [(s1 & s2 & -> & H1 & H2)|[H1 H2]]; [by exists (String c s1), s2|by exists "", (String c s)]. }
    rewrite Hab. destruct (nullable a) eqn:Hn.
    + rewrite alt_lang, Hd, IHb. apply nullable_lang in Hn. naive_solver.
    + rewrite Hd. rewrite <- not_true_iff_false, nullable_lang in Hn. naive_solver.
  - rewrite alt_lang, IHa, IHb, lang_alt_inv. done.
  - rewrite seq_lang, lang_seq_inv. setoid_rewrite IHa. split.
    + intros (s1 & s2 & -> & H1 & H2). change (String c (s1 +:+ s2)) with (String c s1 +:+ s2). by constructor.
    + apply star_cons_inv.
Qed.

(** The matcher decides the language. *)
Lemma matches_lang r s : matches r s = true <-> lang r s.
Proof.
  revert r. induction s as [|c s IH]; intros r; simpl; [apply nullable_lang|].
  by rewrite IH, deriv_lang.
Qed.

Lemma span_app p s : let '(x, y) := span p s in s = x +:+ y.
Proof.
  induction s as [|c s IH]; [done|]. simpl. destruct (p c); [|done].
  destruct (span p s) as [x y]. simpl. by rewrite IH.
Qed.

(** *** The characters of a match *)
Fixpoint all_chars (p : ascii -> bool) (s : string) : bool :=
  match s with EmptyString => true | String c s => p c && all_chars p s end.

Lemma all_chars_app p s t : all_chars p (s +:+ t) = all_chars p s && all_chars p t.
Proof. induction s as [|c s IH]; simpl; [done|]. by rewrite IH, andb_assoc. Qed.

(** Every class of an expression is within [p]. *)
Fixpoint within (p : ascii -> bool) (r : re) : Prop :=
  match r with
  | Never | Empty => True
  | Class q => forall c, q c = true -> p c = true
  | Seq a b | Alt a b => within p a /\ within p b
  | Star a => within p a
  end.

Lemma lang_within p r s : within p r -> lang r s -> all_chars p s = true.
Proof.
  intros Hw H. induction H; simpl in *; rewrite ?all_chars_app, ?andb_true_iff; try done;
    try (by destruct Hw; auto).
  - split; [by apply Hw|done].
  - split; auto.
Qed.
