(* ===== verification/Prompt.v ===== *)
(** Console input (internal/prompt/prompt.go and password_linux.go): asking until
    an answer is acceptable, and reading a secret with the echo off. *)
From S2P Require Import Prelude Bytes GoStrings World.

(** [stdin.ReadString('\n')] on the console's text: the line with its newline, and
    the rest; [None] at the end of the input. *)
Fixpoint read_line (s : string) : option (string * string) :=
  match s with
  | EmptyString => None
  | String c s =>
      if Ascii.eqb c LF then Some (nl, s)
      else match read_line s with
           | Some (l, r) => Some (String c l, r)
           | None => None
           end
  end.

Record Options := MkOptions {
  Default : string;
  Validate : option (string -> bool);
  Normalize : option (string -> string);
  Optional : bool;
}.
Definition required : Options := MkOptions "" None None false.

(** The body of the loop of [Ask] for one line: the value to return, or what to
    print before asking again. *)
Definition answer_of (opts : Options) (line : string) : string + string :=
  let value := trim_space line in
  let value := if decide (value = "") then Default opts else value in
  let value := match Normalize opts with
               | Some f => if decide (value <> "") then f value else value
               | None => value end in
  if decide (value = "") then
    if Optional opts then inl "" else inr "a value is required"
  else
    match Validate opts with
    | Some ok => if ok value then inl value else inr "invalid value, try again"
    | None => inl value
    end.

Definition display (label : string) (opts : Options) : string :=
  if decide (Default opts = "") then label else label +:+ " [" +:+ Default opts +:+ "]".

(** [for len(s) > 0 && ...] *)
Fixpoint trim_newline (s : string) : string :=
  match s with
  | EmptyString => ""
  | String c s =>
      let t := trim_newline s in
      if String.eqb t "" && (Ascii.eqb c LF || Ascii.eqb c "013") then "" else String c t
  end.

Section prompt.
Context {E : Env}.

Definition ReadString : ST World string := fun w =>
  match read_line (console w) with
  | Some (line, rest) => (Ok line, set_console rest w)
  | None => (Err ErrEOF, set_console "" w)
  end.

(** The loop of [Ask]; every turn reads a line. *)
Fixpoint ask_loop (gas : nat) (label : string) (opts : Options) : ST World string :=
  match gas with
  | O => lift OutOfFuel
  | S gas =>
      _ ← Print_out (display label opts +:+ ": ");
      line ← wrap "prompt: read input: " ReadString;
      match answer_of opts line with
      | inl value => mret value
      | inr complaint =>
          _ ← Print_out (complaint +:+ nl);
          ask_loop gas label opts
      end
  end.
Definition Ask (label : string) (opts : Options) : ST World string := fun w =>
  ask_loop (S (slen (console w))) label opts w.

Definition Banner (text : string) : ST World unit :=
  let line := String.concat "" (replicate 70 "=") in
  _ ← Print_out (line +:+ nl);
  _ ← Print_out (text +:+ nl);
  Print_out (line +:+ nl).

(** [ioctl] on the terminal: it has no effect on files. *)
Definition ioctl (req : string) : ST World unit := io (EOS "ioctl" [req]) (fun f => (Ok tt, f)).
Definition tcgets : string := "tcgets".
Definition echo_off : string := "tcsets: echo off".
Definition restore : string := "tcsets: as before".

Definition AskSecret (label : string) : ST World string :=
  _ ← Print_out (label +:+ ": ");
  _ ← wrap "prompt: get terminal state: " (ioctl tcgets);
  _ ← wrap "prompt: disable terminal echo: " (ioctl echo_off);
  deferred (
    r ← try ReadString;
    _ ← Print_out nl;
    match r with
    | inr e => lift (Err (Wrapf "prompt: read secret: " e))
    | inl line => mret (trim_newline line)
    end) (_ ← try (ioctl restore); mret tt).
End prompt.

(** ** Lemmas *)
Lemma read_line_app line rest :
  no_char LF line = true -> read_line (line +:+ nl +:+ rest) = Some (line +:+ nl, rest).
Proof.
  induction line as [|c line IH]; [done|]. cbn [no_char String.append read_line].
  intros [Hc Hl]%andb_true_iff. apply negb_true_iff in Hc. by rewrite Hc, IH.
Qed.

Lemma read_line_Some s line rest :
  read_line s = Some (line, rest) ->
  exists l, line = l +:+ nl /\ no_char LF l = true /\ s = line +:+ rest.
Proof.
  revert line. induction s as [|c s IH]; intros line; simpl; [done|].
  destruct (Ascii.eqb c LF) eqn:Hc.
  - intros [= <- <-]. exists "". apply Ascii.eqb_eq in Hc as ->. done.
  - destruct (read_line s) as [[l r]|]; [|done]. intros [= <- <-].
    destruct (IH l eq_refl) as (l' & -> & Hl & ->). exists (String c l'). simpl. by rewrite Hc.
Qed.

Lemma read_line_None s : read_line s = None <-> no_char LF s = true.
Proof.
  induction s as [|c s IH]; simpl; [done|]. destruct (Ascii.eqb c LF); simpl; [done|].
  rewrite <- IH. destruct (read_line s) as [[]|]; done.
Qed.

(** ** Specification

    [asked opts input outcome rest]: the lines of the input that [opts] rejects
    are skipped; the first acceptable one gives the value; an input without an
    acceptable line ends with an error. *)
Inductive asked (opts : Options) : string -> option string -> string -> Prop :=
| asked_accept line rest value :
    no_char LF line = true -> answer_of opts (line +:+ nl) = inl value ->
    asked opts (line +:+ nl +:+ rest) (Some value) rest
| asked_again line rest complaint r rest' :
    no_char LF line = true -> answer_of opts (line +:+ nl) = inr complaint ->
    asked opts rest r rest' -> asked opts (line +:+ nl +:+ rest) r rest'
| asked_eof partial : no_char LF partial = true -> asked opts partial None "".

(** What an accepted value is worth *)
Definition acceptable (opts : Options) (value : string) : Prop :=
  (value = "" /\ Optional opts = true) \/
  (value <> "" /\ match Validate opts with Some ok => ok value = true | None => True end).

Lemma answer_of_acceptable opts line value : answer_of opts line = inl value -> acceptable opts value.
Proof.
  unfold answer_of, acceptable. repeat case_decide; repeat case_match; intros; simplify_eq; eauto.
Qed.

Lemma asked_acceptable opts s v rest : asked opts s (Some v) rest -> acceptable opts v.
Proof.
  remember (Some v) as r eqn:Hr. intros H. induction H; simplify_eq; [by eapply answer_of_acceptable|by apply IHasked].
Qed.

Section ask_lemmas.
Context {E : Env}.

Lemma ask_loop_asked gas label opts w :
  (slen (console w) < gas)%nat ->
  let '(r, w') := ask_loop gas label opts w in
  fs w' = fs w /\ requests (log w') = requests (log w) /\
  exists v, asked opts (console w) v (console w') /\
  match v with Some v => r = Ok v /\ acceptable opts v | None => exists e, r = Err e end.
Proof.
  revert w. induction gas as [|gas IH]; intros w Hg; [lia|]. cbn [ask_loop].
  unfold mbind at 1, ST_bind at 1, Print_out at 1.
  unfold mbind at 1, ST_bind at 1, wrap at 1, ReadString at 1. cbn [console add_log].
  destruct (read_line (console w)) as [[line rest]|] eqn:Hr.
  - pose proof Hr as (l & -> & Hl & Hc)%read_line_Some. rewrite Hc, sapp_assoc. cbn [wrapf].
    destruct (answer_of opts (l +:+ nl)) as [value|complaint] eqn:Ha.
    + split_and!; [done|done|]. exists (Some value). split_and!; [by constructor|done|].
      by eapply answer_of_acceptable.
    + unfold mbind at 1, ST_bind at 1, Print_out at 1. set (w1 := add_log _ _).
      specialize (IH w1). destruct (ask_loop gas label opts w1) as [r w'].
      destruct IH as (Hf & Hq & v & Hv & Hres).
      { cbn. rewrite Hc in Hg. rewrite !slen_app in Hg. simpl in Hg. lia. }
      split_and!; [done|done|]. exists v. split; [by eapply asked_again|done].
  - apply read_line_None in Hr. split_and!; [done|done|]. exists None.
    split; [by apply asked_eof|by eexists].
Qed.

Lemma Ask_asked label opts w :
  let '(r, w') := Ask label opts w in
  fs w' = fs w /\ requests (log w') = requests (log w) /\
  exists v, asked opts (console w) v (console w') /\
  match v with Some v => r = Ok v /\ acceptable opts v | None => exists e, r = Err e end.
Proof. apply ask_loop_asked. lia. Qed.

Lemma ends_Ask label opts : ends (Ask label opts).
Proof.
  intros w. pose proof (Ask_asked label opts w) as Ha. destruct (Ask label opts w) as [r w'].
  destruct Ha as (_ & _ & [v|] & _ & Hr); [by destruct Hr as [-> _]|by destruct Hr as [e ->]].
Qed.

Lemma asked_consumes opts s v rest : asked opts s (Some v) rest -> (slen rest < slen s)%nat.
Proof.
  remember (Some v) as r eqn:Hr. intros H. induction H; rewrite ?slen_app in *; simpl in *;
    try done; [lia|specialize (IHasked Hr); lia].
Qed.

(** An answer is acceptable, and takes some of the input. *)
Lemma Ask_Ok label opts w v w' :
  Ask label opts w = (Ok v, w') -> acceptable opts v /\ (slen (console w') < slen (console w))%nat.
Proof.
  intros Ha. pose proof (Ask_asked label opts w) as Hs. rewrite Ha in Hs.
  destruct Hs as (_ & _ & [v'|] & Hv & Hr); [|by destruct Hr].
  destruct Hr as [[= <-] Hr]. split; [done|]. by eapply asked_consumes.
Qed.

Lemma Ask_Ok_asked label opts w v w' : Ask label opts w = (Ok v, w') -> asked opts (console w) (Some v) (console w').
Proof.
  intros Ha. pose proof (Ask_asked label opts w) as Hs. rewrite Ha in Hs.
  destruct Hs as (_ & _ & [v'|] & Hv & Hr); [by destruct Hr as [[= <-] _]|by destruct Hr].
Qed.

Lemma emits_Ask (P : event -> Prop) label opts :
  (forall s, P (EOut s)) -> emits P (fun v _ _ => acceptable opts v) (Ask label opts).
Proof.
  intros HP w. unfold Ask. set (gas := S _). clearbody gas. revert w.
  induction gas as [|gas IH]; intros w; [exists []; by split_and!; [|constructor|]|].
  cbn [ask_loop]. unfold mbind at 1, ST_bind at 1, Print_out at 1.
  unfold mbind at 1, ST_bind at 1, wrap at 1, ReadString at 1. cbn [console add_log].
  destruct (read_line (console w)) as [[line rest]|]; cbn [wrapf].
  2: { exists [EOut (display label opts +:+ ": ")]. by split_and!; [|constructor|]. }
  destruct (answer_of opts line) as [value|complaint] eqn:Hans.
  - exists [EOut (display label opts +:+ ": ")]. split_and!; [done|by constructor|].
    intros ? [= <-]. by eapply answer_of_acceptable.
  - unfold mbind at 1, ST_bind at 1, Print_out at 1. set (w1 := add_log _ _).
    specialize (IH w1). destruct (ask_loop gas label opts w1) as [r w'].
    destruct IH as (new & Hl & Hf & Ha).
    exists (new ++ [EOut (complaint +:+ nl); EOut (display label opts +:+ ": ")]).
    rewrite <- (assoc_L (++)). split_and!; [done| |done]. apply Forall_app. by repeat constructor.
Qed.
End ask_lemmas.

(** *** Questions that are answered *)
Lemma asked_unique opts s r rest r' rest' :
  asked opts s r rest -> asked opts s r' rest' -> r = r' /\ rest = rest'.
Proof.
  intros H. revert r' rest'.
  assert (Hline : forall l1 t1 l2 t2, no_char LF l1 = true -> no_char LF l2 = true ->
    l1 +:+ nl +:+ t1 = l2 +:+ nl +:+ t2 -> l1 +:+ nl = l2 +:+ nl /\ t1 = t2).
  { intros l1 t1 l2 t2 H1 H2 He. pose proof (read_line_app l1 t1 H1) as Hr.
    rewrite He, read_line_app in Hr by done. by injection Hr as -> ->. }
  assert (Heof : forall l t p, no_char LF p = true -> p = l +:+ nl +:+ t -> False).
  { intros l t p Hp ->. rewrite no_char_app in Hp. cbn in Hp. by rewrite andb_false_r in Hp. }
  induction H as [l t v Hl Ha|l t c v t' Hl Ha _ IH|p Hp]; intros r' rest' H'.
  - remember (l +:+ nl +:+ t) as s eqn:Hs. destruct H' as [l2 t2 v2 Hl2 Ha2|l2 t2 c2 v2 t2' Hl2 Ha2 _|p Hp].
    + apply Hline in Hs as [He ->]; [|done..]. split; [congruence|done].
    + apply Hline in Hs as [He ->]; [|done..]. congruence.
    + by apply Heof in Hs.
  - remember (l +:+ nl +:+ t) as s eqn:Hs. destruct H' as [l2 t2 v2 Hl2 Ha2|l2 t2 c2 v2 t2' Hl2 Ha2 Hn|p Hp].
    + apply Hline in Hs as [He ->]; [|done..]. congruence.
    + apply Hline in Hs as [He ->]; [|done..]. by apply IH.
    + by apply Heof in Hs.
  - destruct H' as [l2 t2 v2 Hl2 Ha2|l2 t2 c2 v2 t2' Hl2 Ha2 Hn|p' Hp']; [by destruct (Heof _ _ _ Hp eq_refl)|by destruct (Heof _ _ _ Hp eq_refl)|done].
Qed.

Section answered.
Context {E : Env}.

Lemma Ask_returns label opts v rest w : asked opts (console w) (Some v) rest ->
  returns (Ask label opts) (fun v' w' => v' = v /\ console w' = rest /\ fs w' = fs w) w.
Proof.
  intros Ha. pose proof (Ask_asked label opts w) as Hs. unfold returns. destruct (Ask label opts w) as [r w'].
  destruct Hs as (Hf & _ & v' & Hv & Hr). destruct (asked_unique _ _ _ _ _ _ Ha Hv) as [<- <-]. by destruct Hr as [-> _].
Qed.

Lemma Banner_console text w r w' : Banner text w = (r, w') -> console w' = console w /\ fs w' = fs w.
Proof. unfold Banner. by intros [= _ <-]. Qed.
Lemma Banner_returns text (Q : unit -> World -> Prop) w :
  (forall w', fs w' = fs w -> console w' = console w -> Q tt w') -> returns (Banner text) Q w.
Proof. intros HQ. unfold Banner. by apply HQ. Qed.

Lemma AskSecret_returns `{!NoFaults} label line rest w : read_line (console w) = Some (line, rest) ->
  returns (AskSecret label) (fun v w' => v = trim_newline line /\ console w' = rest /\ fs w' = fs w) w.
Proof.
  intros Hl. unfold AskSecret, ioctl. apply returns_bind, returns_print. do 2 apply returns_bind, returns_wrap, returns_io.
  apply returns_deferred, returns_bind, returns_try. cbn [console fs log add_log].
  unfold returns, ReadString. cbn [console]. rewrite Hl.
  unfold mbind, ST_bind, try. cbn. by rewrite io_ok.
Qed.
End answered.

Lemma ends_Banner {E : Env} text : ends (Banner text).
Proof. unfold Banner. auto with ends. Qed.
Lemma quiet_Banner {E : Env} (P : event -> Prop) text : (forall s, P (EOut s)) -> quiet P (Banner text).
Proof. intros HP. unfold Banner. auto 6 with quiet. Qed.
Lemma quiet_Ask {E : Env} (P : event -> Prop) label opts : (forall s, P (EOut s)) -> quiet P (Ask label opts).
Proof. intros HP. by eapply emits_quiet, emits_Ask. Qed.

#[export] Hint Resolve ends_Ask ends_Banner : ends.
#[export] Hint Resolve quiet_Ask quiet_Banner : quiet.

(** * Properties *)

(** [Ask] always ends (each turn reads a line, so the length of the input is
    fuel enough): it skips the lines it cannot accept and returns the value of the
    first acceptable one, leaving the rest of the input unread, or fails at the
    end of the input; a returned value satisfies the validation, and is only
    empty when the question is optional; no file or network is touched. *)
Theorem Ask_asks `{Env} label opts w :
  let '(r, w') := Ask label opts w in
  fs w' = fs w /\ requests (log w') = requests (log w) /\
  exists v, asked opts (console w) v (console w') /\
    match v with Some v => r = Ok v /\ acceptable opts v | None => exists e, r = Err e end.
Proof. apply Ask_asked. Qed.

(** A secret is read with the echo off, and the terminal is put back as it was
    whatever happens afterwards: every run that turned the echo off ends with the
    restoring call, even when the input ends. *)
Theorem AskSecret_restores `{Env} label w :
  exists new, log (AskSecret label w).2 = new ++ log w /\
    (EOS "ioctl" [echo_off] ∈ new -> io_err (EOS "ioctl" [echo_off] :: EOS "ioctl" [tcgets] ::
       EOut (label +:+ ": ") :: log w) = None ->
     head new = Some (EOS "ioctl" [restore])).
Proof.
  unfold AskSecret, mbind, ST_bind, Print_out, wrap, ioctl, io, io_with. cbn [log add_log fs set_fs].
  destruct (io_err (EOS "ioctl" [tcgets] :: _)) as [e|]; cbn [wrapf].
  { exists [EOS "ioctl" [tcgets]; EOut (label +:+ ": ")]. split; [done|]. set_solver. }
  cbn [log add_log fs set_fs].
  destruct (io_err (EOS "ioctl" [echo_off] :: _)) as [e|] eqn:He; cbn [wrapf].
  { exists [EOS "ioctl" [echo_off]; EOS "ioctl" [tcgets]; EOut (label +:+ ": ")]. by split. }
  unfold deferred, try, ReadString. cbn [console add_log set_fs].
  exists [EOS "ioctl" [restore]; EOut nl; EOS "ioctl" [echo_off]; EOS "ioctl" [tcgets]; EOut (label +:+ ": ")].
  destruct (read_line (console w)) as [[line rest]|]; cbn;
    (destruct (io_err (EOS "ioctl" [restore] :: _)); by split).
Qed.

(** * Witnesses *)
#[local] Instance tty : Env := simple_env (fun _ f _ => (NotStarted, f)) (fun _ => HttpError) (fun _ => false).

Lemma AskSecret_restores_witness :
  head (log (AskSecret "Password" (MkWorld ∅ "" [])).2) = Some (EOS "ioctl" [restore]).
Proof.
  destruct (AskSecret_restores "Password" (MkWorld ∅ "" [])) as (new & Hl & Hr).
  assert (Hn : new = log (AskSecret "Password" (MkWorld ∅ "" [])).2) by (rewrite Hl; cbn; by rewrite (right_id_L [] (++))).
  rewrite <- Hn. apply Hr; [|done]. rewrite Hn. vm_compute. right. right. left.
Defined.
