(* ===== verification/Netconf.v ===== *)
(** Network configuration (internal/netconf/netconf.go): the interfaces, the
    questions, and the systemd-networkd and -resolved files they lead to. *)
From S2P Require Import Prelude Bytes GoStrings World Runx Json Config Regex Prompt.

Definition excludedPrefixes : list string := ["lo"; "veth"; "podman"; "docker"; "cni"; "br-"; "virbr"].

Definition colon_at (c : ascii) : bool := Ascii.eqb c ":" || Ascii.eqb c "@".

(** [ifaceLineRE.FindStringSubmatch(line)[1]], for ^\d+:\s+([^:@]+)[:@]; when a
    separator follows the spaces directly, the last space is the name. *)
Definition iface_name (line : string) : option string :=
  let '(number, r) := span is_digit line in
  match number, r with
  | String _ _, String ":" r =>
      let '(spaces, r) := span re_space r in
      let '(name, r') := span (fun c => negb (colon_at c)) r in
      match spaces, name, r' with
      | EmptyString, _, _ => None
      | _, _, EmptyString => None
      | String _ _, String _ _, String _ _ => Some name
      | String _ EmptyString, EmptyString, _ => None
      | String _ more, EmptyString, String _ _ =>
          Some (String.substring (slen more - 1) 1 more)
      end
  | _, _ => None
  end.

(** The loop of [ListInterfaces] *)
Fixpoint interfaces (lines : list string) : list string :=
  match lines with
  | [] => []
  | line :: lines =>
      match iface_name line with
      | None => interfaces lines
      | Some name =>
          if existsb (has_prefix name) excludedPrefixes then interfaces lines
          else name :: interfaces lines
      end
  end.

Record staticConfig := Static {
  IPv4Address : string;
  IPv4Gateway : string;
  IPv6Addresses : list string;
  IPv6Gateway : string;
}.

(** [fmt.Sscanf(s, "%d", &n)] on a trimmed text: a text that does not start with a
    number, or with one that is too large, leaves the default. *)
Definition indexOrDefault (s : string) (def : Z) : Z :=
  let '(neg, ds) := split_sign s in
  match (span is_digit ds).1 with
  | EmptyString => def
  | run =>
      let n := default 0 (digits 0 run) in
      let n := if neg : bool then - n else n in
      if decide (- 2 ^ 63 <= n < 2 ^ 63) then n else def
  end.

(** [strings.EqualFold(s, "static")]: besides its case, an s may be written as
    U+017F. *)
Fixpoint fold_long_s (s : string) : string :=
  match s with
  | String "197" (String "191" r) => String "s" (fold_long_s r)
  | String c r => String c (fold_long_s r)
  | EmptyString => ""
  end.
Definition is_static (mode : string) : bool := String.eqb (to_lower (fold_long_s mode)) "static".

(** The patterns of the addresses *)
Definition d : re := Class is_digit.
Definition d13 : re := Seq d (Upto 2 d).
Definition ipv4_re : re := Seq d13 (Times 3 (Seq (Char ".") d13)).
Definition ipv4CIDRRE : re := Seq ipv4_re (Seq (Char "/") (Seq d (Upto 1 d))).
Definition ipv4RE : re := ipv4_re.
Definition is_hex (c : ascii) : bool :=
  is_digit c || ((65 <=? Z_of_byte c) && (Z_of_byte c <=? 70)) || ((97 <=? Z_of_byte c) && (Z_of_byte c <=? 102)).
Definition hex_colon : re := Plus (Class (fun c => is_hex c || Ascii.eqb c ":")).
Definition ipv6CIDRRE : re := Seq hex_colon (Seq (Char "/") d13).
Definition ipv6RE : re := hex_colon.

Definition stripWhitespace (s : string) : string := join "" (fields s).
Definition address_options (pattern : re) (optional : bool) : Prompt.Options :=
  Prompt.MkOptions "" (Some (Regex.matches pattern)) (Some stripWhitespace) optional.

(** What [writeNetworkFile] writes *)
Definition line (key value : string) : string := key +:+ "=" +:+ value +:+ nl.
Definition route (gateway : string) : string :=
  if decide (gateway = "") then ""
  else nl +:+ "[Route]" +:+ nl +:+ line "Gateway" gateway +:+ line "GatewayOnLink" "yes".
Definition network_file (iface : string) (static : option staticConfig) : string :=
  "[Match]" +:+ nl +:+ line "Name" iface +:+ nl +:+ "[Network]" +:+ nl +:+
  match static with
  | None => line "DHCP" "yes" +:+ nl +:+ "[DHCP]" +:+ nl +:+ line "UseDNS" "no"
  | Some sc =>
      line "DHCP" "no" +:+
      (if decide (IPv6Addresses sc = []) then "" else line "IPv6AcceptRA" "no") +:+
      (if decide (IPv4Address sc = "") then "" else line "Address" (IPv4Address sc)) +:+
      String.concat "" (line "Address" <$> IPv6Addresses sc) +:+
      route (IPv4Gateway sc) +:+ route (IPv6Gateway sc)
  end.
Definition resolved_conf : string :=
  "[Resolve]" +:+ nl +:+ line "DNS" "9.9.9.9#dns.quad9.net 2620:fe::fe#dns.quad9.net" +:+
  line "DNSOverTLS" "yes" +:+ line "DNSSEC" "yes" +:+ line "FallbackDNS" "".

(** What [Configure] records; a nil slice is null. *)
Definition network_entry (static : option staticConfig) : config :=
  {["network" := JObj match static with
    | Some sc => {[
      "ipv4_address" := JStr (IPv4Address sc);
        "ipv4_gateway" := JStr (IPv4Gateway sc);
        "ipv6_addresses" := match IPv6Addresses sc with [] => JNull | l => JArr (JStr <$> l) end;
        "ipv6_gateway" := JStr (IPv6Gateway sc)]}
    | None => {["mode" := JStr "dhcp"]}
    end]}.

Section netconf.
Context {E : Env}.

Definition ListInterfaces : ST World (list string) :=
  out ← wrap "netconf: list interfaces: " (RunChecked ["ip"; "-o"; "link"; "show"] no_options);
  mret (interfaces (split LF out)).

Fixpoint print_choices (i : Z) (ifaces : list string) : ST World unit :=
  match ifaces with
  | [] => mret tt
  | name :: ifaces =>
      _ ← Print_out ("  " +:+ itoa (i + 1) +:+ ") " +:+ name +:+ nl);
      print_choices (i + 1) ifaces
  end.

(** The interface to configure, from a nonempty list *)
Definition chooseInterface (ifaces : list string) : ST World string :=
  match ifaces with
  | [] => lift Panic
  | [iface] => mret iface
  | first :: _ =>
      _ ← Banner "Multiple network interfaces found";
      _ ← print_choices 0 ifaces;
      choice ← Ask ("Which interface? (1-" +:+ itoa (Z.of_nat (length ifaces)) +:+ ")")
        (Prompt.MkOptions "1" None None false);
      let idx := to_signed 64 (to_unsigned 64 (indexOrDefault choice 1 - 1)) in
      let idx := if decide (idx < 0 \/ idx >= Z.of_nat (length ifaces)) then 0 else idx in
      match ifaces !! Z.to_nat idx with
      | Some iface => mret iface
      | None => lift Panic
      end
  end.

(** The loop over the IPv6 addresses; every turn reads a line. *)
Fixpoint ask_ipv6 (gas : nat) (addrs : list string) : ST World (list string) :=
  match gas with
  | O => lift OutOfFuel
  | S gas =>
      v6 ← Ask "IPv6 address/CIDR (blank to stop, e.g. 2001:db8::7/64)" (address_options ipv6CIDRRE true);
      if decide (v6 = "") then mret addrs else ask_ipv6 gas (addrs ++ [v6])
  end.

Definition askStatic : ST World (option staticConfig) :=
  v4addr ← Ask "IPv4 address/CIDR (e.g. 203.0.113.7/24)" (address_options ipv4CIDRRE false);
  v4gw ← Ask "IPv4 gateway" (address_options ipv4RE false);
  w ← st_get;
  addrs ← ask_ipv6 (S (slen (console w))) [];
  v6gw ← if decide (addrs = []) then mret ""
  else Ask "IPv6 gateway" (address_options ipv6RE false);
  if decide (v4addr = "" /\ addrs = []) then mret None
  else mret (Some (Static v4addr v4gw addrs v6gw)).

Definition writeNetworkFile (root iface : string) (static : option staticConfig) : ST World unit :=
  let path := path_join [root; "etc/systemd/network/20-wan.network"] in
  _ ← wrap "netconf: mkdir: " (MkdirAll (path_dir path) 493);
  wrap "netconf: write %s: " (WriteFile path (network_file iface static) 420).

Definition writeResolvedConf (root : string) : ST World unit :=
  let path := path_join [root; "etc/systemd/resolved.conf.d/quad9.conf"] in
  _ ← wrap "netconf: mkdir: " (MkdirAll (path_dir path) 493);
  wrap "netconf: write %s: " (WriteFile path resolved_conf 420).

Definition fixResolvConfSymlink (root : string) : ST World unit :=
  let path := path_join [root; "etc/resolv.conf"] in
  r ← try (Lstat path);
  _ ← match r with
    | inl _ => wrap "netconf: remove existing %s: " (Remove path)
    | inr _ => mret tt
    end;
  wrap "netconf: symlink %s: " (Symlink "/run/systemd/resolve/stub-resolv.conf" path).

Definition Configure (store : Store) : ST World unit :=
  ifaces ← ListInterfaces;
  if decide (ifaces = []) then lift (Err (Errorf "netconf: no candidate network interfaces found"))
  else
    iface ← chooseInterface ifaces;
    mode ← Ask "DHCP or static?" (Prompt.MkOptions "dhcp" None None false);
    static ← if is_static mode then askStatic else mret None;
    let root := store_root store in
    _ ← writeNetworkFile root iface static;
    _ ← writeResolvedConf root;
    _ ← fixResolvConfSymlink root;
    Update store (network_entry static).
End netconf.

(** ** Specification *)

(** The lines of the network file *)
Definition route_lines (gateway : string) : list string :=
  if decide (gateway = "") then [] else [""; "[Route]"; "Gateway=" +:+ gateway; "GatewayOnLink=yes"].
Definition network_lines (iface : string) (static : option staticConfig) : list string :=
  ["[Match]"; "Name=" +:+ iface; ""; "[Network]"] ++
  match static with
  | None => ["DHCP=yes"; ""; "[DHCP]"; "UseDNS=no"]
  | Some sc =>
      ["DHCP=no"] ++ (if decide (IPv6Addresses sc = []) then [] else ["IPv6AcceptRA=no"]) ++
      (if decide (IPv4Address sc = "") then [] else ["Address=" +:+ IPv4Address sc]) ++
      ((fun a => "Address=" +:+ a) <$> IPv6Addresses sc) ++
      route_lines (IPv4Gateway sc) ++ route_lines (IPv6Gateway sc)
  end.

(** Addresses of the right form, and an IPv6 gateway exactly with IPv6 addresses *)
Definition valid_static (sc : staticConfig) : Prop :=
  lang ipv4CIDRRE (IPv4Address sc) /\ lang ipv4RE (IPv4Gateway sc) /\
  Forall (lang ipv6CIDRRE) (IPv6Addresses sc) /\
  (if decide (IPv6Addresses sc = []) then IPv6Gateway sc = "" else lang ipv6RE (IPv6Gateway sc)).
Definition valid (static : option staticConfig) : Prop :=
  match static with Some sc => valid_static sc | None => True end.

(** The only command is the enumeration of the interfaces; neither the network nor
    a stage marker is touched. *)
Definition offline (e : event) : Prop :=
  match e with
  | EExec argv _ _ => argv = ["ip"; "-o"; "link"; "show"]
  | ENet _ _ => False
  | EOS op _ => op <> "touch"
  | _ => True
  end.

(** ** Lemmas: the file's lines *)
Lemma route_text gateway : route gateway = lines_text (route_lines gateway).
Proof.
  unfold route, route_lines. case_decide; [done|].
  unfold line. by rewrite !lines_text_cons, !sapp_assoc.
Qed.

Lemma network_file_text iface static : network_file iface static = lines_text (network_lines iface static).
Proof.
  unfold network_file, network_lines, line. rewrite lines_text_app, !lines_text_cons.
  destruct static as [sc|]; [|by rewrite !lines_text_cons, !sapp_assoc].
  rewrite !lines_text_app, !route_text, lines_text_cons.
  assert (lines_text ((fun a => "Address=" +:+ a) <$> IPv6Addresses sc)
    = String.concat "" (line "Address" <$> IPv6Addresses sc)) as ->.
  { induction (IPv6Addresses sc) as [|a l IH]; [done|]. cbn [fmap list_fmap].
    rewrite lines_text_cons, concat_cons, IH. unfold line. by rewrite !sapp_assoc. }
  unfold line. by repeat case_decide; rewrite ?lines_text_cons, ?sapp_assoc.
Qed.

(** Whatever matches an address pattern is on one line. *)
Definition address_char (c : ascii) : bool :=
  is_hex c || existsb (Ascii.eqb c) ["."; ":"; "/"]%char.

Lemma address_within : within address_char ipv4CIDRRE /\ within address_char ipv4RE /\
  within address_char ipv6CIDRRE /\ within address_char ipv6RE.
Proof.
  assert (Hd : forall c, is_digit c = true -> address_char c = true).
  { intros c Hc. unfold address_char, is_hex. by rewrite Hc. }
  assert (Hh : forall c, is_hex c || Ascii.eqb c ":" = true -> address_char c = true).
  { intros c [Hc|Hc]%orb_true_iff; unfold address_char; [by rewrite Hc|].
    apply Ascii.eqb_eq in Hc as ->. done. }
  assert (Hc : forall c, c ∈ ["."; "/"]%char -> forall x, Ascii.eqb c x = true -> address_char x = true).
  { intros c Hin x <-%Ascii.eqb_eq. set_unfold in Hin. by destruct_or? Hin; subst. }
  unfold ipv4CIDRRE, ipv4RE, ipv6CIDRRE, ipv6RE, ipv4_re, hex_colon, d13, d, Plus, Char.
  cbn [within Times Upto]. unfold Opt. cbn [within].
  repeat split; try exact Hd; try exact Hh; apply Hc; set_solver.
Qed.

Lemma address_one_line r s : within address_char r -> lang r s -> no_char LF s = true.
Proof.
  intros Hw Hs. pose proof (lang_within _ _ _ Hw Hs) as Ha. clear Hs.
  induction s as [|c s IH]; [done|]. simpl in *. apply andb_true_iff in Ha as [Hc Ha].
  rewrite IH by done. rewrite andb_true_r. destruct (Ascii.eqb_spec c LF) as [->|]; done.
Qed.

Lemma prefix_one_line p s : no_char LF p = true -> no_char LF s = true -> no_char LF (p +:+ s) = true.
Proof. rewrite no_char_app, andb_true_iff. done. Qed.

Lemma network_lines_ok iface static :
  no_char LF iface = true -> valid static -> Forall (fun l => no_char LF l = true) (network_lines iface static).
Proof.
  intros Hi Hv. destruct address_within as (W1 & W2 & W3 & W4).
  assert (Hr : forall g, (g = "" \/ lang ipv4RE g \/ lang ipv6RE g) ->
    Forall (fun l => no_char LF l = true) (route_lines g)).
  { intros g Hg. unfold route_lines. case_decide; [constructor|].
    repeat constructor. apply (prefix_one_line "Gateway="); [done|].
    destruct Hg as [->|[Hg|Hg]]; [done|by apply (address_one_line _ _ W2)|by apply (address_one_line _ _ W4)]. }
  unfold network_lines. apply Forall_app. split; [repeat constructor; by apply (prefix_one_line "Name=")|].
  destruct static as [sc|]; [|by repeat constructor].
  destruct Hv as (H4 & Hg4 & H6 & Hg6).
  repeat (apply Forall_app; split); [by repeat constructor| | | |apply Hr; auto|apply Hr].
  - destruct (decide (IPv6Addresses sc = [])); by repeat constructor.
  - destruct (decide (IPv4Address sc = "")); repeat constructor. apply (prefix_one_line "Address="); [done|by apply (address_one_line _ _ W1)].
  - apply Forall_fmap. eapply Forall_impl; [exact H6|]. intros a Ha. simpl.
    apply (prefix_one_line "Address="); [done|by apply (address_one_line _ _ W3)].
  - case_decide; auto.
Qed.

(** ** Lemmas: the questions *)
Lemma iface_name_one_line l name : no_char LF l = true -> iface_name l = Some name -> no_char LF name = true.
Proof.
  unfold iface_name. pose proof (span_app is_digit l) as H1. destruct (span is_digit l) as [num r1].
  intros Hl. rewrite H1, no_char_app in Hl. apply andb_true_iff in Hl as [_ Hl].
  destruct num as [|c num]; [done|]. destruct r1 as [|c1 r1]; [done|].
  destruct (decide (c1 = ":"%char)) as [->|Hc]; [|by destruct c1 as [[] [] [] [] [] [] [] []]].
  simpl in Hl. pose proof (span_app re_space r1) as H2. destruct (span re_space r1) as [spaces r2].
  rewrite H2, no_char_app in Hl. apply andb_true_iff in Hl as [Hsp Hl].
  pose proof (span_app (fun c => negb (colon_at c)) r2) as H3.
  destruct (span _ r2) as [nm r3]. rewrite H3, no_char_app in Hl. apply andb_true_iff in Hl as [Hnm _].
  destruct spaces as [|c2 more]; [done|]. simpl in Hsp. apply andb_true_iff in Hsp as [_ Hsp].
  destruct r3 as [|c3 r3]; [by destruct more, nm|].
  destruct nm as [|c4 nm]; [|destruct more; intros [= <-]; exact Hnm].
  destruct more as [|c5 more]; [done|]. intros [= <-].
  exact (no_char_substring LF (slen (String c5 more) - 1) 1 _ Hsp).
Qed.

Lemma interfaces_one_line lines :
  Forall (fun l => no_char LF l = true) lines -> Forall (fun n => no_char LF n = true) (interfaces lines).
Proof.
  induction 1 as [|l lines Hl _ IH]; simpl; [constructor|].
  destruct (iface_name l) as [name|] eqn:Hn; [|done].
  case_match; [done|]. constructor; [by eapply iface_name_one_line|done].
Qed.

Lemma address_acceptable pattern optional v :
  acceptable (address_options pattern optional) v -> (v = "" /\ optional = true) \/ (v <> "" /\ lang pattern v).
Proof. intros [[-> Ho]|[Hv Hm]]; [by left|]. right. split; [done|]. by apply matches_lang. Qed.

#[local] Hint Extern 0 (offline (EOut _)) => exact I : quiet.
#[local] Hint Extern 0 (offline (EOS _ _)) => discriminate : quiet.

Section questions.
Context {E : Env}.

Lemma ask_ipv6_ok gas addrs w :
  Forall (lang ipv6CIDRRE) addrs -> (slen (console w) < gas)%nat ->
  match ask_ipv6 gas addrs w with
  | (Ok l, _) => Forall (lang ipv6CIDRRE) l
  | (Err _, _) => True
  | _ => False
  end.
Proof.
  revert addrs w. induction gas as [|gas IH]; intros addrs w Ha Hg; [lia|]. cbn [ask_ipv6].
  unfold mbind, ST_bind. pose proof (ends_Ask "IPv6 address/CIDR (blank to stop, e.g. 2001:db8::7/64)"
    (address_options ipv6CIDRRE true) w) as He.
  destruct (Ask _ _ w) as [[v|e| |] w1] eqn:Hask; try done.
  apply Ask_Ok in Hask as [Hv Hl]. case_decide as Hd; [done|].
  apply IH; [|lia]. apply Forall_app. split; [done|]. constructor; [|done].
  by apply address_acceptable in Hv as [[-> _]|[_ ?]].
Qed.

Lemma askStatic_ok w :
  match askStatic w with
  | (Ok static, _) => valid static
  | (Err _, _) => True
  | _ => False
  end.
Proof.
  unfold askStatic, mbind, ST_bind.
  pose proof (ends_Ask "IPv4 address/CIDR (e.g. 203.0.113.7/24)" (address_options ipv4CIDRRE false) w) as H1.
  destruct (Ask _ _ w) as [[v4|e| |] w1] eqn:Hask; try done. apply Ask_Ok in Hask as [Hv4 _].
  pose proof (ends_Ask "IPv4 gateway" (address_options ipv4RE false) w1) as H2.
  destruct (Ask _ _ w1) as [[gw|e| |] w2] eqn:Hask; try done. apply Ask_Ok in Hask as [Hgw _].
  cbn [st_get]. pose proof (ask_ipv6_ok (S (slen (console w2))) [] w2 (Forall_nil_2 _) ltac:(lia)) as H3.
  destruct (ask_ipv6 _ [] w2) as [[addrs|e| |] w3]; try done.
  apply address_acceptable in Hv4 as [[_ [=]]|[Hne Hv4]], Hgw as [[_ [=]]|[_ Hgw]].
  destruct (decide (addrs = [])) as [Ha|Ha].
  - cbn. rewrite decide_False by tauto. unfold mret, ST_ret, valid, valid_static. cbn. by rewrite decide_True.
  - pose proof (ends_Ask "IPv6 gateway" (address_options ipv6RE false) w3) as H4.
    destruct (Ask _ _ w3) as [[g6|e| |] w4] eqn:Hask; try done. apply Ask_Ok in Hask as [Hg6 _].
    apply address_acceptable in Hg6 as [[_ [=]]|[_ Hg6]].
    rewrite decide_False by tauto. unfold mret, ST_ret, valid, valid_static. cbn. by rewrite decide_False.
Qed.

Lemma quiet_askStatic : quiet offline askStatic.
Proof.
  unfold askStatic. assert (Hl : forall gas addrs, quiet offline (ask_ipv6 gas addrs)).
  { induction gas as [|gas IH]; intros addrs; cbn [ask_ipv6]; auto with quiet. }
  auto 10 with quiet.
Qed.

Lemma chooseInterface_ok ifaces :
  ifaces <> [] -> ends (chooseInterface ifaces) /\
  emits offline (fun iface _ _ => iface ∈ ifaces) (chooseInterface ifaces).
Proof.
  intros Hne. destruct ifaces as [|first [|second rest]]; [done| |].
  { split; [auto with ends|]. apply emits_ret. intros _. left. }
  set (ifaces := first :: second :: rest).
  assert (Hp : forall i l, ends (print_choices i l) /\ quiet offline (print_choices i l)).
  { intros i l. revert i. induction l as [|n l IH]; intros i; cbn [print_choices].
    - split; auto with ends quiet.
    - split; [apply ends_bind|apply quiet_bind]; intros; auto with ends quiet; apply IH. }
  assert (Hidx : forall idx, exists iface,
    ifaces !! Z.to_nat (if decide (idx < 0 \/ idx >= Z.of_nat (length ifaces)) then 0 else idx) = Some iface).
  { intros idx. apply lookup_lt_is_Some. case_decide; subst ifaces; simpl in *; lia. }
  unfold chooseInterface. fold ifaces. split.
  - apply ends_bind; [auto with ends|]. intros _.
    apply ends_bind; [apply Hp|]. intros _. apply ends_bind; [auto with ends|]. intros choice.
    destruct (Hidx (to_signed 64 (to_unsigned 64 (indexOrDefault choice 1 - 1)))) as [iface Hi].
    cbv zeta. rewrite Hi. auto with ends.
  - eapply emits_bind_pre; [by apply quiet_Banner|].
    intros _ n1 b1 _. eapply emits_bind_pre; [apply Hp|]. intros _ n2 b2 _.
    eapply emits_bind_pre; [by apply quiet_Ask|]. intros choice n3 b3 _.
    destruct (Hidx (to_signed 64 (to_unsigned 64 (indexOrDefault choice 1 - 1)))) as [iface Hi].
    cbv zeta. rewrite Hi. apply emits_ret. intros _ _ _ _. by eapply list_elem_of_lookup_2.
Qed.

Lemma ListInterfaces_ok :
  emits offline (fun ifaces _ _ => Forall (fun n => no_char LF n = true) ifaces) ListInterfaces.
Proof.
  unfold ListInterfaces, RunChecked. eapply emits_bind_pre.
  { apply emits_wrap. apply quiet_bind; [by apply quiet_Run|auto with quiet]. }
  intros out n1 base _. apply emits_ret. intros _ _. apply interfaces_one_line.
  apply Forall_forall. intros l Hl. by eapply split_parts.
Qed.

(** The network file among the events *)
Definition network_written (root : string) (new : list event) : Prop :=
  exists iface static, no_char LF iface = true /\ valid static /\
  EOS "write" [path_join [root; "etc/systemd/network/20-wan.network"]; network_file iface static] ∈ new.

Lemma quiet_files root : quiet offline (writeResolvedConf root) /\ quiet offline (fixResolvConfSymlink root) /\
  ends (writeResolvedConf root) /\ ends (fixResolvConfSymlink root).
Proof.
  unfold writeResolvedConf, fixResolvConfSymlink. cbv zeta.
  split_and!; [auto 6 with quiet| |auto 6 with ends|].
  - apply quiet_bind; [auto with quiet|]. intros r. apply quiet_bind; [|intros; auto with quiet].
    destruct r; auto with quiet.
  - apply ends_bind; [auto with ends|]. intros r. apply ends_bind; [|intros; auto with ends].
    destruct r; auto with ends.
Qed.

Lemma Configure_emits store :
  emits offline (fun _ new _ => network_written (store_root store) new) (Configure store).
Proof.
  unfold Configure. eapply emits_bind_pre; [apply ListInterfaces_ok|]. intros ifaces n1 b1 Hlf.
  case_decide as Hne. { eapply emits_weaken; [apply emits_lift|]. by intros ? ? ? [? _]. }
  eapply emits_bind_pre; [by apply chooseInterface_ok|]. intros iface n2 b2 Hin.
  eapply emits_bind_pre; [by apply quiet_Ask|]. intros mode n3 b3 _.
  eapply (emits_bind_pre _ (fun static _ _ => valid static)).
  { destruct (is_static mode); [|by apply emits_ret].
    eapply emits_weaken; [eapply emits_and; [apply quiet_askStatic|]|].
    - intros w a w' Ha. pose proof (askStatic_ok w) as Hs. rewrite Ha in Hs. exact Hs.
    - intros a ? ? [_ Hv]. exact Hv. }
  intros static n4 b4 Hv. cbv zeta.
  eapply (emits_bind_pre _ (fun _ new _ => network_written (store_root store) new)).
  { unfold writeNetworkFile. cbv zeta. eapply emits_bind_pre; [apply emits_wrap; by apply quiet_io|].
    intros _ n5 b5 _. eapply emits_weaken; [apply emits_wrap, emits_io; done|].
    intros _ new base -> _. exists iface, static. split_and!; [|done|left].
    rewrite Forall_forall in Hlf. by apply Hlf. }
  intros _ n5 b5 (i & st & Hi & Hst & Hw).
  eapply emits_weaken; [|intros _ new mid _ _ _ _ _ _; exists i, st; split_and!; [exact Hi|exact Hst|]].
  2: { rewrite !elem_of_app. tauto. }
  apply quiet_bind; [apply quiet_files|]. intros _. apply quiet_bind; [apply quiet_files|]. intros _.
  by apply quiet_Update.
Qed.

Lemma Configure_may_panic store : may_panic (null_config store) (Configure store).
Proof.
  unfold Configure. apply may_panic_bind.
  { apply ends_may_panic. unfold ListInterfaces. auto with ends. }
  intros ifaces. case_decide as Hne; [by apply ends_may_panic, ends_lift|].
  apply may_panic_bind; [by apply ends_may_panic, chooseInterface_ok|]. intros iface.
  apply may_panic_bind; [apply ends_may_panic, ends_Ask|]. intros mode.
  apply may_panic_bind.
  { apply ends_may_panic. destruct (is_static mode); [|auto with ends]. intros w.
    pose proof (askStatic_ok w) as Hs. by destruct (askStatic w) as [[]]. }
  intros static. cbv zeta. apply may_panic_bind.
  { apply ends_may_panic. unfold writeNetworkFile. auto 6 with ends. }
  intros _. apply may_panic_bind; [apply ends_may_panic, quiet_files|].
  intros _. apply may_panic_bind; [apply ends_may_panic, quiet_files|].
  intros _. apply Update_may_panic.
Qed.
End questions.

(** * Properties *)

(** C31: network configuration is safe and always ends: whatever is typed and
    whatever [ip] prints, it returns or fails (it panics only when the
    configuration file holds null), the only command it runs is the enumeration
    of the interfaces, and on success the network file it wrote consists of
    exactly the expected lines, for an interface name on one line and, when
    static, addresses that match their patterns: nothing typed can add a line. *)
Theorem Configure_safe `{Env} store w :
  let '(r, w') := Configure store w in
  match r with Panic => null_config store w' | OutOfFuel => False | _ => True end /\
  exists new, log w' = new ++ log w /\ Forall offline new /\
    (r = Ok tt -> exists iface static, no_char LF iface = true /\ valid static /\
      EOS "write" [path_join [store_root store; "etc/systemd/network/20-wan.network"]; network_file iface static] ∈ new /\
      text_lines (network_file iface static) = network_lines iface static).
Proof.
  pose proof (Configure_may_panic store w) as Hp. pose proof (Configure_emits store w) as He.
  destruct (Configure store w) as [r w']. split; [by destruct r|].
  destruct He as (new & Hl & Hf & Ha). exists new. split_and!; [done|done|].
  intros Hr. destruct (Ha tt Hr) as (iface & static & Hi & Hv & Hw). exists iface, static.
  split_and!; try done. rewrite network_file_text. by apply text_lines_text, network_lines_ok.
Qed.

(** * Witnesses *)
#[local] Instance console_env : Env := simple_env
  (fun _ f _ => (Exited 0 ("1: lo: <UP>" +:+ nl +:+ "2: eth0@if3: <UP>" +:+ nl) "", f)) (fun _ => HttpError) (fun _ => false).
Definition typed_answers : World := MkWorld ∅
  ("static" +:+ nl +:+ "192.0.2.300" +:+ nl +:+ "192.0.2.7/24" +:+ nl +:+ "192.0.2.1" +:+ nl +:+ nl) [].

Lemma Configure_safe_witness :
  exists iface static, valid static /\
    EOS "write" ["/etc/systemd/network/20-wan.network"; network_file iface static]
      ∈ log (Configure (MkStore "/") (set_fs {["/etc" := NDir 493 0 0]} typed_answers)).2 /\
    text_lines (network_file iface static) = network_lines iface static.
Proof.
  pose proof (Configure_safe (MkStore "/") (set_fs {["/etc" := NDir 493 0 0]} typed_answers)) as Hs.
  destruct (Configure _ _) as [r w'] eqn:Hc. destruct Hs as (_ & new & Hl & _ & Hok).
  assert (Hr : r = Ok tt) by (apply (f_equal fst) in Hc; vm_compute in Hc; exact (eq_sym Hc)).
  destruct (Hok Hr) as (iface & static & _ & Hv & Hw & Ht).
  exists iface, static. split_and!; [done| |done]. cbn [snd]. rewrite Hl. apply elem_of_app. by left.
Defined.
