(* ===== verification/Wizard.v ===== *)
(** The setup questions (internal/wizard/wizard.go): before the first boot at the
    installer's console, and after it over SSH. *)
From S2P Require Import Prelude Bytes GoStrings World Json Config Regex Prompt.

(** [[^@\s]] *)
Definition mail_char (c : ascii) : bool := nonspace c && negb (Ascii.eqb c "@").
Definition host_char (c : ascii) : bool := is_lower c || is_digit c || Ascii.eqb c "-".

Definition validPubkeyRE : re :=
  Seq (Alt (Lit "ssh-ed25519") (Alt (Lit "ssh-rsa") (Seq (Lit "ecdsa-sha2-") (Plus (Class nonspace)))))
    (Seq (Char " ") (Seq (Plus (Class nonspace)) anything)).
Definition validEmailRE : re :=
  Seq (Plus (Class mail_char)) (Seq (Char "@") (Seq (Plus (Class mail_char))
    (Seq (Char ".") (Plus (Class mail_char))))).
Definition validDomainRE : re :=
  Seq (Plus (Seq (Plus (Class host_char)) (Char "."))) (Seq (Class is_lower) (Plus (Class is_lower))).

Definition secretKeys : list string := ["vaultwarden_admin_token"; "postgres_password";
  "garage_rpc_secret"; "garage_admin_token"; "stalwart_admin_password"].
Definition fileSecretKeys : list string := ["ente_encryption_key"; "ente_encryption_hash_key"; "ente_jwt_secret"].

Definition validated (pattern : re) (optional : bool) : Options :=
  MkOptions "" (Some (Regex.matches pattern)) None optional.
Definition defaulted (s : string) : Options := MkOptions s None None false.

(** [strings.ReplaceAll(key, "_", " ")] *)
Fixpoint spaced (s : string) : string :=
  match s with
  | EmptyString => ""
  | String c s => String (if Ascii.eqb c "_" then " "%char else c) (spaced s)
  end.

Section wizard.
Context {E : Env}.

(** The loop of [askPassword]; every turn reads a line. *)
Fixpoint password_loop (gas : nat) : ST World string :=
  match gas with
  | O => lift OutOfFuel
  | S gas =>
      password ← AskSecret "Password";
      if decide (password = "") then
        generated ← GenSecret 12;
        _ ← Print_out ("Generated admin password (write this down, shown once): " +:+ generated +:+ nl);
        mret generated
      else
        confirm ← AskSecret "Confirm";
        if decide (confirm = password) then mret password
        else
          _ ← Print_out ("passwords didn't match, try again" +:+ nl);
          password_loop gas
  end.
Definition askPassword : ST World string := fun w => password_loop (S (slen (console w))) w.

Definition writeHostname (root hostname : string) : ST World unit :=
  let path := path_join [root; "etc/hostname"] in
  _ ← wrap "wizard: mkdir: " (MkdirAll (path_dir path) 493);
  wrap "wizard: write %s: " (WriteFile path (hostname +:+ nl) 420).

(** Assignments to the entries of a loaded configuration *)
Definition assign (kvs : list (string * string)) (cfg : option config) : outcome config :=
  match cfg with
  | None => Panic
  | Some m => Ok (fold_left (fun m kv => <[kv.1 := JStr kv.2]> m) kvs m)
  end.

Definition RunPreBoot (store : Store) : ST World config :=
  _ ← Banner "slfhst installer setup";
  hostname ← Ask "Hostname (short, e.g. box1)" required;
  adminUser ← Ask "Admin username" (defaulted "admin");
  pubkey ← Ask "Admin SSH public key (paste the full line, blank to skip)" (validated validPubkeyRE true);
  _ ← Print_out nl;
  _ ← Print_out ("Admin account password (used to SSH in after reboot)." +:+ nl);
  _ ← Print_out ("Blank = auto-generate and print once." +:+ nl);
  adminPassword ← askPassword;
  cfg ← Load store;
  cfg ← lift (assign [("hostname", hostname); ("admin_user", adminUser); ("admin_pubkey", pubkey);
    ("admin_password", adminPassword)] cfg);
  _ ← Save store (Some cfg);
  _ ← writeHostname (store_root store) hostname;
  _ ← Banner "Setup captured.";
  mret cfg.

(** [for cfToken == ""]; every turn reads a line. *)
Fixpoint token_loop (gas : nat) : ST World string :=
  match gas with
  | O => lift OutOfFuel
  | S gas =>
      cfToken ← AskSecret "Cloudflare API token";
      if decide (cfToken = "") then token_loop gas else mret cfToken
  end.

(** The loop over [secretKeys] *)
Fixpoint ask_secrets (keys : list string) (cfg : config) : ST World config :=
  match keys with
  | [] => mret cfg
  | key :: keys =>
      value ← Ask (spaced key +:+ " (blank = auto-generate)") (MkOptions "" None None true);
      value ← if decide (value = "") then GenSecret 0 else mret value;
      ask_secrets keys (<[key := JStr value]> cfg)
  end.

(** The loop over [fileSecretKeys] *)
Fixpoint gen_secrets (keys : list string) (cfg : config) : ST World config :=
  match keys with
  | [] => mret cfg
  | key :: keys =>
      match cfg !! key with
      | Some _ => gen_secrets keys cfg
      | None =>
          value ← GenSecret 0;
          gen_secrets keys (<[key := JStr value]> cfg)
      end
  end.

(** The result is the configuration, which may be a nil map when nothing was asked
    for; [None] never has a domain. *)
Definition RunPostBoot (store : Store) : ST World config :=
  loaded ← Load store;
  let cfg := default ∅ loaded in
  if decide (cfg_string cfg "domain" <> "") then mret cfg
  else
    _ ← Banner "slfhst setup";
    domain ← Ask "Domain (must already be on Cloudflare)" (validated validDomainRE false);
    alertEmail ← Ask "Email address for alerts (delivered via this box's own mail server)"
      (validated validEmailRE false);
    _ ← Print_out nl;
    _ ← Print_out ("Cloudflare API token (Zone:DNS Edit scope for the domain above)." +:+ nl);
    _ ← Print_out ("Input is hidden." +:+ nl);
    w ← st_get;
    cfToken ← token_loop (S (slen (console w)));
    cfg ← lift (assign [("domain", domain); ("alert_email", alertEmail); ("cloudflare_api_token", cfToken)] loaded);
    _ ← Print_out nl;
    _ ← Print_out ("Per-service secrets: leave blank to auto-generate (recommended)." +:+ nl);
    cfg ← ask_secrets secretKeys cfg;
    cfg ← gen_secrets fileSecretKeys cfg;
    _ ← Save store (Some cfg);
    _ ← Banner "Setup captured.";
    mret cfg.
End wizard.

(** ** Lemmas *)
Lemma secretKeys_nodup : NoDup secretKeys.
Proof. unfold secretKeys. repeat constructor; set_solver. Qed.

Lemma b64_nonempty bs : bs <> [] -> b64 bs <> "".
Proof. by destruct bs as [|x [|y [|z bs]]]. Qed.

Section lemmas.
Context {E : Env}.

Lemma GenSecret_nonempty n w s w' : GenSecret n w = (Ok s, w') -> s <> "".
Proof.
  unfold GenSecret. intros (buf & w1 & Hb%wrap_Ok_inv & [= <- _])%bind_Ok_inv_st.
  unfold rand_Read in Hb. cbn in Hb. destruct (io_err _); [done|]. injection Hb as <- _.
  apply b64_nonempty. set (k := Z.to_nat _). assert (0 < k)%nat by (subst k; case_match; lia).
  destruct k as [|k]; [lia|]. intros Hn%(f_equal length).
  rewrite length_take, length_app, length_zeros in Hn. cbn [length] in Hn. lia.
Qed.

(** A secret that was read took some of the input. *)
Lemma AskSecret_read label w s w' :
  AskSecret label w = (Ok s, w') -> exists line, read_line (console w) = Some (line, console w') /\ s = trim_newline line.
Proof.
  unfold AskSecret. intros ([] & w1 & [= <-] & H1)%bind_Ok_inv_st.
  apply bind_Ok_inv_st in H1 as ([] & w2 & H2%wrap_Ok_inv & H1).
  apply bind_Ok_inv_st in H1 as ([] & w3 & H3%wrap_Ok_inv & H1).
  assert (Hio : forall req v v', ioctl req v = (Ok tt, v') -> console v' = console v).
  { intros req v v'. unfold ioctl. rewrite io_cases. destruct (io_err _); [done|]. by intros [= <-]. }
  apply Hio in H2, H3. apply deferred_ok in H1 as (w4 & H4 & ->).
  assert (console (((_ ← try (ioctl restore); mret tt) : ST World unit) w4).2 = console w4) as ->.
  { unfold mbind, ST_bind, try, ioctl. rewrite io_cases. by destruct (io_err _). }
  apply bind_Ok_inv_st in H4 as (r & w5 & H5 & H4).
  apply bind_Ok_inv_st in H4 as ([] & w6 & [= <-] & H4).
  unfold try, ReadString in H5. destruct (read_line (console w3)) as [[line rest]|] eqn:Hl.
  - injection H5 as <- <-. injection H4 as <- <-. cbn. exists line. split; [|done].
    by rewrite <- Hl, H3, H2.
  - by injection H5 as <- <-.
Qed.
Lemma AskSecret_Ok label w s w' :
  AskSecret label w = (Ok s, w') -> (slen (console w') < slen (console w))%nat.
Proof.
  intros (line & Hl & _)%AskSecret_read. apply read_line_Some in Hl as (l & -> & _ & ->).
  rewrite !slen_app. simpl. lia.
Qed.

Lemma ends_AskSecret label : ends (AskSecret label).
Proof.
  assert (Hr : ends ReadString) by (intros w; unfold ReadString; by destruct (read_line _) as [[]|]).
  assert (Hio : forall req, ends (ioctl req)) by (intros req; by apply ends_io).
  unfold AskSecret. apply ends_bind; [auto with ends|]. intros _.
  apply ends_bind; [auto with ends|]. intros _. apply ends_bind; [auto with ends|]. intros _.
  apply ends_deferred, ends_bind; [auto with ends|]. intros []; auto with ends.
Qed.
#[local] Hint Resolve ends_AskSecret : ends.

Lemma token_loop_ok gas w :
  (slen (console w) < gas)%nat ->
  match (token_loop gas w).1 with Ok t => t <> "" | Err _ => True | _ => False end.
Proof.
  revert w. induction gas as [|gas IH]; intros w Hg; [lia|]. cbn [token_loop].
  unfold mbind, ST_bind. pose proof (ends_AskSecret "Cloudflare API token" w) as He.
  destruct (AskSecret _ w) as [[t|e| |] w1] eqn:Ha; try done.
  apply AskSecret_Ok in Ha. case_decide; [apply IH; lia|done].
Qed.

Lemma password_loop_ok gas w :
  (slen (console w) < gas)%nat ->
  match (password_loop gas w).1 with Ok p => p <> "" | Err _ => True | _ => False end.
Proof.
  revert w. induction gas as [|gas IH]; intros w Hg; [lia|]. cbn [password_loop].
  unfold mbind at 1, ST_bind at 1. pose proof (ends_AskSecret "Password" w) as He.
  destruct (AskSecret _ w) as [[p|e| |] w1] eqn:Ha; try done. apply AskSecret_Ok in Ha.
  case_decide as Hp.
  - unfold mbind at 1, ST_bind at 1. pose proof (ends_GenSecret 12 w1) as Hg1.
    destruct (GenSecret 12 w1) as [[g|e| |] w2] eqn:Hgen; try done. by eapply GenSecret_nonempty.
  - unfold mbind at 1, ST_bind at 1. pose proof (ends_AskSecret "Confirm" w1) as Hc.
    destruct (AskSecret _ w1) as [[c|e| |] w2] eqn:Hb; try done. apply AskSecret_Ok in Hb.
    case_decide; [done|]. unfold mbind, ST_bind, Print_out. apply IH. cbn. lia.
Qed.

Lemma ask_secrets_ok keys cfg w cfg' w' :
  ask_secrets keys cfg w = (Ok cfg', w') ->
  (forall k, k ∈ keys -> cfg_string cfg' k <> "") /\ (forall k, k ∉ keys -> cfg' !! k = cfg !! k) /\
  (json_ok (JObj cfg) = true -> json_ok (JObj cfg') = true).
Proof.
  revert cfg w. induction keys as [|key keys IH]; intros cfg w; cbn [ask_secrets].
  { intros [= <- _]. split_and!; [by intros ? ?%elem_of_nil|done|done]. }
  intros (v & w1 & _ & H1)%bind_Ok_inv_st. apply bind_Ok_inv_st in H1 as (value & w2 & Hv & H1).
  assert (Hne : value <> "").
  { case_decide; [by eapply GenSecret_nonempty|]. by injection Hv as <- _. }
  apply IH in H1 as (Hin & Hout & Hok). split_and!.
  - intros k [->|Hk]%elem_of_cons; [|by apply Hin].
    destruct (decide (key ∈ keys)) as [Hk|Hk]; [by apply Hin|].
    unfold cfg_string. rewrite Hout by done. by rewrite lookup_insert_eq.
  - intros k [Hk1 Hk2]%not_elem_of_cons. rewrite Hout by done. by rewrite lookup_insert_ne.
  - intros Hj. apply Hok. by apply json_ok_insert.
Qed.

Lemma gen_secrets_ok keys cfg w cfg' w' :
  gen_secrets keys cfg w = (Ok cfg', w') ->
  (forall k, k ∈ keys -> is_Some (cfg' !! k)) /\ (forall k v, cfg !! k = Some v -> cfg' !! k = Some v) /\
  (json_ok (JObj cfg) = true -> json_ok (JObj cfg') = true).
Proof.
  revert cfg w. induction keys as [|key keys IH]; intros cfg w; cbn [gen_secrets].
  { intros [= <- _]. split_and!; [by intros ? ?%elem_of_nil|done|done]. }
  destruct (cfg !! key) as [v|] eqn:Hk.
  - intros (Hin & Hkeep & Hok)%IH. split_and!; [|done|done].
    intros k [->|Hin']%elem_of_cons; [by exists v; apply Hkeep|by apply Hin].
  - intros (value & w1 & _ & (Hin & Hkeep & Hok)%IH)%bind_Ok_inv_st. split_and!.
    + intros k [->|Hin']%elem_of_cons; [|by apply Hin].
      exists (JStr value). apply Hkeep. by rewrite lookup_insert_eq.
    + intros k v Hv. apply Hkeep. rewrite lookup_insert_ne; [done|congruence].
    + intros Hj. apply Hok. by apply json_ok_insert.
Qed.

Lemma ends_ask_secrets keys cfg : ends (ask_secrets keys cfg).
Proof.
  revert cfg. induction keys as [|key keys IH]; intros cfg; cbn [ask_secrets]; [auto with ends|].
  apply ends_bind; [auto with ends|]. intros v. apply ends_bind; [case_decide; auto with ends|]. done.
Qed.
Lemma ends_gen_secrets keys cfg : ends (gen_secrets keys cfg).
Proof.
  revert cfg. induction keys as [|key keys IH]; intros cfg; cbn [gen_secrets]; [auto with ends|].
  destruct (cfg !! key); [apply IH|]. apply ends_bind; [auto with ends|]. done.
Qed.
End lemmas.

(** ** Specification *)

(** What the questions after the first boot make of the configuration [m]. *)
Definition captured (m cfg : config) : Prop :=
  lang validDomainRE (cfg_string cfg "domain") /\ lang validEmailRE (cfg_string cfg "alert_email") /\
  cfg_string cfg "cloudflare_api_token" <> "" /\
  (forall k, k ∈ secretKeys -> cfg_string cfg k <> "") /\
  (forall k, k ∈ fileSecretKeys -> is_Some (cfg !! k)) /\
  (forall k v, m !! k = Some v -> k ∉ ["domain"; "alert_email"; "cloudflare_api_token"] ++ secretKeys ->
     cfg !! k = Some v).

(** What is typed: a token, after any number of empty lines; the secrets, a line
    each, which may be blank. *)
Inductive token_typed : string -> string -> string -> Prop :=
| token_given line rest :
    no_char LF line = true -> trim_newline (line +:+ nl) <> "" ->
    token_typed (line +:+ nl +:+ rest) (trim_newline (line +:+ nl)) rest
| token_blank line rest t rest' :
    no_char LF line = true -> trim_newline (line +:+ nl) = "" ->
    token_typed rest t rest' -> token_typed (line +:+ nl +:+ rest) t rest'.

Inductive secrets_typed : list string -> string -> string -> Prop :=
| typed_none s : secrets_typed [] s s
| typed_secret v vs s s' rest :
    asked (MkOptions "" None None true) s (Some v) s' -> secrets_typed vs s' rest -> secrets_typed (v :: vs) s rest.

Record answers := Answers { a_domain : string; a_email : string; a_token : string; a_secrets : list string }.
Definition typed (a : answers) (s rest : string) : Prop := exists s1 s2 s3,
  asked (validated validDomainRE false) s (Some (a_domain a)) s1 /\
  asked (validated validEmailRE false) s1 (Some (a_email a)) s2 /\
  token_typed s2 (a_token a) s3 /\ secrets_typed (a_secrets a) s3 rest /\
  length (a_secrets a) = length secretKeys.

(** The configuration has the answers; what was left blank is generated. *)
Definition secrets_kept (keys values : list string) (cfg : config) : Prop :=
  Forall2 (fun k v => v <> "" -> cfg_string cfg k = v) keys values.
Definition answers_kept (a : answers) (cfg : config) : Prop :=
  cfg_string cfg "domain" = a_domain a /\ cfg_string cfg "alert_email" = a_email a /\
  cfg_string cfg "cloudflare_api_token" = a_token a /\ secrets_kept secretKeys (a_secrets a) cfg.

Section post_boot.
Context {E : Env}.

Lemma GenSecret_console n w r w' : GenSecret n w = (r, w') -> console w' = console w /\ fs w' = fs w.
Proof.
  unfold GenSecret, mbind, ST_bind, wrap, rand_Read. destruct (io_err _); cbn [wrapf]; by intros [= <- <-].
Qed.

Lemma gen_secrets_console keys cfg w r w' : gen_secrets keys cfg w = (r, w') -> console w' = console w /\ fs w' = fs w.
Proof.
  revert cfg w. induction keys as [|key keys IH]; intros cfg w; cbn [gen_secrets]; [by intros [= _ <-]|].
  destruct (cfg !! key); [apply IH|]. unfold mbind, ST_bind.
  destruct (GenSecret 0 w) as [[v|e| |] w1] eqn:Hg; apply GenSecret_console in Hg as [Hc Hf];
    [|by intros [= _ <-]..]. intros Hs. apply IH in Hs as [? ?]. split; congruence.
Qed.

Lemma token_loop_typed gas w t w' :
  token_loop gas w = (Ok t, w') -> token_typed (console w) t (console w').
Proof.
  revert w. induction gas as [|gas IH]; intros w; [done|]. cbn [token_loop].
  intros (v & w1 & (line & Hl & ->)%AskSecret_read & HS)%bind_Ok_inv_st.
  apply read_line_Some in Hl as (l & -> & Hl & ->). rewrite sapp_assoc. case_decide as Hv.
  - apply token_blank; [done|done|by apply IH].
  - injection HS as <- <-. by apply token_given.
Qed.

Lemma ask_secrets_typed keys cfg w cfg' w' : NoDup keys ->
  ask_secrets keys cfg w = (Ok cfg', w') ->
  exists vs, secrets_typed vs (console w) (console w') /\ length vs = length keys /\ secrets_kept keys vs cfg'.
Proof.
  intros Hnd. revert cfg w. induction Hnd as [|key keys Hk Hnd IH]; intros cfg w; cbn [ask_secrets].
  { intros [= <- <-]. exists []. split_and!; [constructor|done|constructor]. }
  intros (v & w1 & Hv & H1)%bind_Ok_inv_st. apply bind_Ok_inv_st in H1 as (value & w2 & Hval & H1).
  pose proof (ask_secrets_ok _ _ _ _ _ H1) as (_ & Hout & _). apply IH in H1 as (vs & Ht & Hl & Hkept).
  exists (v :: vs). split_and!; [|by simpl; rewrite Hl|].
  - econstructor; [by eapply Ask_Ok_asked|]. assert (console w2 = console w1) as <-; [|done].
    case_decide; [by apply GenSecret_console in Hval as [-> _]|by injection Hval as _ <-].
  - constructor; [|done]. intros Hv'. rewrite decide_False in Hval by done. injection Hval as <- _.
    unfold cfg_string. by rewrite Hout, lookup_insert_eq.
Qed.

(** *** With these lines typed, the questions succeed. *)
Section answered.
Context `{!NoFaults}.

Lemma GenSecret_returns n w :
  returns (GenSecret n) (fun v w' => v <> "" /\ console w' = console w /\ fs w' = fs w) w.
Proof.
  eapply returns_mono; [apply (returns_and _ (fun _ _ => True))|].
  - unfold GenSecret. apply returns_bind, returns_wrap. unfold returns, rand_Read. by rewrite no_faults.
  - intros v w' Hg. exact (conj (GenSecret_nonempty _ _ _ _ Hg) (GenSecret_console _ _ _ _ Hg)).
  - by intros v w' [_ Hg].
Qed.

Lemma token_loop_returns gas w t rest : token_typed (console w) t rest -> (slen (console w) < gas)%nat ->
  returns (token_loop gas) (fun v w' => v = t /\ console w' = rest /\ fs w' = fs w) w.
Proof.
  remember (console w) as s eqn:Hs. intros Ht. revert gas w Hs.
  induction Ht as [line rest Hl Hv|line rest t rest' Hl Hv _ IH]; intros [|gas] w Hs Hg; try lia; cbn [token_loop];
    apply returns_bind; (eapply returns_mono; [eapply AskSecret_returns; rewrite <- Hs; by apply read_line_app|]);
    intros v w1 (-> & Hc & Hf).
  - rewrite decide_False by done. by apply returns_ret.
  - rewrite decide_True by done. eapply returns_mono; [apply IH; [done|]|].
    + rewrite !slen_app in Hg. simpl in Hg. lia.
    + intros v' w2 (-> & Hc2 & Hf2). by rewrite Hf2.
Qed.

Lemma ask_secrets_returns keys vs rest cfg w : secrets_typed vs (console w) rest -> length vs = length keys ->
  returns (ask_secrets keys cfg) (fun _ w' => console w' = rest /\ fs w' = fs w) w.
Proof.
  remember (console w) as s eqn:Hs. intros Ht. revert keys cfg w Hs.
  induction Ht as [s|v vs s s' rest Ha _ IH]; intros [|key keys] cfg w Hs Hl; try done; cbn [ask_secrets].
  apply returns_bind. eapply returns_mono; [by apply Ask_returns; rewrite <- Hs|]. intros v' w1 (-> & Hc & Hf).
  apply returns_bind. apply (returns_mono _ (fun _ w2 => console w2 = console w1 /\ fs w2 = fs w1)).
  { case_decide; [|done]. eapply returns_mono; [apply GenSecret_returns|]. by intros ? ? (_ & ?). }
  intros value w2 [Hc2 Hf2]. eapply returns_mono; [apply IH; [congruence|by injection Hl]|].
  intros ? w3 [? Hf3]. split; [done|congruence].
Qed.

Lemma gen_secrets_returns keys cfg w :
  returns (gen_secrets keys cfg) (fun _ w' => console w' = console w /\ fs w' = fs w) w.
Proof.
  revert cfg w. induction keys as [|key keys IH]; intros cfg w; cbn [gen_secrets]; [done|].
  destruct (cfg !! key); [apply IH|]. apply returns_bind. eapply returns_mono; [apply GenSecret_returns|].
  intros v w1 (_ & Hc & Hf). eapply returns_mono; [apply IH|]. intros ? w2 [? ?]. split; congruence.
Qed.

Lemma RunPostBoot_returns store m w :
  stored store (fs w) = Ok (Some m) -> writable store (fs w) = true ->
  cfg_string m "domain" <> "" \/ (exists a rest, typed a (console w) rest) ->
  returns (RunPostBoot store) (fun _ _ => True) w.
Proof.
  intros Hm Hw Hor. unfold RunPostBoot. apply returns_bind. eapply returns_mono; [by apply Load_returns|].
  intros loaded w1 (-> & Hf1 & Hc1). cbv zeta. cbn [default]. case_decide as Hd; [done|].
  destruct Hor as [Hd'|(a & rest & s1 & s2 & s3 & Hdom & Hmail & Htok & Hsec & Hlen)]; [done|].
  apply returns_bind, Banner_returns. intros w2 Hf2 Hc2.
  apply returns_bind. eapply returns_mono; [apply Ask_returns; rewrite Hc2, Hc1; exact Hdom|]. intros d w3 (-> & Hc3 & Hf3).
  apply returns_bind. eapply returns_mono; [apply Ask_returns; rewrite Hc3; exact Hmail|]. intros e w4 (-> & Hc4 & Hf4).
  do 3 apply returns_bind, returns_print. apply returns_bind. unfold st_get at 1, returns at 1.
  apply returns_bind. eapply returns_mono; [apply token_loop_returns; [cbn [console add_log]; rewrite Hc4; exact Htok|lia]|].
  intros t w5 (-> & Hc5 & Hf5). apply returns_bind. eapply returns_lift; [done|].
  do 2 apply returns_bind, returns_print. apply returns_bind.
  eapply returns_mono; [apply returns_and; [eapply ask_secrets_returns; [cbn [console add_log]; rewrite Hc5; exact Hsec|exact Hlen]|]|].
  { intros cfg2 w6 Hs. exact (proj2 (proj2 (ask_secrets_ok _ _ _ _ _ Hs))). }
  cbn beta. intros cfg2 w6 [[Hc6 Hf6] Hj2]. apply returns_bind.
  eapply returns_mono; [apply returns_and; [apply gen_secrets_returns|]|].
  { intros cfg3 w7 Hs. exact (proj2 (proj2 (gen_secrets_ok _ _ _ _ _ Hs))). }
  cbn beta. intros cfg3 w7 [[Hc7 Hf7] Hj3]. apply returns_bind. eapply returns_mono; [apply Save_returns|].
  - apply Hj3, Hj2. repeat apply json_ok_insert; try done. by eapply stored_json_ok.
  - cbn in *. congruence.
  - intros _ w8 _. by apply returns_bind, Banner_returns.
Qed.
End answered.

Lemma asked_validated pattern s v rest : asked (validated pattern false) s (Some v) rest -> lang pattern v.
Proof. intros [[_ [=]]|[_ Hv]]%asked_acceptable. by apply matches_lang. Qed.

Lemma ends_Banner_k {A} text (m : ST World A) : ends m -> ends (_ ← Banner text; m).
Proof. auto with ends. Qed.

Lemma assign_may_panic (X : World -> Prop) kvs cfg w :
  (cfg = None -> X w) -> let '(r, w') := lift (assign kvs cfg) w in
  match r with Ok _ => w' = w | Err _ => True | Panic => X w' | OutOfFuel => False end.
Proof. intros HX. unfold lift. destruct cfg; [done|]. by apply HX. Qed.

(** It panics only when the configuration that it loaded is null. *)
Lemma RunPostBoot_may_panic store w :
  match (RunPostBoot store w).1 with
  | Ok _ | Err _ => True | Panic => (Load store w).1 = Ok None | OutOfFuel => False
  end.
Proof.
  unfold RunPostBoot, mbind at 1, ST_bind at 1. pose proof (ends_Load store w) as Hl.
  destruct (Load store w) as [[loaded|e| |] w1] eqn:Hload; try done. clear Hl. cbn [fst].
  set (X := fun _ : World => Ok loaded = Ok None).
  match goal with |- match (?m w1).1 with _ => _ end =>
    enough (Hg : may_panic X m) by (specialize (Hg w1); by destruct (m w1) as [[]]) end.
  cbv zeta. case_decide; [apply ends_may_panic; auto with ends|].
  do 6 (apply may_panic_bind; [apply ends_may_panic; auto with ends|]; intros ?).
  intros w2. unfold mbind at 1, ST_bind at 1. cbn [st_get].
  unfold mbind at 1, ST_bind at 1. pose proof (token_loop_ok (S (slen (console w2))) w2 ltac:(lia)) as Ht.
  destruct (token_loop _ w2) as [[t|e| |] w3]; try done.
  unfold mbind at 1, ST_bind at 1.
  match goal with |- context [lift (assign ?kvs loaded) w3] =>
    pose proof (assign_may_panic X kvs loaded w3) as Has; destruct (lift (assign kvs loaded) w3) as [[cfg|e| |] w4] end.
  2-4: apply Has; subst X; cbn; congruence.
  match goal with |- let '(_, _) := ?m w4 in _ => enough (Hg : may_panic X m) by exact (Hg w4) end.
  apply ends_may_panic. repeat (apply ends_bind; [auto using ends_ask_secrets, ends_gen_secrets with ends|]; intros ?).
  auto with ends.
Qed.

(** The configuration that the answers and the generated secrets make of [m] *)
Definition filled (a : answers) (m cfg2 cfg : config) : Prop :=
  (forall k, k ∈ secretKeys -> cfg_string cfg2 k <> "") /\ secrets_kept secretKeys (a_secrets a) cfg2 /\
  (forall k, k ∉ secretKeys -> cfg2 !! k = (<["cloudflare_api_token" := JStr (a_token a)]>
      (<["alert_email" := JStr (a_email a)]> (<["domain" := JStr (a_domain a)]> m)) : config) !! k) /\
  (forall k, k ∈ fileSecretKeys -> is_Some (cfg !! k)) /\ (forall k v, cfg2 !! k = Some v -> cfg !! k = Some v).

Lemma RunPostBoot_fills `{!FaultsOk} store w cfg w' :
  RunPostBoot store w = (Ok cfg, w') ->
  exists loaded, stored store (fs w) = Ok loaded /\
  if decide (cfg_string (default ∅ loaded) "domain" <> "") then
    cfg = default ∅ loaded /\ fs w' = fs w /\ console w' = console w
  else exists a cfg2, typed a (console w) (console w') /\ a_token a <> "" /\ filled a (default ∅ loaded) cfg2 cfg /\
  stored store (fs w') = Ok (Some cfg).
Proof.
  unfold RunPostBoot. intros (loaded & w1 & Hload & HS)%bind_Ok_inv_st. exists loaded.
  apply Load_stored in Hload as (Hf & Hc & [[e [=]]|Hload]).
  split; [done|]. cbv zeta in HS. case_decide as Hd.
  { injection HS as <- <-. by split_and!. }
  apply bind_Ok_inv_st in HS as ([] & w2 & Hb%Banner_console & HS).
  apply bind_Ok_inv_st in HS as (domain & w3 & Hdom%Ask_Ok_asked & HS).
  apply bind_Ok_inv_st in HS as (email & w4 & Hmail%Ask_Ok_asked & HS).
  do 3 apply bind_Ok_inv_st in HS as ([] & ? & [= <-] & HS).
  apply bind_Ok_inv_st in HS as (w5 & ? & [= <- <-] & HS).
  apply bind_Ok_inv_st in HS as (token & w6 & Htok & HS).
  match type of Htok with token_loop _ ?v = _ => pose proof (token_loop_ok (S (slen (console v))) v ltac:(lia)) as Ht end.
  rewrite Htok in Ht. apply token_loop_typed in Htok.
  apply bind_Ok_inv_st in HS as (cfg1 & w7 & Has & HS).
  unfold lift in Has. injection Has as Has ->. destruct loaded as [m|]; [|done].
  cbn [default] in *. injection Has as <-.
  do 2 apply bind_Ok_inv_st in HS as ([] & ? & [= <-] & HS).
  apply bind_Ok_inv_st in HS as (cfg2 & w8 & Hask & HS).
  destruct (ask_secrets_typed _ _ _ _ _ secretKeys_nodup Hask) as (vs & Hvs & Hlen & Hkept).
  apply ask_secrets_ok in Hask as (Hin & Hout & Hj2).
  apply bind_Ok_inv_st in HS as (cfg3 & w9 & Hgen & HS).
  pose proof (proj1 (gen_secrets_console _ _ _ _ _ Hgen)) as Hcg. apply gen_secrets_ok in Hgen as (Hin3 & Hkeep & Hj3).
  apply bind_Ok_inv_st in HS as ([] & w10 & Hsave & HS).
  pose proof (Save_console _ _ _ _ _ Hsave) as Hcs.
  apply bind_Ok_inv_st in HS as ([] & w11 & Hban & HS). injection HS as -> ->.
  apply Banner_console in Hban as [Hcb Hfb]. destruct Hb as [Hb _].
  exists (Answers domain email token vs), cfg2. cbn [console fs add_log] in *. split_and!; [|done| |].
  - rewrite Hcb, Hcs, Hcg, <- Hc, <- Hb. exists (console w3), (console w4), (console w7). by split_and!.
  - by split_and!.
  - rewrite Hfb. eapply Save_stored; [|exact Hsave]. symmetry in Hload. apply stored_json_ok in Hload.
    apply Hj3, Hj2. by repeat apply json_ok_insert.
Qed.

Lemma filled_captured a m cfg2 cfg s rest :
  typed a s rest -> a_token a <> "" -> filled a m cfg2 cfg -> captured m cfg /\ answers_kept a cfg.
Proof.
  intros (s1 & s2 & s3 & Hdom%asked_validated & Hmail%asked_validated & _) Htok (Hin & Hvs & Hout & Hin3 & Hkeep).
  assert (Hstr : forall k, cfg_string cfg2 k <> "" -> cfg_string cfg k = cfg_string cfg2 k).
  { intros k. unfold cfg_string. destruct (cfg2 !! k) as [v|] eqn:Hv; [|done]. by rewrite (Hkeep k v Hv). }
  assert (Hkey : forall k v, v <> "" -> k ∉ secretKeys -> cfg2 !! k = Some (JStr v) -> cfg_string cfg k = v).
  { intros k v Hv Hk Hl. rewrite Hstr; unfold cfg_string; by rewrite Hl. }
  assert (Hdne : a_domain a <> "") by (intros He; rewrite He in Hdom; by apply matches_lang in Hdom).
  assert (Hene : a_email a <> "") by (intros He; rewrite He in Hmail; by apply matches_lang in Hmail).
  assert (Hd : cfg_string cfg "domain" = a_domain a).
  { apply Hkey; [done|set_solver|]. rewrite Hout by set_solver. by simplify_map_eq. }
  assert (He : cfg_string cfg "alert_email" = a_email a).
  { apply Hkey; [done|set_solver|]. rewrite Hout by set_solver. by simplify_map_eq. }
  assert (Ht : cfg_string cfg "cloudflare_api_token" = a_token a).
  { apply Hkey; [done|set_solver|]. rewrite Hout by set_solver. by simplify_map_eq. }
  split; split_and!; try congruence.
  - intros k Hk. rewrite Hstr; by apply Hin.
  - done.
  - intros k v Hv [Hk1 Hk2]%not_elem_of_app. apply Hkeep. rewrite Hout by done.
    rewrite !not_elem_of_cons in Hk1. destruct Hk1 as (? & ? & ? & _). by rewrite !lookup_insert_ne.
  - eapply Forall2_impl; [exact Hvs|]. intros k v Hkv Hv. specialize (Hkv Hv).
    rewrite Hstr; [done|]. by rewrite Hkv.
Qed.

Lemma RunPostBoot_ok `{!FaultsOk} store w cfg w' :
  RunPostBoot store w = (Ok cfg, w') ->
  exists loaded, stored store (fs w) = Ok loaded /\
  if decide (cfg_string (default ∅ loaded) "domain" <> "") then
    cfg = default ∅ loaded /\ fs w' = fs w /\ console w' = console w
  else captured (default ∅ loaded) cfg /\ stored store (fs w') = Ok (Some cfg) /\
  exists a, typed a (console w) (console w') /\ answers_kept a cfg.
Proof.
  intros (loaded & Hl & Hor)%RunPostBoot_fills. exists loaded. split; [done|]. case_decide; [done|].
  destruct Hor as (a & cfg2 & Ht & Htok & Hfill & Hst).
  destruct (filled_captured _ _ _ _ _ _ Ht Htok Hfill). eauto.
Qed.
End post_boot.

Section pre_boot.
Context {E : Env}.

Lemma ends_askPassword : ends askPassword.
Proof.
  intros w. unfold askPassword. pose proof (password_loop_ok (S (slen (console w))) w ltac:(lia)) as Hp.
  by destruct (password_loop _ w) as [[]].
Qed.

Lemma ends_writeHostname root h : ends (writeHostname root h).
Proof. unfold writeHostname. cbv zeta. auto 6 with ends. Qed.

Lemma RunPreBoot_may_panic store : may_panic (null_config store) (RunPreBoot store).
Proof.
  unfold RunPreBoot.
  do 8 (apply may_panic_bind; [apply ends_may_panic; auto using ends_askPassword with ends|]; intros ?).
  intros w. unfold mbind at 1, ST_bind at 1. pose proof (ends_Load store w) as Hl.
  destruct (Load store w) as [[loaded|e| |] w1] eqn:Hload; try done. clear Hl.
  unfold mbind at 1, ST_bind at 1.
  match goal with |- context [lift (assign ?kvs loaded) w1] =>
    pose proof (assign_may_panic (null_config store) kvs loaded w1) as Has;
    destruct (lift (assign kvs loaded) w1) as [[cfg|e| |] w2] end.
  2-4: apply Has; intros ->; by eapply Load_null.
  match goal with |- let '(_, _) := ?m w2 in _ =>
    enough (Hg : may_panic (null_config store) m) by exact (Hg w2) end.
  apply ends_may_panic. auto 8 using ends_writeHostname with ends.
Qed.

Lemma RunPreBoot_ok store w cfg w' :
  RunPreBoot store w = (Ok cfg, w') ->
  cfg_string cfg "hostname" <> "" /\ cfg_string cfg "admin_user" <> "" /\
  (cfg_string cfg "admin_pubkey" = "" \/ lang validPubkeyRE (cfg_string cfg "admin_pubkey")) /\
  cfg_string cfg "admin_password" <> "".
Proof.
  unfold RunPreBoot. intros ([] & w1 & _ & HS)%bind_Ok_inv_st.
  apply bind_Ok_inv_st in HS as (hostname & w2 & [Hh _]%Ask_Ok & HS).
  apply bind_Ok_inv_st in HS as (user & w3 & [Hu _]%Ask_Ok & HS).
  apply bind_Ok_inv_st in HS as (key & w4 & [Hk _]%Ask_Ok & HS).
  do 3 apply bind_Ok_inv_st in HS as ([] & ? & _ & HS).
  apply bind_Ok_inv_st in HS as (pass & w5 & Hp & HS).
  apply bind_Ok_inv_st in HS as (loaded & w6 & _ & HS).
  apply bind_Ok_inv_st in HS as (cfg1 & w7 & Has & HS).
  do 3 apply bind_Ok_inv_st in HS as ([] & ? & _ & HS). injection HS as -> ->.
  unfold lift in Has. injection Has as Has _. destruct loaded as [m|]; [|done].
  cbn in Has. injection Has as <-. unfold cfg_string. simplify_map_eq.
  destruct Hh as [[_ [=]]|[Hh _]], Hu as [[_ [=]]|[Hu _]]. split_and!; [done|done| |].
  - destruct Hk as [[-> _]|[_ Hk]]; [by left|right; by apply matches_lang].
  - unfold askPassword in Hp. match type of Hp with password_loop _ ?v = _ =>
      pose proof (password_loop_ok (S (slen (console v))) v ltac:(lia)) as Ho end.
    by rewrite Hp in Ho.
Qed.
End pre_boot.

(** *** The questions only use the console and the configuration. *)
Section quiet.
Context {E : Env} (P : event -> Prop) (HP : forall op args, op <> "touch" -> P (EOS op args)) (Hout : forall s, P (EOut s)).
#[local] Hint Extern 0 (P (EOS _ _)) => apply HP; discriminate : quiet.
#[local] Hint Resolve Hout : quiet.

Lemma quiet_AskSecret label : quiet P (AskSecret label).
Proof using HP Hout.
  assert (Hr : quiet P ReadString).
  { intros w. unfold ReadString. destruct (read_line _) as [[]|]; exists []; by split_and!. }
  unfold AskSecret, ioctl. apply quiet_bind; [auto with quiet|]. intros _.
  do 2 (apply quiet_bind; [auto with quiet|]; intros _). apply quiet_deferred; [|auto with quiet].
  apply quiet_bind; [auto with quiet|]. intros r. apply quiet_bind; [auto with quiet|]. intros _.
  destruct r; auto with quiet.
Qed.

Lemma quiet_askPassword : quiet P askPassword.
Proof using HP Hout.
  intros w. unfold askPassword. generalize (S (slen (console w))). intros gas. revert w.
  change (quiet P (password_loop gas)). induction gas as [|gas IH]; cbn [password_loop]; [auto with quiet|].
  apply quiet_bind; [apply quiet_AskSecret|]. intros p. case_decide.
  - apply quiet_bind; [by apply quiet_GenSecret|]. auto with quiet.
  - apply quiet_bind; [apply quiet_AskSecret|]. intros c. case_decide; auto with quiet.
Qed.

Lemma quiet_RunPreBoot store : quiet P (RunPreBoot store).
Proof using HP Hout.
  unfold RunPreBoot, writeHostname. cbv zeta.
  do 7 (apply quiet_bind; [auto with quiet|]; intros ?).
  apply quiet_bind; [apply quiet_askPassword|]. intros p.
  apply quiet_bind; [by apply quiet_Load|]. intros cfg.
  apply quiet_bind; [auto with quiet|]. intros cfg'.
  apply quiet_bind; [by apply quiet_Save|]. intros _. auto 8 with quiet.
Qed.

Lemma quiet_token_loop gas : quiet P (token_loop gas).
Proof using HP Hout. induction gas as [|gas IH]; cbn [token_loop]; auto using quiet_AskSecret with quiet. Qed.
Lemma quiet_ask_secrets keys cfg : quiet P (ask_secrets keys cfg).
Proof using HP Hout.
  revert cfg. induction keys as [|k keys IH]; intros cfg; cbn [ask_secrets]; [auto with quiet|].
  apply quiet_bind; [auto with quiet|]. intros v. apply quiet_bind; [|auto].
  case_decide; [by apply quiet_GenSecret|auto with quiet].
Qed.
Lemma quiet_gen_secrets keys cfg : quiet P (gen_secrets keys cfg).
Proof using HP Hout.
  revert cfg. induction keys as [|k keys IH]; intros cfg; cbn [gen_secrets]; [auto with quiet|].
  destruct (cfg !! k); [apply IH|]. apply quiet_bind; [by apply quiet_GenSecret|]. auto.
Qed.
Lemma quiet_RunPostBoot store : quiet P (RunPostBoot store).
Proof using HP Hout.
  unfold RunPostBoot. apply quiet_bind; [by apply quiet_Load|]. intros loaded. cbv zeta. case_decide; [auto with quiet|].
  do 7 (apply quiet_bind; [auto with quiet|]; intros ?). apply quiet_bind; [apply quiet_token_loop|]. intros tok.
  do 3 (apply quiet_bind; [auto with quiet|]; intros ?).
  apply quiet_bind; [apply quiet_ask_secrets|]. intros c2. apply quiet_bind; [apply quiet_gen_secrets|]. intros c3.
  apply quiet_bind; [by apply quiet_Save|]. auto with quiet.
Qed.
End quiet.

(** * Properties *)

(** C40: the questions after the first boot always end (they panic only when the
    configuration file holds null), whatever the operating system makes fail; a
    configuration that already has a domain is returned as it is, without a
    question; otherwise, on success, the lines typed are answers to the questions,
    and the returned configuration has each of them (what was left blank being
    generated), with a domain and an address of the right form, a token and every
    secret, keeps everything else, and is what is stored.  Without faults they only
    fail when the configuration cannot be read or written, or when what is typed
    is not such answers. *)
Theorem RunPostBoot_captures `{FaultsOk} store w :
  let '(r, w') := RunPostBoot store w in
  match r with
  | Ok cfg => exists loaded, stored store (fs w) = Ok loaded /\
      if decide (cfg_string (default ∅ loaded) "domain" <> "") then
        cfg = default ∅ loaded /\ fs w' = fs w /\ console w' = console w
      else captured (default ∅ loaded) cfg /\ stored store (fs w') = Ok (Some cfg) /\
        exists a, typed a (console w) (console w') /\ answers_kept a cfg
  | Err _ => NoFaults -> writable store (fs w) = true -> forall m, stored store (fs w) = Ok (Some m) ->
      cfg_string m "domain" = "" /\ forall a rest, ~ typed a (console w) rest
  | Panic => stored store (fs w) = Ok None
  | OutOfFuel => False
  end.
Proof.
  pose proof (RunPostBoot_may_panic store w) as Hp.
  destruct (RunPostBoot store w) as [[cfg|e| |] w'] eqn:Hr; [by apply RunPostBoot_ok| | |done].
  { intros Hnf Hw m Hm. pose proof (RunPostBoot_returns store m w Hm Hw) as Ht. unfold returns in Ht. rewrite Hr in Ht.
    split; [|intros a rest Ha; apply Ht; eauto]. destruct (decide (cfg_string m "domain" = "")); tauto. }
  cbn [fst] in Hp. destruct (Load_stored store w _ _ (surjective_pairing _)) as (_ & _ & [[e He]|Hs]); congruence.
Qed.

(** The questions before the first boot always end (they panic only when the
    configuration file holds null), and on success give a host name, an
    administrator name and a password that are not empty, and a public key that
    is empty or of the right form. *)
Theorem RunPreBoot_captures `{Env} store w :
  let '(r, w') := RunPreBoot store w in
  match r with
  | Ok cfg =>
      cfg_string cfg "hostname" <> "" /\ cfg_string cfg "admin_user" <> "" /\
      (cfg_string cfg "admin_pubkey" = "" \/ lang validPubkeyRE (cfg_string cfg "admin_pubkey")) /\
      cfg_string cfg "admin_password" <> ""
  | Err _ => True
  | Panic => null_config store w'
  | OutOfFuel => False
  end.
Proof.
  pose proof (RunPreBoot_may_panic store w) as Hp.
  destruct (RunPreBoot store w) as [[cfg|e| |] w'] eqn:Hr; try done. by eapply RunPreBoot_ok.
Qed.

(** * Witnesses *)
#[local] Instance console_env : Env :=
  simple_env (fun _ f _ => (NotStarted, f)) (fun _ => HttpError) (fun _ => false).
Definition at_prompt : World := MkWorld {["/etc" := NDir 493 0 0]}
  ("bad domain" +:+ nl +:+ "example.org" +:+ nl +:+ "root@example.org" +:+ nl +:+ nl +:+ "t0k3n" +:+ nl +:+
   nl +:+ nl +:+ nl +:+ nl +:+ "hunter2" +:+ nl) [].

Lemma at_prompt_typed : exists a rest, typed a (console at_prompt) rest.
Proof.
  assert (Hok : match (RunPostBoot (MkStore "") at_prompt).1 with Ok _ => true | _ => false end = true)
    by (vm_compute; reflexivity).
  assert (Hload : stored (MkStore "") (fs at_prompt) = Ok (Some ∅)) by (vm_compute; reflexivity).
  destruct (RunPostBoot (MkStore "") at_prompt) as [[cfg|e| |] w'] eqn:Hr; [|discriminate Hok..].
  apply RunPostBoot_ok in Hr as (loaded & Hl & Hs). rewrite Hload in Hl. injection Hl as <-.
  rewrite decide_False in Hs by (intros Hn; by apply Hn). destruct Hs as (_ & _ & a & Ha & _). eauto.
Qed.

Lemma RunPostBoot_captures_witness :
  exists cfg, (RunPostBoot (MkStore "") at_prompt).1 = Ok cfg /\ captured ∅ cfg /\
    stored (MkStore "") (fs (RunPostBoot (MkStore "") at_prompt).2) = Ok (Some cfg).
Proof.
  assert (Hok : match (RunPostBoot (MkStore "") at_prompt).1 with Ok _ => true | _ => false end = true)
    by (vm_compute; reflexivity).
  assert (Hload : stored (MkStore "") (fs at_prompt) = Ok (Some ∅)) by (vm_compute; reflexivity).
  pose proof (RunPostBoot_captures (MkStore "") at_prompt) as Hs.
  destruct (RunPostBoot (MkStore "") at_prompt) as [[cfg|e| |] w']; try done.
  exists cfg. split; [done|]. destruct Hs as (loaded & Hl & Hs). rewrite Hload in Hl. injection Hl as <-.
  rewrite decide_False in Hs by (intros Hn; by apply Hn).
  destruct Hs as (Hc & Hs & _). split; [exact Hc|exact Hs].
Defined.
