(* ===== verification/Users.v ===== *)
(** The accounts of the target (internal/users/users.go): sysusers definitions and
    the password credential, home directories, the authorized key, storage
    configuration and ownership. *)
From S2P Require Import Prelude Bytes GoStrings World Runx Json Config Regex.

Definition dataSubdirs : list string := ["stalwart"; "vaultwarden"; "garage"; "traefik"; "ente"].

(** ^[a-z_][a-z0-9_-]{0,31}$ *)
Definition name_start (c : ascii) : bool := is_lower c || Ascii.eqb c "_".
Definition name_char (c : ascii) : bool := name_start c || is_digit c || Ascii.eqb c "-".
Definition validUsernameRE : re := Seq (Class name_start) (Upto 31 (Class name_char)).

Definition dq : string := String "034" "".
Definition quoted (s : string) : string := dq +:+ s +:+ dq.

Definition sysusers_conf (adminUser : string) : string :=
  "u " +:+ ServiceUser +:+ " - " +:+ quoted "slfhst service user" +:+ " " +:+ ServiceHomeDir +:+ " /usr/sbin/nologin" +:+ nl +:+
  "u " +:+ adminUser +:+ " - " +:+ quoted "slfhst admin" +:+ " /home/" +:+ adminUser +:+ " /bin/bash" +:+ nl +:+
  "u root 0 " +:+ quoted "Super User" +:+ " /root /bin/bash" +:+ nl +:+
  "m " +:+ adminUser +:+ " wheel" +:+ nl.

Definition storage_conf (svcUID : Z) : string :=
  "[storage]" +:+ nl +:+ "driver = " +:+ quoted "overlay" +:+ nl +:+
  "graphroot = " +:+ quoted "/var/lib/containers/storage" +:+ nl +:+
  "runroot = " +:+ quoted ("/run/user/" +:+ itoa svcUID +:+ "/containers") +:+ nl.

(** The loop of [lookupUser] over the lines of passwd *)
Fixpoint find_user (lines : list string) (username : string) : outcome (Z * Z) :=
  match lines with
  | [] => Err (Errorf "users: user %q not found in %s")
  | line :: lines =>
      match split ":" line with
      | name :: _ :: u :: g :: _ =>
          if decide (name = username) then
            match atoi u, atoi g with
            | Ok uid, Ok gid => Ok (uid, gid)
            | _, _ => Err (Errorf "users: malformed passwd entry for %q in %s")
            end
          else find_user lines username
      | _ => find_user lines username
      end
  end.

Section users.
Context {E : Env}.

Definition SetRootPassword (root password : string) : ST World unit :=
  run_ "users: chpasswd --root: " ["chpasswd"; "--root"; root]
    (with_input ("root:" +:+ password +:+ nl) captured).

Definition writeSysusersConf (root adminUser : string) : ST World unit :=
  let path := path_join [root; "etc/sysusers.d/slfhst.conf"] in
  _ ← wrap "users: mkdir: " (MkdirAll (path_dir path) 493);
  wrap "users: write %s: " (WriteFile path (sysusers_conf adminUser) 420).

Definition runSysusers (root adminUser password : string) : ST World unit :=
  credDir ← wrap "users: create credentials dir: " (MkdirTemp "slfhst-creds-");
  deferred (
    let credPath := path_join [credDir; "passwd.plaintext-password." +:+ adminUser] in
    _ ← wrap "users: write password credential: " (WriteFile credPath password 256);
    run_ "users: systemd-sysusers: " ["systemd-sysusers"; "--root=" +:+ root]
      (with_env ["CREDENTIALS_DIRECTORY=" +:+ credDir] captured))
    (RemoveAll credDir).

Definition lookupUser (root username : string) : ST World (Z * Z) :=
  let path := path_join [root; "etc/passwd"] in
  text ← wrap "users: open %s: " (ReadFile path);
  lift (find_user (scan_lines text) username).

Definition writeAuthorizedKeys (root username : string) (uid gid : Z) (pubkey : string) : ST World unit :=
  let pubkey := trim_space pubkey in
  let sshDir := path_join [root; "home"; username; ".ssh"] in
  _ ← wrap "users: mkdir %s: " (MkdirAll sshDir 448);
  let akPath := path_join [sshDir; "authorized_keys"] in
  r ← try (ReadFile akPath);
  let existing := match r with inl s => s | inr _ => "" end in
  _ ← if contains existing pubkey then mret tt
  else wrap "users: open %s: " (AppendFile akPath (pubkey +:+ nl) 384);
  _ ← Chmod akPath 384;
  _ ← wrap "users: chown %s: " (Chown sshDir uid gid);
  wrap "users: chown %s: " (Chown akPath uid gid).

Definition ensureHomeDir (root username : string) (uid gid : Z) : ST World unit :=
  let home := path_join [root; "home"; username] in
  _ ← wrap "users: mkdir %s: " (MkdirAll home 493);
  wrap "users: chown %s: " (Chown home uid gid).

Definition recursiveChown (root : string) (uid gid : Z) : ST World unit :=
  WalkDir root (fun path => Lchown path uid gid).

Definition ensureContainerStorageDir (root : string) (svcUID svcGID : Z) : ST World unit :=
  let dir := path_join [root; "var/lib/containers"] in
  _ ← wrap "users: mkdir %s: " (MkdirAll dir 493);
  recursiveChown dir svcUID svcGID.

Definition writeRootlessStorageConf (root : string) (svcUID svcGID : Z) : ST World unit :=
  let dir := path_join [root; "home"; ServiceUser; ".config/containers"] in
  _ ← wrap "users: mkdir %s: " (MkdirAll dir 493);
  let path := path_join [dir; "storage.conf"] in
  _ ← wrap "users: write %s: " (WriteFile path (storage_conf svcUID) 420);
  recursiveChown (path_join [root; "home"; ServiceUser; ".config"]) svcUID svcGID.

Definition enableLinger (root : string) : ST World unit :=
  let dir := path_join [root; "var/lib/systemd/linger"] in
  _ ← wrap "users: mkdir %s: " (MkdirAll dir 493);
  let path := path_join [dir; ServiceUser] in
  wrap "users: touch %s: " (TouchFile path 420).

(** The loop of [chownDataDirs] *)
Fixpoint chown_dirs (root : string) (names : list string) (svcUID svcGID : Z) : ST World unit :=
  match names with
  | [] => mret tt
  | name :: names =>
      let dir := path_join [root; DataDir; name] in
      r ← try (Stat dir);
      match r with
      | inr _ => chown_dirs root names svcUID svcGID
      | inl _ =>
          _ ← recursiveChown dir svcUID svcGID;
          chown_dirs root names svcUID svcGID
      end
  end.
Definition chownDataDirs (root : string) (svcUID svcGID : Z) : ST World unit :=
  chown_dirs root dataSubdirs svcUID svcGID.

Definition Create (root : string) (cfg : config) : ST World unit :=
  let adminUser := cfg_string cfg "admin_user" in
  let adminUser := if decide (adminUser = "") then "admin" else adminUser in
  if negb (Regex.matches validUsernameRE adminUser) then lift (Err (Errorf "users: invalid admin_user %q"))
  else
    let password := cfg_string cfg "admin_password" in
    if decide (password = "") then
      lift (Err (Errorf "users: no admin_password in config.json -- wizard step didn't complete"))
    else
      let pubkey := cfg_string cfg "admin_pubkey" in
      _ ← writeSysusersConf root adminUser;
      _ ← runSysusers root adminUser password;
      '(adminUID, adminGID) ← lookupUser root adminUser;
      '(svcUID, svcGID) ← lookupUser root ServiceUser;
      _ ← ensureHomeDir root adminUser adminUID adminGID;
      _ ← ensureHomeDir root ServiceUser svcUID svcGID;
      _ ← (if decide (pubkey <> "") then writeAuthorizedKeys root adminUser adminUID adminGID pubkey else mret tt);
      _ ← ensureContainerStorageDir root svcUID svcGID;
      _ ← writeRootlessStorageConf root svcUID svcGID;
      _ ← enableLinger root;
      _ ← SetRootPassword root password;
      chownDataDirs root svcUID svcGID.
End users.

(** ** Specification *)
Definition admin_of (cfg : config) : string :=
  if decide (cfg_string cfg "admin_user" = "") then "admin" else cfg_string cfg "admin_user".

(** The lines of the sysusers definitions *)
Definition sysusers_lines (user : string) : list string := [
  "u svc - " +:+ quoted "slfhst service user" +:+ " /home/svc /usr/sbin/nologin";
  "u " +:+ user +:+ " - " +:+ quoted "slfhst admin" +:+ " /home/" +:+ user +:+ " /bin/bash";
  "u root 0 " +:+ quoted "Super User" +:+ " /root /bin/bash";
  "m " +:+ user +:+ " wheel"].

(** What the creation of the accounts may do: two commands, whose arguments do not
    depend on the password, and files whose content is the password only for the
    credential. *)
Definition account_event (root user password : string) (e : event) : Prop :=
  match e with
  | EExec argv env input =>
      (argv = ["systemd-sysusers"; "--root=" +:+ root] /\ input = None /\
       exists dir, env = ["CREDENTIALS_DIRECTORY=" +:+ dir]) \/
      (argv = ["chpasswd"; "--root"; root] /\ env = [] /\ input = Some ("root:" +:+ password +:+ nl))
  | EOS op args =>
      (op = "touch" -> args = [path_join [path_join [root; "var/lib/systemd/linger"]; ServiceUser]]) /\
      (op = "write" -> exists path content, args = [path; content] /\
        (content = sysusers_conf user \/ (exists uid, content = storage_conf uid) \/
         (content = password /\ exists dir, path = path_join [dir; "passwd.plaintext-password." +:+ user])))
  | _ => False
  end.

(** ** Lemmas *)
Lemma username_within : within name_char validUsernameRE.
Proof.
  assert (Hs : forall c, name_start c = true -> name_char c = true).
  { intros c Hc. unfold name_char. by rewrite Hc. }
  split; [exact Hs|]. generalize 31%nat. intros n. induction n as [|n IH]; [done|].
  cbn [Upto]. unfold Opt. cbn [within]. split_and!; [done|by intros|exact IH].
Qed.

(** A valid name is one path element and fits in one field of one line. *)
Lemma username_plain user : lang validUsernameRE user ->
  plain_name user = true /\ no_char LF user = true /\ no_char ":" user = true /\ no_char " " user = true.
Proof.
  intros Hu. pose proof (lang_within _ _ _ username_within Hu) as Ha.
  assert (Hn : forall c, name_char c = false -> no_char c user = true).
  { intros c Hc. clear Hu. induction user as [|d u IH]; [done|]. simpl in *.
    apply andb_true_iff in Ha as [Hd Ha]. rewrite IH by done. rewrite andb_true_r.
    destruct (Ascii.eqb_spec d c) as [->|]; [congruence|done]. }
  split; [|by split_and!; apply Hn].
  apply lang_seq_inv in Hu as (s1 & s2 & -> & H1 & _). inversion H1 as [|p c Hc| | | | |]; subst.
  unfold plain_name. rewrite (Hn slash) by done.
  destruct (String.eqb_spec (String c "" +:+ s2) ".") as [He|_]; [injection He as -> _; done|].
  destruct (String.eqb_spec (String c "" +:+ s2) "..") as [He|_]; [injection He as -> _; done|]. done.
Qed.

Lemma sysusers_one_line user : lang validUsernameRE user ->
  text_lines (sysusers_conf user) = sysusers_lines user.
Proof.
  intros (_ & Hu & _ & _)%username_plain.
  assert (Hc : forall p s, no_char LF p = true -> no_char LF s = true -> no_char LF (p +:+ s) = true).
  { intros p s Hp Hs. by rewrite no_char_app, Hp, Hs. }
  assert (Hs : sysusers_conf user = lines_text (sysusers_lines user)).
  { unfold sysusers_conf, sysusers_lines. rewrite !lines_text_cons. unfold quoted. by rewrite !sapp_assoc. }
  rewrite Hs. apply text_lines_text. unfold sysusers_lines.
  repeat constructor; repeat apply Hc; done.
Qed.

Section account_lemmas.
Context {E : Env} (root user password : string).
#[local] Notation P := (account_event root user password).

Lemma account_os op args : op <> "write" -> op <> "touch" -> P (EOS op args).
Proof. by split. Qed.
#[local] Hint Extern 0 (account_event _ _ _ (EOS _ _)) => apply account_os; discriminate : quiet.

Lemma quiet_chown dir uid gid : quiet P (recursiveChown dir uid gid).
Proof.
  unfold recursiveChown, WalkDir. apply quiet_bind; [auto with quiet|]. intros _.
  apply quiet_bind; [auto with quiet|]. intros w. generalize (walk dir (fs w)). intros ps.
  induction ps as [|p ps IH]; cbn [walk_each]; [auto with quiet|].
  apply quiet_bind; [auto with quiet|]. intros _. apply quiet_bind; [auto with quiet|]. intros v.
  apply quiet_bind; [|done]. destruct (fs v !! p) as [[]|]; auto with quiet.
Qed.

Lemma quiet_runSysusers : quiet P (runSysusers root user password).
Proof.
  unfold runSysusers. apply quiet_bind; [apply quiet_wrap, quiet_MkdirTemp; intros ? ? ->; auto with quiet|].
  intros dir. apply quiet_deferred; [|auto with quiet]. cbv zeta. apply quiet_bind.
  - apply quiet_wrap, quiet_io. split; [done|]. intros _. eexists _, _. split; [done|]. right. right. split; [done|by exists dir].
  - intros _. apply quiet_run_; [done|]. left. split_and!; [done|done|by exists dir].
Qed.

Lemma quiet_storage uid gid : quiet P (writeRootlessStorageConf root uid gid).
Proof.
  unfold writeRootlessStorageConf. cbv zeta. apply quiet_bind; [auto with quiet|]. intros _.
  apply quiet_bind; [|intros; apply quiet_chown].
  apply quiet_wrap, quiet_io. split; [done|]. intros _. eexists _, _. split; [done|]. right. left. by exists uid.
Qed.

Lemma quiet_keys uid gid key : quiet P (writeAuthorizedKeys root user uid gid key).
Proof. unfold writeAuthorizedKeys. cbv zeta. auto 12 with quiet. Qed.

Lemma quiet_data names uid gid : quiet P (chown_dirs root names uid gid).
Proof.
  induction names as [|n names IH]; cbn [chown_dirs]; [auto with quiet|]. cbv zeta.
  apply quiet_bind; [auto with quiet|]. intros [|]; [|done].
  apply quiet_bind; [apply quiet_chown|done].
Qed.

Lemma quiet_enableLinger : quiet P (enableLinger root).
Proof.
  unfold enableLinger. cbv zeta. apply quiet_bind; [auto with quiet|]. intros _. apply quiet_wrap, quiet_io. by split.
Qed.

(** The steps of [Create] after the definitions *)
Definition rest_of_create (pubkey : string) : ST World unit :=
  _ ← runSysusers root user password;
  '(adminUID, adminGID) ← lookupUser root user;
  '(svcUID, svcGID) ← lookupUser root ServiceUser;
  _ ← ensureHomeDir root user adminUID adminGID;
  _ ← ensureHomeDir root ServiceUser svcUID svcGID;
  _ ← (if decide (pubkey <> "") then writeAuthorizedKeys root user adminUID adminGID pubkey else mret tt);
  _ ← ensureContainerStorageDir root svcUID svcGID;
  _ ← writeRootlessStorageConf root svcUID svcGID;
  _ ← enableLinger root;
  _ ← SetRootPassword root password;
  chownDataDirs root svcUID svcGID.

Lemma quiet_rest pubkey : quiet P (rest_of_create pubkey).
Proof.
  unfold rest_of_create. apply quiet_bind; [apply quiet_runSysusers|]. intros _.
  do 2 (apply quiet_bind; [unfold lookupUser; auto with quiet|]; intros [? ?]).
  do 2 (apply quiet_bind; [unfold ensureHomeDir; auto with quiet|]; intros _).
  apply quiet_bind; [case_decide; auto using quiet_keys with quiet|]. intros _.
  apply quiet_bind; [unfold ensureContainerStorageDir; auto using quiet_chown with quiet|]. intros _.
  apply quiet_bind; [apply quiet_storage|]. intros _.
  apply quiet_bind; [apply quiet_enableLinger|]. intros _.
  apply quiet_bind; [apply quiet_run_; [done|]; by right|]. intros _. apply quiet_data.
Qed.

Lemma find_user_ends lines name : match find_user lines name with Ok _ | Err _ => True | _ => False end.
Proof.
  induction lines as [|l lines IH]; cbn [find_user]; [done|]. repeat case_match; done.
Qed.

Lemma ends_rest pubkey : ends (rest_of_create pubkey).
Proof.
  assert (Hc : forall dir u g, ends (recursiveChown dir u g)) by (intros; apply ends_WalkDir; auto with ends).
  assert (Hd : forall names u g, ends (chown_dirs root names u g)).
  { intros names u g. induction names as [|n names IH]; cbn [chown_dirs]; [auto with ends|]. cbv zeta.
    apply ends_bind; [auto with ends|]. intros [|]; [|done]. auto with ends. }
  assert (Hu : forall name, ends (lookupUser root name)).
  { intros name. unfold lookupUser. cbv zeta. apply ends_bind; [auto with ends|]. intros text.
    apply ends_lift, find_user_ends. }
  unfold rest_of_create. apply ends_bind; [unfold runSysusers; auto 8 with ends|]. intros _.
  do 2 (apply ends_bind; [apply Hu|]; intros [? ?]).
  do 2 (apply ends_bind; [unfold ensureHomeDir; auto with ends|]; intros _).
  apply ends_bind; [case_decide; unfold writeAuthorizedKeys; cbv zeta; auto 12 with ends|]. intros _.
  apply ends_bind; [unfold ensureContainerStorageDir; auto with ends|]. intros _.
  apply ends_bind; [unfold writeRootlessStorageConf; cbv zeta; auto 6 with ends|]. intros _.
  apply ends_bind; [unfold enableLinger; cbv zeta; auto with ends|]. intros _.
  apply ends_bind; [unfold SetRootPassword; auto with ends|]. intros _. apply Hd.
Qed.
End account_lemmas.

Lemma Create_rest {E : Env} root cfg :
  Create root cfg =
    if negb (Regex.matches validUsernameRE (admin_of cfg)) then lift (Err (Errorf "users: invalid admin_user %q"))
    else if decide (cfg_string cfg "admin_password" = "") then
      lift (Err (Errorf "users: no admin_password in config.json -- wizard step didn't complete"))
    else _ ← writeSysusersConf root (admin_of cfg);
         rest_of_create root (admin_of cfg) (cfg_string cfg "admin_password") (cfg_string cfg "admin_pubkey").
Proof. done. Qed.

Lemma ends_Create {E : Env} root cfg : ends (Create root cfg).
Proof.
  rewrite Create_rest. destruct (negb _); [auto with ends|]. case_decide; [auto with ends|].
  apply ends_bind; [unfold writeSysusersConf; cbv zeta; auto 6 with ends|]. intros _. apply ends_rest.
Qed.

Lemma quiet_Create {E : Env} root cfg :
  quiet (account_event root (admin_of cfg) (cfg_string cfg "admin_password")) (Create root cfg).
Proof.
  rewrite Create_rest. destruct (negb _); [auto with quiet|]. case_decide; [auto with quiet|].
  apply quiet_bind; [|intros _; apply quiet_rest]. unfold writeSysusersConf. cbv zeta.
  apply quiet_bind; [apply quiet_wrap, quiet_io; by apply account_os|]. intros _. apply quiet_wrap, quiet_io.
  split; [done|]. intros _. eexists _, _. split; [done|by left].
Qed.
#[export] Hint Resolve ends_Create : ends.

(** * Properties *)


(** The password does not stay behind: whatever systemd-sysusers does and
    however it ends, after [runSysusers] nothing is left of the credentials
    directory that it made. *)
Theorem runSysusers_removes `{NoFaults} root user password w :
  let name := temp_name (log w) "slfhst-creds-" in
  let dir := entry "/tmp" name in
  plain_name name = true -> is_dir (fs w) "/tmp" = true -> not_link (fs w !! "/tmp") ->
  fs w !! dir = None ->
  forall p, under dir p = true -> fs (runSysusers root user password w).2 !! p = None.
Proof.
  intros name dir Hname Htmp Hlink Hfresh p Hp. unfold runSysusers, mbind at 1, ST_bind at 1, wrap at 1, MkdirTemp.
  destruct (abs_tmp name Hname) as [Hdir Habs]. fold dir in Hdir, Habs. fold name. rewrite Hdir, io_ok.
  pose proof (mkdir_tmp name 448 (fs w) Hname Htmp Hlink Hfresh) as Hmk. fold dir in Hmk. rewrite Hmk.
  cbn [wrapf]. apply deferred_RemoveAll; [cbv zeta; auto with ends|].
  destruct Habs as (-> & _ & _). exact Hp.
Qed.

(** * Witnesses *)

(** systemd-sysusers writes the accounts into passwd. *)
#[local] Instance target_env : Env := simple_env
  (fun _ f c => match c_argv c with
    | "systemd-sysusers" :: _ => (Exited 0 "" "", <["/mnt/etc/passwd" := NFile
        ("svc:x:999:999::/home/svc:/usr/sbin/nologin" +:+ nl +:+ "ana:x:1000:1000::/home/ana:/bin/bash" +:+ nl) 420 0 0]> f)
    | _ => (Exited 0 "" "", f) end)
  (fun _ => HttpError) (fun _ => false).
Definition mounted : World := MkWorld {["/tmp" := NDir 511 0 0; "/mnt" := NDir 493 0 0]} "" [].
Definition ana : config := {["admin_user" := JStr "ana"; "admin_password" := JStr "s3cret"; "admin_pubkey" := JStr "ssh-rsa AAAA"]}.


Lemma runSysusers_removes_witness :
  fs (runSysusers "/mnt" "ana" "s3cret" mounted).2 !! "/tmp/slfhst-creds-1/passwd.plaintext-password.ana" = None.
Proof.
  by apply (runSysusers_removes "/mnt" "ana" "s3cret" mounted).
Defined.
