(* ===== verification/Sshauth.v ===== *)
(** SSH hardening of the target (internal/sshauth/sshauth.go): host keys, the sshd
    and PAM configuration, and the validation in the target's root. *)
From S2P Require Import Prelude Bytes GoStrings World Runx.

Definition faillockDeny : Z := 3.
Definition faillockUnlockTime : Z := 86400.

(** The lines of [sshdConf] and [pamSSHD] *)
Definition sshd_lines : list string := [
  "PasswordAuthentication yes";
  "UsePAM yes";
  "PermitRootLogin no";
  "";
  "MaxAuthTries 3";
  "LoginGraceTime 30";
  "MaxStartups 10:30:60";
  "";
  "ClientAliveInterval 300";
  "ClientAliveCountMax 2";
  "";
  "X11Forwarding no";
  "";
  "Ciphers chacha20-poly1305@openssh.com,aes256-gcm@openssh.com,aes128-gcm@openssh.com,aes256-ctr,aes192-ctr,aes128-ctr";
  "MACs hmac-sha2-512-etm@openssh.com,hmac-sha2-256-etm@openssh.com,umac-128-etm@openssh.com";
  "KexAlgorithms curve25519-sha256,curve25519-sha256@libssh.org,diffie-hellman-group16-sha512,diffie-hellman-group18-sha512,ecdh-sha2-nistp521,ecdh-sha2-nistp384,ecdh-sha2-nistp256";
  "";
  "LogLevel VERBOSE"].
Definition sshdConf : string := lines_text sshd_lines.

Definition pam_lines : list string :=
  let lock := " deny=" +:+ itoa faillockDeny +:+ " unlock_time=" +:+ itoa faillockUnlockTime in [
  "#%PAM-1.0";
  "auth       required                     pam_faillock.so preauth silent" +:+ lock;
  "auth       required                     pam_sepermit.so";
  "auth       required                     pam_unix.so";
  "auth       [default=die]                pam_faillock.so authfail" +:+ lock;
  "auth       required                     pam_faillock.so authsucc" +:+ lock;
  "auth       include      postlogin";
  "account    required     pam_faillock.so";
  "account    required     pam_nologin.so";
  "account    include      password-auth";
  "password   include      password-auth";
  "session    required     pam_selinux.so close";
  "session    required     pam_loginuid.so";
  "session    required     pam_selinux.so open env_params";
  "session    optional     pam_keyinit.so force revoke";
  "session    include      password-auth";
  "session    include      postlogin"].
Definition pamSSHD : string := lines_text pam_lines.

Definition mainSSHDConfig : string := "Include /etc/ssh/sshd_config.d/*.conf" +:+ nl.

Section sshauth.
Context {E : Env}.

Definition GenerateHostKeys (root : string) : ST World unit :=
  let sshDir := path_join [root; "etc/ssh"] in
  _ ← wrap "sshauth: mkdir %s: " (MkdirAll sshDir 493);
  run_ "sshauth: ssh-keygen -A: " ["ssh-keygen"; "-A"; "-f"; root] captured.

Definition writeSSHDConfig (root : string) : ST World unit :=
  let dir := path_join [root; "etc/ssh/sshd_config.d"] in
  _ ← wrap "sshauth: mkdir %s: " (MkdirAll dir 493);
  let path := path_join [dir; "10-slfhst.conf"] in
  _ ← wrap "sshauth: write %s: " (WriteFile path sshdConf 420);
  let mainPath := path_join [root; "etc/ssh/sshd_config"] in
  r ← try (Stat mainPath);
  match r with
  | inl _ => mret tt
  | inr _ => wrap "sshauth: write %s: " (WriteFile mainPath mainSSHDConfig 420)
  end.

Definition writePAMStack (root : string) : ST World unit :=
  let path := path_join [root; "etc/pam.d/sshd"] in
  _ ← wrap "sshauth: mkdir: " (MkdirAll (path_dir path) 493);
  wrap "sshauth: write %s: " (WriteFile path pamSSHD 420).

Definition umount_dev (devPath : string) : ST World unit :=
  _ ← Run ["umount"; devPath] no_options; mret tt.

Definition ValidateSSHDConfig (root : string) : ST World unit :=
  let devPath := path_join [root; "dev"] in
  _ ← wrap "sshauth: mkdir %s: " (MkdirAll devPath 493);
  _ ← run_ "sshauth: bind-mount /dev onto %s: " ["mount"; "--bind"; "/dev"; devPath] no_options;
  deferred (run_ "sshauth: sshd -t failed against %s: " ["sshd"; "-t"] (in_root root captured))
    (umount_dev devPath).

Definition Configure (root : string) : ST World unit :=
  _ ← GenerateHostKeys root;
  _ ← writeSSHDConfig root;
  _ ← writePAMStack root;
  ValidateSSHDConfig root.
End sshauth.

(** ** Specification *)
Definition dev_of (root : string) : string := path_join [root; "dev"].
Definition mount_event (root : string) : event := EExec ["mount"; "--bind"; "/dev"; dev_of root] [] None.
Definition umount_event (root : string) : event := EExec ["umount"; dev_of root] [] None.
Definition sshd_argv (root : string) : list string :=
  if decide (root = "") then ["sshd"; "-t"] else ["chroot"; root; "sshd"; "-t"].

(** What hardening may do: four commands, and three files under the root *)
Definition ssh_event (root : string) (e : event) : Prop :=
  match e with
  | EExec argv env input => env = [] /\ input = None /\
      argv ∈ [["ssh-keygen"; "-A"; "-f"; root]; ["mount"; "--bind"; "/dev"; dev_of root];
              sshd_argv root; ["umount"; dev_of root]]
  | EOS op args => op ∈ ["mkdir"; "stat"] \/
      op = "write" /\ args ∈ [
        [path_join [path_join [root; "etc/ssh/sshd_config.d"]; "10-slfhst.conf"]; sshdConf];
        [path_join [root; "etc/ssh/sshd_config"]; mainSSHDConfig];
        [path_join [root; "etc/pam.d/sshd"]; pamSSHD]]
  | _ => False
  end.

(** ** Lemmas *)
Section lemmas.
Context {E : Env}.
#[local] Hint Extern 0 (ssh_event _ (EOS _ _)) => left; set_solver : quiet.

Lemma quiet_writeSSHDConfig root : quiet (ssh_event root) (writeSSHDConfig root).
Proof.
  unfold writeSSHDConfig. cbv zeta. apply quiet_bind; [auto with quiet|]. intros _.
  apply quiet_bind; [apply quiet_wrap, quiet_io; right; set_solver|]. intros _.
  apply quiet_bind; [auto with quiet|]. intros []; [auto with quiet|].
  apply quiet_wrap, quiet_io. right. set_solver.
Qed.

Lemma quiet_Configure root : quiet (ssh_event root) (Configure root).
Proof.
  unfold Configure, GenerateHostKeys, writePAMStack, ValidateSSHDConfig, umount_dev. cbv zeta.
  apply quiet_bind; [|intros _; apply quiet_bind; [apply quiet_writeSSHDConfig|intros _; apply quiet_bind]].
  - apply quiet_bind; [auto with quiet|]. intros _. apply quiet_run_; [done|]. split_and!; [done|done|left].
  - apply quiet_bind; [auto with quiet|]. intros _. apply quiet_wrap, quiet_io. right. set_solver.
  - intros _. apply quiet_bind; [auto with quiet|]. intros _.
    apply quiet_bind; [apply quiet_run_; [done|]; split_and!; set_solver|]. intros _.
    apply quiet_deferred.
    + apply quiet_run_; [done|]. split_and!; [done|done|]. unfold buildArgv, sshd_argv, in_root. cbn.
      case_decide; set_solver.
    + apply quiet_bind; [|auto with quiet]. apply quiet_Run; [done|]. split_and!; set_solver.
Qed.

Lemma ends_Configure root : ends (Configure root).
Proof.
  unfold Configure, GenerateHostKeys, writeSSHDConfig, writePAMStack, ValidateSSHDConfig, umount_dev. cbv zeta.
  apply ends_bind; [auto with ends|]. intros _.
  apply ends_bind; [apply ends_bind; [auto with ends|]; intros _; apply ends_bind; [auto with ends|];
    intros _; apply ends_bind; [auto with ends|]; intros []; auto with ends|]. intros _.
  auto 12 with ends.
Qed.
End lemmas.

(** * Properties *)

(** C33: the configuration is validated by the target's own sshd, and the bind
    mount this needs does not stay behind: either /dev could not be mounted, and
    nothing else was run, or [sshd -t] was run in the target's root and the mount
    was undone afterwards whatever sshd said, and then the validation succeeds
    exactly when [sshd -t] ended with status 0. *)
Theorem ValidateSSHDConfig_unmounts `{Env} root w :
  let '(r, w') := ValidateSSHDConfig root w in
  let mkdir := EOS "mkdir" [dev_of root] in
  let sshd := EExec (sshd_argv root) [] None in
  ((exists e, r = Err e) /\
     (log w' = mkdir :: log w \/ log w' = mount_event root :: mkdir :: log w)) \/
  (log w' = umount_event root :: sshd :: mount_event root :: mkdir :: log w /\
   exists f f' res, exec (sshd :: mount_event root :: mkdir :: log w) f (Cmd (sshd_argv root) [] None true) = (res, f') /\
     if succeeded res then r = Ok tt else exists e, r = Err e).
Proof.
  unfold ValidateSSHDConfig. cbv zeta. fold (dev_of root).
  unfold mbind at 1, ST_bind at 1, wrap, MkdirAll, io_with. cbn [log add_log].
  destruct (io_err _) as [e|]; cbn [wrapf]. { left; eauto. }
  assert (Hends : match (mkdir_all (dev_of root) 493 (fs (add_log (EOS "mkdir" [dev_of root]) w))).1 with
    Ok _ | Err _ => True | _ => False end) by apply mkdirs_ends.
  destruct (mkdir_all _ _ _) as [[[]|e| |] f]; try done; cbn [wrapf]; [|left; eauto]. clear Hends.
  set (w1 := set_fs _ _). unfold mbind at 1, ST_bind at 1.
  destruct (run__ran "sshauth: bind-mount /dev onto %s: " ["mount"; "--bind"; "/dev"; dev_of root] no_options w1)
    as [e1 ->]; [done|done|].
  unfold ran. set (w2 := add_log _ w1). destruct (exec (log w2) (fs w2) _) as [r2 f2]. cbn [fst snd].
  destruct (succeeded r2); cbv beta iota; [|left; eauto]. unfold deferred. set (w3 := set_fs f2 w2).
  destruct (run__ran "sshauth: sshd -t failed against %s: " ["sshd"; "-t"] (in_root root captured) w3)
    as [e2 ->]; [done|done|].
  unfold ran. assert (buildArgv ["sshd"; "-t"] (in_root root captured) = sshd_argv root) as ->.
  { unfold buildArgv, sshd_argv, in_root. cbn. by case_decide. }
  set (w4 := add_log _ w3). destruct (exec (log w4) (fs w4) _) as [r4 f4] eqn:Hx. cbn [fst snd].
  assert (Hun : log (umount_dev (dev_of root) (set_fs f4 w4)).2 = umount_event root :: log w4).
  { pose proof (Run_log ["umount"; dev_of root] no_options (set_fs f4 w4) ltac:(done)) as Hl.
    unfold umount_dev, mbind, ST_bind. destruct (Run _ _ _) as [[]]; exact Hl. }
  destruct (succeeded r4) eqn:Hs; cbv beta iota; right; (split; [exact Hun|]); exists (fs w4), f4, r4; rewrite Hs; eauto.
Qed.
