(* ===== verification/Deploy.v ===== *)
(** Pulling the images and starting the stack (internal/deploy/deploy.go). *)
From S2P Require Import Prelude Bytes GoStrings World Runx Json Config Regex Quadlet.

(** The submatches of [imageLineRE], (?m)^Image=(\S+), in a text: at most one on a
    line *)
Definition image_of (line : string) : option string :=
  match cut_prefix line "Image=" with
  | Some r => match (span nonspace r).1 with EmptyString => None | image => Some image end
  | None => None
  end.
Definition images_of (data : string) : list string := omap image_of (split LF data).

(** [seen] and [images] *)
Definition add_image (st : gset string * list string) (image : string) : gset string * list string :=
  let '(seen, images) := st in
  if decide (image ∈ seen) then (seen, images) else ({[image]} ∪ seen, images ++ [image]).

Section deploy.
Context {E : Env}.

(** The loop over the .container files *)
Fixpoint read_images (matches : list string) (st : gset string * list string) : ST World (list string) :=
  match matches with
  | [] => mret st.2
  | path :: matches =>
      data ← wrap "deploy: read %s: " (ReadFile path);
      read_images matches (fold_left add_image (images_of data) st)
  end.

(** The loop over the images *)
Fixpoint pull_each (images : list string) : ST World unit :=
  match images with
  | [] => mret tt
  | image :: images =>
      _ ← run_ "deploy: pull %s: " ["podman"; "pull"; image] (as_user ServiceUser no_options);
      pull_each images
  end.

Definition pullImages : ST World unit :=
  matches ← Glob quadletDir ".container";
  images ← read_images matches (∅, []);
  pull_each images.

Definition startStack : ST World unit :=
  run_ "deploy: start slfhst.target: " ["machinectl"; "shell"; ServiceUser +:+ "@";
    "/usr/bin/systemctl"; "--user"; "start"; "slfhst.target"] no_options.

Definition Run (store : Store) : ST World unit :=
  _ ← RequireDone store "stage1";
  _ ← pullImages;
  startStack.
End deploy.

(** ** Specification *)

(** The elements of a list without its repetitions, in order *)
Fixpoint first_occurrences (l : list string) : list string :=
  match l with
  | [] => []
  | x :: l => x :: List.filter (fun y => negb (String.eqb x y)) (first_occurrences l)
  end.

Definition pull_event (image : string) : event :=
  EExec ["runuser"; "-u"; "svc"; "--"; "podman"; "pull"; image] [] None.

(** ** Lemmas *)
Lemma elem_of_first_occurrences x l : x ∈ first_occurrences l <-> x ∈ l.
Proof.
  induction l as [|y l IH]; [done|]. cbn [first_occurrences]. rewrite !elem_of_cons.
  rewrite list_elem_of_In, filter_In, <- list_elem_of_In, IH, negb_true_iff, String.eqb_neq.
  destruct (decide (x = y)); naive_solver.
Qed.

Lemma NoDup_first_occurrences l : NoDup (first_occurrences l).
Proof.
  induction l as [|y l IH]; [constructor|]. cbn [first_occurrences]. constructor.
  - rewrite list_elem_of_In, filter_In, String.eqb_refl. by intros [_ ?].
  - apply NoDup_ListNoDup, List.NoDup_filter. by apply NoDup_ListNoDup.
Qed.

Lemma first_occurrences_snoc l x :
  first_occurrences (l ++ [x]) = first_occurrences l ++ (if decide (x ∈ l) then [] else [x]).
Proof.
  induction l as [|y l IH]; [by rewrite decide_False by apply not_elem_of_nil|]. cbn [first_occurrences app]. rewrite IH, List.filter_app. cbn [app]. f_equal. f_equal.
  destruct (decide (x ∈ l)) as [Hx|Hx].
  - by rewrite decide_True by (by right).
  - cbn [List.filter]. destruct (String.eqb_spec y x) as [->|Hne]; cbn [negb].
    + by rewrite decide_True by left.
    + rewrite decide_False; [done|]. rewrite not_elem_of_cons. split; [congruence|done].
Qed.

(** The loop computes what the reference does. *)
Lemma fold_add_image l : fold_left add_image l (∅, []) = (list_to_set l, first_occurrences l).
Proof.
  induction l as [|x l IH] using rev_ind; [done|]. rewrite fold_left_app, IH. cbn [fold_left add_image].
  rewrite first_occurrences_snoc.
  destruct (decide (x ∈ l)) as [Hx|Hx].
  - rewrite decide_True by (by apply elem_of_list_to_set). rewrite (right_id_L [] (++)). f_equal. set_solver.
  - rewrite decide_False by (by rewrite elem_of_list_to_set). f_equal. set_solver.
Qed.

Section deploy_lemmas.
Context {E : Env}.

(** Reading the files changes nothing and gives their contents. *)
Lemma read_images_ok `{!NoFaults} paths st w images w' :
  read_images paths st w = (Ok images, w') ->
  fs w' = fs w /\ commands (log w') = commands (log w) /\
  exists contents, Forall2 (fun p c => (read_file p (fs w)).1 = Ok c) paths contents /\
  images = (fold_left add_image (mjoin (images_of <$> contents)) st).2.
Proof.
  revert st w. induction paths as [|p paths IH]; intros st w; cbn [read_images].
  { intros [= <- <-]. split_and!; [done|done|]. exists []. split; [constructor|done]. }
  intros (data & w1 & Hr%wrap_Ok_inv & H1)%bind_Ok_inv_st.
  apply io_Ok_inv in Hr as (f & Hr & ->). apply IH in H1 as (Hf & Hc & contents & Hall & ->).
  assert (Hf' : f = fs w) by (unfold read_file in Hr; by injection Hr as _ <-). subst f.
  split_and!; [done|done|]. exists (data :: contents). split.
  - constructor; [by rewrite Hr|done].
  - cbn [fmap list_fmap mjoin list_join]. by rewrite fold_left_app.
Qed.

(** The images are pulled in order up to the first failure. *)
Lemma pull_each_log images w :
  exists k, log (pull_each images w).2 = rev (pull_event <$> take k images) ++ log w /\
  ((pull_each images w).1 = Ok tt -> k = length images).
Proof.
  revert w. induction images as [|image images IH]; intros w; cbn [pull_each].
  { by exists 0%nat. }
  unfold mbind, ST_bind.
  destruct (run__ran "deploy: pull %s: " ["podman"; "pull"; image] (as_user ServiceUser no_options) w)
    as [e ->]; [done|done|].
  assert (Hl : log (ran ["podman"; "pull"; image] (as_user ServiceUser no_options) w).2 = pull_event image :: log w).
  { unfold ran. set (w1 := add_log _ w). by destruct (exec (log w1) (fs w1) _). }
  destruct (succeeded _); cbv beta iota.
  - destruct (IH (ran ["podman"; "pull"; image] (as_user ServiceUser no_options) w).2) as (k & Hk & Hok).
    exists (S k). rewrite Hk, Hl. cbn [take fmap list_fmap rev length]. rewrite <- (assoc_L (++)).
    split; [done|]. intros Hr. by rewrite Hok.
  - exists 1%nat. cbn [fst snd]. split; [exact Hl|done].
Qed.

Lemma ends_pull_each images : ends (pull_each images).
Proof. induction images as [|i images IH]; cbn [pull_each]; auto with ends. Qed.
Lemma ends_read_images paths st : ends (read_images paths st).
Proof. revert st. induction paths as [|p paths IH]; intros st; cbn [read_images]; auto with ends. Qed.
Lemma ends_pullImages : ends pullImages.
Proof. unfold pullImages. auto using ends_pull_each, ends_read_images with ends. Qed.
Lemma ends_Run_deploy store : ends (Run store).
Proof. unfold Run, startStack. auto using ends_pullImages with ends. Qed.

(** It succeeds, when the units can be read. *)
Lemma Run_returns_deploy `{!NoFaults, !Obedient says_no} store w :
  exists_at (fs w) (markerPath store "stage1") = true ->
  (forall p, p ∈ glob quadletDir ".container" (fs w) -> exists c, (read_file p (fs w)).1 = Ok c) ->
  returns (Run store) (fun _ _ => True) w.
Proof.
  intros Hs Hr. unfold Run. apply returns_bind. eapply returns_mono; [by apply RequireDone_returns|]. intros _ w1 [Hf _].
  rewrite <- Hf in Hr. apply returns_bind. unfold pullImages. apply returns_bind. unfold returns at 1, Glob.
  cbn [log add_log fs]. rewrite no_faults. revert Hr. generalize (glob quadletDir ".container" (fs w1)). intros paths Hr.
  apply returns_bind. apply (returns_mono _ (fun _ _ => True)).
  - set (w2 := add_log _ w1). replace (fs w1) with (fs w2) in Hr by done. generalize (∅ : gset string, @nil string). revert Hr.
    generalize w2. induction paths as [|p paths IH]; intros v Hr st; cbn [read_images]; [done|].
    apply returns_bind, returns_wrap, returns_io. destruct (Hr p ltac:(left)) as [c Hc]. unfold returns.
    assert (read_file p (fs v) = (Ok c, fs v)) as -> by (by rewrite <- Hc). apply IH. intros q Hq. apply Hr. by right.
  - intros images w3 _. apply (returns_mono _ (fun _ _ => True)).
    + revert w3. induction images as [|i l IH]; intros v; cbn [pull_each]; [done|].
      apply returns_bind. eapply returns_mono; [by apply (run__returns says_no)|]. intros _ v' _. apply IH.
    + intros _ w4 _. by apply (run__returns says_no).
Qed.
End deploy_lemmas.

(** * Properties *)

(** Every image that a rendered container unit refers to is pulled once: on
    success the commands are the pulls, as the service user, of the distinct
    images of all .container files, in the order in which they first occur. *)
Theorem pullImages_distinct `{NoFaults} w w' :
  pullImages w = (Ok tt, w') ->
  exists contents,
    Forall2 (fun p c => (read_file p (fs w)).1 = Ok c) (glob quadletDir ".container" (fs w)) contents /\
    let images := first_occurrences (mjoin (images_of <$> contents)) in
    commands (log w') = rev (pull_event <$> images) ++ commands (log w) /\
    NoDup images /\ forall i, i ∈ images <-> exists c, c ∈ contents /\ i ∈ images_of c.
Proof.
  unfold pullImages. intros (paths & w1 & Hg & HS)%bind_Ok_inv_st.
  unfold Glob in Hg. cbn in Hg. rewrite no_faults in Hg. injection Hg as <- <-.
  apply bind_Ok_inv_st in HS as (images & w2 & Hr & HS).
  apply read_images_ok in Hr as (Hf & Hc & contents & Hall & ->). cbn [fs add_log] in Hall.
  exists contents. split; [done|]. rewrite fold_add_image in HS. cbn [snd] in HS. cbv zeta.
  set (images := first_occurrences _) in *. split_and!.
  - destruct (pull_each_log images w2) as (k & Hl & Hk). rewrite HS in Hl, Hk. cbn [fst snd] in Hl, Hk.
    rewrite Hk, firstn_all in Hl by done. rewrite Hl. unfold commands. rewrite List.filter_app.
    fold (commands (log w2)). rewrite Hc. cbn. f_equal.
    clear. induction images as [|i images IH] using rev_ind; [done|].
    rewrite fmap_app, rev_app_distr. cbn. by rewrite IH.
  - apply NoDup_first_occurrences.
  - intros i. unfold images. rewrite elem_of_first_occurrences, list_elem_of_join. setoid_rewrite list_elem_of_fmap.
    naive_solver.
Qed.

(** * Witnesses *)
#[local] Instance podman : Env := simple_env (fun _ f _ => (Exited 0 "" "", f)) (fun _ => HttpError) (fun _ => false).
Definition unit_text (s : string) : string := "[Container]" +:+ nl +:+ s +:+ nl.
Definition rendered_units : World :=
  let unit_file s := NFile (unit_text s) 420 0 0 in
  MkWorld {[
    quadletDir := NDir 493 0 0;
    quadletDir +:+ "/a.container" := unit_file "Image=docker.io/a:1 ";
    quadletDir +:+ "/b.container" := unit_file ("Image=docker.io/b:1" +:+ nl +:+ "Image=docker.io/a:1")]} "" [].

Lemma pullImages_distinct_witness :
  commands (log (pullImages rendered_units).2) = rev (pull_event <$> ["docker.io/a:1"; "docker.io/b:1"]) /\
  NoDup ["docker.io/a:1"; "docker.io/b:1"].
Proof.
  assert (Hok : (pullImages rendered_units).1 = Ok tt) by (vm_compute; reflexivity).
  pose proof (pullImages_distinct rendered_units (pullImages rendered_units).2) as Hp.
  destruct (pullImages rendered_units) as [r w'] eqn:Hrun. cbn [fst snd] in *. subst r.
  destruct (Hp eq_refl) as (contents & Hall & Hc & Hn & _).
  assert (Hg : glob quadletDir ".container" (fs rendered_units)
    = [quadletDir +:+ "/a.container"; quadletDir +:+ "/b.container"]) by (vm_compute; reflexivity).
  rewrite Hg in Hall. inversion Hall as [|? c1 ? ? H1 Hall1]; subst. inversion Hall1 as [|? c2 ? ? H2 Hall2]; subst.
  inversion Hall2; subst.
  assert (R1 : (read_file (quadletDir +:+ "/a.container") (fs rendered_units)).1
    = Ok (unit_text "Image=docker.io/a:1 ")) by (vm_compute; reflexivity).
  assert (R2 : (read_file (quadletDir +:+ "/b.container") (fs rendered_units)).1
    = Ok (unit_text ("Image=docker.io/b:1" +:+ nl +:+ "Image=docker.io/a:1"))) by (vm_compute; reflexivity).
  apply (eq_trans (eq_sym R1)) in H1. apply (eq_trans (eq_sym R2)) in H2. injection H1 as <-. injection H2 as <-.
  split; [exact Hc|exact Hn].
Defined.
