(* ===== verification/Healthcheck.v ===== *)
(** The final check and the login banner (internal/healthcheck/healthcheck.go). *)
From S2P Require Import Prelude Bytes GoStrings World Runx Json Config Dnscf Bus Sysupdate Firewall Monitor.

Definition motdFile : string := "/etc/motd.d/slfhst.motd".
Definition motd (domain : string) : string := lines_text [
  "slfhst -- self-hosted mail + photos/auth/locker + vault";
  "";
  "  Mail:   https://mail." +:+ domain;
  "  Vault:  https://vault." +:+ domain;
  "  Photos: https://photos." +:+ domain;
  "  Auth:   https://auth." +:+ domain;
  "  Locker: https://locker." +:+ domain].

(** The loop over the statuses, in the order [range] takes *)
Definition not_active (statuses : list (string * string)) : list string :=
  omap (fun '(name, status) => if String.eqb status "active" then None else Some (name +:+ "=" +:+ status)) statuses.

Definition all_active_line : string := "healthcheck: all app services active" +:+ nl.
Definition inactive_line (l : list string) : string :=
  "warning: healthcheck: not all app services are active yet: [" +:+ join " " l +:+ "]" +:+ nl.

Section healthcheck.
Context {E : Env}.

Definition writeMOTD (cfg : config) : ST World unit :=
  let domain := cfg_string cfg "domain" in
  _ ← wrap "healthcheck: mkdir %s: " (MkdirAll (path_dir motdFile) 493);
  wrap "healthcheck: write %s: " (WriteFile motdFile (motd domain) 420).

Definition Run (store : Store) : ST World unit :=
  _ ← RequireDone store "stage1";
  cfg ← Load store;
  statuses ← ServiceStatus;
  w ← st_get;
  let notActive := not_active (range_files (log w) statuses) in
  _ ← Print_out (if decide (notActive = []) then all_active_line else inactive_line notActive);
  writeMOTD (default ∅ cfg).
End healthcheck.

(** ** Lemmas *)
Section lemmas.
Context {E : Env}.

Lemma status_loop_dom names out w m w' :
  status_loop names out w = (Ok m, w') ->
  forall n, is_Some (m !! n) <-> n ∈ names \/ is_Some (out !! n).
Proof.
  revert out w. induction names as [|name names IH]; intros out w; cbn [status_loop].
  { intros [= <- _] n. rewrite elem_of_nil. tauto. }
  intros (r & w1 & _ & H1)%bind_Ok_inv_st n. cbv zeta in H1. rewrite (IH _ _ H1 n), elem_of_cons.
  rewrite lookup_insert_is_Some. destruct (decide (name = n)); naive_solver.
Qed.

(** No service is listed exactly when each is active. *)
Lemma not_active_nil `{!RangeOk} w m w' l :
  ServiceStatus w = (Ok m, w') ->
  not_active (range_files l m) = [] <-> Forall (fun x => active x.2) (service_answers appServices w).1.
Proof.
  intros Hs. pose proof (ServiceStatus_answers w) as Ha.
  destruct (service_answers appServices w) as [answers w1]. destruct Ha as (m' & Hm' & ->).
  rewrite Hs in Hm'. injection Hm' as <- _. rewrite service_issues_nil.
  pose proof (status_loop_dom _ _ _ _ _ Hs) as Hdom.
  assert (Hn : not_active (range_files l m) = [] <-> forall n s, m !! n = Some s -> s = "active").
  { unfold not_active. split.
    - intros Ho n s Hns%elem_of_map_to_list. rewrite <- (range_files_perm l) in Hns.
      destruct (String.eqb_spec s "active") as [|Hne]; [done|]. exfalso.
      assert (Hin : n +:+ "=" +:+ s ∈ []); [|by apply elem_of_nil in Hin].
      rewrite <- Ho. apply list_elem_of_omap. exists (n, s). split; [done|].
      by destruct (String.eqb_spec s "active").
    - intros Ho. destruct (omap _ _) as [|x l'] eqn:Hl; [done|]. exfalso.
      assert (Hin : x ∈ x :: l') by left. rewrite <- Hl in Hin.
      apply list_elem_of_omap in Hin as ([n s] & Hns & Hx). rewrite range_files_perm in Hns.
      apply elem_of_map_to_list, Ho in Hns as ->. done. }
  rewrite Hn. unfold status_in. split.
  - intros Hall n Hin. destruct (proj2 (Hdom n) (or_introl Hin)) as [s Hs']. rewrite Hs'. by apply (Hall n).
  - intros Hall n s Hns. assert (Hin : n ∈ appServices).
    { destruct (proj1 (Hdom n) (mk_is_Some _ _ Hns)) as [|[? ?]]; [done|]. by rewrite lookup_empty in *. }
    specialize (Hall n Hin). by rewrite Hns in Hall.
Qed.

Lemma ServiceStatus_Ok w : exists m w', ServiceStatus w = (Ok m, w').
Proof.
  pose proof (ServiceStatus_answers w) as Hs. destruct (service_answers _ _) as [l w'].
  destruct Hs as (m & Hm & _). eauto.
Qed.
Lemma ends_Run_healthcheck store : ends (Run store).
Proof.
  unfold Run, writeMOTD. cbv zeta. apply ends_bind; [auto with ends|]. intros _.
  apply ends_bind; [auto with ends|]. intros cfg. apply ends_bind; [apply ends_ServiceStatus|]. auto 8 with ends.
Qed.
End lemmas.

(** * Properties *)

(** The last step of setup warns but does not fail when services are not up:
    with stage 1 done and a readable configuration it says that all services are
    active exactly when [systemctl] reports each of them so, whatever the order
    in which the map is visited, then in both cases writes the banner for the
    configured domain. *)
Theorem Run_checks `{NoFaults, !RangeOk} store w w1 cfg w2 :
  IsDone store "stage1" w = (Ok true, w1) -> Load store w1 = (Ok cfg, w2) ->
  let '(answers, w3) := service_answers appServices w2 in
  exists line, Run store w = writeMOTD (default ∅ cfg) (add_log (EOut line) w3) /\
    (line = all_active_line <-> Forall (fun x => active x.2) answers).
Proof.
  intros Hd Hl. destruct (ServiceStatus_Ok w2) as (m & w3 & Hs).
  pose proof (ServiceStatus_answers w2) as Ha.
  pose proof (not_active_nil w2 m w3 (log w3) Hs) as Hn.
  destruct (service_answers appServices w2) as [answers w3']. destruct Ha as (m' & Hm' & _).
  rewrite Hs in Hm'. injection Hm' as <- <-. cbn [fst] in Hn.
  unfold Run, RequireDone. rewrite (bind_Ok_st _ _ _ tt w1) by (by rewrite (bind_Ok_st _ _ _ _ _ Hd)).
  rewrite (bind_Ok_st _ _ _ _ _ Hl), (bind_Ok_st _ _ _ _ _ Hs), (bind_Ok_st _ _ _ w3 w3) by done.
  eexists. split; [reflexivity|]. rewrite <- Hn. case_decide as Hz; [by rewrite Hz|].
  split; [done|]. intros Hz'. by rewrite Hz' in Hz.
Qed.

(** * Witnesses *)
#[local] Instance calm : Env := simple_env (fun _ f _ => (Exited 0 ("active" +:+ nl) "", f))
  (fun _ => HttpError) (fun _ => false).
Definition ready : World := MkWorld {[
  "/var/lib/slfhst/stage1.done" := NFile "" 420 0 0;
  "/etc/slfhst/config.json" := NFile (marshal_indent (JObj {["domain" := JStr "example.org"]})) 384 0 0]} "" [].

Lemma Run_checks_witness :
  exists line, Run (MkStore "") ready
    = writeMOTD {["domain" := JStr "example.org"]} (add_log (EOut line)
        (service_answers appServices (Load (MkStore "") (IsDone (MkStore "") "stage1" ready).2).2).2) /\
    line = all_active_line.
Proof.
  assert (Hd : IsDone (MkStore "") "stage1" ready = (Ok true, (IsDone (MkStore "") "stage1" ready).2)) by reflexivity.
  assert (Hl : Load (MkStore "") (IsDone (MkStore "") "stage1" ready).2
    = (Ok (Some {["domain" := JStr "example.org"]}), (Load (MkStore "") (IsDone (MkStore "") "stage1" ready).2).2))
    by reflexivity.
  pose proof (Run_checks (MkStore "") ready _ _ _ Hd Hl) as Hr.
  assert (Ha : Forall (fun x => active x.2) (service_answers appServices (Load (MkStore "") (IsDone (MkStore "") "stage1" ready).2).2).1)
    by (repeat constructor).
  destruct (service_answers appServices _) as [answers w3]. cbn [fst snd] in *.
  destruct Hr as (line & Hr & Hi). exists line. split; [exact Hr|]. by apply Hi.
Defined.
