(* ===== verification/Backing.v ===== *)
(** Bootstrap of the backing services (internal/backing/backing.go): polling with
    a deadline, the layout, bucket and key of Garage, the hardening plan of
    Stalwart. *)
From S2P Require Import Prelude Bytes GoStrings World Runx Json Config.

Definition garageBucket : string := "ente".
Definition garageKeyName : string := "museum".
Definition stalwartCLIImage : string := "docker.io/stalwartlabs/cli:1.0.12".
Definition stalwartPlanDir : string := path_join [DataDir; "stalwart"; "slfhst-plan"].
Definition second : Z := 1000000000.

(** [garageCapacityAt], from the available blocks (uint64) and the block size
    (int64) *)
Definition capacity_of (bavail bsize : Z) : string :=
  let freeBytes := to_unsigned 64 (bavail * to_unsigned 64 bsize) in
  let gb := 1024 * 1024 * 1024 in
  let freeGB := to_signed 64 (freeBytes / gb) - 5 in
  let freeGB := if freeGB <? 5 then 5 else freeGB in
  itoa freeGB +:+ "G".

(** The operations of [stalwartHardeningPlan] *)
Definition num (z : Z) : json := JNum (itoa z).
Definition rate (count period : Z) : json := JObj {["count" := num count; "period" := num period]}.
Definition throttle (description : string) (count period : Z) : json := JObj {[
  "enable" := JBool true; "description" := JStr description;
  "key" := JArr [JStr "remoteIp"];
  "match" := JObj {["match" := JArr []; "else" := JStr "true"]};
  "rate" := rate count period]}.
Definition settings_op (mailHost : string) : json :=
  JObj {["@type" := JStr "update"; "object" := JStr "SystemSettings"; "id" := JStr "singleton";
         "value" := JObj {["defaultHostname" := JStr mailHost]}]}.
Definition stalwartHardeningPlan (mailHost : string) : list json := [
  settings_op mailHost;
  JObj {["@type" := JStr "update"; "object" := JStr "Security"; "id" := JStr "singleton";
         "value" := JObj {[
           "authBanRate" := rate 5 120000;
           "authBanPeriod" := num 3600000;
           "abuseBanRate" := rate 3 60000;
           "abuseBanPeriod" := num 3600000]}]};
  JObj {["@type" := JStr "upsert"; "object" := JStr "MtaInboundThrottle"; "matchOn" := JArr [JStr "description"];
         "value" := JObj {[
           "slfhst_ip_burst" := throttle "slfhst: remote IP burst" 20 60000;
           "slfhst_ip_sustained" := throttle "slfhst: remote IP sustained" 300 3600000]}]}].
Definition plan_text (mailHost : string) : string := lines_text (marshal <$> stalwartHardeningPlan mailHost).

Definition already_assigned (layout : string) : bool :=
  negb (contains layout "NO ROLE ASSIGNED") && contains layout "==== HEALTHY NODES ====" &&
  contains (to_lower layout) "capacity".

Section backing.
Context {E : Env}.

Definition podmanExecGarage (container : string) (args : list string) : ST World string :=
  RunChecked (["podman"; "exec"; container; "garage"] ++ args) (as_user ServiceUser no_options).

(** The polling loops: an attempt either is final, or is repeated after a pause
    until the deadline has passed. *)
Fixpoint poll {A B} (gas : nat) (attempt : ST World (A + B)) (deadline pause : Z) (late : B -> ST World A)
    : ST World A :=
  match gas with
  | O => lift OutOfFuel
  | S gas =>
      r ← attempt;
      match r with
      | inl a => mret a
      | inr b =>
          t ← Now;
          if deadline <? t then late b
          else
            _ ← Sleep pause;
            poll gas attempt deadline pause late
      end
  end.
(** [deadline := time.Now().Add(timeout)] and the loop: every turn but the last
    sleeps for [pause], so the timeout bounds their number. *)
Definition poll_until {A B} (attempt : ST World (A + B)) (timeout pause : Z) (late : B -> ST World A) : ST World A :=
  t ← Now;
  poll (S (S (Z.to_nat (timeout / pause)))) attempt (t + timeout) pause late.

Definition ready_argv (container : string) : list string := ["podman"; "exec"; container; "true"].
Definition wait_result (r : Result + error) : unit + error :=
  match r with inl _ => inl tt | inr e => inr e end.
Definition waitFor (container : string) (timeout : Z) : ST World unit :=
  poll_until
    (r ← try (Run (ready_argv container) (unchecked (as_user ServiceUser captured)));
      mret (wait_result r))
    timeout (2 * second)
    (fun _ => lift (Err (Errorf "backing: %s did not become ready within %s"))).

Definition garageCapacityAt (dir : string) : ST World string :=
  '(bavail, bsize) ← wrap "backing: statfs %s: " (Statfs dir);
  mret (capacity_of bavail bsize).
Definition garageCapacity : ST World string := garageCapacityAt (path_join [DataDir; "garage"]).

Definition BootstrapGarage : ST World unit :=
  _ ← waitFor "garage" (120 * second);
  layout ← wrap "backing: garage layout show: " (podmanExecGarage "garage" ["layout"; "show"]);
  _ ← (if already_assigned layout then mret tt
    else
      nodeID ← wrap "backing: garage node id: " (podmanExecGarage "garage" ["node"; "id"; "-q"]);
      let nodeID := trim_space nodeID in
      capacity ← garageCapacity;
      _ ← wrap "backing: garage layout assign: "
        (podmanExecGarage "garage" ["layout"; "assign"; "-z"; "dc1"; "-c"; capacity; nodeID]);
      _ ← wrap "backing: garage layout apply: "
        (podmanExecGarage "garage" ["layout"; "apply"; "--version"; "1"]);
      mret tt);
  buckets ← wrap "backing: garage bucket list: " (podmanExecGarage "garage" ["bucket"; "list"]);
  _ ← (if contains buckets garageBucket then mret tt
    else
      _ ← wrap "backing: garage bucket create: " (podmanExecGarage "garage" ["bucket"; "create"; garageBucket]);
      mret tt);
  keys ← wrap "backing: garage key list: " (podmanExecGarage "garage" ["key"; "list"]);
  if contains keys garageKeyName then mret tt
  else
    _ ← wrap "backing: garage key create: " (podmanExecGarage "garage" ["key"; "create"; garageKeyName]);
    _ ← wrap "backing: garage bucket allow: " (podmanExecGarage "garage"
        ["bucket"; "allow"; "--read"; "--write"; "--owner"; garageBucket; "--key"; garageKeyName]);
    mret tt.

Definition WaitForPostgres : ST World unit := waitFor "postgres" (120 * second).

Definition apply_argv (password : string) : list string := [
  "podman"; "run"; "--rm"; "--network"; "slfhst";
  "-v"; stalwartPlanDir +:+ ":/work:Z"; "-w"; "/work";
  "-e"; "STALWART_URL=http://stalwart:8080";
  "-e"; "STALWART_USER=admin";
  "-e"; "STALWART_PASSWORD=" +:+ password;
  stalwartCLIImage; "apply"; "--file"; "plan.ndjson"].

(** One turn of the loop of [HardenStalwart]; what is kept is [res.Stderr]. *)
Definition apply_result (r : Result + error) : unit + string :=
  match r with
  | inl res => if decide (ExitCode res = 0) then inl tt else inr (Stderr res)
  | inr _ => inr ""
  end.
Definition apply_once (password : string) : ST World (unit + string) :=
  r ← try (Run (apply_argv password) (unchecked (as_user ServiceUser captured)));
  mret (apply_result r).
Definition gave_up (stderr : string) : string :=
  "warning: backing: stalwart-cli apply did not succeed within 2m, giving up (last stderr: " +:+ stderr +:+ ")" +:+ nl.

Definition HardenStalwart (cfg : config) : ST World unit :=
  _ ← waitFor "stalwart" (120 * second);
  let password := cfg_string cfg "stalwart_admin_password" in
  if decide (password = "") then
    Print_out ("warning: backing: no stalwart_admin_password in config, skipping hardening" +:+ nl)
  else
    let mailHost := "mail." +:+ cfg_string cfg "domain" in
    _ ← wrap "backing: mkdir %s: " (MkdirAll stalwartPlanDir 493);
    let planPath := path_join [stalwartPlanDir; "plan.ndjson"] in
    _ ← wrap "backing: write %s: " (WriteFile planPath (plan_text mailHost) 420);
    poll_until (apply_once password) (120 * second) (5 * second) (fun stderr => Print_out (gave_up stderr)).

Definition Run (store : Store) : ST World unit :=
  _ ← RequireDone store "stage1";
  cfg ← Load store;
  _ ← WaitForPostgres;
  _ ← BootstrapGarage;
  HardenStalwart (default ∅ cfg).
End backing.

(** ** Lemmas: polling ends *)
Section clock.
Context {E : Env} {Hc : ClockOk}.

Lemma now_app new l : now l <= now (new ++ l).
Proof. induction new as [|e new IH]; cbn; [lia|]. pose proof (clock_mono e (new ++ l)). lia. Qed.

(** A log only grows. *)
Definition grows {A} (m : ST World A) : Prop := quiet (fun _ => True) m.
Lemma grows_now {A} (m : ST World A) w : grows m -> now (log w) <= now (log (m w).2).
Proof.
  intros Hm. specialize (Hm w). destruct (m w) as [r w']. destruct Hm as (new & Hl & _). cbn [snd]. rewrite Hl. apply now_app.
Qed.

Lemma poll_S {A B} gas (attempt : ST World (A + B)) deadline pause late w :
  poll (S gas) attempt deadline pause late w =
    match attempt w with
    | (Ok (inl a), w1) => (Ok a, w1)
    | (Ok (inr b), w1) =>
        let w2 := add_log (EOS "now" []) w1 in
        if deadline <? now (log w2) then late b w2
        else poll gas attempt deadline pause late (add_log (ESleep pause) w2)
    | (Err e, w1) => (Err e, w1)
    | (Panic, w1) => (Panic, w1)
    | (OutOfFuel, w1) => (OutOfFuel, w1)
    end.
Proof.
  cbn [poll]. unfold mbind at 1, ST_bind at 1. destruct (attempt w) as [[[a|b]| | |] w1]; try done.
  unfold mbind at 1, ST_bind at 1, Now, net. cbv zeta. by destruct (_ <? _).
Qed.

(** What holds of every way to leave the loop holds of the loop, given turns
    enough for the time that is left. *)
Lemma poll_spec {A B} (Fin : outcome A -> World -> Prop) (attempt : ST World (A + B)) deadline pause late :
  0 < pause ->
  (forall w, let '(r, w') := attempt w in
    match r with
    | Ok (inl a) => Fin (Ok a) w'
    | Ok (inr b) => now (log w) <= now (log w') /\
        let w' := add_log (EOS "now" []) w' in
        (deadline < now (log w') -> Fin (late b w').1 (late b w').2)
    | _ => False
    end) ->
  forall gas w, deadline - now (log w) < pause * Z.of_nat gas ->
  Fin (poll (S gas) attempt deadline pause late w).1 (poll (S gas) attempt deadline pause late w).2.
Proof.
  intros Hp Ha gas. induction gas as [|gas IH]; intros w Hg; rewrite poll_S; specialize (Ha w) as Hw;
    destruct (attempt w) as [[[a|b]| | |] w1]; try done; destruct Hw as [Hmono Hlate]; cbv zeta in *;
    pose proof (clock_mono (EOS "now" []) (log w1)) as Hn; cbn [log add_log] in *;
    (destruct (Z.ltb_spec deadline (now (EOS "now" [] :: log w1))); [by apply Hlate|]).
  - lia.
  - apply IH. cbn [log add_log]. pose proof (clock_sleep pause (EOS "now" [] :: log w1)). lia.
Qed.

Lemma poll_until_spec {A B} (Fin : outcome A -> World -> Prop) (attempt : ST World (A + B)) timeout pause late w :
  0 < pause -> 0 <= timeout ->
  (forall v, let '(r, w') := attempt v in
    match r with
    | Ok (inl a) => Fin (Ok a) w'
    | Ok (inr b) => now (log v) <= now (log w') /\
        let w' := add_log (EOS "now" []) w' in
        (now (EOS "now" [] :: log w) + timeout < now (log w') -> Fin (late b w').1 (late b w').2)
    | _ => False
    end) ->
  Fin (poll_until attempt timeout pause late w).1 (poll_until attempt timeout pause late w).2.
Proof.
  intros Hp Ht Ha. unfold poll_until, mbind, ST_bind, Now, net. cbv zeta. cbn [log add_log].
  apply poll_spec; [done|exact Ha|]. cbn [log add_log].
  assert (timeout < pause * (timeout / pause + 1)).
  { pose proof (Z.mod_pos_bound timeout pause Hp). pose proof (Z.div_mod timeout pause). lia. }
  pose proof (Z.div_pos timeout pause Ht Hp). lia.
Qed.

Lemma ends_poll_until {A B} (attempt : ST World (A + B)) timeout pause late :
  0 < pause -> 0 <= timeout -> grows attempt ->
  (forall w, match (attempt w).1 with Ok _ => True | _ => False end) -> (forall b, ends (late b)) ->
  ends (poll_until attempt timeout pause late).
Proof.
  intros Hp Ht Hg Ha Hl w.
  apply (poll_until_spec (fun r _ => match r with Ok _ | Err _ => True | _ => False end)); [done|done|].
  intros v. pose proof (grows_now attempt v Hg) as Hn. specialize (Ha v).
  destruct (attempt v) as [[[a|b]| | |] w1]; try done. split; [exact Hn|]. cbv zeta. intros _. apply Hl.
Qed.
End clock.

Section services.
Context {E : Env}.
#[local] Notation any_event := (fun _ : event => True).
#[local] Hint Extern 0 True => exact I : quiet.

Lemma grows_try_Run {A} argv opts (k : Result + error -> A) :
  argv <> [] -> grows (r ← try (Runx.Run argv opts); mret (k r)).
Proof. intros Hne. apply quiet_bind; [by apply quiet_try, quiet_Run|auto with quiet]. Qed.

(** An attempt is one command, whatever becomes of it. *)
Lemma try_Run {A} argv opts (k : Result + error -> A) w :
  argv <> [] -> exists r, (r ← try (Runx.Run argv opts); mret (k r)) w = (Ok (k r), (ran argv opts w).2) /\
  match (ran argv opts w).1 with
  | NotStarted => exists e, r = inr e
  | Exited code out err =>
      if decide (code = 0 \/ NoCheck opts = true)
      then r = inl (if Capture opts then MkResult out err code else MkResult "" "" code)
      else exists e, r = inr e
  end.
Proof.
  intros Hne. unfold mbind, ST_bind, try. rewrite Run_ran by done.
  destruct (ran argv opts w) as [[|code out err] w1]; cbn [fst snd]; [eauto|].
  destruct (NoCheck opts); repeat case_decide; destruct (Capture opts); naive_solver.
Qed.

Lemma ends_waitFor `{!ClockOk} container timeout : 0 <= timeout -> ends (waitFor container timeout).
Proof.
  intros Ht. apply ends_poll_until; [done|done|by apply grows_try_Run| |auto with ends].
  intros w. by destruct (try_Run (ready_argv container) (unchecked (as_user ServiceUser captured)) wait_result w) as (r & -> & _).
Qed.

Lemma grows_apply password : grows (apply_once password).
Proof. by apply grows_try_Run. Qed.

Lemma ends_HardenStalwart `{!ClockOk} cfg : ends (HardenStalwart cfg).
Proof.
  unfold HardenStalwart. apply ends_bind; [by apply ends_waitFor|]. intros _. cbv zeta.
  case_decide; [auto with ends|]. apply ends_bind; [auto with ends|]. intros _.
  apply ends_bind; [auto with ends|]. intros _. apply ends_poll_until; [done|done|apply grows_apply| |auto with ends].
  intros w. unfold apply_once. by destruct (try_Run (apply_argv (cfg_string cfg "stalwart_admin_password"))
    (unchecked (as_user ServiceUser captured)) apply_result w) as (r & -> & _).
Qed.

Lemma ends_podmanExecGarage container args : ends (podmanExecGarage container args).
Proof. unfold podmanExecGarage. auto with ends. Qed.
#[local] Hint Resolve ends_podmanExecGarage : ends.

Lemma ends_garageCapacity : ends garageCapacity.
Proof. unfold garageCapacity, garageCapacityAt. apply ends_bind; [auto with ends|]. intros []. auto with ends. Qed.
#[local] Hint Resolve ends_garageCapacity : ends.

Lemma ends_BootstrapGarage `{!ClockOk} : ends BootstrapGarage.
Proof. unfold BootstrapGarage. cbv zeta. apply ends_bind; [by apply ends_waitFor|]. auto 20 with ends. Qed.

Lemma ends_Run_backing `{!ClockOk} store : ends (Run store).
Proof.
  unfold Run. apply ends_bind; [auto with ends|]. intros _. apply ends_bind; [auto with ends|]. intros cfg.
  apply ends_bind; [by apply ends_waitFor|]. intros _.
  apply ends_bind; [apply ends_BootstrapGarage|]. intros _. apply ends_HardenStalwart.
Qed.

(** *** They succeed, when the commands do.  The hardening is given up without an
    error. *)
Context (free : list string -> bool) `{!Obedient free}.

Lemma waitFor_returns container timeout w : returns (waitFor container timeout) (fun _ _ => True) w.
Proof using Type*.
  unfold waitFor, poll_until. apply returns_bind, returns_net. cbn [poll]. apply returns_bind, returns_bind, returns_try.
  eapply returns_mono; [apply (Run_returns free); [done|by left]|]. done.
Qed.

Lemma podmanExecGarage_returns container args w :
  (forall argv, free ("runuser" :: "-u" :: "svc" :: "--" :: "podman" :: "exec" :: argv) = false) ->
  returns (podmanExecGarage container args) (fun _ _ => True) w.
Proof using Type*. intros Hf. apply (RunChecked_returns free); [done|]. right. apply Hf. Qed.

Lemma BootstrapGarage_returns w :
  (forall argv, free ("runuser" :: "-u" :: "svc" :: "--" :: "podman" :: "exec" :: argv) = false) ->
  (forall l p, statfs l p <> None) -> returns BootstrapGarage (fun _ _ => True) w.
Proof using Type*.
  intros Hf Hs. assert (Hg : forall fmt args v, returns (wrap fmt (podmanExecGarage "garage" args)) (fun _ _ => True) v)
    by (intros; by apply returns_wrap, podmanExecGarage_returns).
  assert (Hret : forall v, returns (mret tt : ST World unit) (fun _ _ => True) v) by done.
  unfold BootstrapGarage. apply returns_bind. eapply returns_mono; [apply waitFor_returns|]. intros _ w1 _.
  apply returns_bind. eapply returns_mono; [apply Hg|]. intros layout w2 _. apply returns_bind.
  apply (returns_mono _ (fun _ _ => True)).
  { destruct (already_assigned layout); [done|]. apply returns_bind. eapply returns_mono; [apply Hg|]. intros nodeID w3 _.
    cbv zeta. apply returns_bind. unfold garageCapacity, garageCapacityAt. apply returns_bind, returns_wrap. unfold returns at 1, Statfs.
    cbn [log add_log]. destruct (statfs _ _) as [[bavail bsize]|] eqn:He; [|by apply Hs in He]. apply returns_ret.
    do 2 (apply returns_bind; eapply returns_mono; [apply Hg|]; intros ? ? _). done. }
  intros _ w3 _. apply returns_bind. eapply returns_mono; [apply Hg|]. intros buckets w4 _. apply returns_bind.
  apply (returns_mono _ (fun _ _ => True)).
  { destruct (contains buckets garageBucket); [done|]. apply returns_bind. by eapply returns_mono; [apply Hg|]. }
  intros _ w5 _. apply returns_bind. eapply returns_mono; [apply Hg|]. intros keys w6 _.
  destruct (contains keys garageKeyName); [done|].
  do 2 (apply returns_bind; eapply returns_mono; [apply Hg|]; intros ? ? _). done.
Qed.

Lemma apply_returns `{!ClockOk} password w :
  returns (poll_until (apply_once password) (120 * second) (5 * second) (fun stderr => Print_out (gave_up stderr))) (fun _ _ => True) w.
Proof.
  pose proof (poll_until_spec (fun r _ => match r with Ok _ => True | _ => False end)
    (apply_once password) (120 * second) (5 * second) (fun stderr => Print_out (gave_up stderr)) w) as Hp.
  unfold returns. destruct (poll_until _ _ _ _ w) as [[]]; try done; apply Hp; try done; intros v;
    pose proof (grows_now (apply_once password) v (grows_apply password)) as Hn; unfold apply_once in *;
    destruct (try_Run (apply_argv password) (unchecked (as_user ServiceUser captured)) apply_result v ltac:(done)) as (r & Hr & _);
    rewrite Hr in *; by destruct (apply_result r).
Qed.
End services.

(** *** What polling logs *)
Section quiet.
Context {E : Env} (P : event -> Prop) (Hnow : P (EOS "now" [])) (Hsleep : forall d, P (ESleep d)).

Lemma quiet_poll_until {A B} (attempt : ST World (A + B)) timeout pause late :
  quiet P attempt -> (forall b, quiet P (late b)) -> quiet P (poll_until attempt timeout pause late).
Proof using Hnow Hsleep.
  intros Ha Hl. unfold poll_until. apply quiet_bind; [by apply quiet_net|]. intros t.
  generalize (S (S (Z.to_nat (timeout / pause)))). intros gas.
  induction gas as [|gas IH]; cbn [poll]; [auto with quiet|].
  apply quiet_bind; [done|]. intros [a|b]; [auto with quiet|].
  apply quiet_bind; [by apply quiet_net|]. intros t'. case_match; [done|].
  apply quiet_bind; [by apply quiet_net|done].
Qed.

Lemma quiet_waitFor container timeout :
  P (EExec (["runuser"; "-u"; "svc"; "--"] ++ ready_argv container) [] None) -> quiet P (waitFor container timeout).
Proof using Hnow Hsleep.
  intros HP. apply quiet_poll_until; [|auto with quiet].
  apply quiet_bind; [by apply quiet_try, quiet_Run|auto with quiet].
Qed.
End quiet.

(** [waitFor] does not look at the status of the command: it returns as soon as
    podman can be started, whether or not the container is there. *)
Lemma waitFor_any_status `{Env} container timeout w code out err :
  (ran (ready_argv container) (unchecked (as_user ServiceUser captured)) (add_log (EOS "now" []) w)).1 = Exited code out err ->
  (waitFor container timeout w).1 = Ok tt.
Proof.
  intros Hr. unfold waitFor, poll_until, mbind at 1, ST_bind at 1, Now, net. cbv zeta. rewrite poll_S.
  destruct (try_Run (ready_argv container) (unchecked (as_user ServiceUser captured)) wait_result
    (add_log (EOS "now" []) w)) as (r & -> & Hres); [done|].
  rewrite Hr in Hres. rewrite decide_True in Hres by (by right). by subst r.
Qed.

(** ** Specification of the Garage bootstrap *)
Definition garage_event (args : list string) : event :=
  EExec (["runuser"; "-u"; "svc"; "--"; "podman"; "exec"; "garage"; "garage"] ++ args) [] None.

Section plan.
Context {E : Env}.

(** [answered args out h]: asked after [h], Garage ends with status 0 and prints
    [out]. *)
Definition answered (args : list string) (out : string) (h : list event) : Prop :=
  exists f f' err, exec (garage_event args :: h) f
    (Cmd (["runuser"; "-u"; "svc"; "--"; "podman"; "exec"; "garage"; "garage"] ++ args) [] None true)
    = (Exited 0 out err, f').

(** A sequence of Garage commands and what each answered, between two logs *)
Inductive session : list (list string * string) -> list event -> list event -> Prop :=
| session_nil h : session [] h h
| session_cmd args out l h h' :
  answered args out h -> session l (garage_event args :: h) h' -> session ((args, out) :: l) h h'
| session_statfs p l h h' : session l (EOS "statfs" [p] :: h) h' -> session l h h'.

Lemma session_app l1 l2 h h1 h2 : session l1 h h1 -> session l2 h1 h2 -> session (l1 ++ l2) h h2.
Proof. induction 1; intros H2; [done|by apply session_cmd; auto|by eapply session_statfs; auto]. Qed.

Lemma Garage_session fmt args w out w' :
  wrap fmt (podmanExecGarage "garage" args) w = (Ok out, w') -> session [(args, out)] (log w) (log w').
Proof.
  intros H%wrap_Ok_inv. unfold podmanExecGarage, RunChecked in H.
  apply bind_Ok_inv_st in H as (res & w1 & H1 & [= <- <-]). rewrite Run_ran in H1 by done.
  unfold ran in H1. set (w2 := add_log _ w) in H1.
  destruct (exec (log w2) (fs w2) _) as [[|code o err] f] eqn:Hx; [done|].
  destruct (decide (code = 0)) as [->|]; [|done]. injection H1 as <- <-.
  apply session_cmd; [|apply session_nil]. by exists (fs w2), f, err.
Qed.

(** The capacity comes from the free space of Garage's directory. *)
Definition from_statfs (capacity : string) : Prop := exists l bavail bsize,
  statfs l (path_join [DataDir; "garage"]) = Some (bavail, bsize) /\ capacity = capacity_of bavail bsize.

Lemma capacity_session w cap w' :
  garageCapacity w = (Ok cap, w') -> from_statfs cap /\ session [] (log w) (log w').
Proof.
  unfold garageCapacity, garageCapacityAt. intros ([a b] & w1 & Hs%wrap_Ok_inv & [= <- <-])%bind_Ok_inv_st.
  unfold Statfs in Hs. cbn in Hs. destruct (statfs _ _) as [[]|] eqn:Hst; [|done]. injection Hs as -> -> <-.
  split; [by eexists _, _, _|]. eapply session_statfs, session_nil.
Qed.

(** What the bootstrap asks, given what it learns *)
Definition bootstrap (layout nodeID capacity buckets keys : string) (o : nat -> string) : list (list string * string) :=
  [(["layout"; "show"], layout)] ++
  (if already_assigned layout then [] else [
    (["node"; "id"; "-q"], nodeID);
    (["layout"; "assign"; "-z"; "dc1"; "-c"; capacity; trim_space nodeID], o 0%nat);
    (["layout"; "apply"; "--version"; "1"], o 1%nat)]) ++
  [(["bucket"; "list"], buckets)] ++
  (if contains buckets garageBucket then [] else [(["bucket"; "create"; garageBucket], o 2%nat)]) ++
  [(["key"; "list"], keys)] ++
  (if contains keys garageKeyName then [] else [
    (["key"; "create"; garageKeyName], o 3%nat);
    (["bucket"; "allow"; "--read"; "--write"; "--owner"; garageBucket; "--key"; garageKeyName], o 4%nat)]).
(** The commands that assign the layout *)
Lemma layout_session w w' :
  (nodeID ← wrap "backing: garage node id: " (podmanExecGarage "garage" ["node"; "id"; "-q"]);
    let nodeID := trim_space nodeID in
    capacity ← garageCapacity;
    _ ← wrap "backing: garage layout assign: "
      (podmanExecGarage "garage" ["layout"; "assign"; "-z"; "dc1"; "-c"; capacity; nodeID]);
    _ ← wrap "backing: garage layout apply: "
      (podmanExecGarage "garage" ["layout"; "apply"; "--version"; "1"]);
    mret tt) w = (Ok tt, w') ->
  exists nodeID capacity o1 o2, from_statfs capacity /\
  session [(["node"; "id"; "-q"], nodeID);
    (["layout"; "assign"; "-z"; "dc1"; "-c"; capacity; trim_space nodeID], o1);
    (["layout"; "apply"; "--version"; "1"], o2)] (log w) (log w').
Proof.
  intros (nodeID & w1 & H1%Garage_session & H)%bind_Ok_inv_st.
  apply bind_Ok_inv_st in H as (cap & w2 & [Hcap H2]%capacity_session & H).
  apply bind_Ok_inv_st in H as (o1 & w3 & H3%Garage_session & H).
  apply bind_Ok_inv_st in H as (o2 & w4 & H4%Garage_session & [= <-]).
  exists nodeID, cap, o1, o2. split; [done|].
  exact (session_app _ _ _ _ _ H1 (session_app _ _ _ _ _ H2 (session_app _ _ _ _ _ H3 H4))).
Qed.
End plan.

(** ** Specification of the hardening *)
Definition service_argv (password : string) : list string := ["runuser"; "-u"; "svc"; "--"] ++ apply_argv password.
Definition apply_event (password : string) : event := EExec (service_argv password) [] None.

(** [applies_at l password]: run after [l], the client ends with status 0. *)
Definition applies_at `{Env} (l : list event) (f : FS) (password : string) : Prop :=
  exists out err f', exec (apply_event password :: l) f (Cmd (service_argv password) [] None true) = (Exited 0 out err, f').

(** *** The retries succeed once the client can *)
Lemma apply_eventually `{Env, !ClockOk} password w D T :
  (forall l, now (apply_event password :: l) <= now l + D /\ now (EOS "now" [] :: l) <= now l + D) ->
  (forall l f, T <= now l -> applies_at l f password) ->
  T + 2 * D <= now (log w) + 120 * second ->
  let '(r, w') := poll_until (apply_once password) (120 * second) (5 * second) (fun stderr => Print_out (gave_up stderr)) w in
  r = Ok tt /\ exists l f, log w' = apply_event password :: l /\ applies_at l f password.
Proof.
  intros Hd Ht HT.
  pose proof (poll_until_spec (fun r w' => r = Ok tt /\ exists l f, log w' = apply_event password :: l /\
    applies_at l f password) (apply_once password) (120 * second) (5 * second)
    (fun stderr => Print_out (gave_up stderr)) w) as Hs.
  destruct (poll_until _ _ _ _ w) as [r w']. cbn [fst snd] in Hs. apply Hs; [done|done|]. clear Hs. intros v.
  pose proof (grows_now (apply_once password) v (grows_apply password)) as Hgrow.
  destruct (try_Run (apply_argv password) (unchecked (as_user ServiceUser captured)) apply_result v) as (o & Ho & Hres);
    [done|]. unfold apply_once in Hgrow |- *. rewrite Ho in Hgrow |- *. cbn [snd] in Hgrow. unfold ran in *.
  set (v1 := add_log _ v) in *. change (log v1) with (apply_event password :: log v) in *.
  destruct (exec (apply_event password :: log v) (fs v1) _) as [res f'] eqn:Hx. cbn [fst snd] in *.
  destruct (Z.le_gt_cases T (now (log v))) as [Hle|Hgt].
  - destruct (Ht (log v) (fs v1) Hle) as (out & err & f2 & Hex).
    pose proof (eq_trans (eq_sym Hx) Hex) as [= -> ->].
    rewrite decide_True in Hres by auto. subst o. split; [done|].
    exists (log v), (fs v1). split; [done|]. by exists out, err, f2.
  - destruct (apply_result o) as [[]|stderr] eqn:Ha.
    + split; [done|]. exists (log v), (fs v1). split; [done|].
      destruct res as [|code out err]; [destruct Hres as [e ->]; done|].
      rewrite decide_True in Hres by (right; done). subst o. cbn in Ha.
      destruct (decide (code = 0)) as [->|]; [|done]. by exists out, err, f'.
    + split; [exact Hgrow|]. cbv zeta. cbn [log add_log set_fs]. intros Hlate. exfalso.
      pose proof (Hd (log v)) as [H1 _]. pose proof (Hd (apply_event password :: log v)) as [_ H2].
      pose proof (clock_mono (EOS "now" []) (log w)). cbn [log set_fs add_log] in Hlate.
      change (log v1) with (apply_event password :: log v) in Hlate. lia.
Qed.

(** ** Lemmas: the hardening plan *)
Lemma plan_ok mailHost : Forall (fun v => json_ok v = true) (stalwartHardeningPlan mailHost).
Proof. repeat constructor; by vm_compute. Qed.

Lemma plan_one_line mailHost :
  Forall (fun l => no_char LF l = true) (marshal <$> stalwartHardeningPlan mailHost).
Proof.
  apply Forall_fmap. eapply Forall_impl; [apply plan_ok|]. intros v Hv. by apply no_ctl_char, no_ctl_marshal.
Qed.

(** * Properties *)

(** C29: the bootstrap of Garage is complete and idempotent: once the container is
    up, a successful run asks for the layout, the buckets and the keys, and in
    between exactly what is missing: a layout for this node (with a capacity
    computed from the free space), the bucket, the key and its rights; when they
    exist, nothing is changed.  It ends, without a panic, and it succeeds when
    commands do and the free space can be read. *)
Theorem BootstrapGarage_session `{Env} w :
  let '(r, w') := BootstrapGarage w in
  (r = Ok tt -> exists w1 layout nodeID capacity buckets keys o,
    waitFor "garage" (120 * second) w = (Ok tt, w1) /\
    session (bootstrap layout nodeID capacity buckets keys o) (log w1) (log w') /\
    (already_assigned layout = false -> from_statfs capacity)) /\
  (ClockOk -> fine r) /\
  (Obedient (fun _ => false) -> (forall l p, statfs l p <> None) -> r = Ok tt).
Proof.
  destruct (BootstrapGarage w) as [r w'] eqn:Heq. split_and!.
  2: { intros Hc. pose proof (ends_BootstrapGarage w) as He. by rewrite Heq in He. }
  2: { intros Ho Hs. pose proof (BootstrapGarage_returns (fun _ => false) w (fun _ => eq_refl) Hs) as Hret.
       unfold returns in Hret. rewrite Heq in Hret. by destruct r as [[]| | |]. }
  intros ->. revert Heq. unfold BootstrapGarage. intros ([] & w1 & Hw & HS)%bind_Ok_inv_st.
  apply bind_Ok_inv_st in HS as (layout & w2 & H1%Garage_session & HS).
  apply bind_Ok_inv_st in HS as ([] & w3 & H2 & HS).
  apply bind_Ok_inv_st in HS as (buckets & w4 & H3%Garage_session & HS).
  apply bind_Ok_inv_st in HS as ([] & w5 & H4 & HS).
  apply bind_Ok_inv_st in HS as (keys & w6 & H5%Garage_session & HS).
  assert (exists nodeID capacity o0 o1, (already_assigned layout = false -> from_statfs capacity) /\
    session (if already_assigned layout then [] else [(["node"; "id"; "-q"], nodeID);
      (["layout"; "assign"; "-z"; "dc1"; "-c"; capacity; trim_space nodeID], o0);
      (["layout"; "apply"; "--version"; "1"], o1)]) (log w2) (log w3)) as (nodeID & capacity & o0 & o1 & Hcap & H2').
  { destruct (already_assigned layout).
    - injection H2 as <-. exists "", "", "", "". split; [done|apply session_nil].
    - apply layout_session in H2 as (n & c & o0 & o1 & Hc & H2). by exists n, c, o0, o1. }
  assert (exists o2, session (if contains buckets garageBucket then [] else [(["bucket"; "create"; garageBucket], o2)])
    (log w4) (log w5)) as [o2 H4'].
  { destruct (contains buckets garageBucket).
    - injection H4 as <-. exists "". apply session_nil.
    - apply bind_Ok_inv_st in H4 as (o2 & v & H4%Garage_session & [= <-]). by exists o2. }
  assert (exists o3 o4, session (if contains keys garageKeyName then [] else [
    (["key"; "create"; garageKeyName], o3);
    (["bucket"; "allow"; "--read"; "--write"; "--owner"; garageBucket; "--key"; garageKeyName], o4)])
    (log w6) (log w')) as (o3 & o4 & H6).
  { destruct (contains keys garageKeyName).
    - injection HS as <-. exists "", "". apply session_nil.
    - apply bind_Ok_inv_st in HS as (o3 & v1 & H6%Garage_session & HS).
      apply bind_Ok_inv_st in HS as (o4 & v2 & H7%Garage_session & [= <-]).
      exists o3, o4. exact (session_app _ _ _ _ _ H6 H7). }
  exists w1, layout, nodeID, capacity, buckets, keys, (fun n => nth n [o0; o1; o2; o3; o4] "").
  split_and!; [done| |done]. unfold bootstrap. cbn [nth].
  repeat (eapply session_app; [eassumption|]). exact H6.
Qed.

(** The plan file is the plan, one operation per line: whatever the
    configured domain holds, its lines are read back as exactly the three
    operations, with the mail host as a string in the first. *)
Theorem plan_text_roundtrip mailHost :
  map_outcome unmarshal (text_lines (plan_text mailHost)) = Ok (stalwartHardeningPlan mailHost).
Proof.
  unfold plan_text. rewrite text_lines_text by apply plan_one_line.
  pose proof (plan_ok mailHost) as Hok. induction Hok as [|v l Hv _ IH]; [done|].
  cbn [fmap list_fmap map_outcome]. pose proof (unmarshal_print None v "" Hv eq_refl I) as Hu.
  rewrite sapp_nil_r in Hu. fold (marshal v) in Hu. rewrite Hu. cbn [mbind outcome_bind]. by rewrite IH.
Qed.

(** C30: the capacity that is announced never wraps around: it is at least 5 GiB
    and below 2^34 GiB whatever the kernel reports, and as long as the free space
    in bytes fits 64 bits it is the free space less 5 GiB (or 5 GiB when that is
    less), so when it is above the minimum 5 GiB of head room are left. *)
Theorem garageCapacityAt_bounds `{Env} dir w :
  match (garageCapacityAt dir w).1 with
  | Ok s => exists bavail bsize n, statfs (EOS "statfs" [dir] :: log w) dir = Some (bavail, bsize) /\
      s = itoa n +:+ "G" /\ 5 <= n <= 2 ^ 34 - 6 /\
      (0 <= bsize < 2 ^ 63 -> 0 <= bavail * bsize < 2 ^ 64 ->
         n = Z.max 5 (bavail * bsize / 2 ^ 30 - 5) /\ (5 < n -> (n + 5) * 2 ^ 30 <= bavail * bsize))
  | Err _ => statfs (EOS "statfs" [dir] :: log w) dir = None
  | _ => False
  end.
Proof.
  unfold garageCapacityAt, mbind, ST_bind, wrap, Statfs. cbn [log add_log].
  destruct (statfs _ dir) as [[bavail bsize]|]; [|done]. cbn [wrapf fst mret ST_ret]. unfold capacity_of.
  set (free := to_unsigned 64 (bavail * to_unsigned 64 bsize)).
  assert (Hf : 0 <= free < 2 ^ 64) by (apply Z.mod_pos_bound; lia).
  assert (Hq : 0 <= free / (1024 * 1024 * 1024) <= 2 ^ 34 - 1).
  { change (1024 * 1024 * 1024) with (2 ^ 30). pose proof (Z.div_pos free (2 ^ 30)).
    pose proof (Z.div_lt_upper_bound free (2 ^ 30) (2 ^ 34)). lia. }
  cbv zeta. assert (to_signed 64 (free / (1024 * 1024 * 1024)) = free / (1024 * 1024 * 1024)) as ->.
  { unfold to_signed. destruct (Z.ltb_spec (free / (1024 * 1024 * 1024)) (2 ^ (64 - 1))); lia. }
  exists bavail, bsize, (if free / (1024 * 1024 * 1024) - 5 <? 5 then 5 else free / (1024 * 1024 * 1024) - 5).
  split_and!; [done|done|destruct (Z.ltb_spec (free / (1024 * 1024 * 1024) - 5) 5); lia..|].
  intros Hb Hs. assert (free = bavail * bsize) as ->.
  { subst free. unfold to_unsigned. by rewrite (Z.mod_small bsize), Z.mod_small by lia. }
  change (1024 * 1024 * 1024) with (2 ^ 30) in *.
  pose proof (Z.mul_div_le (bavail * bsize) (2 ^ 30)).
  destruct (Z.ltb_spec (bavail * bsize / 2 ^ 30 - 5) 5); lia.
Qed.

(** C17: the hardening is applied as soon as it can be: when each command and clock
    reading takes at most [D], and the client succeeds from some time [T] on, early
    enough before the two minutes are over, then [HardenStalwart] always ends, and
    it either fails before the client was run once (no container, or no plan
    file), or ends with a run of the client that succeeded. *)
Theorem HardenStalwart_eventually `{Env, !ClockOk} cfg w D T :
  let password := cfg_string cfg "stalwart_admin_password" in
  password <> "" ->
  (forall l, now (apply_event password :: l) <= now l + D /\ now (EOS "now" [] :: l) <= now l + D) ->
  (forall l f, T <= now l -> applies_at l f password) ->
  T + 2 * D <= now (log w) + 120 * second ->
  let '(r, w') := HardenStalwart cfg w in
  (exists e new, r = Err e /\ log w' = new ++ log w /\ apply_event password ∉ new) \/
  (r = Ok tt /\ exists l f, log w' = apply_event password :: l /\ applies_at l f password).
Proof.
  intros password Hne Hd Ht HT. unfold HardenStalwart. fold password.
  set (before := (_ ← waitFor "stalwart" (120 * second);
    _ ← wrap "backing: mkdir %s: " (MkdirAll stalwartPlanDir 493);
    wrap "backing: write %s: " (WriteFile (path_join [stalwartPlanDir; "plan.ndjson"])
      (plan_text ("mail." +:+ cfg_string cfg "domain")) 420) : ST World unit)).
  set (retry := poll_until _ _ _ _).
  assert (Hsplit : (_ ← waitFor "stalwart" (120 * second);
    if decide (password = "") then
      Print_out ("warning: backing: no stalwart_admin_password in config, skipping hardening" +:+ nl)
    else
      let mailHost := "mail." +:+ cfg_string cfg "domain" in
      _ ← wrap "backing: mkdir %s: " (MkdirAll stalwartPlanDir 493);
      let planPath := path_join [stalwartPlanDir; "plan.ndjson"] in
      _ ← wrap "backing: write %s: " (WriteFile planPath (plan_text mailHost) 420);
      retry : ST World unit) w = (_ ← before; retry) w).
  { rewrite decide_False by done. unfold before, mbind, ST_bind.
    destruct (waitFor _ _ w) as [[[]|e| |] w1]; try done.
    destruct (wrap _ _ w1) as [[[]|e| |] w2]; done. }
  cbv zeta in *. rewrite Hsplit. unfold mbind, ST_bind. clear Hsplit.
  assert (Hends : ends before).
  { unfold before. apply ends_bind; [by apply ends_waitFor|]. auto with ends. }
  assert (Hq : quiet (fun e => e <> apply_event password) before).
  { unfold before. apply quiet_bind; [by apply quiet_waitFor|]. auto 6 with quiet. }
  specialize (Hends w). specialize (Hq w). destruct (before w) as [[[]|e| |] w1]; try done.
  - destruct Hq as (new & Hl & _). pose proof (now_app new (log w)).
    pose proof (apply_eventually password w1 D T Hd Ht ltac:(rewrite Hl; lia)) as Hr. fold retry in Hr.
    destruct (retry w1) as [r w']. by right.
  - left. destruct Hq as (new & Hl & Hf & _). exists e, new. split_and!; [done|done|].
    rewrite Forall_forall in Hf. intros Hin. by apply (Hf _ Hin).
Qed.

(** * Witnesses *)

(** A fresh Garage, whose directory has 100 GiB free *)
#[local] Instance fresh_garage : Env := {|
  io_err := fun _ => None; io_part := fun _ => None;
  exec := fun _ f c => (Exited 0 (match c_argv c with
    | [_; _; _; _; _; _; _; _; "layout"; "show"] => "==== HEALTHY NODES ====" +:+ nl +:+ "NO ROLE ASSIGNED"
    | [_; _; _; _; _; _; _; _; "node"; _; _] => "abcd@127.0.0.1:3901" +:+ nl
    | [_; _; _; _; _; _; _; _; "bucket"; "list"] => "ente" +:+ nl
    | _ => "" end) "", f);
  http := fun _ => HttpError; net_ok := fun _ => false; bus := fun _ => None; my_uid := 0;
  rand_bytes := fun _ _ => []; temp_name := fun _ p => p;
  range_files := fun _ m => map_to_list m; now := slept;
  statfs := fun _ _ => Some (26214400, 4096);
  |}.

Lemma BootstrapGarage_session_witness :
  exists w1 layout nodeID capacity buckets keys o,
    waitFor "garage" (120 * second) (MkWorld ∅ "" []) = (Ok tt, w1) /\
    session (bootstrap layout nodeID capacity buckets keys o) (log w1) (log (BootstrapGarage (MkWorld ∅ "" [])).2) /\
    (already_assigned layout = false -> from_statfs capacity).
Proof.
  pose proof (BootstrapGarage_session (MkWorld ∅ "" [])) as Hs.
  assert (Ho : Obedient (fun _ => false)) by (intros l f c; by left).
  destruct (BootstrapGarage _) as [r w']. destruct Hs as (Hs & _ & Hok). apply Hs, Hok; [exact Ho|done].
Defined.

(** A mail server whose client only succeeds after seven seconds *)
#[local] Instance slow_mail : Env := simple_env
  (fun l f c => match c_argv c with
    | _ :: _ :: _ :: _ :: "podman" :: "run" :: _ =>
        (if slept l <? 7 * second then Exited 1 "" "refused" else Exited 0 "" "", f)
    | _ => (Exited 0 "" "", f) end)
  (fun _ => HttpError) (fun _ => false).
Definition mail_cfg : config := {["stalwart_admin_password" := JStr "s3cret"; "domain" := JStr "example.org"]}.

Lemma HardenStalwart_eventually_witness :
  exists l f, log (HardenStalwart mail_cfg (MkWorld ∅ "" [])).2 = apply_event "s3cret" :: l /\ applies_at l f "s3cret".
Proof.
  pose proof (HardenStalwart_eventually mail_cfg (MkWorld ∅ "" []) 0 (7 * second)) as Hh. cbv zeta in Hh.
  assert (Hok : (HardenStalwart mail_cfg (MkWorld ∅ "" [])).1 = Ok tt) by (vm_compute; reflexivity).
  destruct (HardenStalwart _ _) as [r w']. cbn [fst snd] in *. subst r. destruct Hh as [(e & ? & [=] & _)|[_ Hh]].
  - done.
  - intros l. cbn. lia.
  - intros l f Hl. exists "", "", f. cbn -[second Z.mul]. by destruct (Z.ltb_spec (slept l) (7 * second)); [cbn in *; lia|].
  - cbn. unfold second. lia.
  - exact Hh.
Defined.
