(* ===== verification/Varlink.v ===== *)
(** The Varlink client (internal/varlink/varlink.go): calls and replies as JSON
    documents that end with a NUL byte. *)
From S2P Require Import Prelude Bytes GoStrings World Json.

Definition NULs : string := String NUL "".

(** A connection: what the service still sends, and what was written, newest
    first; a write may fail. *)
Record Conn := MkConn {
  incoming : string;
  writes : list string;
  write_ok : nat -> bool;
}.

(** [callMessage], whose parameters are omitted when there are none *)
Definition callMessage (method : string) (params : option json) : string :=
  marshal_fields (("method", JStr method) ::
    match params with Some p => [("parameters", p)] | None => [] end).

(** [replyMessage]; the raw parameters are kept parsed. *)
Record replyMessage := Reply {
  r_Parameters : option json;
  r_Continues : bool;
  r_Error : string;
}.
Definition parse_reply : json -> outcome replyMessage := struct_of (fun m =>
  c ← bool_field m "continues"; e ← string_field m "error";
  Ok (Reply (m !! "parameters") c e)).

(** [CallError]: a name and parameters *)
Inductive call_result (A : Type) : Type :=
| Returned (result : option A)
| ServiceError (name : string) (parameters : option json).
Arguments Returned {A} result.
Arguments ServiceError {A} name parameters.

(** [bufio.Reader.ReadBytes(0)] and dropping the NUL *)
Fixpoint read_frame (s : string) : option (string * string) :=
  match s with
  | EmptyString => None
  | String c s =>
      if Ascii.eqb c NUL then Some ("", s)
      else match read_frame s with
           | Some (raw, r) => Some (String c raw, r)
           | None => None
           end
  end.

(** [c.c.Write(msg)] *)
Definition Write (msg : string) : ST Conn unit := fun c =>
  let c' := MkConn (incoming c) (msg :: writes c) (write_ok c) in
  if write_ok c (length (writes c)) then (Ok tt, c') else (Err (ErrOS "write" "varlink"), c').
Definition ReadBytes : ST Conn string := fun c =>
  match read_frame (incoming c) with
  | Some (raw, rest) => (Ok raw, MkConn rest (writes c) (write_ok c))
  | None => (Err ErrEOF, MkConn "" (writes c) (write_ok c))
  end.

(** [Call]; [result] reads the reply's parameters, when the caller wants them. *)
Definition Call {A} (method : string) (params : option json) (result : option (json -> outcome A))
    : ST Conn (call_result A) :=
  let msg := callMessage method params +:+ NULs in
  _ ← wrap "varlink: write call: " (Write msg);
  raw ← wrap "varlink: read reply: " ReadBytes;
  reply ← wrap "varlink: parse reply: " (lift (v ← unmarshal raw; parse_reply v));
  if decide (r_Error reply <> "") then mret (ServiceError (r_Error reply) (r_Parameters reply))
  else
    match result, r_Parameters reply with
    | Some read, Some p =>
        a ← wrap "varlink: unmarshal reply parameters: " (lift (read p));
        mret (Returned (Some a))
    | _, _ => mret (Returned None)
    end.

(** [Dial], on the world's socket *)
Definition Dial `{Env} (socketPath : string) : ST World Conn := fun w =>
  let w := add_log (ENet "dial" [socketPath]) w in
  (match bus (log w) with
   | Some stream => Ok (MkConn (String.string_of_list_ascii stream) [] (fun _ => true))
   | None => Err (Wrapf "varlink: dial %s: " (ErrOS "dial" socketPath))
   end, w).

(** ** Specification: messages as JSON objects *)
Definition call_object (method : string) (params : option json) : json :=
  JObj match params with
       | Some p => {["method" := JStr method; "parameters" := p]}
       | None => {["method" := JStr method]}
       end.

(** A reply that the service may send *)
Definition reply_object (m : gmap string json) : Prop :=
  json_ok (JObj m) = true /\ match m !! "error" with Some (JStr _) | Some JNull | None => True | _ => False end /\
  match m !! "continues" with Some (JBool _) | Some JNull | None => True | _ => False end.
Definition error_of (m : gmap string json) : string := match m !! "error" with Some (JStr s) => s | _ => "" end.

(** What the caller gets for it *)
Definition reply_means {A} (result : option (json -> outcome A)) (m : gmap string json) : outcome (call_result A) :=
  if decide (error_of m <> "") then Ok (ServiceError (error_of m) (m !! "parameters"))
  else match result, m !! "parameters" with
       | Some read, Some p =>
           match read p with
           | Ok a => Ok (Returned (Some a))
           | Err e => Err (Wrapf "varlink: unmarshal reply parameters: " e)
           | Panic => Panic
           | OutOfFuel => OutOfFuel
           end
       | _, _ => Ok (Returned None)
       end.

(** ** Lemmas *)
Lemma callMessage_object method params : callMessage method params = marshal (call_object method params).
Proof.
  assert (H2 : forall a b : string, merge_sort key_le (map_to_list ({["method" := a; "parameters" := b]} : gmap string string))
    = [("method", a); ("parameters", b)]) by (intros a b; vm_compute; reflexivity).
  assert (H1 : forall a : string, merge_sort key_le (map_to_list ({["method" := a]} : gmap string string))
    = [("method", a)]) by (intros a; vm_compute; reflexivity).
  unfold callMessage, marshal_fields, marshal, call_object. destruct params as [p|]; cbn [print deeper].
  - by rewrite fmap_insert, map_fmap_singleton, H2.
  - by rewrite map_fmap_singleton, H1.
Qed.

Lemma read_frame_app raw rest : no_char NUL raw = true -> read_frame (raw +:+ NULs +:+ rest) = Some (raw, rest).
Proof.
  induction raw as [|c raw IH]; [done|]. cbn [no_char String.append read_frame].
  intros [Hc Hr]%andb_true_iff. apply negb_true_iff in Hc. by rewrite Hc, IH.
Qed.

Lemma call_object_ok method params :
  (forall p, params = Some p -> json_ok p = true) -> json_ok (call_object method params) = true.
Proof.
  intros Hp. apply json_ok_obj_2. intros k v. destruct params as [p|]; cbn.
  - intros [[_ <-]|[_ [_ <-]%lookup_singleton_Some]]%lookup_insert_Some; [done|by apply Hp].
  - by intros [_ <-]%lookup_singleton_Some.
Qed.

Lemma parse_reply_means m :
  reply_object m -> parse_reply (JObj m) = Ok (Reply (m !! "parameters")
    (match m !! "continues" with Some (JBool b) => b | _ => false end) (error_of m)).
Proof.
  intros (_ & He & Hc). unfold parse_reply, struct_of, bool_field, string_field, error_of.
  destruct (m !! "continues") as [[]|], (m !! "error") as [[]|]; try done.
Qed.

Lemma ctl_free v : json_ok v = true -> no_char NUL (marshal v) = true.
Proof. intros Hv. by apply no_ctl_char, no_ctl_marshal. Qed.

Lemma unmarshal_marshal v : json_ok v = true -> unmarshal (marshal v) = Ok v.
Proof. intros Hv. pose proof (unmarshal_print None v "" Hv eq_refl I) as Hu. by rewrite sapp_nil_r in Hu. Qed.

(** * Properties *)

(** C26: one call, one reply: what is written is one frame, whose only NUL byte is
    the last and whose text is read back as the call's method and parameters; when
    the service answers with a frame that holds a reply, the caller gets its
    parameters as the caller reads them, or the service's error with its
    parameters, and what follows the reply is left unread. *)
Theorem Call_exchanges {A} method params (result : option (json -> outcome A)) c m rest :
  (forall p, params = Some p -> json_ok p = true) ->
  write_ok c (length (writes c)) = true ->
  reply_object m -> incoming c = marshal (JObj m) +:+ NULs +:+ rest ->
  exists msg,
    Call method params result c = (reply_means result m, MkConn rest ((msg +:+ NULs) :: writes c) (write_ok c)) /\
    no_char NUL msg = true /\ unmarshal msg = Ok (call_object method params).
Proof.
  intros Hp Hw Hm Hin. exists (callMessage method params).
  pose proof (call_object_ok method params Hp) as Hok. rewrite callMessage_object.
  split_and!; [|by apply ctl_free|by apply unmarshal_marshal].
  unfold Call. rewrite callMessage_object. unfold mbind at 1, ST_bind at 1, wrap at 1, Write. rewrite Hw. cbn [wrapf].
  unfold mbind at 1, ST_bind at 1, wrap at 1, ReadBytes. cbn [incoming writes write_ok].
  pose proof Hm as (Hmok & _). rewrite Hin, read_frame_app by (by apply ctl_free). cbn [wrapf].
  unfold mbind at 1, ST_bind at 1, wrap at 1, lift at 1. rewrite unmarshal_marshal by done.
  cbn [mbind outcome_bind]. rewrite parse_reply_means by done. cbn [wrapf]. cbn [r_Error r_Parameters].
  unfold reply_means. case_decide; [done|].
  destruct result as [read|], (m !! "parameters") as [p|]; try done.
  unfold mbind, ST_bind, wrap, lift. by destruct (read p).
Qed.

(** * Witnesses *)
Definition pong : gmap string json := {["parameters" := JObj {["pong" := JStr "hi"]}]}.
Definition service : Conn := MkConn (marshal (JObj pong) +:+ NULs +:+ "rest") [] (fun _ => true).

Lemma Call_exchanges_witness :
  exists msg,
    Call "org.example.Ping" (Some (JObj {["ping" := JStr "hi"]}))
      (Some (struct_of (fun m => string_field m "pong"))) service
    = (Ok (Returned (Some "hi")), MkConn "rest" [msg +:+ NULs] (fun _ => true)) /\
    no_char NUL msg = true /\
    unmarshal msg = Ok (call_object "org.example.Ping" (Some (JObj {["ping" := JStr "hi"]}))).
Proof.
  apply (Call_exchanges "org.example.Ping" (Some (JObj {["ping" := JStr "hi"]}))
    (Some (struct_of (fun m => string_field m "pong"))) service pong "rest"); try done.
  by intros p [= <-].
Defined.
