(* ===== verification/DisksSafety.v ===== *)
(** What the disk operations of Disks.v may run: every command that writes to a
    disk names the disk it was asked to work on, or a partition that lsblk
    reported to be on that disk; and the operations end. *)
From S2P Require Import Prelude Bytes GoStrings World Runx Json Config Disks.

(** ** What a computation logs, with the log before each event

    [traced P R Q m]: started with a log that satisfies [R], [m] only logs events
    [e] such that [P l e], where [l] is the log before [e], and when it succeeds
    with [a], [Q a] holds of the final log. *)
Section traced.
Context {E : Env} (P : list event -> event -> Prop).

Fixpoint trace (base new : list event) : Prop :=
  match new with
  | [] => True
  | e :: new => P (new ++ base) e /\ trace base new
  end.

Lemma trace_app base n1 n2 : trace base n1 -> trace (n1 ++ base) n2 -> trace base (n2 ++ n1).
Proof.
  intros H1. induction n2 as [|e n2 IH]; [done|]. intros [He H2]. split; [by rewrite <- (assoc_L (++))|auto].
Qed.
Lemma trace_forall base new : Forall (fun e => forall l, P l e) new -> trace base new.
Proof. induction 1; by split. Qed.
Lemma trace_split base n1 e n2 : trace base (n1 ++ e :: n2) -> P (n2 ++ base) e.
Proof. induction n1 as [|e1 n1 IH]; intros [H1 H2]; auto. Qed.

Definition traced {A} (R : list event -> Prop) (Q : A -> list event -> Prop) (m : ST World A) : Prop :=
  forall w, R (log w) -> let '(r, w') := m w in
  exists new, log w' = new ++ log w /\ trace (log w) new /\ forall a, r = Ok a -> Q a (log w').
Definition paced {A} (m : ST World A) : Prop := traced (fun _ => True) (fun _ _ => True) m.

Lemma traced_emits {A} (P0 : event -> Prop) (Q0 : A -> list event -> list event -> Prop) m :
  emits P0 Q0 m -> (forall l e, P0 e -> P l e) ->
  traced (fun _ => True) (fun a l => exists new base, l = new ++ base /\ Q0 a new base) m.
Proof.
  intros Hm HP w _. specialize (Hm w). destruct (m w) as [r w'].
  destruct Hm as (new & Hl & Hf & Ha). exists new. split_and!; [done| |].
  - apply trace_forall. eapply Forall_impl; [exact Hf|]. auto.
  - intros a Hr. exists new, (log w). split; [done|by apply Ha].
Qed.
Lemma paced_quiet {A} (P0 : event -> Prop) (m : ST World A) : quiet P0 m -> (forall l e, P0 e -> P l e) -> paced m.
Proof.
  intros Hm HP w _. pose proof (traced_emits P0 _ m Hm HP w I) as H. destruct (m w) as [r w'].
  destruct H as (new & ? & ? & _). by exists new.
Qed.
Lemma traced_bind {A B} R (Q1 : A -> list event -> Prop) (Q2 : B -> list event -> Prop) m (k : A -> ST World B) :
  traced R Q1 m -> (forall a, traced (Q1 a) Q2 (k a)) -> traced R Q2 (m ≫= k).
Proof.
  intros Hm Hk w HR. specialize (Hm w HR). unfold mbind, ST_bind.
  destruct (m w) as [[a|e| |] w1]; destruct Hm as (n1 & Hl1 & Ht1 & Ha).
  2-4: by exists n1.
  specialize (Hk a w1 (Ha a eq_refl)). destruct (k a w1) as [r w2]. destruct Hk as (n2 & Hl2 & Ht2 & Hb).
  exists (n2 ++ n1). rewrite Hl1 in Ht2. split_and!; [by rewrite Hl2, Hl1, (assoc_L (++))|by apply trace_app|done].
Qed.
Lemma traced_weaken {A} (R R' : list event -> Prop) (Q Q' : A -> list event -> Prop) m :
  traced R Q m -> (forall l, R' l -> R l) -> (forall a l, Q a l -> Q' a l) -> traced R' Q' m.
Proof.
  intros Hm HR HQ w Hw. specialize (Hm w (HR _ Hw)). destruct (m w) as [r w'].
  destruct Hm as (new & ? & ? & ?). exists new. eauto.
Qed.
Lemma paced_bind {A B} (m : ST World A) (k : A -> ST World B) : paced m -> (forall a, paced (k a)) -> paced (m ≫= k).
Proof. intros Hm Hk. by eapply traced_bind. Qed.
Lemma traced_paced {A} R (m : ST World A) : paced m -> traced R (fun _ _ => True) m.
Proof. intros Hm. by eapply traced_weaken. Qed.
Lemma traced_wrap {A} fmt R (Q : A -> list event -> Prop) m : traced R Q m -> traced R Q (wrap fmt m).
Proof.
  intros Hm w Hw. specialize (Hm w Hw). unfold wrap. destruct (m w) as [r w'].
  destruct Hm as (new & Hl & Hf & Ha). exists new. split_and!; [done|done|].
  intros a Hr. apply Ha. by destruct r.
Qed.
Lemma traced_ret {A} R (a : A) : traced R (fun _ _ => True) (mret a).
Proof. intros w _. by exists []. Qed.
Lemma paced_deferred {A} (m : ST World A) f : paced m -> paced f -> paced (deferred m f).
Proof.
  intros Hm Hf w _. specialize (Hm w I). unfold deferred. destruct (m w) as [r w1].
  destruct Hm as (n1 & Hl1 & Ht1 & _). specialize (Hf w1 I). destruct (f w1) as [r2 w2].
  destruct Hf as (n2 & Hl2 & Ht2 & _). rewrite Hl1 in Ht2.
  assert (Hlog : log w2 = (n2 ++ n1) ++ log w) by (by rewrite Hl2, Hl1, (assoc_L (++))).
  assert (Ht : trace (log w) (n2 ++ n1)) by (by apply trace_app).
  destruct r; [exists (n2 ++ n1)..|exists n1]; by split_and!.
Qed.
(** One command, whose event is allowed by what is known of the log *)
Lemma traced_Run argv opts (R : list event -> Prop) :
  argv <> [] -> (forall l, R l -> P l (EExec (buildArgv argv opts) (Env_ opts) (Input opts))) ->
  traced R (fun _ _ => True) (Run argv opts).
Proof.
  intros Hne HP w HR. pose proof (Run_log argv opts w Hne) as Hl. destruct (Run argv opts w) as [r w'].
  eexists [_]. split_and!; [exact Hl|by split; [apply HP|]|done].
Qed.
Lemma traced_run_ fmt argv opts (R : list event -> Prop) :
  argv <> [] -> (forall l, R l -> P l (EExec (buildArgv argv opts) (Env_ opts) (Input opts))) ->
  traced R (fun _ _ => True) (run_ fmt argv opts).
Proof.
  intros Hne HP. unfold run_. eapply traced_bind; [by apply traced_wrap, traced_Run|]. intros res. apply traced_ret.
Qed.
End traced.

(** ** The events of an installation *)
Section safety.
Context {S : SortSlice} {E : Env}.

(** [lsblk_said l columns out]: the last event of the log [l] is lsblk, asked for
    [columns], and it printed [out]. *)
Definition lsblk_argv (columns : string) : list string := ["lsblk"; "--list"; "-J"; "-b"; "-o"; columns].
Definition lsblk_said (l : list event) (columns out : string) : Prop :=
  head l = Some (EExec (lsblk_argv columns) [] None) /\ exists f err f',
  exec l f (Cmd (lsblk_argv columns) [] None true) = (Exited 0 out err, f').

(** [part] is a partition of [disk], according to the lsblk that just ran. *)
Definition partition_of (l : list event) (disk part : string) : Prop :=
  (exists columns out raw d, lsblk_said l columns out /\ parse_blockdevices parse_map out = Ok raw /\ d ∈ raw /\
    cfg_string d "pkname" = path_base disk /\ cfg_string d "path" = part) \/
  (exists columns out all d, lsblk_said l columns out /\ parse_blockdevices parse_device out = Ok all /\ d ∈ all /\
    PKName d = path_base disk /\ Path d = part).

(** The commands that write to a disk, for the two disks they may write to *)
Inductive disk_command (root bulk : string) (l : list event) : list string -> Prop :=
| partition_root dir :
  disk_command root bulk l ["systemd-repart"; "--definitions=" +:+ dir; "--dry-run=no"; "--empty=force"; root]
| write_usr src part :
  partition_of l root part ->
  disk_command root bulk l ["dd"; "if=" +:+ src; "of=" +:+ part; "bs=4M"; "conv=fsync"]
| label_usr label : disk_command root bulk l ["parted"; "--script"; root; "name"; "2"; label]
| partition_bulk :
  disk_command root bulk l ["parted"; "--script"; bulk; "mklabel"; "gpt"; "mkpart"; "primary"; "xfs"; "0%"; "100%"]
| format_bulk part :
  partition_of l bulk part -> disk_command root bulk l ["mkfs.xfs"; "-f"; part].

(** Programs that do not write to a disk themselves; bootctl and the others write
    through the mounted file systems. *)
Definition harmless : list string := ["lsblk"; "blkid"; "mount"; "umount"; "partprobe"; "udevadm"; "bootctl";
  "systemctl"; "ip"; "systemd-sysusers"; "chpasswd"; "ssh-keygen"].
Definition harmless_command (argv : list string) : Prop :=
  (exists p args, argv = p :: args /\ p ∈ harmless) \/ exists root, argv = ["chroot"; root; "sshd"; "-t"].

(** What may happen when the disks are [root] and [bulk] and the log is [l]: no
    use of the network either, and no stage marker. *)
Definition marker : string := markerPath (MkStore "/mnt/target") "stage1".
Definition calm (e : event) : Prop :=
  match e with
  | EExec argv _ _ => harmless_command argv
  | ENet _ _ => False
  | EOS op args => op = "touch" -> args <> [marker]
  | _ => True
  end.
Definition disk_event (root bulk : string) (l : list event) (e : event) : Prop :=
  calm e \/ match e with EExec argv _ _ => disk_command root bulk l argv | _ => False end.

Lemma harmless_head p args : p ∈ harmless -> harmless_command (p :: args).
Proof. intros Hp. left. by exists p, args. Qed.
Lemma calm_disk_event root bulk l e : calm e -> disk_event root bulk l e.
Proof. by left. Qed.
End safety.

#[export] Hint Extern 0 (calm (EOS _ _)) => (let H := fresh in intros H; discriminate H) : quiet.
#[export] Hint Extern 0 (calm (EOut _)) => exact I : quiet.
#[export] Hint Extern 0 (calm (EExec _ _ _)) => apply harmless_head; set_solver : quiet.
#[export] Hint Extern 1 (quiet calm (run_ _ _ _)) => apply quiet_run_; [discriminate|] : quiet.
#[export] Hint Extern 1 (quiet calm (Runx.Run _ _)) => apply quiet_Run; [discriminate|] : quiet.

(** ** Results of parsing *)
Lemma fine_blockdevices {A} (f : json -> outcome A) data : (forall v, fine (f v)) -> fine (parse_blockdevices f data).
Proof. unfold parse_blockdevices. auto 6 with fine. Qed.
Lemma fine_device v : fine (parse_device v).
Proof. unfold parse_device. auto 12 with fine. Qed.
Lemma fine_parse_map v : fine (parse_map v).
Proof. by destruct v. Qed.
Lemma fine_boot_disk_in boot all : fine (boot_disk_in boot all).
Proof. induction all as [|d all IH]; [done|]. cbn [boot_disk_in]. by repeat case_match. Qed.

(** ** The operations end *)
Section ends.
Context {S : SortSlice} {E : Env}.

Lemma ends_fine {A} fmt (r : outcome A) : fine r -> ends (wrap fmt (lift r)).
Proof. intros Hr. by apply ends_wrap, ends_lift. Qed.

Lemma ends_listBlockDevices columns : ends (listBlockDevices columns).
Proof.
  unfold listBlockDevices. apply ends_bind; [auto with ends|]. intros out.
  apply ends_fine, fine_blockdevices, fine_device.
Qed.
Lemma ends_bootDiskName all : ends (bootDiskName all).
Proof.
  unfold bootDiskName. apply ends_bind; [auto with ends|]. intros out. apply ends_lift, fine_boot_disk_in.
Qed.
Lemma ends_findPartitionByLabel disk label : ends (findPartitionByLabel disk label).
Proof.
  unfold findPartitionByLabel. apply ends_bind; [auto with ends|]. intros out.
  apply ends_bind; [apply ends_fine, fine_blockdevices, fine_parse_map|]. auto with ends.
Qed.
Lemma ends_findPartitionByNumber disk n : ends (findPartitionByNumber disk n).
Proof.
  unfold findPartitionByNumber. apply ends_bind; [auto with ends|]. intros out.
  apply ends_bind; [apply ends_fine, fine_blockdevices, fine_parse_map|]. auto with ends.
Qed.
#[local] Hint Resolve ends_listBlockDevices ends_bootDiskName ends_findPartitionByLabel ends_findPartitionByNumber : ends.

(** The selection of disks ends, or panics in [selectDisksFrom]. *)
Lemma SelectDisks_may_panic : may_panic (fun w => exists w0, SelectDisks w0 = (Panic, w)) SelectDisks.
Proof.
  intros w. destruct (SelectDisks w) as [[r|e| |] w'] eqn:Hs; try done; [by exists w|].
  unfold SelectDisks, mbind, ST_bind in Hs.
  pose proof (ends_listBlockDevices "NAME,PATH,SIZE,TYPE,ROTA,RO,PKNAME" w) as H1.
  destruct (listBlockDevices _ w) as [[all|e| |] w1]; try done.
  pose proof (ends_bootDiskName all w1) as H2.
  destruct (bootDiskName all w1) as [[ex|e| |] w2]; try done.
  unfold lift, selectDisksFrom in Hs. injection Hs as Hs _. revert Hs. case_decide; [done|].
  destruct (List.filter (fun d => negb (Rota d)) _); (destruct (sort_slice _ _); [done|]); by destruct (sort_slice _ _).
Qed.

Lemma ends_write_all fmt dir files : ends (write_all fmt dir files).
Proof. induction files as [|[n c] files IH]; cbn [write_all]; auto with ends. Qed.
Lemma ends_PartitionRoot disk : ends (PartitionRoot disk).
Proof.
  unfold PartitionRoot. apply ends_bind; [auto with ends|]. intros dir. apply ends_deferred.
  apply ends_bind; [auto with ends|]. intros w. apply ends_bind; [apply ends_write_all|]. auto 8 with ends.
Qed.
Lemma ends_CleanupMounts mp : ends (CleanupMounts mp).
Proof.
  unfold CleanupMounts. generalize ["srv/data"; "efi"; "usr"; "var"; ""]. intros l.
  induction l as [|s l IH]; cbn [umount_all]; auto with ends.
Qed.
Lemma ends_MountRootAndVar disk mp : ends (MountRootAndVar disk mp).
Proof. unfold MountRootAndVar. cbv zeta. auto 12 with ends. Qed.
Lemma ends_EnsureFHSSymlinks mp : ends (EnsureFHSSymlinks mp).
Proof.
  unfold EnsureFHSSymlinks. apply ends_bind; [auto with ends|]. intros w. generalize (range_files (log w) fhsLinks).
  intros l. induction l as [|[n t] l IH]; cbn [fhs_links]; [auto with ends|].
  apply ends_bind; [auto with ends|]. intros [|]; [|done]. cbv zeta.
  apply ends_bind; [auto with ends|]. intros [|]; [done|]. auto with ends.
Qed.
Lemma ends_PartitionBulk disk : ends (PartitionBulk disk).
Proof. unfold PartitionBulk. cbv zeta. auto 12 with ends. Qed.
Lemma ends_MountBulk root part : ends (MountBulk root part).
Proof.
  unfold MountBulk, writeBulkMountUnit. cbv zeta. apply ends_bind; [auto with ends|]. intros _.
  apply ends_bind; [auto with ends|]. intros _. apply ends_bind; [|intros _; auto 12 with ends].
  generalize dataSubdirs. intros l. induction l as [|n l IH]; cbn [mkdir_each]; auto with ends.
Qed.
Lemma ends_DeployUsrContent disk raw version : ends (DeployUsrContent disk raw version).
Proof. unfold DeployUsrContent, ddCopy. cbv zeta. auto 12 with ends. Qed.
Lemma ends_MountUsr disk mp : ends (MountUsr disk mp).
Proof. unfold MountUsr. cbv zeta. auto 12 with ends. Qed.
Lemma ends_MountESP disk mp : ends (MountESP disk mp).
Proof. unfold MountESP. cbv zeta. auto 12 with ends. Qed.
Lemma ends_DeployUKI esp efi version : ends (DeployUKI esp efi version).
Proof. unfold DeployUKI, copyFile. cbv zeta. auto 12 with ends. Qed.
Lemma ends_InstallBootloader esp : ends (InstallBootloader esp).
Proof. unfold InstallBootloader. auto with ends. Qed.
Lemma ends_ApplyPresets mp : ends (ApplyPresets mp).
Proof. unfold ApplyPresets. auto with ends. Qed.
Lemma ends_SetDefaultTarget mp : ends (SetDefaultTarget mp).
Proof. unfold SetDefaultTarget. auto with ends. Qed.
End ends.

#[export] Hint Resolve ends_PartitionRoot ends_CleanupMounts ends_MountRootAndVar ends_EnsureFHSSymlinks
  ends_PartitionBulk ends_MountBulk ends_DeployUsrContent ends_MountUsr ends_MountESP ends_DeployUKI
  ends_InstallBootloader ends_ApplyPresets ends_SetDefaultTarget : ends.

(** ** What the operations run *)
Section commands.
Context {S : SortSlice} {E : Env} (root bulk : string).
#[local] Notation P := (disk_event root bulk).

Lemma emits_lsblk columns :
  emits calm (fun out new base => lsblk_said (new ++ base) columns out) (RunChecked (lsblk_argv columns) no_options).
Proof.
  unfold RunChecked. intros w. unfold mbind, ST_bind. rewrite Run_ran by done. unfold ran. set (w1 := add_log _ w).
  destruct (exec (log w1) (fs w1) _) as [[|code out err] f] eqn:Hx;
    [|cbn [Capture with_capture NoCheck no_options]; destruct (decide (code = 0)) as [->|]];
    exists [EExec (lsblk_argv columns) [] None];
    (split_and!; [done|constructor; [auto with quiet|constructor]|try done]).
  intros a [= <-]. split; [done|]. by exists (fs w1), err, f.
Qed.

Lemma quiet_RunChecked argv :
  argv <> [] -> calm (EExec (buildArgv argv (with_capture no_options)) [] None) -> quiet calm (RunChecked argv no_options).
Proof. intros Hne HP. apply quiet_bind; [by apply quiet_Run|auto with quiet]. Qed.
#[local] Hint Extern 1 (quiet calm (RunChecked _ _)) => apply quiet_RunChecked; [discriminate|] : quiet.

Lemma find_elem {A} (f : A -> bool) l d : find f l = Some d -> d ∈ l /\ f d = true.
Proof. intros H. split; [apply list_elem_of_In|]; by eapply find_some. Qed.

(** A partition found by lsblk, in the log that ends with that lsblk *)
Lemma emits_find columns fmt (f : config -> bool) disk e :
  (forall d, f d = true -> cfg_string d "pkname" = path_base disk) ->
  emits calm (fun part new base => partition_of (new ++ base) disk part)
    (out ← wrap "disks: lsblk: " (RunChecked (lsblk_argv columns) no_options);
      raw ← wrap fmt (lift (parse_blockdevices parse_map out));
      match find f raw with Some d => mret (cfg_string d "path") | None => lift (Err e) end).
Proof.
  intros Hf. eapply emits_bind_pre; [apply emits_wrap, emits_lsblk|]. intros out n1 b1 Hls.
  eapply emits_bind_pre; [apply emits_wrap, emits_lift|]. intros raw n2 b2 [Hraw ->].
  destruct (find f raw) as [d|] eqn:Hd.
  - apply find_elem in Hd as [Hin Hn]. apply emits_ret. intros b Hb1 Hb2. subst. left.
    exists columns, out, raw, d. split_and!; auto.
  - intros w. exists []. by split_and!.
Qed.
Lemma emits_findPartitionByNumber disk n :
  emits calm (fun part new base => partition_of (new ++ base) disk part) (findPartitionByNumber disk n).
Proof.
  apply emits_find. intros d. unfold numbered. intros [H _]%andb_true_iff. by apply String.eqb_eq.
Qed.
Lemma emits_findPartitionByLabel disk label :
  emits calm (fun part new base => partition_of (new ++ base) disk part) (findPartitionByLabel disk label).
Proof.
  apply emits_find. intros d. unfold labelled. intros [H _]%andb_true_iff. by apply String.eqb_eq.
Qed.
Lemma emits_listBlockDevices columns :
  emits calm (fun all new base => exists out, lsblk_said (new ++ base) columns out /\ parse_blockdevices parse_device out = Ok all)
    (listBlockDevices columns).
Proof.
  unfold listBlockDevices. eapply emits_bind_pre; [apply emits_wrap, emits_lsblk|]. intros out n1 b1 Hls.
  eapply emits_weaken; [apply emits_wrap, emits_lift|]. intros all n2 b2 [Hall ->] Hb. subst. by exists out.
Qed.
Lemma quiet_findPartitionByNumber disk n : quiet calm (findPartitionByNumber disk n).
Proof. eapply emits_quiet, emits_findPartitionByNumber. Qed.
Lemma quiet_findPartitionByLabel disk label : quiet calm (findPartitionByLabel disk label).
Proof. eapply emits_quiet, emits_findPartitionByLabel. Qed.
Lemma quiet_listBlockDevices columns : quiet calm (listBlockDevices columns).
Proof. eapply emits_quiet, emits_listBlockDevices. Qed.
#[local] Hint Resolve quiet_findPartitionByNumber quiet_findPartitionByLabel quiet_listBlockDevices : quiet.

(** *** Operations that run no command that writes to a disk *)
Lemma quiet_SelectDisks : quiet calm SelectDisks.
Proof. unfold SelectDisks, bootDiskName. auto 12 with quiet. Qed.
Lemma quiet_CleanupMounts mp : quiet calm (CleanupMounts mp).
Proof.
  unfold CleanupMounts. generalize ["srv/data"; "efi"; "usr"; "var"; ""]. intros l.
  induction l as [|s l IH]; cbn [umount_all]; auto with quiet.
Qed.
Lemma quiet_MountRootAndVar disk mp : quiet calm (MountRootAndVar disk mp).
Proof. unfold MountRootAndVar. cbv zeta. auto 14 with quiet. Qed.
Lemma quiet_EnsureFHSSymlinks mp : quiet calm (EnsureFHSSymlinks mp).
Proof.
  unfold EnsureFHSSymlinks. apply quiet_bind; [auto with quiet|]. intros w. generalize (range_files (log w) fhsLinks).
  intros l. induction l as [|[n t] l IH]; cbn [fhs_links]; [auto with quiet|].
  apply quiet_bind; [auto with quiet|]. intros [|]; [|done]. cbv zeta.
  apply quiet_bind; [auto with quiet|]. intros [|]; [done|]. auto with quiet.
Qed.
Lemma quiet_MountBulk mp part : quiet calm (MountBulk mp part).
Proof.
  unfold MountBulk, writeBulkMountUnit. cbv zeta. apply quiet_bind; [auto with quiet|]. intros _.
  apply quiet_bind; [auto with quiet|]. intros _. apply quiet_bind; [|intros _; auto 14 with quiet].
  generalize dataSubdirs. intros l. induction l as [|n l IH]; cbn [mkdir_each]; auto with quiet.
Qed.
Lemma quiet_MountUsr disk mp : quiet calm (MountUsr disk mp).
Proof. unfold MountUsr. cbv zeta. auto 14 with quiet. Qed.
Lemma quiet_MountESP disk mp : quiet calm (MountESP disk mp).
Proof. unfold MountESP. cbv zeta. auto 14 with quiet. Qed.
Lemma quiet_DeployUKI esp efi version : quiet calm (DeployUKI esp efi version).
Proof. unfold DeployUKI, copyFile. cbv zeta. auto 14 with quiet. Qed.
Lemma quiet_InstallBootloader esp : quiet calm (InstallBootloader esp).
Proof. unfold InstallBootloader. auto with quiet. Qed.
Lemma quiet_ApplyPresets mp : quiet calm (ApplyPresets mp).
Proof. unfold ApplyPresets. auto with quiet. Qed.
Lemma quiet_SetDefaultTarget mp : quiet calm (SetDefaultTarget mp).
Proof. unfold SetDefaultTarget. auto with quiet. Qed.

(** *** Operations that do *)
Lemma paced_calm {A} (m : ST World A) : quiet calm m -> paced P m.
Proof. intros Hm. eapply paced_quiet; [exact Hm|]. apply calm_disk_event. Qed.
Lemma traced_find_number disk n :
  traced P (fun _ => True) (fun part l => partition_of l disk part) (findPartitionByNumber disk n).
Proof.
  eapply traced_weaken; [eapply traced_emits; [apply emits_findPartitionByNumber|apply calm_disk_event]|done|].
  by intros part l (new & base & -> & H).
Qed.
Lemma traced_command fmt argv R :
  argv <> [] -> (forall l, R l -> disk_command root bulk l argv) ->
  traced P R (fun _ _ => True) (run_ fmt argv captured) /\ traced P R (fun _ _ => True) (run_ fmt argv no_options).
Proof. intros Hne HR. split; (apply traced_run_; [done|]); intros l Hl; right; by apply HR. Qed.

Lemma paced_PartitionRoot : paced P (PartitionRoot root).
Proof.
  unfold PartitionRoot. apply paced_bind.
  { apply paced_calm, quiet_wrap, quiet_MkdirTemp. intros op args -> H. discriminate H. }
  intros dir. apply paced_deferred; [|apply paced_calm; auto with quiet].
  apply paced_bind; [apply paced_calm; auto with quiet|]. intros w. apply paced_bind.
  { apply paced_calm. generalize (range_files (log w) repartFiles). intros l.
    induction l as [|[n c] l IH]; cbn [write_all]; auto with quiet. }
  intros _. apply paced_bind; [apply traced_command; [done|]; intros l _; apply partition_root|].
  intros _. apply paced_calm. auto with quiet.
Qed.
Lemma paced_DeployUsrContent raw version : paced P (DeployUsrContent root raw version).
Proof.
  unfold DeployUsrContent, ddCopy. eapply traced_bind; [apply traced_find_number|]. intros part.
  eapply traced_bind.
  - apply traced_wrap. eapply traced_bind; [|intros res; apply traced_ret].
    apply traced_Run; [done|]. intros l Hl. right. by apply write_usr.
  - intros u. apply traced_paced, traced_command; [done|]. intros l _. apply label_usr.
Qed.
Lemma paced_PartitionBulk : paced P (PartitionBulk bulk).
Proof.
  unfold PartitionBulk. apply paced_bind; [apply traced_command; [done|]; intros l _; apply partition_bulk|].
  intros _. apply paced_bind; [apply paced_calm; auto with quiet|]. intros _.
  apply paced_bind; [apply paced_calm; auto with quiet|]. intros _.
  eapply traced_bind; [eapply traced_emits; [apply emits_listBlockDevices|apply calm_disk_event]|].
  intros all. cbv zeta. case_decide as Hp; [apply traced_paced, paced_calm; auto with quiet|].
  eapply traced_bind; [|intros u; apply traced_ret]. apply traced_command; [done|].
  intros l (new & base & -> & out & Hls & Hall). apply format_bulk. right.
  destruct (find _ all) as [d|] eqn:Hd; [|done]. apply find_elem in Hd as [Hin Hn]. apply String.eqb_eq in Hn.
  exists "NAME,PATH,PKNAME", out, all, d. by split_and!.
Qed.
End commands.
