(* ===== verification/Installer.v ===== *)
(** The installation (internal/installer/installer.go): the steps that the live
    image runs, in order, and the marker that ends them. *)
From S2P Require Import Prelude Bytes GoStrings World Runx Json Config Disks DisksSafety.
From S2P Require Import Firewall Regex Prompt Netconf Wizard Users Sshauth.

Definition mountpoint : string := "/mnt/target".
Definition applianceDir : string := "/usr/share/slfhst/appliance".

Section installer.
Context {S : SortSlice} {E : Env}.

Definition readApplianceVersion : ST World string :=
  let path := path_join [applianceDir; "VERSION"] in
  data ← wrap "installer: read %s (embedded appliance version -- see Milestone C): " (ReadFile path);
  let version := trim_newline data in
  if decide (version = "") then lift (Err (Errorf "installer: %s is empty")) else mret version.

(** [Run] from the partitioning of the root disk to the default target *)
Definition install_on (rootDisk bulkDisk version : string) : ST World unit :=
  _ ← PartitionRoot rootDisk;
  let usrRawPath := path_join [applianceDir; "usr.raw"] in
  _ ← DeployUsrContent rootDisk usrRawPath version;
  _ ← MountRootAndVar rootDisk mountpoint;
  _ ← MountUsr rootDisk mountpoint;
  _ ← EnsureFHSSymlinks mountpoint;
  espPath ← MountESP rootDisk mountpoint;
  let efiSrcPath := path_join [applianceDir; "uki.efi"] in
  _ ← DeployUKI espPath efiSrcPath version;
  _ ← InstallBootloader espPath;
  bulkPart ← PartitionBulk bulkDisk;
  _ ← MountBulk mountpoint bulkPart;
  let store := MkStore mountpoint in
  _ ← Netconf.Configure store;
  cfg ← RunPreBoot store;
  _ ← Users.Create mountpoint cfg;
  _ ← Sshauth.Configure mountpoint;
  _ ← SetupPreBoot mountpoint;
  _ ← ApplyPresets mountpoint;
  SetDefaultTarget mountpoint.

(** [Run] up to the default target *)
Definition prepare : ST World unit :=
  _ ← Banner "slfhst installer";
  _ ← CleanupMounts mountpoint;
  version ← readApplianceVersion;
  _ ← Print_out ("deploying appliance version " +:+ version +:+ nl);
  '(rootDisk, bulkDisk) ← SelectDisks;
  _ ← Print_out ("root disk: " +:+ rootDisk +:+ ", bulk disk: " +:+ bulkDisk +:+ nl);
  install_on rootDisk bulkDisk version.

Definition Run : ST World unit :=
  _ ← prepare;
  _ ← MarkDone (MkStore mountpoint) "stage1";
  _ ← Print_out nl;
  _ ← Print_out ("stage1 setup complete. Reboot to continue, then SSH in" +:+ nl);
  Print_out ("as the admin user and run `slfhst setup`." +:+ nl).
End installer.

(** ** Lemmas *)
Section lemmas.
Context {S : SortSlice} {E : Env}.

Lemma offline_calm e : offline e -> calm e.
Proof.
  destruct e; cbn; try done. intros ->. apply harmless_head. set_solver.
Qed.
Lemma account_calm user password e : account_event mountpoint user password e -> calm e.
Proof.
  destruct e; cbn; try done.
  - intros [Ht _] Hop. rewrite Ht by done. intros [=].
  - intros [(-> & _)|(-> & _)]; apply harmless_head; set_solver.
Qed.
Lemma ssh_calm e : ssh_event mountpoint e -> calm e.
Proof.
  destruct e; cbn -[mountpoint]; try done.
  - intros [Hop|[-> _]] He; [subst; set_unfold in Hop; naive_solver|done].
  - intros (_ & _ & Hin). rewrite !elem_of_cons, elem_of_nil in Hin.
    destruct Hin as [->|[->|[->|[->|[]]]]]; try (apply harmless_head; set_solver).
    right. by exists mountpoint.
Qed.
Lemma calm_os op args : op <> "touch" -> calm (EOS op args).
Proof. by intros Hn He. Qed.

Lemma quiet_readApplianceVersion : quiet calm readApplianceVersion.
Proof. unfold readApplianceVersion. cbv zeta. auto with quiet. Qed.

(** The installation proper, for the disks it was given *)
Lemma install_on_ok root bulk version :
  may_panic (null_config (MkStore mountpoint)) (install_on root bulk version) /\
  paced (disk_event root bulk) (install_on root bulk version).
Proof.
  unfold install_on. cbv zeta. split.
  - do 10 (apply may_panic_bind; [apply ends_may_panic; auto with ends|]; intros ?).
    apply may_panic_bind; [apply Configure_may_panic|]. intros _.
    apply may_panic_bind; [apply RunPreBoot_may_panic|]. intros cfg.
    do 4 (apply may_panic_bind; [apply ends_may_panic; auto using Sshauth.ends_Configure, ends_SetupPreBoot with ends|]; intros _).
    apply ends_may_panic. auto with ends.
  - apply paced_bind; [apply paced_PartitionRoot|]. intros _.
    apply paced_bind; [apply paced_DeployUsrContent|]. intros _.
    do 6 (apply paced_bind; [apply paced_calm; first [apply quiet_MountRootAndVar|apply quiet_MountUsr|
      apply quiet_EnsureFHSSymlinks|apply quiet_MountESP|apply quiet_DeployUKI|apply quiet_InstallBootloader]|]; intros ?).
    apply paced_bind; [apply paced_PartitionBulk|]. intros part.
    apply paced_bind; [apply paced_calm, quiet_MountBulk|]. intros _.
    apply paced_bind; [eapply paced_calm, emits_mono; [eapply emits_quiet, Configure_emits|apply offline_calm]|].
    intros _. apply paced_bind; [apply paced_calm, quiet_RunPreBoot; [apply calm_os|done]|]. intros cfg.
    apply paced_bind; [eapply paced_calm, emits_mono; [apply quiet_Create|apply account_calm]|]. intros _.
    apply paced_bind; [eapply paced_calm, emits_mono; [apply Sshauth.quiet_Configure|apply ssh_calm]|]. intros _.
    apply paced_bind; [apply paced_calm, quiet_SetupPreBoot, calm_os|]. intros _.
    apply paced_bind; [apply paced_calm, quiet_ApplyPresets|]. intros _. apply paced_calm, quiet_SetDefaultTarget.
Qed.

(** [installs m]: before the disks are selected, everything is calm; after, the
    commands that write to a disk write to those. *)
Definition installs {A} (m : ST World A) : Prop := forall w, let '(r, w') := m w in
  exists new, log w' = new ++ log w /\
  ((match r with Ok _ => False | _ => True end /\ Forall calm new) \/
    exists root bulk w0 w1 n0 n1, new = n1 ++ n0 /\ SelectDisks w0 = (Ok (root, bulk), w1) /\
    log w1 = n0 ++ log w /\ Forall calm n0 /\ trace (disk_event root bulk) (log w1) n1).

Lemma installs_bind {A B} (m : ST World A) (k : A -> ST World B) :
  quiet calm m -> (forall a, installs (k a)) -> installs (m ≫= k).
Proof.
  intros Hm Hk w. specialize (Hm w). unfold mbind, ST_bind.
  destruct (m w) as [[a|e| |] v]; destruct Hm as (n & Hl & Hf & _).
  2-4: by exists n; split; [done|left].
  specialize (Hk a v). destruct (k a v) as [r w']. destruct Hk as (new & Hl' & Hor). rewrite Hl in Hl', Hor.
  exists (new ++ n). split; [by rewrite Hl', (assoc_L (++))|].
  destruct Hor as [[Hr Hn]|(root & bulk & w0 & w1 & n0 & n1 & -> & Hs & Hl1 & H0 & H1)].
  - left. split; [done|by apply Forall_app].
  - right. exists root, bulk, w0, w1, (n0 ++ n), n1.
    split_and!; [by rewrite (assoc_L (++))|done|by rewrite Hl1, (assoc_L (++))|by apply Forall_app|done].
Qed.
Lemma installs_select (k : string * string -> ST World unit) :
  (forall root bulk, paced (disk_event root bulk) (k (root, bulk))) -> installs (SelectDisks ≫= k).
Proof.
  intros Hk w. pose proof (quiet_SelectDisks w) as Hs. unfold mbind, ST_bind.
  destruct (SelectDisks w) as [[[root bulk]|e| |] w1] eqn:Hsel; destruct Hs as (n0 & Hl & Hf & _).
  2-4: by exists n0; split; [done|left].
  specialize (Hk root bulk w1 I). destruct (k (root, bulk) w1) as [r w']. destruct Hk as (n1 & Hl1 & Ht & _).
  exists (n1 ++ n0). split; [by rewrite Hl1, Hl, (assoc_L (++))|]. right. by exists root, bulk, w, w1, n0, n1.
Qed.

Lemma prepare_installs : installs prepare.
Proof.
  unfold prepare. apply installs_bind; [by apply quiet_Banner|]. intros _.
  apply installs_bind; [apply quiet_CleanupMounts|]. intros _.
  apply installs_bind; [apply quiet_readApplianceVersion|]. intros version.
  apply installs_bind; [by apply quiet_print|]. intros _.
  apply installs_select. intros root bulk. apply paced_bind; [by apply paced_calm, quiet_print|].
  intros _. apply install_on_ok.
Qed.

(** The panics: the selection of the disks, and a configuration that is null *)
Definition may_stop (w : World) : Prop :=
  null_config (MkStore mountpoint) w \/ exists w0, SelectDisks w0 = (Panic, w).
Lemma prepare_may_panic : may_panic may_stop prepare.
Proof.
  unfold prepare. apply may_panic_bind; [apply ends_may_panic; unfold Banner; cbv zeta; auto 8 with ends|]. intros _.
  apply may_panic_bind; [apply ends_may_panic; auto with ends|]. intros _.
  apply may_panic_bind; [apply ends_may_panic; unfold readApplianceVersion; cbv zeta; auto with ends|]. intros version.
  apply may_panic_bind; [apply ends_may_panic; auto with ends|]. intros _.
  apply may_panic_bind.
  { eapply may_panic_weaken; [apply SelectDisks_may_panic|]. by right. }
  intros [root bulk]. apply may_panic_bind; [apply ends_may_panic; auto with ends|]. intros _.
  eapply may_panic_weaken; [apply install_on_ok|]. by left.
Qed.

(** What is left to do once the system is prepared *)
Definition finish_event (e : event) : Prop :=
  match e with
  | EOS op args => op = "mkdir" \/ op = "touch" /\ args = [marker]
  | EOut _ => True
  | _ => False
  end.
Definition finish : ST World unit :=
  _ ← MarkDone (MkStore mountpoint) "stage1";
  _ ← Print_out nl;
  _ ← Print_out ("stage1 setup complete. Reboot to continue, then SSH in" +:+ nl);
  Print_out ("as the admin user and run `slfhst setup`." +:+ nl).
Lemma finish_ok : ends finish /\ emits finish_event (fun _ new _ => EOS "touch" [marker] ∈ new) finish.
Proof.
  unfold finish, MarkDone. split; [auto 12 with ends|].
  eapply (emits_bind_pre _ (fun _ new _ => EOS "touch" [marker] ∈ new)).
  - eapply emits_bind_pre; [apply emits_wrap, quiet_io; by left|]. intros _ n b _.
    eapply emits_weaken; [apply emits_wrap, emits_io; by right|]. intros _ new base -> _. by left.
  - intros _ n b Hin. eapply emits_weaken; [|intros _ new base _ _; apply elem_of_app; by right].
    repeat (apply quiet_bind; [by apply quiet_print|]; intros _). by apply quiet_print.
Qed.
Lemma finish_done v w' : finish v = (Ok tt, w') -> exists_at (fs w') marker = true.
Proof.
  unfold finish. intros ([] & w1 & Hm & HS)%bind_Ok_inv_st. apply (MarkDone_exists _ _ _ _ "") in Hm as [Hm _].
  cbn in HS. by injection HS as <-.
Qed.

Lemma trace_no_marker root bulk base new :
  trace (disk_event root bulk) base new -> EOS "touch" [marker] ∉ new.
Proof.
  intros Ht Hin. apply list_elem_of_split in Hin as (l1 & l2 & ->). apply trace_split in Ht as [Hc|[]]. by apply Hc.
Qed.
Lemma calm_no_marker new : Forall calm new -> EOS "touch" [marker] ∉ new.
Proof. rewrite Forall_forall. intros Hf Hin. by apply (Hf _ Hin). Qed.

Lemma Run_finish w :
  Run w = match prepare w with
    | (Ok _, v) => finish v
    | (Err e, v) => (Err e, v) | (Panic, v) => (Panic, v) | (OutOfFuel, v) => (OutOfFuel, v)
    end.
Proof. unfold Run, mbind at 1, ST_bind. by destruct (prepare w) as [[[]| | |] v]. Qed.
(** It ends, or panics in the two ways that [may_stop] names. *)
Lemma Run_stops w :
  let '(r, w') := Run w in match r with Ok _ | Err _ => True | Panic => may_stop w' | OutOfFuel => False end.
Proof.
  rewrite Run_finish. pose proof (prepare_may_panic w) as Hp. destruct (prepare w) as [[[]|e| |] v]; try done.
  destruct finish_ok as [Hf _]. specialize (Hf v). by destruct (finish v) as [[]].
Qed.
End lemmas.

(** * Properties *)

(** C2: an installation only writes to the disks that were selected: whatever the
    tools, the files and the administrator answer, it ends (it panics only in the
    selection of the disks or when the configuration file holds null), and either
    it fails having run no command that writes to a disk, or the disks were
    selected and every command after that is harmless, or is one of the five
    commands that write to a disk (systemd-repart, dd, two parted, mkfs.xfs) on
    the selected root or bulk disk, or on a partition that the lsblk that has just
    run reported to be on it; no use of the network; and what comes after the
    preparation (the marker of the stage and the messages) only comes when it
    succeeded. *)
Theorem Run_safe `{SortSlice, Env} w :
  let '(r, w') := Run w in
  match r with Panic => may_stop w' | OutOfFuel => False | _ => True end /\
  exists new, log w' = new ++ log w /\
  ((match r with Ok _ => False | _ => True end /\ Forall calm new) \/
   exists root bulk w0 w1 n0 n1 n2, new = n2 ++ n1 ++ n0 /\ SelectDisks w0 = (Ok (root, bulk), w1) /\
     log w1 = n0 ++ log w /\ Forall calm n0 /\ trace (disk_event root bulk) (log w1) n1 /\
     Forall finish_event n2 /\
     (n2 <> [] -> exists w2, prepare w = (Ok tt, w2) /\ log w2 = n1 ++ log w1)).
Proof.
  rewrite Run_finish. pose proof (prepare_installs w) as Hi. pose proof (prepare_may_panic w) as Hp.
  destruct (prepare w) as [[[]|e| |] v] eqn:Hprep; destruct Hi as (new & Hl & Hor).
  2-4: split; [done|]; exists new; (split; [done|]);
    destruct Hor as [Hc|(root & bulk & w0 & w1 & n0 & n1 & -> & ? & ? & ? & ?)]; [by left|right];
    by exists root, bulk, w0, w1, n0, n1, [].
  destruct finish_ok as [Hfe Hfq]. specialize (Hfe v). specialize (Hfq v).
  destruct (finish v) as [r w']. destruct Hfq as (n2 & Hl2 & Hf2 & _). cbn [fst] in Hfe. split; [by destruct r|].
  exists (n2 ++ new). split; [by rewrite Hl2, Hl, (assoc_L (++))|]. right.
  destruct Hor as [[[] _]|(root & bulk & w0 & w1 & n0 & n1 & -> & Hs & Hl1 & ? & ?)].
  exists root, bulk, w0, w1, n0, n1, n2. split_and!; try done. intros _. exists v. split; [done|].
  by rewrite Hl, Hl1, (assoc_L (++)).
Qed.

(** C23: the marker of the first stage comes last: it is made only when every step
    of the installation succeeded; and when the installation succeeds, the marker
    is there.  This holds whatever the operating system makes fail, and wherever a
    write that fails leaves the file. *)
Theorem Run_marks_last `{SortSlice, Env} w :
  let '(r, w') := Run w in
  exists new, log w' = new ++ log w /\
    (EOS "touch" [marker] ∈ new -> exists w2, prepare w = (Ok tt, w2)) /\
    (r = Ok tt -> EOS "touch" [marker] ∈ new /\ exists_at (fs w') marker = true).
Proof.
  rewrite Run_finish. pose proof (prepare_installs w) as Hi.
  destruct (prepare w) as [[[]|e| |] v] eqn:Hprep; destruct Hi as (new & Hl & Hor).
  2-4: exists new; split_and!; [done| |done]; intros Hin; exfalso;
    destruct Hor as [[_ Hc]|(root & bulk & w0 & w1 & n0 & n1 & -> & _ & _ & Hc & Ht)];
    [by apply calm_no_marker in Hc|]; apply elem_of_app in Hin as [Hin|Hin];
    [by eapply trace_no_marker|by eapply calm_no_marker].
  destruct finish_ok as [_ Hfq]. specialize (Hfq v). pose proof (finish_done v) as Hd.
  destruct (finish v) as [r w']. destruct Hfq as (n2 & Hl2 & _ & Hin).
  exists (n2 ++ new). split_and!; [by rewrite Hl2, Hl, (assoc_L (++))|eauto|].
  intros ->. split; [apply elem_of_app; left; by eapply Hin|by apply Hd].
Qed.

(** * Witnesses *)

(** A machine with the disks of [sample_disks], partitioned as the installer
    partitions them; systemd-sysusers writes the accounts into passwd. *)
Definition partition_entry (name pkname label : string) (n : Z) : string :=
  "{" +:+ GoStrings.join "," [member "name" (Disks.quoted name); member "path" (Disks.quoted ("/dev/" +:+ name));
    member "pkname" (Disks.quoted pkname); member "partlabel" (Disks.quoted label); member "partn" (itoa n)] +:+ "}".
Definition partitions_text : string :=
  "{" +:+ member "blockdevices" ("[" +:+ GoStrings.join "," [
    partition_entry "vdb1" "vdb" "esp" 1; partition_entry "vdb2" "vdb" "_empty" 2;
    partition_entry "vdb4" "vdb" "slfhst-root" 4; partition_entry "vdb5" "vdb" "slfhst-var" 5;
    partition_entry "vdc1" "vdc" "xfs" 1] +:+ "]") +:+ "}".
#[local] Instance box : Env := simple_env
  (fun _ f c => match c_argv c with
    | ["lsblk"; _; _; _; _; columns] =>
        (Exited 0 (if String.eqb columns "NAME,PATH,SIZE,TYPE,ROTA,RO,PKNAME" then lsblk_text else partitions_text) "", f)
    | "blkid" :: _ => (Exited 0 ("/dev/sr0" +:+ nl) "", f)
    | "ip" :: _ => (Exited 0 ("1: lo: <UP>" +:+ nl +:+ "2: eth0: <UP>" +:+ nl) "", f)
    | "systemd-sysusers" :: _ => (Exited 0 "" "", <["/mnt/target/etc/passwd" := NFile
        ("svc:x:999:999::/home/svc:/usr/sbin/nologin" +:+ nl +:+ "ana:x:1000:1000::/home/ana:/bin/bash" +:+ nl) 420 0 0]> f)
    | _ => (Exited 0 "" "", f) end)
  (fun _ => HttpError) (fun _ => false).

Definition live_image : World := MkWorld {[
  "/tmp" := NDir 511 0 0; "/mnt" := NDir 493 0 0; "/mnt/target" := NDir 493 0 0;
  "/usr/share/slfhst/appliance/VERSION" := NFile ("7" +:+ nl) 420 0 0;
  "/usr/share/slfhst/appliance/usr.raw" := NFile "usr" 420 0 0;
  "/usr/share/slfhst/appliance/uki.efi" := NFile "uki" 420 0 0;
  "/mnt/target/usr/share/slfhst/cloudflare-ips/v4.txt" := NFile ("192.0.2.0/24" +:+ nl) 420 0 0;
  "/mnt/target/usr/share/slfhst/cloudflare-ips/v6.txt" := NFile ("2001:db8::/32" +:+ nl) 420 0 0]}
  ("dhcp" +:+ nl +:+ "box1" +:+ nl +:+ "ana" +:+ nl +:+ nl +:+ "s3cret" +:+ nl +:+ "s3cret" +:+ nl) [].

Lemma Run_safe_witness :
  (Run live_image).1 = Ok tt /\
  exists root bulk w0 w1 n1, SelectDisks w0 = (Ok (root, bulk), w1) /\ trace (disk_event root bulk) (log w1) n1 /\
    exists w2, prepare live_image = (Ok tt, w2) /\ log w2 = n1 ++ log w1.
Proof.
  assert (Hok : (Run live_image).1 = Ok tt) by (vm_compute; reflexivity). split; [exact Hok|].
  assert (Hm : EOS "touch" [marker] ∈ log (Run live_image).2)
    by (apply (list_elem_of_lookup_2 _ 3%nat); vm_compute; reflexivity).
  pose proof (Run_safe live_image) as Hs.
  destruct (Run live_image) as [r w']. cbn [fst snd] in Hok, Hm. subst r. destruct Hs as (_ & new & Hl & Hor).
  destruct Hor as [[[] _]|(root & bulk & w0 & w1 & n0 & n1 & n2 & -> & Hsel & Hl1 & Hc & Ht & Hf & Hp)].
  exists root, bulk, w0, w1, n1. split_and!; [exact Hsel|exact Ht|apply Hp]. intros ->.
  rewrite Hl, app_nil_l, app_nil_r in Hm. apply elem_of_app in Hm as [Hm|Hm].
  - by eapply trace_no_marker.
  - by eapply calm_no_marker.
Defined.

Lemma Run_marks_last_witness :
  (Run live_image).1 = Ok tt /\ exists_at (fs (Run live_image).2) marker = true.
Proof.
  assert (Hok : (Run live_image).1 = Ok tt) by (vm_compute; reflexivity). split; [exact Hok|].
  pose proof (Run_marks_last live_image) as Hs. destruct (Run live_image) as [r w'].
  destruct Hs as (new & _ & _ & Hr). by apply Hr.
Defined.
