(* ===== verification/Effects.v ===== *)
(** The effects of the commands that run on the installed system, as an inductive
    class of computations: whatever is built from commands, reading files, writing
    some of them, the console, the network, the clock and the bus, but neither
    removes a file nor makes a marker.  Properties of all of them follow by rule
    induction. *)
From S2P Require Import Prelude Bytes GoStrings Signature Marshal Message Conn World Runx Json Config Bus Prompt.

(** No marker is made. *)
Definition unmarked (e : event) : Prop := match e with EOS op _ => op <> "touch" | _ => True end.

(** The files that a computation may write, and the directories that it may make *)
Record scope := Scope { writes_to : string -> Prop; makes : string -> Prop }.
Definition anywhere : scope := Scope (fun _ => True) (fun _ => True).
Definition nowhere : scope := Scope (fun _ => False) (fun _ => False).

Definition within (W' W : scope) : Prop :=
  (forall p, writes_to W' p -> writes_to W p) /\ (forall d, makes W' d -> makes W d).
Lemma within_anywhere W : within W anywhere.
Proof. by split. Qed.

(** [plain W m]: the files that [m] writes and the directories that it makes are
    in the scope [W]. *)
Section effects.
Context {E : Env} {M : MapRange} (W : scope).

Inductive plain : forall {A : Type}, ST World A -> Prop :=
| plain_pure {A} (m : ST World A) : (forall w, fs (m w).2 = fs w /\ log (m w).2 = log w) -> plain m
| plain_bind {A B} (m : ST World A) (k : A -> ST World B) : plain m -> (forall a, plain (k a)) -> plain (m ≫= k)
| plain_wrap {A} fmt (m : ST World A) : plain m -> plain (wrap fmt m)
| plain_try {A} (m : ST World A) : plain m -> plain (try m)
| plain_here {A} (k : World -> ST World A) : (forall w, plain (k w)) -> plain (fun w => k w w)
| plain_deferred {A} (m : ST World A) f : plain m -> plain f -> plain (deferred m f)
| plain_run argv opts : argv <> [] -> plain (Runx.Run argv opts)
| plain_net {A} ev (ask : list event -> A) : unmarked ev -> plain (net ev ask)
| plain_print s : plain (Print_out s)
| plain_mkdir p perm : makes W p -> plain (MkdirAll p perm)
| plain_write p c perm : writes_to W p -> plain (WriteFile p c perm)
| plain_chmod p perm : plain (Chmod p perm)
| plain_read p : plain (ReadFile p)
| plain_stat p : plain (Stat p)
| plain_ioctl req : plain (ioctl req)
| plain_glob dir suffix : plain (Glob dir suffix)
| plain_rand n : plain (rand_Read n)
| plain_statfs p : plain (Statfs p)
| plain_bus {A} fmt (m : ST (World * Conn) A) : plain_on m -> plain (with_system_bus fmt m)
  with plain_on : forall {A : Type}, ST (World * Conn) A -> Prop :=
| on_bind {A B} (m : ST (World * Conn) A) (k : A -> ST (World * Conn) B) :
  plain_on m -> (forall a, plain_on (k a)) -> plain_on (m ≫= k)
| on_wrap {A} fmt (m : ST (World * Conn) A) : plain_on m -> plain_on (wrap fmt m)
| on_try {A} (m : ST (World * Conn) A) : plain_on m -> plain_on (try m)
| on_lift {A} (r : outcome A) : plain_on (lift r)
| on_ret {A} (a : A) : plain_on (mret a)
| on_plain {A} (m : ST World A) : plain m -> plain_on (on_world m)
| on_bus {A} (m : ST Conn A) : plain_on (on_conn m).

Lemma plain_ret {A} (a : A) : plain (mret a).
Proof. by apply plain_pure. Qed.
Lemma plain_lift {A} (r : outcome A) : plain (lift r).
Proof. by apply plain_pure. Qed.
Lemma plain_get : plain st_get.
Proof. by apply plain_pure. Qed.
Lemma plain_ReadString : plain ReadString.
Proof. apply plain_pure. intros w. unfold ReadString. by destruct (read_line _) as [[]|]. Qed.
Lemma plain_run_ fmt argv opts : argv <> [] -> plain (run_ fmt argv opts).
Proof. intros Hne. apply plain_bind; [by apply plain_wrap, plain_run|]. intros _. apply plain_ret. Qed.
Lemma plain_RunChecked argv opts : argv <> [] -> plain (RunChecked argv opts).
Proof. intros Hne. apply plain_bind; [by apply plain_run|]. intros res. apply plain_ret. Qed.
End effects.

Scheme plain_mut := Minimality for plain Sort Prop
  with plain_on_mut := Minimality for plain_on Sort Prop.

#[export] Hint Resolve plain_ret plain_lift plain_get plain_ReadString plain_bind plain_wrap plain_try plain_deferred
  plain_print plain_mkdir plain_write plain_chmod plain_read plain_stat plain_ioctl plain_glob plain_rand plain_statfs
  on_bind on_wrap on_try on_lift on_ret on_plain on_bus : plain.
#[export] Hint Extern 1 (plain _ (Runx.Run _ _)) => apply plain_run; discriminate : plain.
#[export] Hint Extern 1 (plain _ (run_ _ _ _)) => apply plain_run_; discriminate : plain.
#[export] Hint Extern 1 (plain _ (RunChecked _ _)) => apply plain_RunChecked; discriminate : plain.
#[export] Hint Extern 1 (plain _ Now) => (apply plain_net; discriminate) : plain.
#[export] Hint Extern 1 (plain _ (Sleep _)) => (apply plain_net; exact I) : plain.
#[export] Hint Extern 1 (plain _ (net _ _)) => (apply plain_net; exact I) : plain.
#[export] Hint Extern 2 (plain _ (if _ then _ else _)) => case_match : plain.
#[export] Hint Extern 2 (plain _ (match _ with _ => _ end)) => case_match : plain.

#[export] Hint Extern 0 (unmarked (EOS _ _)) => discriminate : quiet.
#[export] Hint Extern 0 (unmarked (EOut _)) => exact I : quiet.
#[export] Hint Extern 0 (unmarked (ENet _ _)) => exact I : quiet.

(** ** Rule induction: what plain computations log *)
Section log.
Context {E : Env} {M : MapRange}.

Lemma plain_within {A} W W' (m : ST World A) : within W W' -> plain W m -> plain W' m.
Proof.
  intros [Hw Hm]. revert A m. apply (plain_mut E M W (fun A m => plain W' m) (fun A m => plain_on W' m));
    intros; auto with plain.
  - by apply plain_pure.
  - by apply plain_here.
  - by apply plain_run.
  - by apply plain_net.
  - by apply plain_bus.
Qed.

Lemma plain_unmarked {A} W (m : ST World A) : plain W m -> quiet unmarked m.
Proof.
  revert A m. apply (plain_mut E M W (fun A m => quiet unmarked m) (fun A m => quiet_on unmarked m));
    intros; try by auto with quiet.
  - intros w. destruct (H w) as [_ Hl]. destruct (m w) as [r w']. exists []. by split_and!.
  - intros w. apply (H0 w w).
  - apply quiet_Run; [done|exact I].
  - by apply quiet_io.
  - by apply quiet_system_bus.
Qed.
End log.

(** ** Rule induction: what plain computations preserve of the files

    A property of the files that commands preserve, and that making one of the
    directories of [W] or some of those above it, changing a mode and writing one of
    the files of [W] preserve, is preserved by all of them. *)
Section preserves.
Context {E : Env} {M : MapRange} (W : scope) (I : FS -> Prop).

Definition preserves_on {A} (m : ST (World * Conn) A) : Prop := forall s, I (fs s.1) -> I (fs (m s).2.1).

Context (Hexec : forall l f c, I f -> I (exec l f c).2).
Context (Hmkdir : forall p n perm f, makes W p -> I f -> I (mkdirs (take n (path_prefixes (clean p))) perm f).2).
Context (Hchmod : forall p perm f, I f -> I (change "chmod" (set_perm perm) p f).2).

Lemma preserves_Run argv opts : argv <> [] -> preserves I (Runx.Run argv opts).
Proof using Hexec.
  intros Hne w Hw. rewrite Run_ran by done. unfold ran. set (w1 := add_log _ w).
  pose proof (Hexec (log w1) (fs w1) (Cmd (buildArgv argv opts) (Env_ opts) (Input opts) (Capture opts)) Hw) as Hx.
  by destruct (exec (log w1) (fs w1) _).
Qed.

Context (Hwrite : forall p c perm f, writes_to W p -> I f -> I (write_with (fun _ => c) p perm f).2).

Lemma plain_preserves {A} (m : ST World A) : plain W m -> preserves I m.
Proof using Hexec Hmkdir Hchmod Hwrite.
  revert A m. apply (plain_mut E M W (fun A m => preserves I m) (fun A m => preserves_on m));
    try (intros; apply preserves_same; intros w; reflexivity).
  - intros A m Hm. apply preserves_same. intros w. apply Hm.
  - intros. by apply preserves_bind.
  - intros. by apply preserves_wrap.
  - intros A m _ Hm w Hw. specialize (Hm w Hw). unfold try. by destruct (m w) as [[]].
  - intros A k _ Hk w Hw. by apply Hk.
  - intros A m f _ Hm _ Hf w Hw. specialize (Hm w Hw). unfold deferred. destruct (m w) as [[]]; try by apply Hf. done.
  - intros argv opts Hne. by apply preserves_Run.
  - intros q perm Hq. apply preserves_io_with; intros; [|by apply Hmkdir].
    unfold mkdir_all. rewrite <- (take_ge (path_prefixes (clean q)) _ (le_n _)). by apply Hmkdir.
  - intros q c perm Hq. apply preserves_io_with; intros; by apply Hwrite.
  - intros q perm. apply preserves_io. auto.
  - intros q. by apply preserves_io.
  - intros q. apply preserves_io. intros f Hf. by rewrite stat_exists.
  - intros req. by apply preserves_io.
  - intros n w Hw. unfold rand_Read. by destruct (io_err _).
  - intros A fmt m _ Hm w Hw. unfold with_system_bus. destruct (bus _) as [stream|]; [|done].
    destruct (Dial _) as [[u|e| |] c]; try done.
    match goal with |- context [m ?s] => specialize (Hm s Hw); by destruct (m s) as [r [w' c']] end.
  - intros A B m k _ Hm _ Hk s Hs. specialize (Hm s Hs). unfold mbind, ST_bind.
    destruct (m s) as [[a|e| |] s1]; [by apply Hk|done..].
  - intros A fmt m _ Hm s Hs. specialize (Hm s Hs). unfold wrap. by destruct (m s).
  - intros A m _ Hm s Hs. specialize (Hm s Hs). unfold try. by destruct (m s) as [[]].
  - by intros A r s.
  - by intros A a s.
  - intros A m _ Hm [w c] Hw. specialize (Hm w Hw). unfold on_world. by destruct (m w).
  - intros A m [w c] Hw. unfold on_conn. by destruct (m c).
Qed.
End preserves.

(** *** A path stays, when no command removes it. *)
Section files.
Context {E : Env} {M : MapRange} (p : string).

Definition spares : Prop := forall l f c, exists_at f p = true -> exists_at (exec l f c).2 p = true.
Context (Hex : spares).

Lemma exists_at_change op upd q f :
  (forall n, match n, upd n with
    | NDir _ _ _, NDir _ _ _ | NFile _ _ _ _, NFile _ _ _ _ => True
    | NLink t, n' => n' = NLink t
    | _, _ => False end) ->
  exists_at f p = true -> exists_at (change op upd q f).2 p = true.
Proof.
  intros Hk. unfold change. destruct (f !! follow f q) as [n|] eqn:Hq; [|by destruct (is_dir _ _)].
  cbn [snd]. specialize (Hk n). destruct n as [pm u g|c pm u g|t].
  - destruct (upd _); [|done..]. apply exists_at_insert; [by rewrite Hq|done..].
  - destruct (upd _) as [|c' pm' u' g'|]; [done| |done]. unfold exists_at. rewrite follow_insert; [|by rewrite Hq|done].
    assert (Hd : is_dir (<[follow f q := NFile c' pm' u' g']> f) (follow f p) = is_dir f (follow f p)).
    { unfold is_dir. destruct (decide (follow f p = follow f q)) as [->|Hne]; [|by rewrite lookup_insert_ne].
      by rewrite lookup_insert_eq, Hq. }
    rewrite Hd. destruct (decide (follow f p = follow f q)) as [->|Hne]; [|by rewrite lookup_insert_ne].
    by rewrite lookup_insert_eq, Hq.
  - rewrite Hk. by rewrite insert_id.
Qed.

Definition keeps {A} (m : ST World A) : Prop := preserves (fun f => exists_at f p = true) m.

Lemma exists_at_chmod q perm f : exists_at f p = true -> exists_at (change "chmod" (set_perm perm) q f).2 p = true.
Proof. apply exists_at_change. by intros []. Qed.

Lemma plain_keeps {A} W (m : ST World A) : plain W m -> keeps m.
Proof using Hex.
  apply plain_preserves; [apply Hex|..]; intros.
  - by apply exists_at_mkdirs.
  - by apply exists_at_chmod.
  - by apply exists_at_write.
Qed.
End files.

(** *** A file keeps its content, when the program writes others and no command
    touches it.

    [sole f p]: no other path leads to where [p] leads. *)
Section content.
Context {E : Env} {M : MapRange} (p : string).

Definition sole (f : FS) : Prop := forall q, follow f q = follow f p -> clean q = clean p.
Definition content (f : FS) : option string :=
  match f !! follow f p with Some (NFile c _ _ _) => Some c | _ => None end.

(** Without links every path leads to itself. *)
Definition linkless (f : FS) : bool := forallb (fun kn : string * node => match kn.2 with NLink _ => false | _ => true end) (map_to_list f).
Lemma linkless_sole f : linkless f = true -> sole f.
Proof.
  unfold linkless. rewrite forallb_forall. intros Hf. unfold sole.
  assert (Hl : forall q, follow f q = clean q).
  { intros q. unfold follow. cbn [resolve]. destruct (f !! clean q) as [[]|] eqn:Hq; try done.
    by apply elem_of_map_to_list, list_elem_of_In, Hf in Hq. }
  intros q. by rewrite !Hl.
Qed.

(** Commands neither change the file nor make a link to it. *)
Class Untouched : Prop := {
  untouched_sole : forall l f c, sole f -> sole (exec l f c).2;
  untouched_content : forall l f c, sole f -> content (exec l f c).2 = content f;
}.

Lemma sole_insert f q n : not_link (f !! q) -> not_link (Some n) -> sole f -> sole (<[q := n]> f).
Proof. intros Hq Hn Hs r. rewrite !follow_insert by done. apply Hs. Qed.
Lemma content_insert f q n :
  not_link (f !! q) -> not_link (Some n) -> q <> follow f p -> content (<[q := n]> f) = content f.
Proof. intros Hq Hn Hne. unfold content. by rewrite follow_insert, lookup_insert_ne. Qed.

(** The file is there, with the content [c], and no other path leads to it. *)
Definition holds (c : string) (f : FS) : Prop := sole f /\ content f = Some c.

Lemma holds_mkdir c ps perm f : holds c f -> holds c (mkdirs ps perm f).2.
Proof.
  revert f.
  induction ps as [|r ps IH]; intros f Hf; [done|]. cbn [mkdirs].
  destruct (is_dir f (follow f r)); [by apply IH|]. destruct (f !! follow f r) eqn:Hr; [done|]. apply IH.
  destruct Hf as [Hs Hc]. split; [by apply sole_insert; [rewrite Hr|..]|].
  rewrite content_insert; [done|by rewrite Hr|done|]. intros He. unfold content in Hc. by rewrite <- He, Hr in Hc.
Qed.
Lemma holds_chmod c q perm f : holds c f -> holds c (change "chmod" (set_perm perm) q f).2.
Proof.
  unfold change. destruct (f !! follow f q) as [n|] eqn:Hq; [|by case_match]. intros [Hs Hc].
  destruct n as [pm u g|c' pm u g|t]; cbn [set_perm snd].
  - split; [by apply sole_insert; [rewrite Hq|..]|]. rewrite content_insert; [done|by rewrite Hq|done|].
    intros He. unfold content in Hc. by rewrite <- He, Hq in Hc.
  - split; [by apply sole_insert; [rewrite Hq|..]|]. unfold content in *. rewrite follow_insert; [|by rewrite Hq|done].
    destruct (decide (follow f q = follow f p)) as [He|Hne]; [|by rewrite lookup_insert_ne].
    rewrite He, lookup_insert_eq. by rewrite <- He, Hq in Hc.
  - by rewrite insert_id.
Qed.
Lemma holds_write c upd q perm f :
  clean q <> clean p \/ (forall c', upd c' = c') -> holds c f -> holds c (write_with upd q perm f).2.
Proof.
  intros Hq [Hs Hc]. destruct (write_with upd q perm f) as [r f'] eqn:Hw.
  destruct r as [[]|e| |].
  - apply write_with_ok in Hw as (c' & pm & u & g & -> & Hl & _ & Hold). cbn [snd].
    split; [by apply sole_insert|]. destruct (decide (follow f q = follow f p)) as [He|Hne].
    + destruct Hq as [Hq|Hq]; [by apply Hs in He|]. unfold content in *. rewrite follow_insert by done.
      rewrite He in *. rewrite lookup_insert_eq. destruct (f !! follow f p) as [[]|]; try done.
      destruct Hold as (-> & _). by rewrite Hq.
    + by rewrite content_insert.
  - unfold write_with in Hw. repeat case_match; by simplify_eq.
  - unfold write_with in Hw. by repeat case_match.
  - unfold write_with in Hw. by repeat case_match.
Qed.

Lemma plain_holds `{!Untouched} {A} W c (m : ST World A) :
  (forall q, writes_to W q -> clean q <> clean p) -> plain W m -> preserves (holds c) m.
Proof.
  intros HW. apply plain_preserves.
  - intros l f cm [Hs Hc]. split; [by apply untouched_sole|by rewrite untouched_content].
  - intros. by apply holds_mkdir.
  - intros. by apply holds_chmod.
  - intros q c' perm f Hq. apply holds_write. left. by apply HW.
Qed.

(** Making a marker does not change it. *)
Lemma holds_MarkDone c store name : preserves (holds c) (MarkDone store name).
Proof.
  unfold MarkDone. apply preserves_bind; [apply preserves_wrap, preserves_io_with; intros; by apply holds_mkdir|].
  intros _. apply preserves_wrap, preserves_io_with; intros; (apply holds_write; [by right|done]).
Qed.

(** No link is made either. *)
Lemma plain_sole `{!Untouched} {A} W (m : ST World A) : plain W m -> preserves sole m.
Proof.
  apply plain_preserves.
  - intros. by apply untouched_sole.
  - intros p' n perm f _. generalize (take n (path_prefixes (clean p'))). intros ps. revert f.
    induction ps as [|r ps IH]; intros f Hf; [done|]. cbn [mkdirs].
    destruct (is_dir f (follow f r)); [by apply IH|]. destruct (f !! follow f r) eqn:Hr; [done|].
    apply IH. by apply sole_insert; [rewrite Hr|..].
  - intros q perm f Hf. unfold change. destruct (f !! follow f q) as [[]|] eqn:Hq; [..|by case_match];
      cbn [set_perm snd]; [by apply sole_insert; [rewrite Hq|..]..|by rewrite insert_id].
  - intros q c perm f _ Hf. destruct (write_with _ q perm f) as [[[]|e| |] f'] eqn:Hw.
    + apply write_with_ok in Hw as (c' & pm & u & g & -> & Hl & _). by apply sole_insert.
    + unfold write_with in Hw. repeat case_match; by simplify_eq.
    + unfold write_with in Hw. by repeat case_match.
    + unfold write_with in Hw. by repeat case_match.
Qed.
End content.
