(* ===== verification/Setup.v ===== *)
(** The second stage (internal/setup/setup.go): the steps an administrator runs
    after the first boot, in order, and the marker that ends them. *)
From S2P Require Import Prelude Bytes GoStrings Signature Marshal Message Conn World Runx Json Config Dnscf Bus Peer Sysupdate.
From S2P Require Import Firewall Monitor Quadlet Regex Prompt Netconf Wizard Deploy Healthcheck Backing Effects.

Section setup.
Context {E : Env} {M : MapRange}.

(** [Run] after the questions, up to the health check *)
Definition after_questions (store : Store) (cfg : config) : ST World unit :=
  _ ← SyncCloudflareIPSets;
  r ← try Sysupdate.Check;
  _ ← match r with
    | inr _ => Print_out ("update check failed: %v" +:+ nl)
    | inl _ => mret tt
    end;
  _ ← EnsureSecrets cfg;
  _ ← RenderAll cfg;
  _ ← Deploy.Run store;
  _ ← Backing.Run store;
  _ ← Dnscf.Sync store;
  Healthcheck.Run store.

Definition run_steps (store : Store) : ST World unit :=
  cfg ← RunPostBoot store;
  after_questions store cfg.

Definition Run (store : Store) : ST World unit :=
  _ ← RequireDone store "stage1";
  _ ← run_steps store;
  MarkDone store "stage2".
End setup.

(** ** Lemmas: every step is plain

    The files written after the questions: the rendered templates, the plan of the
    mail server and the message of the day *)
Definition rendered (dest : string) : Prop := exists tmpl, resolveDest (trim_suffix (path_base tmpl) ".tmpl") = Some dest.
Definition written (p : string) : Prop :=
  rendered p \/ p = path_join [stalwartPlanDir; "plan.ndjson"] \/ p = motdFile.
Definition made (d : string) : Prop :=
  d ∈ [quadletDir; unitDir; stalwartPlanDir; path_dir motdFile] \/ exists dest, rendered dest /\ d = path_dir dest.
Definition after_scope : scope := Scope written made.
Definition saves (store : Store) : scope := Scope (eq (path store ConfigFile)) (eq (path store ConfigDir)).

Section plain.
Context {E : Env} {M : MapRange} (W : scope).

Lemma plain_Load s : plain W (Load s).
Proof. unfold Load. apply plain_bind; [auto with plain|]. intros [data|[]]; auto with plain. Qed.
Lemma plain_Save s cfg : within (saves s) W -> plain W (Save s cfg).
Proof. intros [Hw Hm]. specialize (Hw _ eq_refl). specialize (Hm _ eq_refl). unfold Save. auto 8 with plain. Qed.
Lemma plain_GenSecret n : plain W (GenSecret n).
Proof. unfold GenSecret. auto 8 with plain. Qed.
Lemma plain_IsDone s name : plain W (IsDone s name).
Proof. unfold IsDone. auto 8 with plain. Qed.
Lemma plain_RequireDone s name : plain W (RequireDone s name).
Proof. unfold RequireDone. apply plain_bind; [apply plain_IsDone|]. intros []; auto with plain. Qed.
#[local] Hint Resolve plain_Load plain_Save plain_GenSecret plain_IsDone plain_RequireDone : plain.

(** *** The questions *)
Lemma plain_Ask label opts : plain W (Ask label opts).
Proof.
  apply (plain_here W (fun w => ask_loop (S (slen (console w))) label opts)). intros w.
  generalize (S (slen (console w))). intros gas. induction gas as [|gas IH]; cbn [ask_loop]; [auto with plain|].
  apply plain_bind; [auto with plain|]. intros _. apply plain_bind; [auto with plain|]. intros line.
  destruct (answer_of opts line); auto with plain.
Qed.
Lemma plain_AskSecret label : plain W (AskSecret label).
Proof. unfold AskSecret. auto 14 with plain. Qed.
Lemma plain_Banner text : plain W (Banner text).
Proof. unfold Banner. cbv zeta. auto 8 with plain. Qed.
#[local] Hint Resolve plain_Ask plain_AskSecret plain_Banner : plain.
Lemma plain_ask_secrets keys cfg : plain W (ask_secrets keys cfg).
Proof. revert cfg. induction keys as [|k keys IH]; intros cfg; cbn [ask_secrets]; auto 8 with plain. Qed.
Lemma plain_gen_secrets keys cfg : plain W (gen_secrets keys cfg).
Proof. revert cfg. induction keys as [|k keys IH]; intros cfg; cbn [gen_secrets]; auto 8 with plain. Qed.
Lemma plain_token_loop gas : plain W (token_loop gas).
Proof. induction gas as [|gas IH]; cbn [token_loop]; auto with plain. Qed.
Lemma plain_RunPostBoot store : within (saves store) W -> plain W (RunPostBoot store).
Proof.
  intros HW. unfold RunPostBoot. cbv zeta. apply plain_bind; [auto with plain|]. intros loaded. case_decide; [auto with plain|].
  do 7 (apply plain_bind; [auto with plain|]; intros ?). apply plain_bind; [apply plain_token_loop|]. intros tok.
  auto 12 using plain_ask_secrets, plain_gen_secrets with plain.
Qed.

(** *** The bus *)
Lemma plain_readCIDRList path : plain W (readCIDRList path).
Proof. unfold readCIDRList. apply plain_bind; [auto with plain|]. intros text. destruct (scan text). auto with plain. Qed.
Lemma plain_SyncCloudflareIPSets : plain W SyncCloudflareIPSets.
Proof.
  unfold SyncCloudflareIPSets. apply plain_bus. unfold SyncCloudflareIPSets_on.
  apply on_bind; [|auto with plain]. generalize cfIPSets. intros specs.
  induction specs as [|s specs IH]; cbn [sync_sets]; auto 12 using plain_readCIDRList with plain.
Qed.
Lemma on_currentTargets : plain_on W currentTargets.
Proof.
  unfold currentTargets, listTargets. apply on_bind; [|auto with plain]. apply on_bind; [auto with plain|].
  intros vs. repeat case_match; auto with plain.
Qed.
Lemma on_checkNew t : plain_on W (checkNew t).
Proof. unfold checkNew. auto with plain. Qed.
#[local] Hint Resolve on_currentTargets on_checkNew : plain.
Lemma plain_Check : plain W Sysupdate.Check.
Proof.
  unfold Sysupdate.Check. apply plain_bus. unfold Check_on. apply on_bind; [auto with plain|].
  intros managed. apply on_bind; [|auto with plain]. generalize (@nil error).
  induction managed as [|t managed IH]; intros errs; cbn [check_loop]; [auto with plain|].
  apply on_bind; [auto with plain|]. intros [v|e]; auto with plain.
Qed.
Lemma plain_CheckNewVersion : plain W CheckNewVersion.
Proof.
  unfold CheckNewVersion. apply plain_bus. unfold CheckNewVersion_on. apply on_bind; [auto with plain|].
  intros [|t0 managed]; cbv zeta; auto with plain.
Qed.
Lemma plain_Apply : plain W Sysupdate.Apply.
Proof.
  unfold Sysupdate.Apply. apply plain_bus. unfold Apply_on. apply on_bind; [auto with plain|].
  intros managed. apply on_bind; [|auto with plain]. generalize (@nil error).
  induction managed as [|t managed IH]; intros errs; cbn [apply_loop]; [auto with plain|].
  apply on_bind; [auto with plain|]. intros [v|e]; [|auto with plain].
  apply on_bind; [auto with plain|]. intros [vs|e]; auto with plain.
Qed.

(** *** Secrets, templates and containers *)
Lemma plain_EnsureSecrets cfg : plain W (EnsureSecrets cfg).
Proof.
  unfold EnsureSecrets. apply plain_bind; [auto with plain|]. intros w. generalize (range_files (log w) secretEnvNames).
  intros l. induction l as [|[k n] l IH]; cbn [ensure_secrets]; [auto with plain|]. cbv zeta. auto 12 with plain.
Qed.
Lemma plain_RenderAll cfg : within after_scope W -> plain W (RenderAll cfg).
Proof.
  intros [HW HM]. assert (makes W quadletDir /\ makes W unitDir) as [Hq Hu] by (split; apply HM; left; set_solver).
  unfold RenderAll. do 3 (apply plain_bind; [auto with plain|]; intros ?). apply plain_bind; [auto with plain|].
  intros entries. apply plain_bind; [|auto 8 with plain]. generalize (merge_sort String.le entries). intros l.
  induction l as [|p l IH]; cbn [render_entries]; [auto with plain|]. cbv zeta.
  destruct (resolveDest _) as [dest|] eqn:Hd; [|auto with plain].
  assert (Hr : rendered dest) by (by exists p). assert (writes_to W dest) by (apply HW; by left).
  assert (makes W (path_dir dest)) by (apply HM; right; eauto). auto 12 with plain.
Qed.
Lemma plain_deploy store : plain W (Deploy.Run store).
Proof.
  unfold Deploy.Run, pullImages, startStack. apply plain_bind; [auto with plain|]. intros _.
  apply plain_bind; [|auto with plain]. apply plain_bind; [auto with plain|]. intros paths. apply plain_bind.
  - generalize (∅ : gset string, @nil string). induction paths as [|p paths IH]; intros st; cbn [read_images]; auto with plain.
  - intros images. induction images as [|i l IH]; cbn [pull_each]; auto with plain.
Qed.

(** *** Backing services *)
Lemma plain_garage container args : plain W (podmanExecGarage container args).
Proof. unfold podmanExecGarage. auto with plain. Qed.
#[local] Hint Resolve plain_garage : plain.
Lemma plain_poll_until {A B} (attempt : ST World (A + B)) timeout pause late :
  plain W attempt -> (forall b, plain W (late b)) -> plain W (poll_until attempt timeout pause late).
Proof.
  intros Ha Hl. unfold poll_until. apply plain_bind; [auto with plain|]. intros t.
  match goal with |- plain W (poll ?g _ _ _ _) => generalize g end. intros gas. induction gas as [|gas IH]; cbn [poll]; [auto with plain|].
  apply plain_bind; [done|]. intros [a|b]; auto 8 with plain.
Qed.
Lemma plain_waitFor container timeout : plain W (waitFor container timeout).
Proof. apply plain_poll_until; auto with plain. Qed.
#[local] Hint Resolve plain_waitFor : plain.
Lemma plain_garageCapacity : plain W garageCapacity.
Proof. unfold garageCapacity, garageCapacityAt. apply plain_bind; [auto with plain|]. intros [bavail bsize]. auto with plain. Qed.
Lemma plain_BootstrapGarage : plain W BootstrapGarage.
Proof.
  unfold BootstrapGarage. do 2 (apply plain_bind; [auto with plain|]; intros ?). apply plain_bind; [|auto 12 with plain].
  cbv zeta. destruct (already_assigned _); auto 8 using plain_garageCapacity with plain.
Qed.
Lemma plain_backing store : within after_scope W -> plain W (Backing.Run store).
Proof.
  intros [HW HM]. assert (writes_to W (path_join [stalwartPlanDir; "plan.ndjson"])) by (apply HW; by right; left).
  assert (makes W stalwartPlanDir) by (apply HM; left; set_solver).
  unfold Backing.Run, WaitForPostgres, HardenStalwart. cbv zeta.
  do 3 (apply plain_bind; [auto with plain|]; intros ?). apply plain_bind; [apply plain_BootstrapGarage|].
  intros _. apply plain_bind; [auto with plain|]. intros _. case_decide; [auto with plain|].
  do 2 (apply plain_bind; [auto with plain|]; intros ?). apply plain_poll_until; [|auto with plain].
  unfold apply_once. auto with plain.
Qed.

(** *** DNS and the health check *)
Lemma plain_PublicIP : plain W PublicIP.
Proof.
  unfold PublicIP. apply plain_bind; [auto with plain|]. intros [|code body]; [auto with plain|].
  destruct (scan body). auto with plain.
Qed.
Lemma plain_request {A} method path token body (out : json -> outcome A) : plain W (request method path token body out).
Proof. unfold request. apply plain_bind; [auto with plain|]. intros [|status data]; auto 8 with plain. Qed.
Lemma plain_upsert zone token existing rec : plain W (upsert zone token existing rec).
Proof. induction existing as [|e l IH]; cbn [upsert]; auto using plain_request with plain. Qed.
Lemma plain_Sync store : plain W (Dnscf.Sync store).
Proof.
  unfold Dnscf.Sync. cbv zeta. do 2 (apply plain_bind; [auto with plain|]; intros ?). case_decide; [auto with plain|].
  apply plain_bind; [apply plain_PublicIP|]. intros ip.
  apply plain_bind; [unfold zoneID; auto using plain_request with plain|].
  intros zone. apply plain_bind; [apply plain_request|]. intros existing. apply plain_bind.
  { match goal with |- plain W (upsert_all _ _ _ ?l) => generalize l end. intros recs.
    induction recs as [|r recs IH]; cbn [upsert_all]; auto using plain_upsert with plain. }
  intros _. destruct (stalwartDKIMTXT _); auto using plain_upsert with plain.
Qed.
Lemma plain_ServiceStatus : plain W ServiceStatus.
Proof.
  unfold ServiceStatus. generalize (∅ : gmap string string). generalize appServices. intros l.
  induction l as [|n l IH]; intros out; cbn [status_loop]; auto 8 with plain.
Qed.
Lemma plain_healthcheck store : within after_scope W -> plain W (Healthcheck.Run store).
Proof.
  intros [HW HM]. assert (writes_to W motdFile) by (apply HW; by right; right).
  assert (makes W (path_dir motdFile)) by (apply HM; left; set_solver).
  unfold Healthcheck.Run, writeMOTD. cbv zeta. auto 12 using plain_ServiceStatus with plain.
Qed.

Lemma plain_after store cfg : within after_scope W -> plain W (after_questions store cfg).
Proof.
  intros HW. unfold after_questions. apply plain_bind; [apply plain_SyncCloudflareIPSets|]. intros _.
  apply plain_bind; [apply plain_try, plain_Check|]. intros r. apply plain_bind; [auto with plain|]. intros _.
  apply plain_bind; [apply plain_EnsureSecrets|]. intros _.
  apply plain_bind; [by apply plain_RenderAll|]. intros _.
  apply plain_bind; [apply plain_deploy|]. intros _.
  apply plain_bind; [by apply plain_backing|]. intros _.
  apply plain_bind; [apply plain_Sync|]. intros _. by apply plain_healthcheck.
Qed.
Lemma plain_steps store :
  within (saves store) W -> within after_scope W -> plain W (run_steps store).
Proof. intros Hc HW. apply plain_bind; [by apply plain_RunPostBoot|]. intros cfg. by apply plain_after. Qed.
End plain.

(** None of these files is the configuration. *)
Lemma rendered_path dest : rendered dest ->
  dest ∈ path_join <$> [[DataDir; "traefik/dynamic"; "traefik-dynamic.yml"]; [DataDir; "ente"; "museum.yaml"]; [DataDir; "garage"; "garage.toml"]] \/
  exists d n, (d = quadletDir /\ existsb (has_suffix n) quadletSuffixes = true \/ d = unitDir /\ has_suffix n ".target" = true) /\
    plain_name n = true /\ dest = d +:+ "/" +:+ n /\ clean dest = dest.
Proof.
  intros [tmpl Hd]. set (stem := trim_suffix _ _) in Hd. unfold resolveDest in Hd.
  destruct (configFileDests !! stem) as [sub|] eqn:Hc.
  { left. injection Hd as <-. unfold configFileDests in Hc.
    repeat (apply lookup_insert_Some in Hc as [[<- <-]|[_ Hc]]; [set_solver|]).
    apply lookup_singleton_Some in Hc as [<- <-]. set_solver. }
  right. assert (Hname : forall p, has_suffix stem p = true -> (2 < slen p)%nat -> plain_name stem = true).
  { intros p Hs%has_suffix_length Hp. apply long_plain_name; [|lia].
    destruct (path_base_no_slash tmpl) as [Hb|Hb]; [|by apply trim_suffix_no_char].
    unfold stem in Hs. rewrite Hb in Hs. simpl in Hs. lia. }
  assert (Hjoin : forall d, abs_path d -> plain_name stem = true ->
    path_join [d; stem] = d +:+ "/" +:+ stem /\ clean (path_join [d; stem]) = path_join [d; stem]).
  { intros d Hd' Hn. rewrite path_join_name by done. split; [done|by apply clean_snoc]. }
  assert (Hq : abs_path quadletDir /\ abs_path unitDir) by (by vm_compute). destruct Hq as [Hq Hu].
  destruct (existsb (has_suffix stem) quadletSuffixes) eqn:He.
  - injection Hd as <-. pose proof He as (p & Hin & Hs)%existsb_exists.
    assert (Hn : plain_name stem = true) by (apply (Hname p Hs); destruct Hin as [<-|[<-|[<-|[]]]]; simpl; lia).
    destruct (Hjoin quadletDir Hq Hn) as [Hj Hcl].
    exists quadletDir, stem. split_and!; [left; split; [done|exact He]|exact Hn|exact Hj|exact Hcl].
  - destruct (has_suffix stem ".target") eqn:Ht; [|done]. injection Hd as <-.
    assert (Hn : plain_name stem = true) by (by apply (Hname ".target"); [|simpl; lia]).
    destruct (Hjoin unitDir Hu Hn) as [Hj Hcl].
    exists unitDir, stem. split_and!; [right; split; [done|exact Ht]|exact Hn|exact Hj|exact Hcl].
Qed.

Lemma written_not_config q : written q -> clean q <> ConfigFile.
Proof.
  intros [Hr|[-> | ->]]; [|by vm_compute..].
  apply rendered_path in Hr as [Hin|(d & n & Hd & _ & -> & ->)].
  - repeat (apply elem_of_cons in Hin as [->|Hin]; [by vm_compute|]). by apply elem_of_nil in Hin.
  - destruct Hd as [[-> _]|[-> _]]; by vm_compute.
Qed.

(** ** The second stage ends: it only panics when the configuration is null. *)
Section ends.
Context {E : Env} `{MapRangeOk, !BusLawful, !ClockOk}.

(** The file of the configuration, as it is in [w], is read as null. *)
Definition null_in (store : Store) (w : World) : Prop := exists w1, fs w1 = fs w /\ (Load store w1).1 = Ok None.

Lemma ends_after_questions store cfg : ends (after_questions store cfg).
Proof.
  unfold after_questions. apply ends_bind; [apply ends_SyncCloudflareIPSets|]. intros _. apply ends_bind; [auto with ends|]. intros r.
  apply ends_bind; [auto with ends|]. intros _. apply ends_bind; [apply ends_EnsureSecrets|]. intros _.
  apply ends_bind; [apply ends_RenderAll|]. intros _. apply ends_bind; [apply ends_Run_deploy|]. intros _.
  apply ends_bind; [apply ends_Run_backing|]. intros _. apply ends_bind; [apply ends_Sync|]. intros _.
  apply ends_Run_healthcheck.
Qed.

Lemma Stat_fs p w : fs (Stat p w).2 = fs w.
Proof. unfold Stat, stat. rewrite io_cases. by destruct (io_err _). Qed.
Lemma RequireDone_fs store name w : fs (RequireDone store name w).2 = fs w.
Proof.
  unfold RequireDone, IsDone, mbind, ST_bind, try. pose proof (Stat_fs (markerPath store name) w) as Hs.
  destruct (Stat (markerPath store name) w) as [[[]|e| |] w1]; done.
Qed.

Lemma Run_ends store w :
  match (Run store w).1 with Ok _ | Err _ => True | Panic => null_in store w | OutOfFuel => False end.
Proof.
  unfold Run, mbind at 1, ST_bind at 1. pose proof (ends_RequireDone store "stage1" w) as Hr.
  pose proof (RequireDone_fs store "stage1" w) as Hf.
  destruct (RequireDone store "stage1" w) as [[[]|e| |] w1]; try done. cbn [snd] in Hf.
  unfold run_steps, mbind at 1, ST_bind at 1. unfold mbind at 1, ST_bind at 1.
  pose proof (RunPostBoot_may_panic store w1) as Hq. destruct (RunPostBoot store w1) as [[cfg|e| |] w2]; try done.
  - pose proof (ends_after_questions store cfg w2) as Ha. destruct (after_questions store cfg w2) as [[[]|e| |] w3]; try done.
    pose proof (ends_MarkDone store "stage2" w3) as Hm. by destruct (MarkDone store "stage2" w3) as [[]].
  - by exists w1.
Qed.
End ends.

(** ** The configuration that the steps load *)
Section configuration.
Context {E : Env} `{!FaultsOk} {M : MapRange}.

Definition settled (store : Store) (cfg : config) (f : FS) : Prop := exists text,
  holds (path store ConfigFile) text f /\ unmarshal_map text = Ok (Some cfg).

Lemma settled_stored store cfg f : settled store cfg f -> stored store f = Ok (Some cfg).
Proof.
  intros (text & [_ Hc] & Hu). unfold content in Hc. destruct (f !! _) as [[|c pm u g|]|] eqn:Hf; try done.
  injection Hc as ->. by rewrite (stored_file _ _ _ _ _ _ Hf).
Qed.
Lemma stored_settled store cfg f :
  sole (path store ConfigFile) f -> stored store f = Ok (Some cfg) -> cfg_string cfg "domain" <> "" ->
  settled store cfg f.
Proof.
  intros Hs Hl Hd. unfold stored, read_file in Hl. unfold settled, holds, content.
  destruct (f !! _) as [[|c pm u g|]|]; cbn in Hl; try done; [by exists c| |];
    (destruct (is_dir _ _); [done|]; by injection Hl as <-).
Qed.

Lemma settled_MarkDone store cfg name : preserves (settled store cfg) (MarkDone store name).
Proof. intros w (text & Hh & Hu). exists text. split; [|done]. by apply holds_MarkDone. Qed.

(** A configuration that has a domain is left alone by the questions: either it
    cannot be read, or they are not asked. *)
Lemma RunPostBoot_settled store cfg w :
  stored store (fs w) = Ok (Some cfg) -> cfg_string cfg "domain" <> "" ->
  exists r, RunPostBoot store w = (r, (Load store w).2) /\ (r = Ok cfg \/ exists e, r = Err e).
Proof.
  intros Hl Hd. unfold RunPostBoot, mbind at 1, ST_bind at 1.
  destruct (Load store w) as [r w1] eqn:Hload. apply Load_stored in Hload as (_ & _ & [[e ->]| ->]); [eauto|].
  rewrite Hl. cbv zeta. cbn [default]. rewrite decide_True by done. eauto.
Qed.

Lemma domain_asked m cfg : captured m cfg -> cfg_string cfg "domain" <> "".
Proof. intros [Hl _] He. rewrite He in Hl. apply matches_lang in Hl. by vm_compute in Hl. Qed.

(** The questions settle it. *)
Lemma RunPostBoot_settles `{!Untouched (path store ConfigFile)} w cfg w' :
  sole (path store ConfigFile) (fs w) -> RunPostBoot store w = (Ok cfg, w') ->
  settled store cfg (fs w') /\ cfg_string cfg "domain" <> "".
Proof.
  intros Hs Hr. pose proof (RunPostBoot_ok _ _ _ _ Hr) as (loaded & Hl & Hor).
  assert (Hs' : sole (path store ConfigFile) (fs w')).
  { pose proof (plain_sole _ anywhere _ (plain_RunPostBoot anywhere store (within_anywhere _)) w Hs) as Hp. by rewrite Hr in Hp. }
  case_decide as Hd.
  - destruct Hor as (-> & Hf & _). split; [|done]. rewrite Hf. apply stored_settled; [done| |done].
    destruct loaded; [done|]. by destruct Hd.
  - destruct Hor as (Hc & Hl' & _). pose proof (domain_asked _ _ Hc). split; [by apply stored_settled|done].
Qed.

(** Nothing else touches it. *)
Lemma plain_settled `{!Untouched (path store ConfigFile)} {A} W cfg (m : ST World A) :
  (forall q, writes_to W q -> clean q <> clean (path store ConfigFile)) -> plain W m -> preserves (settled store cfg) m.
Proof.
  intros HW Hm w (text & Hh & Hu). exists text. split; [|done]. by apply (plain_holds _ W).
Qed.
End configuration.

(** The steps after the questions, one after the other *)
Section steps.
Context {E : Env} {M : MapRange}.

Definition steps (store : Store) (cfg : config) : list (ST World unit) := [
  SyncCloudflareIPSets;
  r ← try Sysupdate.Check;
  match r with inr _ => Print_out ("update check failed: %v" +:+ nl) | inl _ => mret tt end;
  EnsureSecrets cfg;
  RenderAll cfg;
  Deploy.Run store;
  Backing.Run store;
  Dnscf.Sync store;
  Healthcheck.Run store].
Fixpoint in_turn (l : list (ST World unit)) : ST World unit :=
  match l with [] => mret tt | m :: l => _ ← m; in_turn l end.

Lemma after_questions_steps store cfg w : after_questions store cfg w = in_turn (steps store cfg) w.
Proof.
  unfold after_questions, steps. cbn [in_turn]. unfold mbind, ST_bind, mret, ST_ret.
  destruct (SyncCloudflareIPSets w) as [[[]|e| |] w1]; try done.
  destruct (try Sysupdate.Check w1) as [[r|e| |] w2]; try done.
  destruct ((match r with inr _ => _ | inl _ => _ end : ST World unit) w2) as [[[]|e| |] w3]; try done.
  destruct (EnsureSecrets cfg w3) as [[[]|e| |] w4]; try done. destruct (RenderAll cfg w4) as [[[]|e| |] w5]; try done.
  destruct (Deploy.Run store w5) as [[[]|e| |] w6]; try done. destruct (Backing.Run store w6) as [[[]|e| |] w7]; try done.
  destruct (Dnscf.Sync store w7) as [[[]|e| |] w8]; try done. by destruct (Healthcheck.Run store w8) as [[[]|e| |] w9].
Qed.

Lemma steps_plain store cfg : Forall (plain after_scope) (steps store cfg).
Proof.
  unfold steps. repeat apply Forall_cons_2; [..|apply Forall_nil_2].
  - apply plain_SyncCloudflareIPSets.
  - apply plain_bind; [apply plain_try, plain_Check|]. intros r. auto with plain.
  - apply plain_EnsureSecrets.
  - by apply plain_RenderAll.
  - apply plain_deploy.
  - by apply plain_backing.
  - apply plain_Sync.
  - by apply plain_healthcheck.
Qed.
Lemma in_turn_plain l : Forall (plain after_scope) l -> plain after_scope (in_turn l).
Proof. induction 1; cbn [in_turn]; auto with plain. Qed.
End steps.

Lemma unmarked_no_touch n p args : Forall unmarked n -> EOS "touch" args ∈ n ++ [EOS "stat" p] -> False.
Proof.
  intros Hf [Hin|Hin]%elem_of_app; [rewrite Forall_forall in Hf; by apply (Hf _ Hin)|].
  by apply elem_of_cons in Hin as [[=]|[]%elem_of_nil].
Qed.

(** Making a marker *)
Lemma MarkDone_event `{Env} store w :
  let '(r, w') := MarkDone store "stage2" w in exists new, log w' = new ++ log w /\
    Forall (fun e => match e with
      | EOS op args => op = "mkdir" \/ op = "touch" /\ args = [markerPath store "stage2"] | _ => False end) new /\
    forall a, r = Ok a -> True.
Proof.
  apply (quiet_bind (fun e => match e with
    | EOS op args => op = "mkdir" \/ op = "touch" /\ args = [markerPath store "stage2"] | _ => False end)).
  - apply quiet_wrap, quiet_io. by left.
  - intros _. apply quiet_wrap, quiet_io. by right.
Qed.

Lemma Run_marks `{Env, MapRange} store w :
  let '(r, w') := Run store w in
  exists new, log w' = new ++ log w /\
    (exists_at (fs w) (markerPath store "stage1") = false ->
       (exists e, r = Err e /\ is_not_done e = true) /\ new = [EOS "stat" [markerPath store "stage1"]] /\
       fs w' = fs w /\ console w' = console w) /\
    (forall args, EOS "touch" args ∈ new -> args = [markerPath store "stage2"] /\
       exists w1 w2, RequireDone store "stage1" w = (Ok tt, w1) /\ run_steps store w1 = (Ok tt, w2)) /\
    (r = Ok tt -> exists_at (fs w') (markerPath store "stage2") = true).
Proof.
  unfold Run, mbind at 1, ST_bind. rewrite RequireDone_cases. set (w1 := add_log _ w).
  destruct (io_err _).
  { eexists [_]. split_and!; [reflexivity| |by intros args [[=]|[]%elem_of_nil]%elem_of_cons|done].
    intros _. split_and!; [by eexists|done..]. }
  destruct (exists_at (fs w) (markerPath store "stage1")) eqn:Hs1.
  2: { eexists [_]. split_and!; [reflexivity| |by intros args [[=]|[]%elem_of_nil]%elem_of_cons|done].
       intros _. split_and!; [by eexists|done..]. }
  unfold mbind at 1. pose proof (plain_unmarked _ _ (plain_steps anywhere store (within_anywhere _) (within_anywhere _)) w1) as Hq.
  destruct (run_steps store w1) as [[[]|e| |] w2] eqn:Hst; destruct Hq as (n & Hl & Hf & _).
  2-4: exists (n ++ [EOS "stat" [markerPath store "stage1"]]);
    (split_and!; [by rewrite Hl, <- (assoc_L (++))|done|intros args Hin; exfalso; by eapply unmarked_no_touch|done]).
  pose proof (MarkDone_event store w2) as Hm. pose proof (MarkDone_exists store "stage2" w2) as Hd.
  destruct (MarkDone store "stage2" w2) as [r w']. destruct Hm as (m & Hl' & Hm & _).
  exists (m ++ n ++ [EOS "stat" [markerPath store "stage1"]]). split_and!.
  - by rewrite Hl', Hl, <- !(assoc_L (++)).
  - done.
  - intros args [Hin|Hin]%elem_of_app; [|exfalso; by eapply unmarked_no_touch].
    rewrite Forall_forall in Hm. destruct (Hm _ Hin) as [[=]|[_ ->]]. split; [done|]. by exists w1, w2.
  - intros ->. by eapply (Hd w' "").
Qed.

(** * Properties *)

(** C15: the second stage is all or nothing as far as the later commands can see:
    without the marker of the first stage it does nothing (the error is the one
    that the command line turns into a clean exit); its own marker is only made
    when every step before it succeeded (a failed check for updates apart, which
    is reported and ignored); and when it succeeds the marker is there.  This holds
    whatever the operating system makes fail. *)
Theorem Run_marks_stage2 `{Env, MapRange} store w :
  let '(r, w') := Run store w in
  exists new, log w' = new ++ log w /\
    (exists_at (fs w) (markerPath store "stage1") = false ->
       (exists e, r = Err e /\ is_not_done e = true) /\ new = [EOS "stat" [markerPath store "stage1"]] /\
       fs w' = fs w /\ console w' = console w) /\
    (forall args, EOS "touch" args ∈ new -> args = [markerPath store "stage2"] /\
       exists w1 w2, RequireDone store "stage1" w = (Ok tt, w1) /\ run_steps store w1 = (Ok tt, w2)) /\
    (r = Ok tt -> exists_at (fs w') (markerPath store "stage2") = true).
Proof. apply Run_marks. Qed.

(** C25: the steps of the second stage act on the administrator's answers: once the
    questions have returned a configuration, it has a domain, and at every point
    between the steps that follow, however far they get, it is what
    config.json reads as (deployment, bootstrap, DNS records and the last check
    load it again), whatever the operating system makes fail; provided that no
    other path leads to the file and that the commands leave it alone.  No template, whatever its name, is rendered over
    it. *)
Theorem steps_read_answers `{FaultsOk, MapRange, !Untouched ConfigFile} w cfg w1 l1 l2 :
  let store := MkStore "" in
  sole ConfigFile (fs w) -> RunPostBoot store w = (Ok cfg, w1) -> steps store cfg = l1 ++ l2 ->
  cfg_string cfg "domain" <> "" /\
  after_questions store cfg w1 = in_turn (l1 ++ l2) w1 /\
  stored store (fs (in_turn l1 w1).2) = Ok (Some cfg).
Proof.
  intros store Hs Hr Hl. destruct (RunPostBoot_settles (store := store) w cfg w1 Hs Hr) as [Hset Hd].
  split_and!; [done|by rewrite <- Hl; apply after_questions_steps|].
  apply settled_stored, (plain_settled (store := store) after_scope); [apply written_not_config| |done].
  apply in_turn_plain. pose proof (steps_plain store cfg) as Hp. rewrite Hl in Hp. by apply Forall_app in Hp as [].
Qed.

(** * Witnesses *)
#[local] Instance bare_env : Env := simple_env (fun _ f _ => (Exited 0 "" "", f)) (fun _ => HttpError) (fun _ => false).
Definition live_system : World := MkWorld ∅ "" [].
Definition installed_system : World := (MarkDone (MkStore "") "stage1" live_system).2.

(** Before the installation nothing happens; after it, the questions come, and
    without an answer no marker is made. *)
Lemma Run_marks_stage2_witness :
  (exists e, (Run (MkStore "") live_system).1 = Err e /\ is_not_done e = true) /\
  fs (Run (MkStore "") live_system).2 = fs live_system /\
  exists_at (fs (Run (MkStore "") installed_system).2) (markerPath (MkStore "") "stage2") = false.
Proof.
  pose proof (Run_marks_stage2 (MkStore "") live_system) as Hs. destruct (Run (MkStore "") live_system) as [r w'].
  destruct Hs as (new & _ & Hno & _). destruct (Hno eq_refl) as (He & _ & Hf & _).
  split_and!; [exact He|exact Hf|vm_compute; reflexivity].
Defined.

(** A machine that has been set up once: the questions are not asked again. *)
Definition set_up_before : World := (Save (MkStore "") (Some {["domain" := JStr "example.org"]}) installed_system).2.
Lemma bare_untouched : Untouched ConfigFile.
Proof. by split. Qed.

Lemma steps_read_answers_witness : exists cfg w1,
  RunPostBoot (MkStore "") set_up_before = (Ok cfg, w1) /\ cfg_string cfg "domain" = "example.org" /\
  stored (MkStore "") (fs (in_turn (steps (MkStore "") cfg) w1).2) = Ok (Some cfg).
Proof.
  assert (Hs : sole ConfigFile (fs set_up_before)) by (apply linkless_sole; vm_compute; reflexivity).
  set (cfg := {["domain" := JStr "example.org"]} : config).
  assert (Hr : exists w1, RunPostBoot (MkStore "") set_up_before = (Ok cfg, w1)) by (eexists; vm_compute; reflexivity).
  destruct Hr as [w1 Hr]. exists cfg, w1. split; [exact Hr|]. split; [reflexivity|].
  exact (proj2 (proj2 (@steps_read_answers _ _ _ bare_untouched set_up_before cfg w1 (steps (MkStore "") cfg) [] Hs Hr (eq_sym (app_nil_r _))))).
Defined.
