(* ===== verification/Main.v ===== *)
(** The command line (cmd/slfhst/main.go): which command runs which component,
    and what its result makes of the exit status. *)
From S2P Require Import Prelude Bytes GoStrings Signature Marshal Message Conn World Runx Json Config Disks Dnscf Bus Peer.
From S2P Require Import Sysupdate Firewall Monitor Installer Setup.

Definition usage : string :=
  "usage: slfhst <command>" +:+ nl +:+ nl +:+
  "  install            run the interactive live-installer flow" +:+ nl +:+
  "  setup              post-boot setup: domain, firewall, update check," +:+ nl +:+
  "                      render quadlets, start containers, backing" +:+ nl +:+
  "                      services, sync DNS (admin-run over SSH)" +:+ nl +:+
  "  status              service status summary" +:+ nl +:+
  "  check-all           periodic health/DNSBL/anomaly-email check" +:+ nl +:+
  "  dns sync            sync Cloudflare DNS records" +:+ nl +:+
  "  cf-ips sync          refresh the firewalld Cloudflare ipsets" +:+ nl +:+
  "  update check|apply   check for / apply an OS update via systemd-sysupdate" +:+ nl.

Section main.
Context {S : SortSlice} {E : Env} {M : MapRange}.

Definition usageError (sub : string) : ST World unit :=
  if decide (sub = "") then
    _ ← Print_out usage;
    lift (Err (Errorf "no command given"))
  else
    _ ← Print_out usage;
    lift (Err (Errorf "unknown command %q")).

Definition dispatchDNS (store : Store) (argv : list string) : ST World unit :=
  if decide (length argv <> 1%nat \/ hd "" argv <> "sync") then usageError "dns"
  else Dnscf.Sync store.

Definition dispatchCFIPs (store : Store) (argv : list string) : ST World unit :=
  if decide (length argv <> 1%nat \/ hd "" argv <> "sync") then usageError "cf-ips"
  else SyncCloudflareIPSets.

Definition dispatchUpdate (argv : list string) : ST World unit :=
  match argv with
  | [arg] =>
      if String.eqb arg "check" then Sysupdate.Check
      else if String.eqb arg "apply" then Sysupdate.Apply
      else usageError "update"
  | _ => usageError "update"
  end.

Definition run (argv : list string) : ST World unit :=
  match argv with
  | [] => usageError ""
  | arg :: args =>
      let store := MkStore "" in
      if String.eqb arg "install" then Installer.Run
      else if String.eqb arg "setup" then Setup.Run store
      else if String.eqb arg "status" then Monitor.Status store
      else if String.eqb arg "check-all" then Monitor.CheckAll store
      else if String.eqb arg "dns" then dispatchDNS store args
      else if String.eqb arg "cf-ips" then dispatchCFIPs store args
      else if String.eqb arg "update" then dispatchUpdate args
      else usageError arg
  end.

(** The exit status; a panic has none of its own here. *)
Definition main (argv : list string) : ST World Z :=
  r ← try (run argv);
  match r with
  | inl _ => mret 0
  | inr e =>
      if is_not_done e then mret 0
      else
        _ ← Print_out ("slfhst: %v" +:+ nl);
        mret 1
  end.
End main.

(** ** Specification: the commands *)
Inductive command : Set := Install | SetUp | StatusOf | Check_all | DnsSync | CfIpsSync | UpdateCheck | UpdateApply.
#[export] Instance command_eq_dec : EqDecision command.
Proof. solve_decision. Defined.

(** What the usage text says: the words of each command, and whether more words
    are accepted (and ignored) after them. *)
Definition commands : list (list string * bool * command) := [
  (["install"], true, Install); (["setup"], true, SetUp); (["status"], true, StatusOf);
  (["check-all"], true, Check_all); (["dns"; "sync"], false, DnsSync); (["cf-ips"; "sync"], false, CfIpsSync);
  (["update"; "check"], false, UpdateCheck); (["update"; "apply"], false, UpdateApply)].
Fixpoint strip (words argv : list string) : option (list string) :=
  match words, argv with
  | [], rest => Some rest
  | x :: words, y :: argv => if String.eqb y x then strip words argv else None
  | _, _ => None
  end.
Definition accepts (more : bool) (rest : option (list string)) : bool :=
  match rest with Some [] => true | Some _ => more | None => false end.
Definition command_of (argv : list string) : option command :=
  snd <$> find (fun c => accepts c.1.2 (strip c.1.1 argv)) commands.

(** The stage that a command needs, and what it says when it is missing *)
Definition needs (c : command) : option (string * list event) :=
  match c with
  | SetUp | DnsSync => Some ("stage1", [])
  | Check_all => Some ("stage2", [EOut ("monitor: stage2 not done yet, skipping check-all" +:+ nl)])
  | _ => None
  end.

Section perform.
Context {S : SortSlice} {E : Env} {M : MapRange}.
Definition perform (c : command) : ST World unit :=
  match c with
  | Install => Installer.Run
  | SetUp => Setup.Run (MkStore "")
  | StatusOf => Monitor.Status (MkStore "")
  | Check_all => Monitor.CheckAll (MkStore "")
  | DnsSync => Dnscf.Sync (MkStore "")
  | CfIpsSync => SyncCloudflareIPSets
  | UpdateCheck => Sysupdate.Check
  | UpdateApply => Sysupdate.Apply
  end.

(** ** Lemmas *)
Lemma usageError_does sub w :
  exists e, usageError sub w = (Err e, add_log (EOut usage) w) /\ is_not_done e = false.
Proof. unfold usageError. case_decide; by eexists. Qed.

(** [dns] and [cf-ips] take the one word sync. *)
Lemma sync_only sub (m : ST World unit) args w :
  let does := (if decide (length args <> 1%nat \/ hd "" args <> "sync") then usageError sub else m) w in
  if accepts false (strip ["sync"] args) then does = m w
  else exists e, does = (Err e, add_log (EOut usage) w) /\ is_not_done e = false.
Proof.
  destruct args as [|a [|b l]]; cbn [strip accepts length hd].
  - rewrite decide_True by (by left). apply usageError_does.
  - destruct (String.eqb_spec a "sync") as [->|Hn]; cbn [accepts].
    + by rewrite decide_False by naive_solver.
    + rewrite decide_True by (by right). apply usageError_does.
  - rewrite decide_True by (by left). destruct (String.eqb a "sync"); apply usageError_does.
Qed.

Lemma run_command argv w :
  match command_of argv with
  | Some c => run argv w = perform c w
  | None => exists e, run argv w = (Err e, add_log (EOut usage) w) /\ is_not_done e = false
  end.
Proof.
  destruct argv as [|arg args]; [apply usageError_does|].
  unfold command_of, run. cbn [find commands strip fst snd].
  assert (Hmore : forall l, accepts true (Some l) = true) by (by intros []).
  destruct (String.eqb_spec arg "install") as [->|]; [by rewrite Hmore|].
  destruct (String.eqb_spec arg "setup") as [->|]; [by rewrite Hmore|].
  destruct (String.eqb_spec arg "status") as [->|]; [by rewrite Hmore|].
  destruct (String.eqb_spec arg "check-all") as [->|]; [by rewrite Hmore|].
  cbn [accepts].
  destruct (String.eqb_spec arg "dns") as [->|].
  { pose proof (sync_only "dns" (Dnscf.Sync (MkStore "")) args w) as Hs. cbn [strip] in Hs. by destruct (accepts _ _). }
  destruct (String.eqb_spec arg "cf-ips") as [->|].
  { pose proof (sync_only "cf-ips" SyncCloudflareIPSets args w) as Hs. cbn [strip] in Hs. by destruct (accepts _ _). }
  destruct (String.eqb_spec arg "update") as [->|]; [|apply usageError_does].
  unfold dispatchUpdate. destruct args as [|a [|b l]]; [apply usageError_does| |].
  - destruct (String.eqb a "check"); [done|]. destruct (String.eqb a "apply"); [done|]. apply usageError_does.
  - destruct (String.eqb a "check"), (String.eqb a "apply"); apply usageError_does.
Qed.

(** The panics of a command: those of the two jobs *)
Definition stops_at (c : command) (w w' : World) : Prop :=
  match c with
  | Install => may_stop w'
  | SetUp => null_in (MkStore "") w
  | _ => False
  end.

Lemma perform_ends `{!MapRangeOk, !BusLawful, !ClockOk} c w :
  let '(r, w') := perform c w in
  match r with Ok _ | Err _ => True | Panic => stops_at c w w' | OutOfFuel => False end.
Proof.
  assert (He : forall m : ST World unit, ends m ->
    let '(r, w') := m w in match r with Ok _ | Err _ => True | Panic => stops_at c w w' | OutOfFuel => False end).
  { intros m Hm. specialize (Hm w). by destruct (m w) as [[]]. }
  destruct c; cbn [perform].
  - pose proof (Run_stops w) as Hr. by destruct (Installer.Run w) as [[]].
  - pose proof (Run_ends (MkStore "") w) as Hr. by destruct (Setup.Run _ w) as [[]].
  - apply He, ends_Status.
  - apply He, ends_CheckAll.
  - apply He, ends_Sync.
  - apply He, ends_SyncCloudflareIPSets.
  - apply He, ends_Check.
  - apply He, ends_Apply.
Qed.

Lemma missing_stage c stage said w :
  needs c = Some (stage, said) -> exists_at (fs w) (markerPath (MkStore "") stage) = false ->
  exists r, perform c w = (r, MkWorld (fs w) (console w) (said ++ EOS "stat" [markerPath (MkStore "") stage] :: log w)) /\
  match r with Ok _ => True | Err e => is_not_done e = true | _ => False end.
Proof.
  intros Hn Hs. destruct c; simplify_eq/=.
  1, 3: eexists; unfold Setup.Run, Dnscf.Sync, mbind at 1, ST_bind; rewrite RequireDone_cases, Hs; by destruct (io_err _).
  exists (Ok tt). split; [|done]. unfold CheckAll, IsDone, Stat, try, mbind, ST_bind.
  rewrite io_cases, stat_exists, Hs. by destruct (io_err _), w.
Qed.
End perform.

(** * Properties *)

(** C20: what a command line does to the exit status: words that are no command
    print the usage and exit with 1, and do nothing else; a command that needs a
    stage that is not done exits with 0 having only looked for its marker (and,
    for check-all, said so); otherwise the status is 0 when the command succeeds,
    and 1 when it fails with anything but a missing stage. *)
Theorem main_exits `{SortSlice, Env, MapRange} argv w :
  let '(r, w') := main argv w in
  match command_of argv with
  | None => r = Ok 1 /\ fs w' = fs w /\ console w' = console w /\ exists e, log w' = [EOut e; EOut usage] ++ log w
  | Some c =>
      (forall stage said, needs c = Some (stage, said) -> exists_at (fs w) (markerPath (MkStore "") stage) = false ->
         r = Ok 0 /\ fs w' = fs w /\ console w' = console w /\
         log w' = said ++ EOS "stat" [markerPath (MkStore "") stage] :: log w) /\
      match perform c w with
      | (Ok _, w1) => r = Ok 0 /\ w' = w1
      | (Err e, w1) => if is_not_done e then r = Ok 0 /\ w' = w1
                       else r = Ok 1 /\ exists text, w' = add_log (EOut text) w1
      | (Panic, w1) => r = Panic /\ w' = w1
      | (OutOfFuel, w1) => r = OutOfFuel /\ w' = w1
      end
  end.
Proof.
  unfold main, mbind at 1, ST_bind, try. pose proof (run_command argv w) as Hr.
  destruct (command_of argv) as [c|].
  2: { destruct Hr as (e & -> & He). rewrite He. split_and!; [done..|]. eexists. reflexivity. }
  rewrite Hr. pose proof (missing_stage c) as Hm.
  destruct (perform c w) as [[u|e| |] w1] eqn:Hp; [|destruct (is_not_done e) eqn:He|..]; cbv zeta;
    (split; [|first [by split|split; [done|by eexists]]]);
    intros stage said Hn Hs; destruct (Hm stage said w Hn Hs) as (r & Hpr & Hok); rewrite Hp in Hpr;
    injection Hpr as <- ->; by try rewrite Hok in He.
Qed.

(** C9: every command line ends, with exit status 0 or 1.  Whatever the words, the
    files, the answers of commands, of the network and of the administrator, and
    the faults of the operating system, [main] neither runs for ever nor returns
    anything else, provided that the bus daemon keeps to the protocol's signatures
    and that the clock advances; the only panics are those of an installation
    (named in its own safety theorem) and of a setup whose configuration file
    holds null. *)
Theorem main_ends `{SortSlice, Env, MapRangeOk, !BusLawful, !ClockOk} argv w :
  let '(r, w') := main argv w in
  match r with
  | Ok code => code = 0 \/ code = 1
  | Err _ => False
  | Panic => exists c, command_of argv = Some c /\ stops_at c w w'
  | OutOfFuel => False
  end.
Proof.
  unfold main, mbind at 1, ST_bind, try. pose proof (run_command argv w) as Hr.
  destruct (command_of argv) as [c|].
  2: { destruct Hr as (e & -> & He). rewrite He. by right. }
  rewrite Hr. pose proof (perform_ends c w) as Hp.
  destruct (perform c w) as [[u|e| |] w1]; [by left|destruct (is_not_done e); [by left|by right]|by exists c|done].
Qed.

(** * Witnesses *)
#[local] Instance silent : Env := simple_env (fun _ f _ => (NotStarted, f)) (fun _ => HttpError) (fun _ => false).

Lemma main_exits_witness :
  let w := MkWorld ∅ "" [] in
  (main ["setup"] w).1 = Ok 0 /\ fs (main ["setup"] w).2 = ∅ /\ (main ["dns"] w).1 = Ok 1.
Proof.
  intros w. pose proof (main_exits ["setup"] w) as H1. pose proof (main_exits ["dns"] w) as H2.
  destruct (main ["setup"] w) as [r1 w1], (main ["dns"] w) as [r2 w2].
  destruct H1 as [H1 _]. destruct (H1 "stage1" [] eq_refl eq_refl) as (-> & Hf & _).
  destruct H2 as (-> & _). by split_and!.
Defined.

(** A bus that welcomes the client, sends a signal and the reply to Hello, and
    then nothing: checking for updates fails, and ends. *)
Definition short_stream : list byte :=
  bytes_of_string ("OK 1234" +:+ CRLF) ++ bytes_of_message sample_signal ++ bytes_of_message sample_reply.
Definition talking : Env := {|
  io_err := fun _ => None; io_part := fun _ => None; exec := fun _ f _ => (NotStarted, f); http := fun _ => HttpError; net_ok := fun _ => false;
  bus := fun _ => Some short_stream; my_uid := 0; rand_bytes := fun _ n => []; temp_name := fun _ p => p;
  range_files := fun _ m => map_to_list m; now := slept; statfs := fun _ _ => None |}.
Lemma talking_lawful : BusLawful (E := talking).
Proof.
  intros l stream [= <-]. change (readLine short_stream).2 with (bytes_of_message sample_signal ++ bytes_of_message sample_reply).
  apply two_messages_lawful.
Qed.
Lemma talking_clock : ClockOk (E := talking).
Proof. split; [intros [] l|intros d l]; cbn; lia. Qed.

Lemma main_ends_witness :
  (main (E := talking) ["update"; "check"] (MkWorld ∅ "" [])).1 = Ok 1.
Proof.
  pose proof (@main_ends _ talking _ _ talking_lawful talking_clock ["update"; "check"] (MkWorld ∅ "" [])) as Hm.
  assert (Hc : (main (E := talking) ["update"; "check"] (MkWorld ∅ "" [])).1 <> Ok 0) by (vm_compute; discriminate).
  destruct (main ["update"; "check"] (MkWorld ∅ "" [])) as [[code|e| |] w'].
  - destruct Hm as [-> | ->]; [by destruct Hc|reflexivity].
  - destruct Hm.
  - destruct Hm as (c & [= <-] & []).
  - destruct Hm.
Defined.
