(* ===== verification/Lifecycle.v ===== *)
(** The life of an installed system: the commands of the program and the outside
    as a step relation on the world, and what the stage markers say in every
    state that can be reached. *)
From S2P Require Import Prelude Bytes GoStrings Signature Marshal Message Conn World Runx Json Config Disks Dnscf Bus.
From S2P Require Import Sysupdate Firewall Monitor Prompt Wizard Effects Installer Setup Main.

Definition system : Store := MkStore "".
Definition stage_marker (p : string) : Prop := p = markerPath system "stage1" \/ p = markerPath system "stage2".

(** ** The steps

    A command of the program other than the installation (which runs in the live
    image, on another root); or anything else that happens to the machine (a
    reboot, other programs, somebody typing), which may change the files as [R]
    says. *)
Section life.
Context {S : SortSlice} {E : Env} {M : MapRange}.

Inductive step (R : FS -> FS -> Prop) : World -> World -> Prop :=
| runs argv w r w' : command_of argv <> Some Install -> main argv w = (r, w') -> step R w w'
| outside w f typed : R (fs w) f -> step R w (MkWorld f typed (log w)).

(** The markers that are there stay; the configuration stays what it is. *)
Definition keeps_markers (f f' : FS) : Prop :=
  forall p, stage_marker p -> exists_at f p = true -> exists_at f' p = true.
Definition keeps_config (f f' : FS) : Prop := forall c, holds ConfigFile c f -> holds ConfigFile c f'.

(** External commands leave the markers alone too. *)
Class Respectful : Prop := respectful : forall p, stage_marker p -> spares p.

(** In the state [u], a setup passes every step. *)
Definition sets_up (u : World) : Prop := exists w1 w2,
  RequireDone system "stage1" u = (Ok tt, w1) /\ run_steps system w1 = (Ok tt, w2).

(** ** Lemmas *)
Lemma plain_Status W store : plain W (Monitor.Status store).
Proof.
  unfold Monitor.Status. apply plain_bind; [apply plain_ServiceStatus|]. intros statuses. generalize appServices.
  intros l. induction l as [|n l IH]; cbn [print_statuses]; auto with plain.
Qed.
Lemma plain_filter_net W {A} (ev : A -> event) keep l : (forall a, unmarked (ev a)) -> plain W (filter_net ev keep l).
Proof.
  intros Hev. induction l as [|a l IH]; cbn [filter_net]; [auto with plain|].
  apply plain_bind; [by apply plain_net|]. intros ok. auto with plain.
Qed.
Lemma plain_sendAlert W cfg subject body : plain W (sendAlert cfg subject body).
Proof.
  unfold sendAlert. cbv zeta. case_decide; [auto with plain|]. apply plain_bind; [|intros []; auto with plain].
  assert (Hs : forall l, Forall (fun s => unmarked s.1) l -> plain W (smtp_steps l)).
  { induction 1 as [|[ev warning] l Hev _ IH]; cbn [smtp_steps]; [auto with plain|].
    apply plain_bind; [by apply plain_net|]. intros []; auto with plain. }
  apply Hs. by repeat constructor.
Qed.
Lemma plain_find_issues W : plain W find_issues.
Proof.
  unfold find_issues, failedPorts, dns_issues, dnsblListings. apply plain_bind; [apply plain_ServiceStatus|]. intros statuses.
  apply plain_bind; [by apply plain_filter_net|]. intros failed. apply plain_bind; [|auto with plain].
  apply plain_bind; [apply plain_try, plain_PublicIP|]. intros [ip|e]; [|auto with plain].
  apply plain_bind; [|auto with plain]. destruct (reverseIPv4 ip); [by apply plain_filter_net|auto with plain].
Qed.
Lemma plain_CheckAll W store : plain W (CheckAll store).
Proof.
  unfold CheckAll. apply plain_bind; [apply plain_IsDone|]. intros []; cbn [negb]; [|auto with plain].
  apply plain_bind; [apply plain_Load|]. intros cfg. apply plain_bind; [apply plain_find_issues|]. intros issues.
  apply plain_bind; [apply plain_try, plain_SyncCloudflareIPSets|]. intros r1.
  apply plain_bind; [auto with plain|]. intros _. apply plain_bind; [apply plain_try, plain_CheckNewVersion|].
  intros r2. cbv zeta. case_decide; [auto with plain|apply plain_sendAlert].
Qed.

(** The commands of the installed system but setup write no file. *)
Lemma perform_plain W c : c <> Install -> c <> SetUp -> plain W (perform c).
Proof.
  intros H1 H2. destruct c; try done; cbn [perform].
  - apply plain_Status.
  - apply plain_CheckAll.
  - apply plain_Sync.
  - apply plain_SyncCloudflareIPSets.
  - apply plain_Check.
  - apply plain_Apply.
Qed.

(** What [main] adds to the command: at most a message *)
Lemma main_after argv w r w' :
  main argv w = (r, w') -> fs w' = fs (run argv w).2 /\
  exists outs, log w' = outs ++ log (run argv w).2 /\ Forall unmarked outs.
Proof.
  unfold main, mbind at 1, ST_bind, try. destruct (run argv w) as [[u|e| |] w1]; cbn [snd].
  1, 3, 4: intros [= _ <-]; split; [done|by exists []].
  destruct (is_not_done e); [intros [= _ <-]; split; [done|by exists []]|].
  intros [= _ <-]. split; [done|]. eexists [_]. by repeat constructor.
Qed.

Lemma keeps_MarkDone p store name : keeps p (MarkDone store name).
Proof.
  unfold MarkDone. apply preserves_bind; [apply preserves_wrap, preserves_io_with; intros; by apply exists_at_mkdirs|].
  intros _. apply preserves_wrap, preserves_io_with; intros; by apply exists_at_write.
Qed.
Lemma keeps_perform p c : spares p -> c <> Install -> keeps p (perform c).
Proof.
  intros Hp Hi. destruct (decide (c = SetUp)) as [->|Hs]; [|by apply (plain_keeps _ Hp anywhere), perform_plain].
  cbn [perform]. unfold Setup.Run. apply preserves_bind; [by apply (plain_keeps _ Hp anywhere), plain_RequireDone|]. intros _.
  apply preserves_bind; [by apply (plain_keeps _ Hp anywhere), plain_steps; apply within_anywhere|]. intros _. apply keeps_MarkDone.
Qed.

(** A step keeps the markers that are there, *)
Lemma step_keeps `{!Respectful} w w' p :
  step keeps_markers w w' -> stage_marker p -> exists_at (fs w) p = true -> exists_at (fs w') p = true.
Proof.
  intros [argv v r v' Hc Hm|v f typed Hf] Hp Hv; [|by apply Hf].
  apply main_after in Hm as [-> _]. pose proof (run_command argv v) as Hr.
  destruct (command_of argv) as [c|]; [|by destruct Hr as (e & -> & _)].
  rewrite Hr. apply keeps_perform; [by apply respectful|congruence|done].
Qed.
(** and only makes one at the end of a setup. *)
Lemma step_marks R w w' : step R w w' -> exists new, log w' = new ++ log w /\
  forall args, EOS "touch" args ∈ new -> args = [markerPath system "stage2"] /\ sets_up w.
Proof.
  intros [argv v r v' Hc Hm|v f typed Hf].
  2: { exists []. split; [done|]. by intros args ?%elem_of_nil. }
  apply main_after in Hm as (_ & outs & Hl & Ho).
  assert (Hun : forall n args, Forall unmarked n -> EOS "touch" args ∈ n -> False)
    by (intros n args Hn Hin; rewrite Forall_forall in Hn; by apply (Hn _ Hin)).
  assert (Hrun : exists n, log (run argv v).2 = n ++ log v /\
    forall args, EOS "touch" args ∈ n -> args = [markerPath system "stage2"] /\ sets_up v).
  { pose proof (run_command argv v) as Hr. destruct (command_of argv) as [c|].
    2: { destruct Hr as (e & -> & _). exists [EOut usage]. split; [done|]. intros args Hin. exfalso.
      eapply Hun; [|exact Hin]. by repeat constructor. }
    rewrite Hr. destruct (decide (c = SetUp)) as [->|Hs].
    - pose proof (Run_marks system v) as Hmk. cbn [perform]. fold system. destruct (Setup.Run system v) as [r1 v1].
      destruct Hmk as (n & Hn & _ & Ht & _). exists n. split; [done|]. intros args Hin.
      destruct (Ht args Hin) as (-> & w1 & w2 & Hq & Hst). split; [done|by exists w1, w2].
    - pose proof (plain_unmarked anywhere _ (perform_plain _ c ltac:(congruence) Hs) v) as Hq. destruct (perform c v) as [r1 v1].
      destruct Hq as (n & Hn & Hf & _). exists n. split; [done|]. intros args Hin. exfalso. by eapply Hun. }
  destruct Hrun as (n & Hn & Ht). exists (outs ++ n). split; [by rewrite Hl, Hn, (assoc_L (++))|].
  intros args [Hin|Hin]%elem_of_app; [exfalso; by eapply Hun|by apply Ht].
Qed.

(** The marker of a stage is there: a command that needs it goes on, unless the
    marker cannot be looked at. *)
Definition stage_done (stage : string) (w : World) : Prop := exists_at (fs w) (markerPath system stage) = true.
Lemma stage_done_passes stage w : stage_done stage w ->
  (RequireDone system stage w).1 = Ok tt \/ exists e, io_err (EOS "stat" [markerPath system stage] :: log w) = Some e.
Proof. intros Hd. rewrite RequireDone_cases. destruct (io_err _); [eauto|]. rewrite Hd. by left. Qed.

(** Along the steps *)
Lemma life_keeps `{!Respectful} w w' p :
  rtc (step keeps_markers) w w' -> stage_marker p -> exists_at (fs w) p = true -> exists_at (fs w') p = true.
Proof. induction 1 as [|w1 w2 w3 Hs _ IH]; [done|]. intros Hp Hw. apply IH; [done|]. by eapply step_keeps. Qed.
Lemma life_marks w w' : rtc (step keeps_markers) w w' -> exists new, log w' = new ++ log w /\
  forall args, EOS "touch" args ∈ new -> args = [markerPath system "stage2"] /\
  exists u, rtc (step keeps_markers) w u /\ sets_up u /\ rtc (step keeps_markers) u w'.
Proof.
  induction 1 as [w|w1 w2 w3 Hs Hr (n2 & Hl2 & Ht2)]; [exists []; split; [done|by intros args ?%elem_of_nil]|].
  destruct (step_marks _ _ _ Hs) as (n1 & Hl1 & Ht1). exists (n2 ++ n1). split; [by rewrite Hl2, Hl1, (assoc_L (++))|].
  intros args [Hin|Hin]%elem_of_app.
  - destruct (Ht2 args Hin) as (-> & u & Hu & Hset & Hu'). split; [done|]. exists u. split_and!; [by eapply rtc_l|done..].
  - destruct (Ht1 args Hin) as [-> Hset]. split; [done|]. exists w1. split_and!; [done..|by eapply rtc_l].
Qed.

(** Both stages are done after a setup. *)
Lemma setup_done `{!Respectful} v w : Setup.Run system v = (Ok tt, w) ->
  forall p, stage_marker p -> exists_at (fs w) p = true.
Proof.
  intros Hs p [-> | ->]; pose proof (Run_marks system v) as Hm; rewrite Hs in Hm; destruct Hm as (new & _ & Hno & _ & Hd).
  - pose proof (keeps_perform _ SetUp (respectful _ (or_introl eq_refl)) ltac:(done) v) as Hk.
    cbn [perform] in Hk. fold system in Hk. rewrite Hs in Hk. cbn [snd] in Hk. apply Hk.
    destruct (exists_at (fs v) (markerPath system "stage1")) eqn:He; [done|].
    by destruct (Hno eq_refl) as ((e & [=] & _) & _).
  - by apply Hd.
Qed.

(** ** The configuration *)
Section config.
Context `{!FaultsOk, !Untouched ConfigFile}.

Lemma settled_quiet {A} cfg (m : ST World A) : plain nowhere m -> preserves (settled system cfg) m.
Proof. by apply (plain_settled (store := system)). Qed.

(** A setup of a system that has a configuration with a domain keeps it. *)
Lemma settled_setup cfg : cfg_string cfg "domain" <> "" -> preserves (settled system cfg) (Setup.Run system).
Proof.
  intros Hd. unfold Setup.Run. apply preserves_bind; [apply settled_quiet, plain_RequireDone|]. intros _.
  apply preserves_bind; [|intros _; apply settled_MarkDone]. intros w Hw.
  unfold run_steps, mbind, ST_bind.
  destruct (RunPostBoot_settled system cfg w (settled_stored _ _ _ Hw) Hd) as (r & -> & [->|[e ->]]);
    [|by apply (settled_quiet cfg (Load system)); [apply plain_Load|]].
  apply (plain_settled (store := system) after_scope); [apply written_not_config|by apply plain_after|].
  by apply settled_quiet; [apply plain_Load|].
Qed.

Lemma settled_step cfg w w' :
  cfg_string cfg "domain" <> "" -> step keeps_config w w' -> settled system cfg (fs w) -> settled system cfg (fs w').
Proof.
  intros Hd [argv v r v' Hc Hm|v f typed Hf] Hw.
  2: { destruct Hw as (text & Hh & Hu). exists text. split; [by apply Hf|done]. }
  apply main_after in Hm as [-> _]. pose proof (run_command argv v) as Hr.
  destruct (command_of argv) as [c|]; [|by destruct Hr as (e & -> & _)].
  rewrite Hr. destruct (decide (c = SetUp)) as [->|Hs]; [by apply settled_setup|].
  apply settled_quiet; [|done]. apply perform_plain; congruence.
Qed.
Lemma settled_life cfg w w' :
  cfg_string cfg "domain" <> "" -> rtc (step keeps_config) w w' -> settled system cfg (fs w) -> settled system cfg (fs w').
Proof. intros Hd. induction 1 as [|w1 w2 w3 Hs _ IH]; [done|]. intros Hw. apply IH. by eapply settled_step. Qed.

(** What a setup that succeeds settles *)
Lemma setup_settles v w : sole ConfigFile (fs v) -> Setup.Run system v = (Ok tt, w) ->
  exists cfg v1 v2, RequireDone system "stage1" v = (Ok tt, v1) /\ RunPostBoot system v1 = (Ok cfg, v2) /\
  settled system cfg (fs w) /\ cfg_string cfg "domain" <> "".
Proof.
  intros Hs Hr. unfold Setup.Run in Hr. apply bind_Ok_inv_st in Hr as ([] & v1 & Hq & Hr).
  apply bind_Ok_inv_st in Hr as ([] & v3 & Hst & Hm). unfold run_steps in Hst.
  apply bind_Ok_inv_st in Hst as (cfg & v2 & Hp & Hst).
  assert (Hs1 : sole ConfigFile (fs v1)).
  { pose proof (plain_sole _ anywhere _ (plain_RequireDone anywhere system "stage1") v Hs) as H1. by rewrite Hq in H1. }
  destruct (RunPostBoot_settles (store := system) v1 cfg v2 Hs1 Hp) as [Hset Hd].
  exists cfg, v1, v2. split_and!; [done|done| |done].
  pose proof (plain_settled (store := system) after_scope cfg _ written_not_config
    (plain_after after_scope system cfg (conj (fun _ Hq => Hq) (fun _ Hq => Hq))) v2 Hset) as H2. rewrite Hst in H2.
  pose proof (settled_MarkDone system cfg "stage2" v3 H2) as H3. by rewrite Hm in H3.
Qed.
End config.
End life.

(** * Properties *)

(** C8: the stages over the life of the system: whatever commands are run, in any
    order and whatever happens in between (as long as nothing else removes a
    marker), and whatever the operating system makes fail, a stage that is done
    stays done; once a setup has succeeded both stages are, so that no later
    command is a no-op, unless the marker cannot be looked at; and the
    only marker ever made is the second stage's, by a setup that passes every
    step in a state on the way. *)
Theorem stages_last `{SortSlice, Env, MapRange, !Respectful} w w' :
  rtc (step keeps_markers) w w' ->
  (forall stage, stage = "stage1" \/ stage = "stage2" -> stage_done stage w -> stage_done stage w') /\
  (forall v, Setup.Run system v = (Ok tt, w) -> forall c stage said, needs c = Some (stage, said) -> stage_done stage w') /\
  (forall stage, stage_done stage w' -> (RequireDone system stage w').1 = Ok tt \/
     exists e, io_err (EOS "stat" [markerPath system stage] :: log w') = Some e) /\
  exists new, log w' = new ++ log w /\
    forall args, EOS "touch" args ∈ new -> args = [markerPath system "stage2"] /\
      exists u, rtc (step keeps_markers) w u /\ sets_up u /\ rtc (step keeps_markers) u w'.
Proof.
  intros Hr. split_and!; [| |intros stage; apply stage_done_passes|by apply life_marks].
  - intros stage Hst Hw. eapply life_keeps; [done| |done]. destruct Hst as [-> | ->]; [by left|by right].
  - intros v Hs c stage said Hn. eapply life_keeps; [done| |eapply setup_done; [exact Hs|]];
      destruct c; simplify_eq/=; first [by left|by right].
Qed.

(** C13: the administrator answers once: after a setup that succeeded, in every state that
    any later commands lead to, with anything in between that leaves config.json
    as it is, the file reads as the configuration that the questions of that setup
    returned, which has a domain; and a setup that is run again asks nothing: it
    goes on with it, or fails to read it.  This holds whatever the operating system
    makes fail in between.  (Commands leave the file alone, and no other path leads to
    it.) *)
Theorem answers_last `{SortSlice, FaultsOk, MapRange, !Untouched ConfigFile} v w w' :
  sole ConfigFile (fs v) -> Setup.Run system v = (Ok tt, w) -> rtc (step keeps_config) w w' ->
  exists cfg v1 v2, RequireDone system "stage1" v = (Ok tt, v1) /\ RunPostBoot system v1 = (Ok cfg, v2) /\
    cfg_string cfg "domain" <> "" /\ stored system (fs w') = Ok (Some cfg) /\
    exists r, RunPostBoot system w' = (r, (Load system w').2) /\ (r = Ok cfg \/ exists e, r = Err e).
Proof.
  intros Hs Hr Hl. destruct (setup_settles v w Hs Hr) as (cfg & v1 & v2 & Hq & Hp & Hset & Hd).
  pose proof (settled_stored _ _ _ (settled_life cfg w w' Hd Hl Hset)) as Hload.
  exists cfg, v1, v2. split_and!; [done..|]. by apply RunPostBoot_settled.
Qed.

(** * Witnesses *)

(** A machine whose commands leave the files alone, installed, and on which the
    setup and a synchronisation of the records are tried. *)
#[local] Instance inert : Env := simple_env (fun _ f _ => (Exited 0 "" "", f)) (fun _ => HttpError) (fun _ => false).
#[local] Instance inert_respectful : Respectful.
Proof. by intros p _ l f c Hp. Qed.
Definition installed : World := (MarkDone system "stage1" (MkWorld ∅ "" [])).2.
Definition later : World := (main ["dns"; "sync"] (main ["setup"] installed).2).2.

Lemma stages_last_witness : rtc (step keeps_markers) installed later /\ stage_done "stage1" later.
Proof.
  assert (Hr : rtc (step keeps_markers) installed later).
  { eapply rtc_l; [eapply (runs _ ["setup"]); [done|apply surjective_pairing]|].
    apply rtc_once. eapply (runs _ ["dns"; "sync"]); [done|apply surjective_pairing]. }
  split; [exact Hr|]. apply (proj1 (stages_last installed later Hr)); [by left|vm_compute; reflexivity].
Defined.

(** A machine on which everything works, and its life after a setup. *)
Definition reply_to (ser : Z) (answer : option string) : message :=
  {| m_type := msgTypeMethodReturn; m_flags := "001"%char; m_version := "001"%char; m_serial := ser;
     m_fields := (fieldReplySerial, TUint32, VUint32 ser) ::
       match answer with Some _ => [(fieldSignature, TStr SSignature, VString "s")] | None => [] end;
     m_sig := match answer with Some _ => [TStr SString] | None => [] end;
     m_body := match answer with Some s => [VString s] | None => [] end |}.
Definition firewalld : list byte := bytes_of_string ("OK 1234" +:+ CRLF) ++
  mjoin (bytes_of_message <$> [reply_to 1 (Some ":1.7"); reply_to 2 (Some "/v4"); reply_to 3 None;
    reply_to 4 (Some "/v6"); reply_to 5 None; reply_to 6 None]).
Definition cloudflare (l : list event) : http_result :=
  match l with
  | ENet _ (url :: _) :: _ =>
      if String.eqb url traceURL then HttpResponse 200 ("ip=192.0.2.7" +:+ nl)
      else HttpResponse 200 (marshal (JObj {["success" := JBool true; "result" := JArr [JObj {["id" := JStr "z1"]}]]}))
  | _ => HttpError
  end.
Definition working : Env := {|
  io_err := fun _ => None; io_part := fun _ => None; exec := fun _ f _ => (Exited 0 "" "", f); http := cloudflare; net_ok := fun _ => true;
  bus := fun _ => Some firewalld; my_uid := 0; rand_bytes := fun _ n => []; temp_name := fun _ p => p;
  range_files := fun _ m => map_to_list m; now := slept; statfs := fun _ _ => Some (4000000, 4096) |}.
Lemma working_ok : @NoFaults working /\ @Untouched working ConfigFile.
Proof. by split; [|split]. Qed.

Definition fresh : World := MkWorld
  (fs (MarkDone (E := working) system "stage1" (MkWorld {[
    "/usr/share/slfhst/cloudflare-ips/v4.txt" := NFile ("192.0.2.0/24" +:+ nl) 420 0 0;
    "/usr/share/slfhst/cloudflare-ips/v6.txt" := NFile ("2001:db8::/32" +:+ nl) 420 0 0]} "" [])).2)
  ("example.org" +:+ nl +:+ "ops@example.org" +:+ nl +:+ "t0ken" +:+ nl +:+
   nl +:+ nl +:+ nl +:+ nl +:+ nl +:+ nl +:+ nl +:+ nl +:+ nl +:+ nl) [].
Definition set_up : World := (Setup.Run (E := working) system fresh).2.
Definition checked : World := (main (E := working) ["check-all"] set_up).2.

Lemma answers_last_witness : exists cfg,
  stored system (fs checked) = Ok (Some cfg) /\ cfg_string cfg "domain" <> "" /\
  (RunPostBoot (E := working) system checked).2 = (Load (E := working) system checked).2.
Proof.
  assert (Hs : sole ConfigFile (fs fresh)) by (apply linkless_sole; vm_compute; reflexivity).
  assert (Hr : (Setup.Run (E := working) system fresh).1 = Ok tt) by (vm_compute; reflexivity).
  assert (Hr' : Setup.Run (E := working) system fresh = (Ok tt, set_up)) by (rewrite <- Hr; apply surjective_pairing).
  assert (Hl : rtc (@step _ working _ keeps_config) set_up checked).
  { apply rtc_once. eapply (runs _ ["check-all"]); [done|apply surjective_pairing]. }
  destruct (@answers_last _ working (@no_faults_ok working (proj1 working_ok)) _ (proj2 working_ok) fresh set_up checked Hs Hr' Hl)
    as (cfg & v1 & v2 & _ & _ & Hd & Hload & r & Hq & _).
  exists cfg. split_and!; [exact Hload|exact Hd|]. by rewrite Hq.
Defined.
