(* ===== verification/Success.v ===== *)
(** When the second stage succeeds: what must be on the disk, and what the commands,
    the bus and the API must do, for [Setup.Run] to go through to its end. *)
From S2P Require Import Prelude Bytes GoStrings Signature Marshal Message Conn World Runx Json Config Dnscf Bus Peer Serve.
From S2P Require Import Sysupdate Firewall Monitor Quadlet Regex Prompt Netconf Wizard Deploy Healthcheck Backing Effects Setup.

(** ** The paths that the second stage uses *)
Definition live : Store := MkStore "".
Definition own_files : list string := [
  ConfigFile; path_join [stalwartPlanDir; "plan.ndjson"]; motdFile; markerPath live "stage2";
  path_join [DataDir; "traefik/dynamic"; "traefik-dynamic.yml"]; path_join [DataDir; "ente"; "museum.yaml"];
  path_join [DataDir; "garage"; "garage.toml"]].
(** The directories that it makes, those above them included *)
Definition own_dirs : list string := mjoin (path_prefixes <$> (quadletDir :: unitDir :: (path_dir <$> own_files))).
Definition lists : list string := (fun spec => path_join ["/"; cfIPListDir; s_file spec]) <$> cfIPSets.

(** The files that it writes: those, and the units *)
Definition own (p : string) : Prop :=
  p ∈ own_files \/ clean p = p /\
    (path_dir p = quadletDir /\ existsb (has_suffix p) quadletSuffixes = true \/ path_dir p = unitDir /\ has_suffix p ".target" = true).
Definition is_template (p : string) : Prop := path_dir p = TemplatesDir /\ has_suffix p ".tmpl" = true.

(** ** What stands at a path *)
Inductive shape := Absent | Dir | File (content : string) | Link.
Definition shape_of (n : option node) : shape :=
  match n with
  | None => Absent
  | Some (NDir _ _ _) => Dir
  | Some (NFile c _ _ _) => File c
  | Some (NLink _) => Link
  end.

(** Directories and files stand in nobody's way, the first stage is done, the
    address lists can be read, and the templates refer to known names only. *)
Definition fits (p : string) (s : shape) : Prop :=
  match s with
  | Absent => p <> markerPath live "stage1" /\ p ∉ lists
  | Dir => ~ own p /\ p <> markerPath live "stage1" /\ p ∉ lists /\ ~ is_template p
  | File c => p ∉ own_dirs /\ (p ∈ lists -> (scan c).2 = true) /\
      (is_template p -> resolveDest (trim_suffix (path_base p) ".tmpl") = None \/ Forall (fun x => x ∈ varNames) (references c))
  | Link => p ∉ own_dirs /\ ~ own p /\ p <> markerPath live "stage1" /\ p ∉ lists /\ ~ is_template p /\ p <> TemplatesDir
  end.
(** What is in a directory that is listed is named by its path. *)
Definition tidy (p : string) : Prop :=
  path_dir p ∈ [TemplatesDir; quadletDir] -> clean p = p /\ path_join [path_dir p; path_base p] = p.
Definition expects (p : string) (s : shape) : Prop := fits p s /\ (s <> Absent -> tidy p).
Definition prepared (f : FS) : Prop := forall p, expects p (shape_of (f !! p)).

(** *** The paths are clean, and none is used in two ways. *)
Definition apart (d : string) : Prop :=
  clean d = d /\ Forall (fun p => p ∈ own_dirs) (path_prefixes d) /\ d ∈ path_prefixes d /\ d ∉ own_files /\
  d <> markerPath live "stage1" /\ d ∉ lists /\ path_dir d ∉ [quadletDir; unitDir; TemplatesDir].
Lemma own_dirs_apart : Forall apart own_dirs.
Proof. apply (bool_decide_unpack _). vm_compute. exact I. Qed.
Lemma own_dir d : d ∈ own_dirs -> apart d.
Proof. apply Forall_forall, own_dirs_apart. Qed.

Definition aside (p : string) : Prop :=
  clean p = p /\ p ∉ own_dirs /\ path_dir p ∈ own_dirs /\ p ∉ lists /\ path_dir p <> TemplatesDir /\ p <> markerPath live "stage1" /\
  p <> TemplatesDir.
Lemma own_files_aside : Forall (fun p => aside p /\ path_dir p <> quadletDir) own_files.
Proof. apply (bool_decide_unpack _). vm_compute. exact I. Qed.
Lemma in_lists spec : spec ∈ cfIPSets -> path_join ["/"; cfIPListDir; s_file spec] ∈ lists.
Proof. intros Hs. apply list_elem_of_fmap. by exists spec. Qed.
#[local] Opaque own_dirs own_files lists quadletDir unitDir TemplatesDir markerPath.

Lemma own_file p : own p -> aside p.
Proof.
  intros [Hp|(Hc & Hor)].
  { pose proof own_files_aside as Hall. rewrite Forall_forall in Hall. by apply Hall. }
  assert (Hin : path_dir p ∈ [quadletDir; unitDir]) by (destruct Hor as [[-> _]|[-> _]]; [left|right; left]).
  assert (Hfacts : path_dir p ∈ own_dirs /\ path_dir p <> TemplatesDir /\
    Forall (fun q => path_dir q <> path_dir p) (markerPath live "stage1" :: TemplatesDir :: lists)).
  { clear -Hin. revert Hin. generalize (path_dir p). apply Forall_forall. apply (bool_decide_unpack _). vm_compute. exact I. }
  destruct Hfacts as (Hdirs & Ht & Hf). rewrite Forall_forall in Hf.
  assert (Hne : forall q, q ∈ markerPath live "stage1" :: TemplatesDir :: lists -> p <> q)
    by (intros q Hq <-; by apply Hf in Hq).
  split; [exact Hc|]. split.
  { intros (_ & _ & _ & _ & _ & _ & Hx)%own_dir. apply Hx. clear -Hin. set_solver. }
  split; [done|]. split; [intros Hl; apply (Hne p); [by do 2 right|done]|]. split; [done|].
  split; apply Hne; [left|right; left].
Qed.

(** ** The operations go through *)
Lemma shape_insert (f : FS) q n p : shape_of (<[q := n]> f !! p) = if decide (p = q) then shape_of (Some n) else shape_of (f !! p).
Proof. case_decide as Hd; [subst; by rewrite lookup_insert_eq|by rewrite lookup_insert_ne]. Qed.
Lemma prepared_insert (f : FS) q n : prepared f -> expects q (shape_of (Some n)) -> prepared (<[q := n]> f).
Proof. intros Hf Hn p. rewrite shape_insert. case_decide; [by subst|apply Hf]. Qed.
Lemma prepared_shapes (f g : FS) : prepared f -> (forall p, shape_of (g !! p) = shape_of (f !! p)) -> prepared g.
Proof. intros Hf Hg p. rewrite Hg. apply Hf. Qed.

Lemma expects_dir d : d ∈ own_dirs -> expects d Dir.
Proof.
  intros Hd. destruct (own_dir d Hd) as (Hc & _ & _ & _ & Hm & Hl & Hp). split; [split_and!; [|done|done|]|].
  - intros Ho. by apply own_file in Ho as (_ & Hn & _).
  - intros [Ht _]. rewrite Ht in Hp. set_solver.
  - intros _ Ht. exfalso. apply Hp. revert Ht. generalize (path_dir d). set_solver.
Qed.
Lemma expects_own p c : own p -> tidy p -> expects p (File c).
Proof. intros (_ & Hd & _ & Hl & Ht & _)%own_file Hn. split; [split_and!; [done|by intros ?|by intros [? _]]|done]. Qed.

Section files.
Context (f : FS) (Hf : prepared f).

Lemma prepared_dir d : d ∈ own_dirs -> follow f d = d /\ (is_dir f d = true \/ f !! d = None).
Proof using Hf.
  intros Hd. pose proof (own_dir d Hd) as (Hc & _). destruct (Hf d) as [Hs _].
  assert (Hl : not_link (f !! d)) by (destruct (f !! d) as [[]|]; try done; by destruct Hs).
  split; [by apply follow_plain|]. unfold is_dir. destruct (f !! d) as [[]|]; [|by destruct Hs| |by right].
  - left. apply orb_true_r.
  - done.
Qed.
Lemma prepared_own p : own p -> follow f p = p /\ is_dir f p = false /\ match f !! p with None | Some (NFile _ _ _ _) => True | _ => False end.
Proof using Hf.
  intros Ho. pose proof (own_file p Ho) as (Hc & Hn & Hd & _). destruct (Hf p) as [Hs _].
  assert (Hp : match f !! p with None | Some (NFile _ _ _ _) => True | _ => False end)
    by (destruct (f !! p) as [[]|]; try done; by destruct Hs as (? & ? & _)).
  split_and!; [apply follow_plain; [done|by destruct (f !! p) as [[]|]]| |done].
  unfold is_dir. assert (p <> "/" /\ p <> ".") as [H1 H2].
  { split; intros ->; revert Hd; apply (bool_decide_unpack (_ ∉ own_dirs)); vm_compute; exact I. }
  apply String.eqb_neq in H1 as ->. apply String.eqb_neq in H2 as ->. by destruct (f !! p) as [[]|].
Qed.
End files.

(** Making directories, writing files and changing modes succeed, and leave the
    disk prepared. *)
Lemma mkdirs_prepared ps perm f : prepared f -> Forall (fun d => d ∈ own_dirs) ps ->
  exists g, mkdirs ps perm f = (Ok tt, g) /\ prepared g /\ (forall d, is_dir f d = true -> is_dir g d = true) /\
    Forall (fun d => is_dir g d = true) ps.
Proof.
  intros Hf Hps. revert f Hf. induction Hps as [|d ps Hd _ IH]; intros f Hf; cbn [mkdirs]; [by exists f|].
  destruct (prepared_dir f Hf d Hd) as [-> Hor]. destruct (is_dir f d) eqn:Hdir.
  - destruct (IH f Hf) as (g & -> & Hg & Hk & Hall). exists g. split_and!; [done..|]. constructor; [by apply Hk|done].
  - destruct Hor as [|Hn]; [done|]. rewrite Hn. set (f1 := <[d := NDir perm 0 0]> f).
    destruct (IH f1) as (g & -> & Hg & Hk & Hall); [by apply prepared_insert, expects_dir|]. exists g.
    assert (forall q, is_dir f q = true -> is_dir f1 q = true) by (intros q Hq; by apply is_dir_insert).
    split_and!; [done|done|by auto|]. constructor; [|done]. apply Hk. unfold f1, is_dir. rewrite lookup_insert_eq. apply orb_true_r.
Qed.

Lemma write_prepared upd p perm f : prepared f -> own p -> tidy p ->
  prepared (write_with upd p perm f).2 /\
  (is_dir f (path_dir p) = true -> exists c pm u g, write_with upd p perm f = (Ok tt, <[p := NFile c pm u g]> f)).
Proof.
  intros Hf Ho Ht. pose proof (prepared_own f Hf p Ho) as (Hp & Hd & Hn). unfold write_with. rewrite Hp, Hd.
  destruct (f !! p) as [[]|] eqn:Hl; try done.
  - split; [by apply prepared_insert, expects_own|eauto 10].
  - destruct (is_dir f (path_dir p)); [|done]. split; [by apply prepared_insert, expects_own|eauto 10].
Qed.

Lemma chmod_prepared p perm f : prepared f -> prepared (change "chmod" (set_perm perm) p f).2.
Proof.
  intros Hf. unfold change. destruct (f !! follow f p) as [n|] eqn:Hn; [|by case_match]. cbn [snd].
  apply (prepared_shapes f); [done|]. intros q. rewrite shape_insert. case_decide; [subst|done]. rewrite Hn. by destruct n.
Qed.

Lemma own_prefixes d n : d ∈ own_dirs -> Forall (fun p => p ∈ own_dirs) (take n (path_prefixes (clean d))).
Proof. intros (-> & Hp & _)%own_dir. by apply Forall_take. Qed.

(** ** What the stage writes is its own. *)
Definition stage_scope : scope := Scope (fun p => own p /\ tidy p) (fun d => d ∈ own_dirs).

Lemma own_files_tidy : Forall tidy own_files.
Proof.
  pose proof own_files_aside as Hall. eapply Forall_impl; [exact Hall|]. intros p [(_ & _ & _ & _ & Ht & _) Hq] Hd.
  apply elem_of_cons in Hd as [Hd|Hd]; [done|]. by apply list_elem_of_singleton in Hd.
Qed.
Lemma rendered_own dest : rendered dest -> own dest /\ tidy dest.
Proof.
  intros [Hin|(d & n & Hor & Hn & -> & Hc)]%rendered_path.
  - assert (Hf : dest ∈ own_files).
    { revert Hin. generalize dest. apply Forall_forall. apply (bool_decide_unpack _). vm_compute. exact I. }
    split; [by left|]. pose proof own_files_tidy as Hall. rewrite Forall_forall in Hall. by apply Hall.
  - assert (Habs : abs_path d) by (destruct Hor as [[-> _]|[-> _]]; by vm_compute).
    assert (Hs : no_char slash n = true /\ n <> "").
    { unfold plain_name in Hn. apply andb_true_iff in Hn as [Hne ?]. split; [done|]. by intros ->. }
    assert (Hd : path_dir (d +:+ "/" +:+ n) = d) by (apply path_dir_entry; [done|apply Hs]).
    split; [|intros _; split; [done|]; rewrite Hd, path_base_entry by (by destruct Hs); by apply path_join_name].
    right. split; [done|]. rewrite Hd, <- (sapp_assoc d "/" n).
    destruct Hor as [[-> Hx]|[-> Hx]]; [left|right]; (split; [done|]); [|by apply has_suffix_app].
    apply existsb_exists in Hx as (x & Hx & Hy). apply existsb_exists. exists x. split; [done|by apply has_suffix_app].
Qed.

Lemma after_within : within after_scope stage_scope.
Proof.
  assert (Hm : forall p, own p -> path_dir p ∈ own_dirs) by (by intros p (_ & _ & Hd & _)%own_file).
  split.
  - intros p [Hr|Hp]; [by apply rendered_own|]. assert (Hf : p ∈ own_files).
    { destruct Hp as [-> | ->]; apply (bool_decide_unpack _); vm_compute; exact I. }
    split; [by left|]. pose proof own_files_tidy as Hall. rewrite Forall_forall in Hall. by apply Hall.
  - intros d [Hd|(dest & Hr & ->)]; [|by apply Hm, (rendered_own dest Hr)]. revert d Hd.
    apply (Forall_forall (fun d => d ∈ own_dirs)). apply (bool_decide_unpack _). vm_compute. exact I.
Qed.
Lemma saves_within : within (saves live) stage_scope.
Proof.
  split; intros ? <-.
  - assert (Hf : path live ConfigFile ∈ own_files) by (apply (bool_decide_unpack _); vm_compute; exact I).
    split; [by left|]. pose proof own_files_tidy as Hall. rewrite Forall_forall in Hall. by apply Hall.
  - change (path live ConfigDir ∈ own_dirs). apply (bool_decide_unpack _). vm_compute. exact I.
Qed.

(** Commands leave what setup needs as it is. *)
Class Considerate {E : Env} : Prop := considerate : forall l f c, prepared f -> prepared (exec l f c).2.

Section stage.
Context {E : Env} {M : MapRange} `{!Considerate}.

Lemma plain_prepared {A} (m : ST World A) : plain stage_scope m -> preserves prepared m.
Proof using All.
  apply plain_preserves.
  - intros l f c. apply considerate.
  - intros p n perm f Hp Hf. by destruct (mkdirs_prepared _ perm f Hf (own_prefixes p n Hp)) as (g & -> & Hg & _).
  - intros p perm f. apply chmod_prepared.
  - intros p c perm f [Hp Ht] Hf. by apply write_prepared.
Qed.
End stage.

(** *** Files and directories of the program *)
Definition grown (f g : FS) : Prop := prepared g /\ forall p, is_Some (f !! p) -> is_Some (g !! p).

Lemma mkdirs_grow ps perm f p : is_Some (f !! p) -> is_Some ((mkdirs ps perm f).2 !! p).
Proof.
  revert f. induction ps as [|d ps IH]; intros f Hp; [done|]. cbn [mkdirs].
  destruct (is_dir f (follow f d)); [by apply IH|]. destruct (f !! follow f d); [done|].
  apply IH. rewrite lookup_insert_is_Some. destruct (decide (follow f d = p)); [by left|by right].
Qed.

Section operations.
Context {E : Env} `{!NoFaults}.

Lemma MkdirAll_returns d perm w : prepared (fs w) -> d ∈ own_dirs ->
  returns (MkdirAll d perm) (fun _ w' => grown (fs w) (fs w') /\ is_dir (fs w') d = true) w.
Proof using All.
  intros Hf Hd. pose proof (own_dir d Hd) as (Hc & Hp & Hself & _). apply returns_io. unfold returns, mkdir_all. rewrite Hc.
  pose proof (mkdirs_grow (path_prefixes d) perm (fs w)) as Hgrow.
  destruct (mkdirs_prepared _ perm (fs w) Hf Hp) as (g & Hg & Hpg & _ & Hall). rewrite Hg in *. cbn [fst snd fs] in *.
  rewrite Forall_forall in Hall. split; [split; [exact Hpg|exact Hgrow]|by apply Hall].
Qed.

Lemma WriteFile_returns p c perm w : prepared (fs w) -> own p -> tidy p -> is_dir (fs w) (path_dir p) = true ->
  returns (WriteFile p c perm) (fun _ w' => grown (fs w) (fs w')) w.
Proof using All.
  intros Hf Ho Ht Hdir. apply returns_io. unfold returns.
  destruct (write_prepared (fun _ => c) p perm (fs w) Hf Ho Ht) as [Hp Hw].
  destruct (Hw Hdir) as (c' & pm & u & g & Hw'). rewrite Hw' in *. cbn [fst snd fs] in *.
  split; [done|]. intros q Hq. rewrite lookup_insert_is_Some. by destruct (decide (p = q)); [left|right].
Qed.
(** A file and its directory *)
Lemma put_then {A} fmt fmt' d p c perm perm' (k : ST World A) Q w :
  prepared (fs w) -> own p -> tidy p -> path_dir p = d -> (forall w', grown (fs w) (fs w') -> returns k Q w') ->
  returns (_ ← wrap fmt (MkdirAll d perm); _ ← wrap fmt' (WriteFile p c perm'); k) Q w.
Proof using All.
  intros Hf Ho Ht Hd Hk. assert (Hin : d ∈ own_dirs) by (apply own_file in Ho as (_ & _ & Hin & _); by subst).
  apply returns_bind, returns_wrap. eapply returns_mono; [by apply MkdirAll_returns|]. intros _ w1 [[Hf1 Hg] Hdir].
  apply returns_bind, returns_wrap. eapply returns_mono; [apply WriteFile_returns; [done..|by rewrite Hd]|].
  intros _ w2 [Hf2 Hg2]. apply Hk. split; [done|auto].
Qed.
Lemma put_returns fmt fmt' d p c perm perm' w :
  prepared (fs w) -> own p -> tidy p -> path_dir p = d ->
  returns (_ ← wrap fmt (MkdirAll d perm); wrap fmt' (WriteFile p c perm')) (fun _ _ => True) w.
Proof using All.
  intros Hf Ho Ht Hd. assert (Hin : d ∈ own_dirs) by (apply own_file in Ho as (_ & _ & Hin & _); by subst).
  apply returns_bind, returns_wrap. eapply returns_mono; [by apply MkdirAll_returns|]. intros _ w1 [[Hf1 Hg] Hdir].
  apply returns_wrap. by eapply returns_mono; [apply WriteFile_returns; [done..|by rewrite Hd]|].
Qed.
End operations.

(** *** What is listed *)
Lemma glob_entry dir suffix f e : prepared f -> follow f dir = dir -> dir ∈ [TemplatesDir; quadletDir] ->
  e ∈ glob dir suffix f -> path_dir e = dir /\ has_suffix e suffix = true /\ clean e = e /\ is_Some (f !! e).
Proof.
  intros Hf Hfo Hd. unfold glob. rewrite Hfo, merge_sort_Permutation, list_elem_of_fmap.
  intros (k & -> & [[Hk Hs] Hin]%list_elem_of_filter). apply list_elem_of_fmap in Hin as ([k' n] & -> & Hin%elem_of_map_to_list).
  cbn [fst] in *. destruct (Hf k') as [_ Ht]. destruct Ht as [Hc Hj]; [by rewrite Hin; destruct n|by rewrite Hk|].
  rewrite Hk in Hj. rewrite Hj. eauto.
Qed.

Definition known (p c : string) : Prop :=
  resolveDest (trim_suffix (path_base p) ".tmpl") = None \/ Forall (fun x => x ∈ varNames) (references c).
Lemma template_text f p : prepared f -> is_template p -> clean p = p -> is_Some (f !! p) ->
  exists c, read_file p f = (Ok c, f) /\ known p c.
Proof.
  intros Hf Ht Hc [n Hn]. destruct (Hf p) as [Hs _]. rewrite Hn in Hs.
  destruct n as [|c pm u g|]; [by destruct Hs as (_ & _ & _ & ?)| |by destruct Hs as (_ & _ & _ & _ & ? & _)].
  exists c. destruct Hs as (_ & _ & Hk). split; [|by apply Hk].
  unfold read_file. by rewrite follow_plain, Hn by (rewrite ?Hn; done).
Qed.
Lemma unit_text_read f p : prepared f -> p ∈ glob quadletDir ".container" f -> exists c, (read_file p f).1 = Ok c.
Proof.
  intros Hf Hp. assert (Hq : quadletDir ∈ own_dirs) by (apply (bool_decide_unpack _); vm_compute; exact I).
  destruct (prepared_dir f Hf quadletDir Hq) as [Hfo _].
  apply glob_entry in Hp as (Hd & Hs & Hc & [n Hn]); [|done|done|right; left].
  assert (Ho : own p) by (right; split; [done|]; left; split; [done|]; unfold quadletSuffixes; cbn [existsb]; by rewrite Hs).
  destruct (prepared_own f Hf p Ho) as (Hfp & _ & Hsh). rewrite Hn in Hsh. destruct n as [|c pm u g|]; try done.
  exists c. unfold read_file. by rewrite Hfp, Hn.
Qed.
Lemma prepared_lists f : prepared f -> lists_readable f.
Proof.
  intros Hf. assert (Hall : Forall (fun p => clean p = p) lists) by (apply (bool_decide_unpack _); vm_compute; exact I).
  apply Forall_forall. intros spec Hspec. set (p := path_join ["/"; cfIPListDir; s_file spec]).
  assert (Hp : p ∈ lists) by (by apply in_lists). rewrite Forall_forall in Hall. specialize (Hall p Hp).
  destruct (Hf p) as [Hs _]. destruct (f !! p) as [[|c pm u g|]|] eqn:Hn; cbn in Hs; [tauto| |tauto|tauto].
  destruct Hs as (_ & Hs & _). specialize (Hs Hp). destruct (scan c) as [lines b] eqn:Hc. cbn in Hs. subst b.
  eexists _, c, lines. split; [|done]. unfold read_file. by rewrite follow_plain, Hn by (rewrite ?Hn; done).
Qed.
Lemma prepared_marker f : prepared f -> exists_at f (markerPath live "stage1") = true.
Proof.
  intros Hf. assert (Hc : clean (markerPath live "stage1") = markerPath live "stage1") by (by vm_compute).
  destruct (Hf (markerPath live "stage1")) as [Hs _]. unfold exists_at.
  destruct (f !! markerPath live "stage1") as [[|c pm u g|]|] eqn:Hn; cbn in Hs; [tauto| |tauto|tauto].
  rewrite follow_plain, Hn by (rewrite ?Hn; done). apply orb_true_r.
Qed.
Lemma prepared_writable f : prepared f -> writable live f = true.
Proof.
  intros Hf. assert (Hd : path live ConfigDir ∈ own_dirs) by (apply (bool_decide_unpack _); vm_compute; exact I).
  assert (Ho : own (path live ConfigFile)) by (left; apply (bool_decide_unpack _); vm_compute; exact I).
  pose proof (own_dir _ Hd) as (Hc & Hp & Hself & _). unfold writable, mkdir_all. rewrite Hc.
  destruct (mkdirs_prepared _ 493 f Hf Hp) as (g & -> & Hg & _ & Hall). rewrite Forall_forall in Hall. specialize (Hall _ Hself).
  pose proof (prepared_own g Hg _ Ho) as (Hfo & Hdir & Hsh). unfold creatable. rewrite Hfo, Hdir.
  change (path_dir (path live ConfigFile)) with (path live ConfigDir). destruct (g !! _) as [[]|]; done.
Qed.

(** ** The steps succeed *)
Section steps.
Context {E : Env} `{!NoFaults, !Obedient says_no}.

Lemma render_entries_returns vars entries w :
  prepared (fs w) -> (forall x, x ∈ varNames -> is_Some (vars !! x)) ->
  Forall (fun p => is_template p /\ clean p = p /\ is_Some (fs w !! p)) entries ->
  returns (render_entries vars entries) (fun _ _ => True) w.
Proof using All.
  intros Hf Hv Hall. revert w Hf Hall. induction entries as [|p entries IH]; intros w Hf Hall; cbn [render_entries]; [done|]. cbv zeta.
  apply Forall_cons in Hall as [(Ht & Hc & Hp) Hall]. destruct (template_text _ _ Hf Ht Hc Hp) as (c & Hr & Hk).
  destruct (resolveDest _) as [dest|] eqn:Hd; [|by apply returns_bind, returns_print, IH].
  destruct Hk as [Hk|Hk]; [congruence|]. destruct (strictExpand_known vars c) as [r Hx]; [rewrite Forall_forall in Hk; auto|].
  apply returns_bind, returns_wrap, returns_io. unfold returns at 1. rewrite Hr. cbn [fst snd].
  apply returns_bind, returns_wrap, returns_lift with (a := r); [done|].
  destruct (rendered_own dest) as [Ho Hti]; [by exists p|].
  apply put_then; [done..|]. cbn [fs]. intros w1 [Hf1 Hg]. apply IH; [done|]. eapply Forall_impl; [exact Hall|].
  intros q (? & ? & Hq). split_and!; [done..|by apply Hg].
Qed.

Lemma RenderAll_returns cfg w : prepared (fs w) -> cfg_string cfg "domain" <> "" -> returns (RenderAll cfg) (fun _ _ => True) w.
Proof using All.
  intros Hf Hd. destruct (templateVars_names cfg Hd) as (vars & Hv & Hn). unfold RenderAll.
  apply returns_bind, returns_lift with (a := vars); [done|].
  assert (Hdirs : quadletDir ∈ own_dirs /\ unitDir ∈ own_dirs) by (split; apply (bool_decide_unpack _); vm_compute; exact I).
  apply returns_bind, returns_wrap. eapply returns_mono; [apply MkdirAll_returns; [done|apply Hdirs]|]. intros _ w1 [[Hf1 _] _].
  apply returns_bind, returns_wrap. eapply returns_mono; [apply MkdirAll_returns; [done|apply Hdirs]|]. intros _ w2 [[Hf2 _] _].
  apply returns_bind. unfold returns at 1, Glob. cbn [log add_log fs]. rewrite no_faults. apply returns_bind.
  eapply returns_mono; [apply render_entries_returns; [exact Hf2|exact Hn|]|].
  - apply Forall_forall. intros e. rewrite merge_sort_Permutation. cbn [fs add_log]. intros He.
    assert (Ht : not_link (fs w2 !! TemplatesDir)).
    { destruct (Hf2 TemplatesDir) as [Hs _]. destruct (fs w2 !! TemplatesDir) as [[]|]; try done. by destruct Hs as (_ & _ & _ & _ & _ & ?). }
    apply glob_entry in He as (? & ? & ? & ?); [by split_and!|done|by apply follow_plain|left].
  - intros _ w3 _. do 2 (apply returns_bind; eapply returns_mono; [by apply (run__returns says_no)|]; intros _ ? _).
    by apply (run__returns says_no).
Qed.


(** Commands leave what setup needs as it is. *)
Context {M : MapRange} `{!Considerate}.

Lemma healthcheck_returns cfg w : prepared (fs w) -> stored live (fs w) = Ok (Some cfg) ->
  returns (Healthcheck.Run live) (fun _ _ => True) w.
Proof using All.
  intros Hf Hc. unfold Healthcheck.Run. apply returns_bind.
  eapply returns_mono; [by apply RequireDone_returns, prepared_marker|]. intros _ w1 [Hf1 _].
  apply returns_bind. eapply returns_mono; [apply Load_returns; by rewrite Hf1|]. intros c w2 (-> & Hf2 & _).
  apply returns_bind. apply (returns_mono _ (fun _ w3 => True /\ prepared (fs w3))).
  { apply returns_kept; [apply plain_prepared, plain_ServiceStatus|by rewrite Hf2, Hf1|].
    destruct (ServiceStatus_Ok w2) as (m & w3 & Hs). apply returns_Ok. by exists m, w3. }
  intros statuses w3 [_ Hf3]. apply returns_bind. unfold st_get at 1, returns at 1. cbv zeta.
  apply returns_bind, returns_print. unfold writeMOTD. cbv zeta. apply put_returns; [done|..|done].
  - left. apply (bool_decide_unpack _). vm_compute. exact I.
  - apply (proj1 (Forall_forall _ _) own_files_tidy). apply (bool_decide_unpack _). vm_compute. exact I.
Qed.

Lemma HardenStalwart_returns `{!ClockOk} cfg w : prepared (fs w) -> returns (HardenStalwart cfg) (fun _ _ => True) w.
Proof using All.
  intros Hf. unfold HardenStalwart. apply returns_bind. apply (returns_mono _ (fun _ w1 => True /\ prepared (fs w1))).
  { apply returns_kept; [apply plain_prepared, plain_waitFor|done|by apply (waitFor_returns says_no)]. }
  intros _ w1 [_ Hf1]. cbv zeta. case_decide; [done|]. apply put_then; [done|..|done|].
  - left. apply (bool_decide_unpack _). vm_compute. exact I.
  - apply (proj1 (Forall_forall _ _) own_files_tidy). apply (bool_decide_unpack _). vm_compute. exact I.
  - intros w2 _. by apply apply_returns.
Qed.

Lemma backing_returns `{!ClockOk} cfg w : (forall l p, statfs l p <> None) ->
  prepared (fs w) -> stored live (fs w) = Ok (Some cfg) -> returns (Backing.Run live) (fun _ _ => True) w.
Proof using All.
  intros Hs Hf Hc. unfold Backing.Run. apply returns_bind.
  eapply returns_mono; [by apply RequireDone_returns, prepared_marker|]. intros _ w1 [Hf1 _].
  apply returns_bind. eapply returns_mono; [apply Load_returns; by rewrite Hf1|]. intros c w2 (-> & Hf2 & _).
  apply returns_bind. apply (returns_mono _ (fun _ w3 => True /\ prepared (fs w3))).
  { apply returns_kept; [apply plain_prepared, plain_waitFor|by rewrite Hf2, Hf1|by apply (waitFor_returns says_no)]. }
  intros _ w3 [_ Hf3]. apply returns_bind. apply (returns_mono _ (fun _ w4 => True /\ prepared (fs w4))).
  { apply returns_kept; [|done|by apply (BootstrapGarage_returns says_no)]. apply plain_prepared, plain_BootstrapGarage. }
  intros _ w4 [_ Hf4]. by apply HardenStalwart_returns.
Qed.
End steps.

(** ** The whole stage *)

(** The first connection to the bus finds a firewall that answers. *)
Definition bus_ready `{Env} (h : list event) : Prop := forall l, requests l = requests h -> exists stream ms,
  bus (ENet "dial" ["/run/dbus/system_bus_socket"] :: l) = Some stream /\ welcomes stream ms /\ firewall_answers ms.

(** The commands, the clock, the bus, the API and the file systems do their part. *)
Class Favourable {E : Env} {M : MapRange} : Prop := {
  fav_faults :: NoFaults;
  fav_clock :: ClockOk;
  fav_bus :: BusLawful;
  fav_api :: CloudApi;
  fav_commands :: Obedient says_no;
  fav_files :: Considerate;
  fav_config :: Untouched ConfigFile;
  fav_statfs : forall l p, statfs l p <> None;
}.

Lemma in_turn_returns `{Env} (I : FS -> Prop) l w :
  Forall (fun m => preserves I m /\ forall v, I (fs v) -> returns m (fun _ _ => True) v) l -> I (fs w) ->
  returns (in_turn l) (fun _ w' => I (fs w')) w.
Proof.
  intros Hl. revert w. induction Hl as [|m l [Hp Hm] _ IH]; intros w Hw; cbn [in_turn]; [done|].
  apply returns_bind. eapply returns_mono; [apply (returns_kept I); [done|done|by apply Hm]|]. intros _ w1 [_ H1]. by apply IH.
Qed.

Section run.
Context {E : Env} `{MapRangeOk, !Favourable}.

Definition underway (cfg : config) (f : FS) : Prop := prepared f /\ settled live cfg f.
Lemma plain_underway cfg {A} (m : ST World A) : plain after_scope m -> preserves (underway cfg) m.
Proof using All.
  intros Hm w [Hp Hs]. split.
  - apply (plain_prepared m); [|done]. eapply plain_within; [exact after_within|exact Hm].
  - exact (plain_settled (store := live) after_scope cfg m written_not_config Hm w Hs).
Qed.

(** A step that succeeds wherever the disk is prepared and the configuration is
    stored *)
Definition smooth (cfg : config) (m : ST World unit) : Prop :=
  preserves (underway cfg) m /\ forall v, underway cfg (fs v) -> returns m (fun _ _ => True) v.
Lemma smooth_step cfg m : plain after_scope m ->
  (forall v, prepared (fs v) -> stored live (fs v) = Ok (Some cfg) -> returns m (fun _ _ => True) v) -> smooth cfg m.
Proof using All.
  intros Hp Hm. split; [by apply plain_underway|]. intros v [Hv Hs%settled_stored]. by apply Hm.
Qed.

(** Each step after the firewall is such a step. *)
Lemma later_steps cfg : cfg_string cfg "domain" <> "" -> cfg_string cfg "cloudflare_api_token" <> "" ->
  Forall (smooth cfg) (tail (steps live cfg)).
Proof using All.
  intros Hd Ht. pose proof (steps_plain live cfg) as Hpl. unfold steps in *.
  repeat setoid_rewrite Forall_cons in Hpl. destruct Hpl as (_ & H1 & H2 & H3 & H4 & H5 & H6 & H7 & _).
  repeat apply Forall_cons_2; [..|apply Forall_nil_2]; apply smooth_step; try done; clear H1 H2 H3 H4 H5 H6 H7; intros v Hv Hs.
  - apply returns_bind. eapply returns_mono; [apply returns_try_ends, ends_Check|]. intros [] v' _; done.
  - apply EnsureSecrets_returns.
  - by apply RenderAll_returns.
  - apply Run_returns_deploy; [by apply prepared_marker|]. intros p Hp. by apply unit_text_read.
  - apply (backing_returns cfg); [apply fav_statfs|done|done].
  - by apply (Sync_returns live cfg); [apply prepared_marker|..].
  - by apply (healthcheck_returns cfg).
Qed.

Lemma after_questions_returns cfg w :
  cfg_string cfg "domain" <> "" -> cfg_string cfg "cloudflare_api_token" <> "" -> bus_ready (log w) -> underway cfg (fs w) ->
  returns (after_questions live cfg) (fun _ w' => underway cfg (fs w')) w.
Proof using All.
  intros Hd Ht Hb Hu. unfold returns. rewrite after_questions_steps. fold (returns (in_turn (steps live cfg)) (fun _ w' => underway cfg (fs w')) w).
  unfold steps. cbn [in_turn]. apply returns_bind. destruct (Hb (log w) eq_refl) as (stream & ms & Hs & Hw & Ha).
  eapply returns_mono.
  - apply (returns_kept (underway cfg)); [apply plain_underway, plain_SyncCloudflareIPSets|exact Hu|].
    destruct Hu as [Hp _]. eapply SyncCloudflareIPSets_returns; [exact Hs|exact Hw|exact Ha|by apply prepared_lists].
  - intros _ w1 [_ H1]. exact (in_turn_returns (underway cfg) _ w1 (later_steps cfg Hd Ht) H1).
Qed.

Lemma MarkDone_returns w : prepared (fs w) -> returns (MarkDone live "stage2") (fun _ w' => prepared (fs w')) w.
Proof using All.
  intros Hf. unfold MarkDone. cbv zeta.
  assert (Hd : path live StateDir ∈ own_dirs) by (apply (bool_decide_unpack _); vm_compute; exact I).
  assert (Hin : markerPath live "stage2" ∈ own_files) by (apply (bool_decide_unpack _); vm_compute; exact I).
  assert (Hdir : path_dir (markerPath live "stage2") = path live StateDir) by (vm_compute; reflexivity).
  apply returns_bind, returns_wrap. eapply returns_mono; [by apply MkdirAll_returns|]. intros _ w1 [[Hf1 _] Hm].
  apply returns_wrap, returns_io. unfold returns.
  destruct (write_prepared (fun old => old) (markerPath live "stage2") 420 (fs w1) Hf1) as [Hp Hw];
    [by left|by apply (proj1 (Forall_forall _ _) own_files_tidy)|].
  destruct Hw as (c & pm & u & g & Hw); [by rewrite Hdir|]. rewrite Hw in *. exact Hp.
Qed.

(** The questions *)
Lemma questions_return m w :
  prepared (fs w) -> sole ConfigFile (fs w) -> stored live (fs w) = Ok (Some m) ->
  (if decide (cfg_string m "domain" = "") then exists a rest, typed a (console w) rest
   else cfg_string m "cloudflare_api_token" <> "") ->
  returns (RunPostBoot live) (fun cfg w' => underway cfg (fs w') /\ requests (log w') = requests (log w) /\
    cfg_string cfg "domain" <> "" /\ cfg_string cfg "cloudflare_api_token" <> "" /\
    if decide (cfg_string m "domain" = "") then captured m cfg /\ exists a, typed a (console w) (console w') /\ answers_kept a cfg
    else cfg = m) w.
Proof using All.
  intros Hf Hso Hst Hor. eapply returns_mono.
  - apply returns_and; [apply (returns_kept prepared); [|exact Hf|apply (RunPostBoot_returns live m)]|].
    + apply plain_prepared, plain_RunPostBoot, saves_within.
    + exact Hst.
    + by apply prepared_writable.
    + case_decide; [by right|by left].
    + intros cfg w' Hr. exact Hr.
  - cbn beta. intros cfg w' [[_ Hf'] Hr]. destruct (RunPostBoot_settles (store := live) w cfg w' Hso Hr) as [Hset Hd].
    split; [done|]. split.
    { assert (Hq : quiet (fun e => is_net e = false) (RunPostBoot live)) by (by apply quiet_RunPostBoot).
      specialize (Hq w). rewrite Hr in Hq. destruct Hq as (new & -> & Hn & _). rewrite requests_app.
      clear -Hn. induction Hn as [|e l He _ IH]; [done|]. cbn. by rewrite He. }
    split; [done|]. pose proof (RunPostBoot_ok _ _ _ _ Hr) as (loaded & Hl & Hc). rewrite Hst in Hl. injection Hl as <-.
    cbn [default] in Hc. destruct (decide (cfg_string m "domain" = "")) as [He|He].
    + rewrite decide_False in Hc by tauto. destruct Hc as (Hc & _ & Ha). split; [by destruct Hc as (_ & _ & ? & _)|done].
    + rewrite decide_True in Hc by done. by destruct Hc as [-> _].
Qed.

Lemma Run_returns_stage m w :
  prepared (fs w) -> sole ConfigFile (fs w) -> stored live (fs w) = Ok (Some m) ->
  (if decide (cfg_string m "domain" = "") then exists a rest, typed a (console w) rest
   else cfg_string m "cloudflare_api_token" <> "") ->
  bus_ready (log w) ->
  returns (Setup.Run live) (fun _ w' => prepared (fs w') /\ exists cfg, stored live (fs w') = Ok (Some cfg) /\
    (if decide (cfg_string m "domain" = "") then captured m cfg /\ exists a rest, typed a (console w) rest /\ answers_kept a cfg
     else cfg = m)) w.
Proof using All.
  intros Hf Hso Hst Hor Hb. unfold Setup.Run. apply returns_bind. unfold returns at 1.
  rewrite RequireDone_cases, no_faults, prepared_marker by done. set (w1 := add_log _ w).
  apply returns_bind. unfold run_steps. apply returns_bind. eapply returns_mono; [by apply (questions_return m w1)|].
  intros cfg w2 (Hu & Hr & Hd & Ht & Hc). eapply returns_mono; [apply after_questions_returns; [done|done| |done]|].
  { intros l Hl. apply Hb. by rewrite Hl, Hr. }
  intros _ w3 [Hp Hset]. eapply returns_mono; [apply (returns_kept (settled live cfg)); [apply settled_MarkDone|done|by apply MarkDone_returns]|].
  intros _ w4 [Hp4 Hs4]. split; [done|]. exists cfg. split; [by apply settled_stored|].
  case_decide; [|done]. destruct Hc as (Hc & a & Ha & Hk). eauto.
Qed.
End run.

(** ** A disk that is prepared *)
#[local] Instance shape_eq : EqDecision shape.
Proof. solve_decision. Defined.
#[local] Instance own_dec p : Decision (own p).
Proof. unfold own. apply _. Defined.
#[local] Instance template_dec p : Decision (is_template p).
Proof. unfold is_template. apply _. Defined.
#[local] Instance fits_dec p s : Decision (fits p s).
Proof. destruct s; cbn [fits]; apply _. Defined.
#[local] Instance expects_dec p s : Decision (expects p s).
Proof. unfold expects, tidy. apply _. Defined.

Lemma prepared_check f :
  is_Some (f !! markerPath live "stage1") -> Forall (fun p => is_Some (f !! p)) lists ->
  map_Forall (fun p n => expects p (shape_of (Some n))) f -> prepared f.
Proof.
  intros Hm Hl Hf p. destruct (f !! p) as [n|] eqn:Hp; [by apply Hf|]. rewrite Forall_forall in Hl.
  split; [|done]. split; [intros ->|intros Hin%Hl]; rewrite Hp in *; by apply is_Some_None in Hm || apply is_Some_None in Hin.
Qed.

(** * Properties *)

(** C10: a setup by the book succeeds.  On a disk where the first stage is done,
    where nothing stands in the way of the files that setup writes, the address
    lists can be read and the templates only refer to names that are defined; with
    a configuration that can be read and either has a domain and a token already or
    lets the administrator type answers to the questions; when the firewall daemon
    answers, the API does what it is asked, and commands start and end with status
    0 (the inspection of a secret and the state of a service may say no; the check
    for updates may fail), the second stage goes through to its end: its marker is
    there, the configuration that is stored has the answers, or is the one from
    before, and the disk is still such a disk, so that setup can be run again. *)
Theorem Run_succeeds `{Env, MapRangeOk, !Favourable} m w :
  prepared (fs w) -> sole ConfigFile (fs w) -> stored live (fs w) = Ok (Some m) ->
  (if decide (cfg_string m "domain" = "") then exists a rest, typed a (console w) rest
   else cfg_string m "cloudflare_api_token" <> "") ->
  bus_ready (log w) ->
  exists w' cfg, Setup.Run live w = (Ok tt, w') /\ exists_at (fs w') (markerPath live "stage2") = true /\
    stored live (fs w') = Ok (Some cfg) /\ prepared (fs w') /\
    (if decide (cfg_string m "domain" = "") then captured m cfg /\ exists a rest, typed a (console w) rest /\ answers_kept a cfg
     else cfg = m).
Proof.
  intros Hf Hso Hst Hor Hb. pose proof (Run_returns_stage m w Hf Hso Hst Hor Hb) as Hr.
  apply returns_Ok in Hr as ([] & w' & Hr & Hp & cfg & Hs & Hc). exists w', cfg. split_and!; try done.
  pose proof (Run_marks live w) as Hm. rewrite Hr in Hm. destruct Hm as (new & _ & _ & _ & Hm). by apply Hm.
Qed.

(** * Witnesses *)

(** The daemon's replies to Hello and to the calls of a refresh that finds both
    sets, in turn *)
Definition reply_to (n : Z) : message :=
  {| m_type := msgTypeMethodReturn; m_flags := "001"%char; m_version := "001"%char; m_serial := n;
     m_fields := [(fieldReplySerial, TUint32, VUint32 n); (fieldSignature, TStr SSignature, VString "s")];
     m_sig := [TStr SString]; m_body := [VString ":1.7"] |}.
Definition firewall_stream : list byte :=
  bytes_of_string ("OK 1234" +:+ CRLF) ++ concat ((fun n => bytes_of_message (reply_to n)) <$> [1; 2; 3; 4; 5; 6]).

Lemma reply_sends n : 0 <= n < 2 ^ 32 -> Z.of_nat (length (bytes_of_message (reply_to n))) < 2 ^ 32 ->
  sends (reply_to n) (bytes_of_message (reply_to n)).
Proof.
  intros Hn Hl. split_and!; [|done|done]. apply message_wire_bytes; [|repeat constructor|simpl; lia].
  eexists. split; [reflexivity|]. repeat constructor.
  - exists TUint32. split_and!; try done; simpl; lia.
  - exists (TStr SSignature). split_and!; try done; simpl; lia.
Qed.

Lemma replies_served ns n rest : 0 <= n -> n + Z.of_nat (length ns) <= 1000 ->
  ns = seqZ n (Z.of_nat (length ns)) -> Forall (fun k => sends (reply_to k) (bytes_of_message (reply_to k))) ns ->
  served n (reply_to <$> ns) (concat ((fun k => bytes_of_message (reply_to k)) <$> ns) ++ rest).
Proof.
  revert n. induction ns as [|k ns IH]; intros n H0 Hle Hns Hs; [constructor|]. apply Forall_cons in Hs as [Hk Hs].
  cbn [length] in *. rewrite seqZ_cons in Hns by lia. injection Hns as -> Hns. cbn [fmap list_fmap concat]. rewrite <- (assoc_L (++)).
  apply (served_cons n [] []); [constructor|exact Hk| |].
  - unfold replies, parsed, header_of. cbn. done.
  - apply IH; [lia|lia| |done]. rewrite Hns at 1. f_equal; lia.
Qed.

Definition replies_of : list message := reply_to <$> [1; 2; 3; 4; 5; 6].
Lemma stream_sends : Forall (fun k => sends (reply_to k) (bytes_of_message (reply_to k))) [1; 2; 3; 4; 5; 6].
Proof. repeat (apply Forall_cons_2; [apply reply_sends; [lia|vm_compute; reflexivity]|]). apply Forall_nil_2. Qed.
Lemma stream_welcomes : welcomes firewall_stream (tail replies_of) /\ firewall_answers (tail replies_of).
Proof.
  assert (Hne : forall k, m_type (reply_to k) <> msgTypeError) by done.
  split.
  - exists ("OK 1234" +:+ String "013" ""), (reply_to 1), ":1.7", (concat ((fun k => bytes_of_message (reply_to k)) <$> [1; 2; 3; 4; 5; 6]) ++ []).
    split_and!; [by rewrite (right_id_L [] (++))|done|done| |done|done|cbn; lia].
    apply (replies_served [1; 2; 3; 4; 5; 6]); [lia|cbn; lia|reflexivity|apply stream_sends].
  - exists [reply_to 2], (reply_to 3), [reply_to 4], (reply_to 5), (reply_to 6).
    split_and!; [done|by apply (set_known _ ":1.7")|by apply (set_known _ ":1.7")|]. by repeat constructor.
Qed.

(** Services that do what they are asked: no secret is known to podman yet. *)
#[local] Instance book : Env := {|
  io_err := fun _ => None; io_part := fun _ => None;
  exec := fun _ f c => (Exited (if says_no (c_argv c) then 1 else 0) "" "", f);
  http := fun l => match l with
    | ENet _ (url :: _) :: _ => HttpResponse 200 (if String.eqb url traceURL then "fl=1" +:+ nl +:+ "ip=192.0.2.1" +:+ nl
        else api_text (JArr [JObj {["id" := JStr "z1"]}]))
    | _ => HttpError
    end;
  net_ok := fun _ => true; bus := fun _ => Some firewall_stream; my_uid := 0; rand_bytes := fun _ _ => [];
  temp_name := fun _ p => p; range_files := fun _ m => map_to_list m; now := slept; statfs := fun _ _ => Some (1000000, 4096);
|}.

Lemma book_replied method path token body l : exists v,
  replied (http_event method (apiBase +:+ path) token body) l v /\ zone_ids v = Ok ["z1"] /\ exists recs, zone_records v = Ok recs.
Proof.
  assert (Hu : String.eqb (apiBase +:+ path) traceURL = false) by reflexivity.
  exists (JObj {["success" := JBool true; "errors" := JArr []; "result" := JArr [JObj {["id" := JStr "z1"]}]]}).
  split_and!; [|vm_compute; reflexivity|eexists; vm_compute; reflexivity].
  eexists 200, _, []. split_and!; [unfold http, book, http_event; rewrite Hu; reflexivity|lia|vm_compute; reflexivity|vm_compute; reflexivity].
Qed.

Lemma book_favourable : Favourable.
Proof.
  split.
  - by intros l.
  - split; [intros [] l|intros d l]; cbn; lia.
  - intros l stream [= <-]. change (readLine firewall_stream).2 with (concat ((fun k => bytes_of_message (reply_to k)) <$> [1; 2; 3; 4; 5; 6])).
    apply (lawful_messages (reply_to <$> [1; 2; 3; 4; 5; 6])). pose proof stream_sends as Hs. revert Hs. generalize [1; 2; 3; 4; 5; 6].
    induction 1; by constructor.
  - split.
    + intros l. eexists _, _, _, _, "192.0.2.1". split_and!; [reflexivity|vm_compute; reflexivity|reflexivity].
    + intros domain token l. destruct (book_replied "GET" ("/zones?name=" +:+ query_escape domain) token None l) as (v & Hr & Hz & _). eauto.
    + intros zone token l. destruct (book_replied "GET" ("/zones/" +:+ zone +:+ "/dns_records?per_page=200") token None l) as (v & Hr & _ & recs & Hz). eauto.
    + intros method path token rec l. destruct (book_replied method path token (Some (marshal_record rec)) l) as (v & Hr & _). eauto.
  - intros l f c. cbn. destruct (says_no (c_argv c)); auto.
  - by intros l f c Hf.
  - by split.
  - done.
Qed.

(** An installed system, with its address lists and a template *)
Definition equipped : World := MkWorld (<["/usr/share/slfhst/cloudflare-ips/v4.txt" := NFile ("192.0.2.0/24" +:+ nl) 420 0 0]>
  (<["/usr/share/slfhst/cloudflare-ips/v6.txt" := NFile ("2001:db8::/32" +:+ nl) 420 0 0]>
  (<[TemplatesDir +:+ "/web.container.tmpl" := NFile ("Image=web" +:+ nl +:+ "Environment=HOST=${DOMAIN}" +:+ nl) 420 0 0]>
    (fs installed_system)))) (console at_prompt) [].

Lemma Run_succeeds_witness : exists w' cfg,
  Setup.Run live equipped = (Ok tt, w') /\ exists_at (fs w') (markerPath live "stage2") = true /\
  stored live (fs w') = Ok (Some cfg) /\ captured ∅ cfg.
Proof.
  assert (Hf : prepared (fs equipped)).
  { apply prepared_check; [eexists; vm_compute; reflexivity|apply (bool_decide_unpack _); vm_compute; exact I..]. }
  assert (Hs : sole ConfigFile (fs equipped)) by (apply linkless_sole; vm_compute; reflexivity).
  assert (Hst : stored live (fs equipped) = Ok (Some ∅)) by (vm_compute; reflexivity).
  assert (Hb : bus_ready (log equipped)).
  { intros l _. exists firewall_stream, (tail replies_of). destruct stream_welcomes as [Hw Ha]. split; [reflexivity|]. split; [exact Hw|exact Ha]. }
  assert (Ha : exists a rest, typed a (console equipped) rest).
  { exact at_prompt_typed. }
  destruct (@Run_succeeds _ _ _ book_favourable ∅ equipped Hf Hs Hst Ha Hb) as (w' & cfg & Hr & Hm & Hc & _ & Hk & _).
  exists w', cfg. split; [exact Hr|]. split; [exact Hm|]. split; [exact Hc|exact Hk].
Defined.
